(** * A shallow embedding of the sysprog exercises: UFS, TPOOL and SHELL

    [src/3/userfs.c]      the in-memory file system (module [Ufs]),
    [src/4/thread_pool.c] the worker pool (module [Tpool]) and the
                          pipeline executor (module [Shell]).

    Each module first gives the data model and the operations as the C code
    has them, with explicit state passing; the facts about them follow in
    the modules [UfsFacts], [TpoolFacts] and [ShellFacts]. *)

From Stdlib Require Import ZArith Lia.
From Stdlib.Strings Require Import Byte.
From stdpp Require Import base tactics option list strings gmap.

Local Open Scope Z_scope.

(* ===================================================================== *)
(** * UFS: the data model and the operations of [userfs.c]               *)
(* ===================================================================== *)

Module Ufs.

Definition CAPACITY_MULTIPLIER : Z := 2.
Definition DESCRIPTOR_POOL_START_SIZE : Z := 10.
Definition BLOCK_SIZE : Z := 4096.
Definition MAX_FILE_SIZE : Z := 1024 * 1024 * 100.

(** [enum ufs_error_code] of userfs.h. *)
Inductive ufs_error_code_t : Type :=
  | UFS_ERR_NO_ERR
  | UFS_ERR_NO_FILE
  | UFS_ERR_NO_MEM
  | UFS_ERR_NO_PERMISSION.

Global Instance ufs_error_code_eq_dec : EqDecision ufs_error_code_t.
Proof. solve_decision. Defined.

(** Modelled from the spec: [enum open_flags] lives in userfs.h, which is not
    among the sources.  The spec calls the flags a bitset with CREATE,
    READ_ONLY, WRITE_ONLY and READ_WRITE; they are taken as the four lowest
    bits, in that order. *)
Definition UFS_CREATE : Z := 1.
Definition UFS_READ_ONLY : Z := 2.
Definition UFS_WRITE_ONLY : Z := 4.
Definition UFS_READ_WRITE : Z := 8.

Global Arguments BLOCK_SIZE : simpl never.
Global Arguments MAX_FILE_SIZE : simpl never.
Global Arguments DESCRIPTOR_POOL_START_SIZE : simpl never.

(** [size_t] arithmetic wraps around at 64 bits. *)
Definition size_t_wrap (z : Z) : Z := z mod 2 ^ 64.

(** [struct block]: [next]/[prev] are the position in the chain. *)
Record block : Type := mk_block {
  memory : list byte;
  occupied : Z
}.

(** [struct file].  [addr] is the address of the object, which is what a
    descriptor holds; [block_list] is the chain from its head, [last_block]
    its last element; [next]/[prev] are the position in [file_list]. *)
Record file : Type := mk_file {
  addr : nat;
  block_list : list block;
  refs : Z;
  name : string;
  is_removed : bool
}.

(** [struct filedesc]; [fd_file] is the pointer [file]. *)
Record filedesc : Type := mk_filedesc {
  fd_file : nat;
  curr_data_segment : Z;
  flags : Z;
  byte_pos : Z
}.

(** The allocator as the code sees it: the [heap_tick]-th request succeeds
    iff [heap_ok] says so. *)
Record heap : Type := mk_heap {
  heap_ok : nat -> bool;
  heap_tick : nat
}.

(** The static variables of userfs.c.  [file_descriptors] is [None] while the
    pointer is NULL; [file_descriptor_capacity] is the allocated length of the
    array. *)
Record ufs : Type := mk_ufs {
  ufs_error_code : ufs_error_code_t;
  file_list : list file;
  file_descriptors : option (list (option filedesc));
  file_descriptor_count : Z;
  next_addr : nat;
  ufs_heap : heap
}.

Definition initial (ok : nat -> bool) : ufs :=
  mk_ufs UFS_ERR_NO_ERR [] None 0 0 (mk_heap ok 0).

Definition descriptor_table (st : ufs) : list (option filedesc) :=
  default [] (file_descriptors st).

Definition file_descriptor_capacity (st : ufs) : Z :=
  Z.of_nat (length (descriptor_table st)).

Definition set_error (e : ufs_error_code_t) (st : ufs) : ufs :=
  mk_ufs e (file_list st) (file_descriptors st) (file_descriptor_count st)
         (next_addr st) (ufs_heap st).

Definition set_file_list (l : list file) (st : ufs) : ufs :=
  mk_ufs (ufs_error_code st) l (file_descriptors st) (file_descriptor_count st)
         (next_addr st) (ufs_heap st).

Definition set_descriptors (t : option (list (option filedesc))) (st : ufs) : ufs :=
  mk_ufs (ufs_error_code st) (file_list st) t (file_descriptor_count st)
         (next_addr st) (ufs_heap st).

Definition set_count (n : Z) (st : ufs) : ufs :=
  mk_ufs (ufs_error_code st) (file_list st) (file_descriptors st) n
         (next_addr st) (ufs_heap st).

Definition set_next_addr (n : nat) (st : ufs) : ufs :=
  mk_ufs (ufs_error_code st) (file_list st) (file_descriptors st)
         (file_descriptor_count st) n (ufs_heap st).

Definition set_heap (h : heap) (st : ufs) : ufs :=
  mk_ufs (ufs_error_code st) (file_list st) (file_descriptors st)
         (file_descriptor_count st) (next_addr st) h.

(** [malloc], [calloc], [realloc], [strdup]: one request to the allocator. *)
Definition heap_alloc (h : heap) : bool * heap :=
  (heap_ok h (heap_tick h), mk_heap (heap_ok h) (S (heap_tick h))).

Definition alloc (st : ufs) : bool * ufs :=
  let '(ok, h) := heap_alloc (ufs_heap st) in (ok, set_heap h st).

(** The object a [struct file *] points to: the entry of [file_list] with that
    address. *)
Definition deref (l : list file) (a : nat) : option file :=
  List.find (fun f => Nat.eqb (addr f) a) l.

(** Assignment through a [struct file *]. *)
Fixpoint store (a : nat) (g : file -> file) (l : list file) : list file :=
  match l with
  | [] => []
  | f :: l' => if Nat.eqb (addr f) a then g f :: l' else f :: store a g l'
  end.

(** Unlinking the object at [a] from [file_list] (and freeing it). *)
Fixpoint unlink (a : nat) (l : list file) : list file :=
  match l with
  | [] => []
  | f :: l' => if Nat.eqb (addr f) a then l' else f :: unlink a l'
  end.

Definition set_blocks (bl : list block) (f : file) : file :=
  mk_file (addr f) bl (refs f) (name f) (is_removed f).

Definition set_refs (n : Z) (f : file) : file :=
  mk_file (addr f) (block_list f) n (name f) (is_removed f).

Definition set_removed (b : bool) (f : file) : file :=
  mk_file (addr f) (block_list f) (refs f) (name f) b.

Definition fd_setup (st : ufs) : ufs_error_code_t * ufs :=
  let '(ok, st) := alloc st in
  if ok then
    (UFS_ERR_NO_ERR,
     set_count 0
       (set_descriptors
          (Some (replicate (Z.to_nat DESCRIPTOR_POOL_START_SIZE) None)) st))
  else (UFS_ERR_NO_MEM, st).

Definition adjust_container_capacity (st : ufs) : ufs_error_code_t * ufs :=
  let capacity := file_descriptor_capacity st in
  let growth_threshold := capacity in
  let shrink_threshold := Z.quot capacity CAPACITY_MULTIPLIER in
  let target_capacity :=
    if file_descriptor_count st >=? growth_threshold then
      capacity * CAPACITY_MULTIPLIER
    else if (file_descriptor_count st <? shrink_threshold)
            && (capacity >? DESCRIPTOR_POOL_START_SIZE) then
      Z.quot capacity CAPACITY_MULTIPLIER
    else capacity in
  if target_capacity =? capacity then (UFS_ERR_NO_ERR, st)
  else
    let '(ok, st) := alloc st in
    if negb ok then (UFS_ERR_NO_MEM, st)
    else
      let t := descriptor_table st in
      let t' :=
        if target_capacity >? capacity then
          t ++ replicate (Z.to_nat (target_capacity - capacity)) None
        else take (Z.to_nat target_capacity) t in
      (UFS_ERR_NO_ERR, set_descriptors (Some t') st).

Definition empty_block : block :=
  mk_block (replicate (Z.to_nat BLOCK_SIZE) Byte.x00) 0.

Global Arguments empty_block : simpl never.

(** [expand_storage_unit]: two requests, the block and its memory; the new
    block is linked after [last_block]. *)
Definition expand_storage_unit (h : heap) (bl : list block)
  : ufs_error_code_t * heap * list block :=
  let '(ok1, h) := heap_alloc h in
  if negb ok1 then (UFS_ERR_NO_MEM, h, bl)
  else
    let '(ok2, h) := heap_alloc h in
    if negb ok2 then (UFS_ERR_NO_MEM, h, bl)
    else (UFS_ERR_NO_ERR, h, bl ++ [empty_block]).

(** [mkfile]: the file object, its name, its first block; the new file
    becomes the head of [file_list]. *)
Definition mkfile (st : ufs) (fname : string) : option nat * ufs :=
  let '(ok1, st) := alloc st in
  if negb ok1 then (None, st)
  else
    let '(ok2, st) := alloc st in
    if negb ok2 then (None, st)
    else
      let '(e, h, bl) := expand_storage_unit (ufs_heap st) [] in
      let st := set_heap h st in
      match e with
      | UFS_ERR_NO_ERR =>
          let a := next_addr st in
          let new_entry := mk_file a bl 0 fname false in
          (Some a, set_next_addr (S a) (set_file_list (new_entry :: file_list st) st))
      | _ => (None, st)
      end.

Definition rm (st : ufs) (a : nat) : ufs :=
  set_file_list (unlink a (file_list st)) st.

(** [find]: [strncmp] over the length of [filename] and the terminator of
    the stored name, that is equality of the two names. *)
Definition find (st : ufs) (filename : string) : option file :=
  List.find (fun f => negb (is_removed f) && String.eqb (name f) filename)
            (file_list st).

Definition create_descriptor (st : ufs) (f : option nat) (fl : Z)
  : option filedesc * ufs :=
  match f with
  | None => (None, set_error UFS_ERR_NO_FILE st)
  | Some a =>
      let '(ok, st) := alloc st in
      if negb ok then (None, set_error UFS_ERR_NO_MEM st)
      else (Some (mk_filedesc a 0 fl 0), set_error UFS_ERR_NO_ERR st)
  end.

Definition locate_descriptor (st : ufs) (descriptor_index : Z) : option filedesc :=
  if (0 <=? descriptor_index) && (descriptor_index <? file_descriptor_count st)
  then mjoin (descriptor_table st !! Z.to_nat descriptor_index)
  else None.

(** The scan [for (fd = 0; fd < capacity; ++fd) if (!file_descriptors[fd])]. *)
Fixpoint first_free (t : list (option filedesc)) (i : Z) : option Z :=
  match t with
  | [] => None
  | None :: _ => Some i
  | Some _ :: t' => first_free t' (i + 1)
  end.

Definition smallest_fd (st : ufs) : Z * ufs :=
  match file_descriptors st with
  | None => (-1, st)
  | Some t =>
      match first_free t 0 with
      | Some fd => (fd, st)
      | None =>
          if file_descriptor_capacity st =? file_descriptor_count st then
            let '(e, st) := adjust_container_capacity st in
            let st := set_error e st in
            match e with
            | UFS_ERR_NO_ERR => (file_descriptor_count st, st)
            | _ => (-1, st)
            end
          else (file_descriptor_count st, st)
      end
  end.

Definition is_readable (descriptor : option filedesc) : bool :=
  match descriptor with
  | None => false
  | Some d =>
      let access_mode := flags d in
      if access_mode =? 0 then true
      else if access_mode =? UFS_CREATE then true
      else if access_mode =? UFS_READ_ONLY then true
      else if access_mode =? UFS_READ_WRITE then true
      else false
  end.

Definition is_writable (desc : option filedesc) : bool :=
  match desc with
  | None => false
  | Some d =>
      let mode := flags d in
      if mode =? 0 then true
      else if mode =? UFS_CREATE then true
      else if mode =? UFS_WRITE_ONLY then true
      else if mode =? UFS_READ_WRITE then true
      else false
  end.

(** [ufs_open] in the three parts of its body; [None] is [return -1].
    Lines 362-381: the table is set up on first use, the file is looked up
    and, with [UFS_CREATE], made. *)
Definition open_target (st : ufs) (filename : string) (fl : Z) : ufs * option nat :=
  let '(e0, st) :=
    match file_descriptors st with
    | None => let '(e, st) := fd_setup st in (e, set_error e st)
    | Some _ => (UFS_ERR_NO_ERR, st)
    end in
  match e0 with
  | UFS_ERR_NO_ERR =>
      let target_file := find st filename in
      if bool_decide (target_file = None) && (Z.land fl UFS_CREATE =? 0) then
        (set_error UFS_ERR_NO_FILE st, None)
      else
        let '(target, st) :=
          match target_file with
          | Some f => (Some (addr f), st)
          | None => mkfile st filename
          end in
        match target with
        | None => (set_error UFS_ERR_NO_MEM st, None)
        | Some a => (st, Some a)
        end
  | _ => (st, None)
  end.

(** Lines 383-396: [smallest_fd], the scan once more, and the growth of the
    table when both found nothing. *)
Definition open_slot (st : ufs) : ufs * option Z :=
  let '(free_fd, st) := smallest_fd st in
  let free_fd := default free_fd (first_free (descriptor_table st) 0) in
  if free_fd =? -1 then
    let '(e, st) := adjust_container_capacity st in
    match e with
    | UFS_ERR_NO_ERR => (st, Some (file_descriptor_count st))
    | _ => (st, None)
    end
  else (st, Some free_fd).

(** Lines 398-412: the descriptor is made and stored at [free_fd].  A
    [free_fd] past the array, where the C code would store out of bounds,
    arises only from a table that is not [table_wf]; nothing is stored
    then. *)
Definition open_install (st : ufs) (a : nat) (fl : Z) (free_fd : Z) : ufs * Z :=
  let '(descriptor, st) := create_descriptor st (Some a) fl in
  match descriptor with
  | None => (set_error UFS_ERR_NO_MEM st, -1)
  | Some d =>
      let st :=
        set_descriptors
          (Some (<[Z.to_nat free_fd := Some d]> (descriptor_table st))) st in
      let st :=
        set_file_list
          (store a (fun f => set_refs (refs f + 1) f) (file_list st)) st in
      let st :=
        if free_fd =? file_descriptor_count st
        then set_count (file_descriptor_count st + 1) st else st in
      (set_error UFS_ERR_NO_ERR st, free_fd)
  end.

Definition ufs_open (st : ufs) (filename : string) (fl : Z) : ufs * Z :=
  let '(st, target) := open_target st filename fl in
  match target with
  | None => (st, -1)
  | Some a =>
      let '(st, slot) := open_slot st in
      match slot with
      | None => (st, -1)
      | Some free_fd => open_install st a fl free_fd
      end
  end.

(** One pass through [if (descriptor->byte_pos == BLOCK_SIZE) { ... }] of
    [ufs_write]: move to the next block, linking a new one when there is
    none.  [inl] is the early [return total_written] after a failed
    allocation. *)
Definition write_advance (h : heap) (bl : list block) (current_block : nat)
    (seg pos : Z)
  : (ufs_error_code_t * heap) + (heap * list block * nat * Z * Z) :=
  if pos =? BLOCK_SIZE then
    match bl !! S current_block with
    | Some _ => inr (h, bl, S current_block, seg + 1, 0)
    | None =>
        let '(e, h, bl) := expand_storage_unit h bl in
        match e with
        | UFS_ERR_NO_ERR => inr (h, bl, Nat.pred (length bl), seg + 1, 0)
        | _ => inl (e, h)
        end
    end
  else inr (h, bl, current_block, seg, pos).

(** The [n] bytes of the caller's buffer from [off] on. *)
Definition buffer_bytes (buf : Z -> byte) (off n : Z) : list byte :=
  (fun i => buf (off + i)) <$> seqZ 0 n.

(** [memcpy(current_block->memory + pos, buf + total_written, n)]. *)
Definition copy_in (mem : list byte) (pos : Z) (buf : Z -> byte) (off n : Z)
  : list byte :=
  take (Z.to_nat pos) mem ++ buffer_bytes buf off n ++ drop (Z.to_nat (pos + n)) mem.

(** The result of the loops: the error code to set, the allocator, the chain,
    the descriptor's segment and position, and the byte count returned. *)
Record wresult : Type := mk_wresult {
  w_error : ufs_error_code_t;
  w_heap : heap;
  w_blocks : list block;
  w_segment : Z;
  w_pos : Z;
  w_total : Z
}.

(** [while ((size_t) total_written < size) { ... }] of [ufs_write].  [None]
    stands for undefined behaviour (a position outside the block, a missing
    current block) and for an exhausted [fuel]. *)
Fixpoint write_loop (fuel : nat) (buf : Z -> byte) (size : Z) (h : heap)
    (bl : list block) (current_block : nat) (seg pos total_written : Z)
  : option wresult :=
  if negb (total_written <? size) then
    Some (mk_wresult UFS_ERR_NO_ERR h bl seg pos total_written)
  else
    match fuel with
    | O => None
    | S fuel =>
        match write_advance h bl current_block seg pos with
        | inl (e, h) => Some (mk_wresult e h bl seg pos total_written)
        | inr (h, bl, current_block, seg, pos) =>
            if (pos <? 0) || (BLOCK_SIZE <? pos) then None
            else
              let remaining_space :=
                if size - total_written <? BLOCK_SIZE - pos
                then size - total_written else BLOCK_SIZE - pos in
              match bl !! current_block with
              | None => None
              | Some b =>
                  let pos' := pos + remaining_space in
                  let b' :=
                    mk_block (copy_in (memory b) pos buf total_written remaining_space)
                             (if pos' >? occupied b then pos' else occupied b) in
                  write_loop fuel buf size h (<[current_block := b']> bl)
                             current_block seg pos' (total_written + remaining_space)
              end
        end
    end.

Definition set_cursor (seg pos : Z) (d : filedesc) : filedesc :=
  mk_filedesc (fd_file d) seg (flags d) pos.

Definition ufs_write (st : ufs) (fd : Z) (buf : Z -> byte) (size : Z)
  : option (ufs * Z) :=
  match locate_descriptor st fd with
  | None => Some (set_error UFS_ERR_NO_FILE st, -1)
  | Some d =>
      if negb (is_writable (Some d)) then
        Some (set_error UFS_ERR_NO_PERMISSION st, -1)
      else
        f ← deref (file_list st) (fd_file d);
        current_block ← block_list f !! Z.to_nat (curr_data_segment d);
        let total_size := occupied current_block + curr_data_segment d * BLOCK_SIZE in
        if size_t_wrap (total_size + size) >? MAX_FILE_SIZE then
          Some (set_error UFS_ERR_NO_MEM st, -1)
        else
          r ← write_loop (Z.to_nat size) buf size (ufs_heap st) (block_list f)
                (Z.to_nat (curr_data_segment d)) (curr_data_segment d) (byte_pos d) 0;
          let st := set_heap (w_heap r) st in
          let st := set_file_list (store (addr f) (set_blocks (w_blocks r)) (file_list st)) st in
          let st :=
            set_descriptors
              (Some (<[Z.to_nat fd := Some (set_cursor (w_segment r) (w_pos r) d)]>
                       (descriptor_table st))) st in
          Some (set_error (w_error r) st, w_total r)
  end.

(** The result of the read loop: segment, position, count, bytes copied to
    the caller's buffer in order. *)
Record rresult : Type := mk_rresult {
  r_segment : Z;
  r_pos : Z;
  r_total : Z;
  r_data : list byte
}.

(** [while ((size_t) read_block < size) { ... }] of [ufs_read]. *)
Fixpoint read_loop (fuel : nat) (size : Z) (bl : list block) (block_iter : nat)
    (seg pos read_block : Z) (out : list byte) : option rresult :=
  if negb (read_block <? size) then Some (mk_rresult seg pos read_block out)
  else
    match fuel with
    | O => None
    | S fuel =>
        let next :=
          if pos =? BLOCK_SIZE then
            match bl !! S block_iter with
            | None => inl tt
            | Some _ => inr (S block_iter, seg + 1, 0)
            end
          else inr (block_iter, seg, pos) in
        match next with
        | inl _ => Some (mk_rresult seg pos read_block out)
        | inr (block_iter, seg, pos) =>
            match bl !! block_iter with
            | None => None
            | Some b =>
                let bytes0 := size_t_wrap (occupied b - pos) in
                let bytes := if size - read_block <? bytes0 then size - read_block else bytes0 in
                if bytes =? 0 then Some (mk_rresult seg pos read_block out)
                else if (pos <? 0) || (Z.of_nat (length (memory b)) <? pos + bytes) then None
                else
                  read_loop fuel size bl block_iter seg (pos + bytes) (read_block + bytes)
                    (out ++ take (Z.to_nat bytes) (drop (Z.to_nat pos) (memory b)))
            end
        end
    end.

Definition ufs_read (st : ufs) (fd : Z) (size : Z) : option (ufs * Z * list byte) :=
  match locate_descriptor st fd with
  | None => Some (set_error UFS_ERR_NO_FILE st, -1, [])
  | Some d =>
      if negb (is_readable (Some d)) then
        Some (set_error UFS_ERR_NO_PERMISSION st, -1, [])
      else
        f ← deref (file_list st) (fd_file d);
        _ ← block_list f !! Z.to_nat (curr_data_segment d);
        r ← read_loop (Z.to_nat size) size (block_list f)
              (Z.to_nat (curr_data_segment d)) (curr_data_segment d) (byte_pos d) 0 [];
        let st :=
          set_descriptors
            (Some (<[Z.to_nat fd := Some (set_cursor (r_segment r) (r_pos r) d)]>
                     (descriptor_table st))) st in
        Some (set_error UFS_ERR_NO_ERR st, r_total r, r_data r)
  end.

(** [while (count > 0 && file_descriptors[count - 1] == NULL) --count]. *)
Fixpoint trim_count (t : list (option filedesc)) (count : nat) : nat :=
  match count with
  | O => O
  | S c => match mjoin (t !! c) with
           | None => trim_count t c
           | Some _ => count
           end
  end.

Definition ufs_close (st : ufs) (fd : Z) : option (ufs * Z) :=
  if (fd <? 0) || (fd >=? file_descriptor_count st) then
    Some (set_error UFS_ERR_NO_FILE st, -1)
  else
    match mjoin (descriptor_table st !! Z.to_nat fd) with
    | None => Some (set_error UFS_ERR_NO_FILE st, -1)
    | Some desc =>
        f ← deref (file_list st) (fd_file desc);
        let st :=
          set_file_list (store (addr f) (set_refs (refs f - 1)) (file_list st)) st in
        let st :=
          if (refs f - 1 =? 0) && is_removed f
          then set_file_list (unlink (addr f) (file_list st)) st else st in
        let st :=
          set_descriptors (Some (<[Z.to_nat fd := None]> (descriptor_table st))) st in
        let st :=
          if fd =? file_descriptor_count st - 1 then
            set_count
              (Z.of_nat (trim_count (descriptor_table st)
                                    (Z.to_nat (file_descriptor_count st)))) st
          else st in
        let '(_, st) := adjust_container_capacity st in
        Some (set_error UFS_ERR_NO_ERR st, 0)
    end.

Definition ufs_delete (st : ufs) (filename : string) : ufs * Z :=
  match find st filename with
  | None => (set_error UFS_ERR_NO_FILE st, -1)
  | Some file_to_delete =>
      let st :=
        if refs file_to_delete =? 0 then rm st (addr file_to_delete)
        else set_file_list
               (store (addr file_to_delete) (set_removed true) (file_list st)) st in
      (set_error UFS_ERR_NO_ERR st, 0)
  end.

Definition ufs_errno (st : ufs) : ufs_error_code_t := ufs_error_code st.

(** ** Invariants and observations the statements are written with *)

(** The descriptor table: the count is within the array, the array is not
    empty once it exists, and the slots from the count on are NULL. *)
Definition table_ok (t : option (list (option filedesc))) (count : Z) : Prop :=
  match t with
  | None => count = 0
  | Some l =>
      0 <= count <= Z.of_nat (length l) /\ (0 < length l)%nat /\
      forall i, (Z.to_nat count <= i)%nat -> mjoin (l !! i) = None
  end.

Definition table_wf (st : ufs) : Prop :=
  table_ok (file_descriptors st) (file_descriptor_count st).

(** Slot [i] holds no descriptor (a slot past the array holds none). *)
Definition slot_free (st : ufs) (i : nat) : Prop :=
  mjoin (descriptor_table st !! i) = None.

Definition block_wf (b : block) : Prop :=
  length (memory b) = Z.to_nat BLOCK_SIZE /\ 0 <= occupied b <= BLOCK_SIZE.

(** A chain has a block, and only its last block may be partial. *)
Definition chain_wf (bl : list block) : Prop :=
  bl <> [] /\ Forall block_wf bl /\
  forall i b, bl !! i = Some b -> (S i < length bl)%nat -> occupied b = BLOCK_SIZE.

Definition block_bytes (b : block) : list byte :=
  take (Z.to_nat (occupied b)) (memory b).

(** The content of a file: the occupied bytes of its blocks in order. *)
Definition payload (bl : list block) : list byte :=
  concat (block_bytes <$> bl).

(** The cursor [(seg, pos)] is inside the chain and inside the occupied
    part of its block. *)
Definition cursor_ok (bl : list block) (seg pos : Z) : Prop :=
  0 <= seg /\ exists b, bl !! Z.to_nat seg = Some b /\ 0 <= pos <= occupied b.

Definition offset (seg pos : Z) : Z := seg * BLOCK_SIZE + pos.

(** [data] written over the content [P] from position [p] on. *)
Definition splice (P : list byte) (p : nat) (data : list byte) : list byte :=
  take p P ++ data ++ drop (p + length data) P.

(** A byte sequence as the buffer a caller passes. *)
Definition buffer_of (B : list byte) : Z -> byte :=
  fun i => default Byte.x00 (B !! Z.to_nat i).

(** The caller's loop "read until [ufs_read] returns 0", [chunk] bytes at a
    time; [None] also when a read fails or the fuel runs out. *)
Fixpoint read_until_eof (fuel : nat) (st : ufs) (fd chunk : Z)
  : option (ufs * list byte) :=
  match fuel with
  | O => None
  | S fuel =>
      match ufs_read st fd chunk with
      | Some (st', n, data) =>
          if n =? 0 then Some (st', [])
          else if n <? 0 then None
          else
            match read_until_eof fuel st' fd chunk with
            | Some (st'', rest) => Some (st'', data ++ rest)
            | None => None
            end
      | None => None
      end
  end.

Definition heap_unlimited (h : heap) : Prop := forall k, heap_ok h k = true.

(** The size the file behind [fd] has once a write of [size] bytes at the
    descriptor's cursor is complete. *)
Definition payload_after_write (st : ufs) (fd size : Z) : option Z :=
  d ← locate_descriptor st fd;
  f ← deref (file_list st) (fd_file d);
  Some (Z.max (Z.of_nat (length (payload (block_list f))))
              (offset (curr_data_segment d) (byte_pos d) + size)).

(** File objects: distinct addresses, all handed out by the allocator before
    [next_addr], and no two visible files with one name. *)
Definition files_wf (st : ufs) : Prop :=
  NoDup (addr <$> file_list st)
  /\ (forall f, f ∈ file_list st -> (addr f < next_addr st)%nat)
  /\ (forall i j f g,
        file_list st !! i = Some f -> file_list st !! j = Some g ->
        is_removed f = false -> is_removed g = false -> name f = name g -> i = j).

(** What the caller of [ufs_read] gets: the count and the bytes. *)
Definition read_outcome (r : option (ufs * Z * list byte)) : option (Z * list byte) :=
  (fun x => (snd (fst x), snd x)) <$> r.

(** How many descriptors of the table point to the file object at [a]. *)
Definition points_to (a : nat) (o : option filedesc) : bool :=
  match o with
  | Some d => Nat.eqb (fd_file d) a
  | None => false
  end.

Definition open_descriptors (st : ufs) (a : nat) : nat :=
  length (List.filter (points_to a) (descriptor_table st)).

(** ** The interface as a whole *)

Inductive call : Type :=
  | CALL_open (filename : string) (fl : Z)
  | CALL_write (fd : Z) (buf : Z -> byte) (size : Z)
  | CALL_read (fd : Z) (size : Z)
  | CALL_close (fd : Z)
  | CALL_delete (filename : string).

(** The state a call leaves; [None] for undefined behaviour. *)
Definition perform (st : ufs) (c : call) : option ufs :=
  match c with
  | CALL_open filename fl => Some (fst (ufs_open st filename fl))
  | CALL_write fd buf size => fst <$> ufs_write st fd buf size
  | CALL_read fd size => (fun r => fst (fst r)) <$> ufs_read st fd size
  | CALL_close fd => fst <$> ufs_close st fd
  | CALL_delete filename => Some (fst (ufs_delete st filename))
  end.

Fixpoint perform_all (st : ufs) (cs : list call) : option ufs :=
  match cs with
  | [] => Some st
  | c :: cs' => st' ← perform st c; perform_all st' cs'
  end.

(** A byte count is one that a buffer of the caller can have: a [size_t]
    below [2 ^ 63]. *)
Definition call_ok (c : call) : Prop :=
  match c with
  | CALL_write _ _ size | CALL_read _ size => 0 <= size < 2 ^ 63
  | _ => True
  end.

(** The chain [bl'] has the blocks of [bl], none of them with less data. *)
Definition grows (bl bl' : list block) : Prop :=
  forall i b, bl !! i = Some b ->
              exists b', bl' !! i = Some b' /\ occupied b <= occupied b'.

(** What holds of every file object: a well-formed chain, [refs] counting
    the descriptors on it, at most 100 MiB of content, and, when it is
    marked as removed, a descriptor that keeps it. *)
Definition file_ok (st : ufs) (f : file) : Prop :=
  chain_wf (block_list f)
  /\ refs f = Z.of_nat (open_descriptors st (addr f))
  /\ Z.of_nat (length (payload (block_list f))) <= MAX_FILE_SIZE
  /\ (is_removed f = true -> 0 < refs f).

(** What holds of every descriptor: its file object is there and its
    cursor is inside the data of a block of it. *)
Definition descriptor_ok (st : ufs) (d : filedesc) : Prop :=
  exists f, deref (file_list st) (fd_file d) = Some f
            /\ cursor_ok (block_list f) (curr_data_segment d) (byte_pos d).

Definition ufs_ok (st : ufs) : Prop :=
  table_wf st /\ files_wf st
  /\ (forall f, f ∈ file_list st -> file_ok st f)
  /\ (forall i d, mjoin (descriptor_table st !! i) = Some d -> descriptor_ok st d).

(** ** Concrete states for the examples *)

(** An allocator that never fails. *)
Definition always_ok : nat -> bool := fun _ => true.

Definition letter_a : Z -> byte := fun _ => Byte.x61.

(** One file "f" holding one byte, with no descriptor open. *)
Definition st_stored : ufs :=
  let '(s1, fd) := ufs_open (initial always_ok) "f" UFS_CREATE in
  match ufs_write s1 fd letter_a 1 with
  | Some (s2, _) =>
      match ufs_close s2 fd with
      | Some (s3, _) => s3
      | None => s1
      end
  | None => s1
  end.

(** The same file opened read-write: descriptor 0 stands at its start. *)
Definition st_one_byte : ufs := fst (ufs_open st_stored "f" UFS_READ_WRITE).

(** What an operation on the table leaves alone. *)
Definition frame (st st' : ufs) : Prop :=
  file_list st' = file_list st /\ file_descriptor_count st' = file_descriptor_count st
  /\ next_addr st' = next_addr st /\ heap_ok (ufs_heap st') = heap_ok (ufs_heap st).


Definition abc : list byte := [Byte.x61; Byte.x62; Byte.x63].

(** ** Shutting the file system down *)

(** [while (file_list != NULL) rm(file_list)]: the head of the list is
    removed until none is left. *)
Fixpoint rm_all (fuel : nat) (st : ufs) : ufs :=
  match fuel with
  | O => st
  | S fuel =>
      match file_list st with
      | [] => st
      | f :: _ => rm_all fuel (rm st (addr f))
      end
  end.

(** [ufs_destroy]: the loop reads [file_descriptors[i]] for every [i] below
    [file_descriptor_count] and frees what it finds; the array is freed and
    the pointer is cleared, then every file is removed, whatever its
    [refs].  [file_descriptor_count] and [ufs_error_code] keep their
    values.  The loop has no defined behaviour ([None]) when it reads
    through a NULL pointer or past the end of the array. *)
Definition ufs_destroy (st : ufs) : option ufs :=
  let in_bounds :=
    match file_descriptors st with
    | None => file_descriptor_count st <=? 0
    | Some t => file_descriptor_count st <=? Z.of_nat (length t)
    end in
  if in_bounds then Some (rm_all (length (file_list st)) (set_descriptors None st))
  else None.


(** ** More states for the examples *)

(** An allocator that grants the first [n] requests and refuses the rest. *)
Definition grants (n : nat) : nat -> bool := fun k => (k <? n)%nat.

(** A new file "f" open on descriptor 0, by an allocator that has granted
    the six requests of that [ufs_open] and grants no more. *)
Definition st_exhausted : ufs := fst (ufs_open (initial (grants 6)) "f" UFS_CREATE).

(** Two descriptors on one file: 0 from the creating [ufs_open], 1
    read-only. *)
Definition st_shared : ufs :=
  fst (ufs_open (fst (ufs_open (initial always_ok) "f" UFS_CREATE)) "f" UFS_READ_ONLY).


End Ufs.

(* ===================================================================== *)
(** * TPOOL: the worker pool of [thread_pool.c]                          *)
(* ===================================================================== *)

Module Tpool.

Inductive task_state : Type := TASK_NEW | TASK_QUEUED | TASK_RUNNING | TASK_DONE.

Global Instance task_state_eq_dec : EqDecision task_state.
Proof. solve_decision. Defined.

(** What the [int]-valued functions return: 0, the -1 of a failed [calloc],
    and the [TPOOL_ERR_*] codes of thread_pool.h. *)
Inductive tpool_code : Type :=
  | TPOOL_OK
  | TPOOL_NO_MEMORY
  | TPOOL_ERR_INVALID_ARGUMENT
  | TPOOL_ERR_TOO_MANY_TASKS
  | TPOOL_ERR_HAS_TASKS
  | TPOOL_ERR_TASK_IN_POOL
  | TPOOL_ERR_TASK_NOT_PUSHED
  | TPOOL_ERR_NOT_IMPLEMENTED.

(** [struct thread_task].  Pointers of type [void *] are integers, 0 for
    NULL; [owner] says whether the pointer to the pool is set; [next] is the
    position in the pool's queue; the lock and the condition are the
    atomicity of the steps below. *)
Record thread_task : Type := mk_task {
  function : Z -> Z;
  arg : Z;
  result : Z;
  owner : bool;
  state : task_state
}.

(** [struct thread_pool].  [task_queue] is the list from [task_first] to
    [task_last]; the [threads] array is the list of workers of the world. *)
Record thread_pool : Type := mk_pool {
  max_threads : Z;
  threads_created : Z;
  threads_busy : Z;
  task_queue : list nat;
  task_total : Z;
  shutting_down : bool
}.

(** Where a worker thread stands in [worker_loop]: waiting for the pool lock
    or on [task_available]; holding a task it popped; running the task's
    function; done with the task and about to take the pool lock again;
    returned. *)
Inductive worker_pc : Type :=
  | W_WAIT
  | W_PICKED (t : nat)
  | W_RUN (t : nat)
  | W_PUBLISHED
  | W_EXIT.

(** The pool (if it exists), the task objects by address, the worker
    threads in the order of their creation. *)
Record world : Type := mk_world {
  pool : option thread_pool;
  tasks : gmap nat thread_task;
  workers : list worker_pc;
  next_task : nat
}.

Definition empty_world : world := mk_world None ∅ [] 0.

Definition set_pool (p : option thread_pool) (w : world) : world :=
  mk_world p (tasks w) (workers w) (next_task w).

Definition set_task (tid : nat) (t : thread_task) (w : world) : world :=
  mk_world (pool w) (<[tid := t]> (tasks w)) (workers w) (next_task w).

Definition set_workers (l : list worker_pc) (w : world) : world :=
  mk_world (pool w) (tasks w) l (next_task w).

Definition set_state (s : task_state) (t : thread_task) : thread_task :=
  mk_task (function t) (arg t) (result t) (owner t) s.

Section Limits.

(** The compile-time constants of thread_pool.h, which is not among the
    sources. *)
Variable TPOOL_MAX_THREADS : Z.
Variable TPOOL_MAX_TASKS : Z.

(** [thread_pool_new]; [pool_arg] says that the out-pointer is not NULL,
    [mem] that the two [calloc] calls succeed. *)
Definition thread_pool_new (w : world) (max_thread_count : Z) (pool_arg mem : bool)
  : world * tpool_code :=
  if negb pool_arg || (max_thread_count <=? 0) || (max_thread_count >? TPOOL_MAX_THREADS)
  then (w, TPOOL_ERR_INVALID_ARGUMENT)
  else if negb mem then (w, TPOOL_NO_MEMORY)
  else (set_workers [] (set_pool (Some (mk_pool max_thread_count 0 0 [] 0 false)) w),
        TPOOL_OK).

Definition thread_pool_thread_count (w : world) : Z :=
  match pool w with
  | None => 0
  | Some p => threads_created p
  end.

(** [thread_pool_delete] up to the broadcast: the refusal, or the shutdown
    flag.  The joins wait for the workers' exit steps, after which
    [thread_pool_free] releases the pool. *)
Definition thread_pool_delete (w : world) : world * tpool_code :=
  match pool w with
  | None => (w, TPOOL_ERR_INVALID_ARGUMENT)
  | Some p =>
      if (task_total p >? 0) || (threads_busy p >? 0) then (w, TPOOL_ERR_HAS_TASKS)
      else
        (set_pool (Some (mk_pool (max_threads p) (threads_created p) (threads_busy p)
                                 (task_queue p) (task_total p) true)) w,
         TPOOL_OK)
  end.

Definition thread_pool_free (w : world) : world :=
  match pool w with
  | Some p =>
      if shutting_down p && forallb (fun pc => match pc with W_EXIT => true | _ => false end)
                                    (workers w)
      then set_pool None w else w
  | None => w
  end.

(** [thread_pool_push_task]; [created] is whether [pthread_create] succeeds
    when it is called. *)
Definition thread_pool_push_task (w : world) (tid : nat) (created : bool)
  : world * tpool_code :=
  match pool w, tasks w !! tid with
  | Some p, Some task =>
      if shutting_down p then (w, TPOOL_ERR_INVALID_ARGUMENT)
      else if task_total p >=? TPOOL_MAX_TASKS then (w, TPOOL_ERR_TOO_MANY_TASKS)
      else if negb (bool_decide (state task = TASK_NEW))
              && negb (bool_decide (state task = TASK_DONE))
      then (w, TPOOL_ERR_TASK_IN_POOL)
      else
        let task' := mk_task (function task) (arg task) (result task) true TASK_QUEUED in
        let spawn :=
          (threads_created p <? max_threads p)
          && (threads_busy p =? threads_created p) && created in
        let p' :=
          mk_pool (max_threads p)
                  (if spawn then threads_created p + 1 else threads_created p)
                  (threads_busy p) (task_queue p ++ [tid]) (task_total p + 1)
                  (shutting_down p) in
        let w := set_task tid task' (set_pool (Some p') w) in
        (if spawn then set_workers (workers w ++ [W_WAIT]) w else w, TPOOL_OK)
  | _, _ => (w, TPOOL_ERR_INVALID_ARGUMENT)
  end.

(** [thread_task_new]; [args] says that neither pointer argument is NULL. *)
Definition thread_task_new (w : world) (f : Z -> Z) (a : Z) (args mem : bool)
  : world * tpool_code :=
  if negb args then (w, TPOOL_ERR_INVALID_ARGUMENT)
  else if negb mem then (w, TPOOL_NO_MEMORY)
  else
    let tid := next_task w in
    (mk_world (pool w) (<[tid := mk_task f a 0 false TASK_NEW]> (tasks w)) (workers w)
              (S tid),
     TPOOL_OK).



(** What a call of [thread_task_join] does when it gets to run: the error,
    the wait on the task's condition, or the result. *)
Inductive join_outcome : Type :=
  | JOIN_ERROR (c : tpool_code)
  | JOIN_WAITS
  | JOIN_RESULT (r : Z).

Definition thread_task_join (w : world) (tid : nat) (result_arg : bool) : join_outcome :=
  match tasks w !! tid with
  | None => JOIN_ERROR TPOOL_ERR_INVALID_ARGUMENT
  | Some t =>
      if negb result_arg then JOIN_ERROR TPOOL_ERR_INVALID_ARGUMENT
      else if bool_decide (state t = TASK_NEW) || negb (owner t)
      then JOIN_ERROR TPOOL_ERR_TASK_NOT_PUSHED
      else if bool_decide (state t = TASK_DONE) then JOIN_RESULT (result t)
      else JOIN_WAITS
  end.

Definition thread_task_delete (w : world) (tid : nat) : world * tpool_code :=
  match tasks w !! tid with
  | None => (w, TPOOL_ERR_INVALID_ARGUMENT)
  | Some t =>
      if bool_decide (state t = TASK_QUEUED) || bool_decide (state t = TASK_RUNNING)
      then (w, TPOOL_ERR_TASK_IN_POOL)
      else (mk_world (pool w) (delete tid (tasks w)) (workers w) (next_task w), TPOOL_OK)
  end.

(** ** [worker_loop], one critical section at a time *)

Definition set_worker (i : nat) (pc : worker_pc) (w : world) : world :=
  set_workers (<[i := pc]> (workers w)) w.

(** From the lock to the unlock at the top of the loop: the worker leaves on
    shutdown, pops the head of the queue otherwise, and keeps waiting while
    there is neither. *)
Definition worker_take (w : world) (i : nat) : world :=
  match workers w !! i, pool w with
  | Some W_WAIT, Some p =>
      if shutting_down p then
        set_worker i W_EXIT
          (set_pool (Some (mk_pool (max_threads p) (threads_created p - 1)
                                   (threads_busy p) (task_queue p) (task_total p)
                                   (shutting_down p))) w)
      else
        match task_queue p with
        | [] => w
        | t :: q =>
            set_worker i (W_PICKED t)
              (set_pool (Some (mk_pool (max_threads p) (threads_created p)
                                       (threads_busy p + 1) q (task_total p - 1)
                                       (shutting_down p))) w)
        end
  | _, _ => w
  end.

(** [task->state = TASK_RUNNING], outside any lock. *)
Definition worker_start (w : world) (i : nat) : world :=
  match workers w !! i with
  | Some (W_PICKED t) =>
      match tasks w !! t with
      | Some task => set_worker i (W_RUN t) (set_task t (set_state TASK_RUNNING task) w)
      | None => w
      end
  | _ => w
  end.

(** The call of the task's function and the section under the task's lock. *)
Definition worker_finish (w : world) (i : nat) : world :=
  match workers w !! i with
  | Some (W_RUN t) =>
      match tasks w !! t with
      | Some task =>
          set_worker i W_PUBLISHED
            (set_task t (mk_task (function task) (arg task) (function task (arg task))
                                 (owner task) TASK_DONE) w)
      | None => w
      end
  | _ => w
  end.

(** The last section under the pool's lock: [threads_busy--]. *)
Definition worker_release (w : world) (i : nat) : world :=
  match workers w !! i, pool w with
  | Some W_PUBLISHED, Some p =>
      set_worker i W_WAIT
        (set_pool (Some (mk_pool (max_threads p) (threads_created p) (threads_busy p - 1)
                                 (task_queue p) (task_total p) (shutting_down p))) w)
  | _, _ => w
  end.

(** ** Interleavings *)

Inductive event : Type :=
  | E_pool_new (max_thread_count : Z)
  | E_task_new (f : Z -> Z) (a : Z)
  | E_push (tid : nat) (created : bool)
  | E_task_delete (tid : nat)
  | E_pool_delete
  | E_pool_free
  | E_take (i : nat)
  | E_start (i : nat)
  | E_finish (i : nat)
  | E_release (i : nat).

Definition step (w : world) (e : event) : world :=
  match e with
  | E_pool_new n =>
      match pool w with
      | None => fst (thread_pool_new w n true true)
      | Some _ => w
      end
  | E_task_new f a => fst (thread_task_new w f a true true)
  | E_push tid created => fst (thread_pool_push_task w tid created)
  | E_task_delete tid => fst (thread_task_delete w tid)
  | E_pool_delete => fst (thread_pool_delete w)
  | E_pool_free => thread_pool_free w
  | E_take i => worker_take w i
  | E_start i => worker_start w i
  | E_finish i => worker_finish w i
  | E_release i => worker_release w i
  end.

Definition run (w : world) (es : list event) : world := fold_left step es w.

(** ** What the statements are written with *)

Definition worker_busy (pc : worker_pc) : bool :=
  match pc with
  | W_PICKED _ | W_RUN _ | W_PUBLISHED => true
  | _ => false
  end.

Definition worker_live (pc : worker_pc) : bool :=
  match pc with
  | W_EXIT => false
  | _ => true
  end.

Definition b2n (b : bool) : nat := if b then 1%nat else 0%nat.

(** The counters count the workers, and the number of workers is within
    the pool's bound. *)
Definition counters_ok (w : world) : Prop :=
  match pool w with
  | None => True
  | Some p =>
      threads_busy p = Z.of_nat (length (List.filter worker_busy (workers w)))
      /\ threads_created p = Z.of_nat (length (List.filter worker_live (workers w)))
      /\ threads_created p <= max_threads p
      /\ task_total p = Z.of_nat (length (task_queue p))
  end.

(** [threads_busy <= threads_created <= max_threads]. *)
Definition bounds_ok (w : world) : Prop :=
  match pool w with
  | None => True
  | Some p => 0 <= threads_busy p <= threads_created p
              /\ threads_created p <= max_threads p
  end.

(** How many of the events are pushes that succeed, along the run. *)
Fixpoint pushes_ok (w : world) (es : list event) : nat :=
  match es with
  | [] => 0
  | e :: es' =>
      (match e with
       | E_push tid created =>
           match snd (thread_pool_push_task w tid created) with
           | TPOOL_OK => 1
           | _ => 0
           end
       | _ => 0
       end + pushes_ok (step w e) es')%nat
  end.

(** A schedule for [K] pushes in which the worker a push creates takes the
    pushed task before the next push. *)
Fixpoint eager (K : nat) : list event :=
  match K with
  | O => []
  | S k => eager k ++ [E_push k true; E_take k]
  end.

(** The run makes no call of [thread_pool_delete]. *)
Definition no_pool_delete (es : list event) : Prop :=
  Forall (fun e => e <> E_pool_delete) es.

(** Every push of the run that succeeds finds each worker created so far
    busy, and the thread it asks for, when the bound allows one, can be
    created. *)
Fixpoint pushes_find_all_busy (w : world) (es : list event) : Prop :=
  match es with
  | [] => True
  | e :: es' =>
      match e with
      | E_push tid created =>
          snd (thread_pool_push_task w tid created) = TPOOL_OK ->
          forall p, pool w = Some p ->
                    threads_busy p = threads_created p
                    /\ (threads_created p < max_threads p -> created = true)
      | _ => True
      end
      /\ pushes_find_all_busy (step w e) es'
  end.

(** ** The tasks the pool refers to *)

(** The queue of the pool; none without a pool. *)
Definition queued (w : world) : list nat :=
  match pool w with
  | Some p => task_queue p
  | None => []
  end.

(** The task a worker has popped and not yet published. *)
Definition holds (pc : worker_pc) : option nat :=
  match pc with
  | W_PICKED t | W_RUN t => Some t
  | _ => None
  end.

Definition held (w : world) : list nat := omap holds (workers w).

(** The task object at [tid] is there, in state [s]. *)
Definition task_in (w : world) (tid : nat) (s : task_state) : Prop :=
  exists t, tasks w !! tid = Some t /\ state t = s.

(** Every task the queue or a worker refers to is referred to once and is
    an object that has not been freed, in the state that goes with its
    place: queued in the queue and in the hands of the worker that popped
    it, running once that worker has said so. *)
Definition in_use_ok (w : world) : Prop :=
  NoDup (queued w ++ held w)
  /\ (forall tid, tid ∈ queued w -> task_in w tid TASK_QUEUED)
  /\ (forall i tid, workers w !! i = Some (W_PICKED tid) -> task_in w tid TASK_QUEUED)
  /\ (forall i tid, workers w !! i = Some (W_RUN tid) -> task_in w tid TASK_RUNNING).

(** Task objects are at addresses handed out before [next_task]. *)
Definition ids_fresh (w : world) : Prop :=
  forall tid, is_Some (tasks w !! tid) -> (tid < next_task w)%nat.

(** The queue has [task_total] elements, and none once the pool shuts
    down. *)
Definition queue_ok (w : world) : Prop :=
  match pool w with
  | None => True
  | Some p =>
      task_total p = Z.of_nat (length (task_queue p))
      /\ (shutting_down p = true -> task_queue p = [])
  end.

(** A finished task carries the value of its function at its argument. *)
Definition results_ok (w : world) : Prop :=
  forall tid t, tasks w !! tid = Some t -> state t = TASK_DONE ->
                result t = function t (arg t).

(** The tasks of the pushes that succeed, in the order of the pushes. *)
Fixpoint pushed (w : world) (es : list event) : list nat :=
  match es with
  | [] => []
  | e :: es' =>
      match e with
      | E_push tid created =>
          match snd (thread_pool_push_task w tid created) with
          | TPOOL_OK => [tid]
          | _ => []
          end
      | _ => []
      end ++ pushed (step w e) es'
  end.

(** The task a waiting worker comes to hold in the step [e]. *)
Definition pops (w : world) (e : event) : list nat :=
  match e with
  | E_take i =>
      match workers w !! i, workers (step w e) !! i with
      | Some W_WAIT, Some (W_PICKED t) => [t]
      | _, _ => []
      end
  | _ => []
  end.

(** The tasks the workers pop, in the order in which they pop them. *)
Fixpoint picked (w : world) (es : list event) : list nat :=
  match es with
  | [] => []
  | e :: es' => pops w e ++ picked (step w e) es'
  end.

(** A schedule for [K] pushes in which worker 0 takes, runs and publishes
    each task and counts itself idle again before the next is pushed. *)
Fixpoint serve (K : nat) : list event :=
  match K with
  | O => []
  | S k => serve k ++ [E_push k true; E_take 0; E_start 0; E_finish 0; E_release 0]
  end.

(** [thread_pool_delete] to its end: the flag is set, each of the first
    [n] workers gets to run, and the pool is released. *)
Definition shutdown (n : nat) : list event :=
  E_pool_delete :: (E_take <$> seq 0 n) ++ [E_pool_free].

(** ** The same program at the grain of its locks

    Above, each call is one step.  In the code [thread_pool_push_task]
    makes its tests before it takes the pool's lock, [thread_task_delete]
    tests and frees without any lock, and a worker publishes the result in
    a section under the task's lock.  Below, one client thread makes the
    calls and the workers run beside it; a step is one access to shared
    memory outside a lock, or one section under a lock. *)

(** Where the client thread stands: between two calls; in
    [thread_pool_push_task] after the test of [shutting_down], after the
    test of [task_total], after the test that found a state other than
    [TASK_NEW], and after the tests, before the lock; in
    [thread_task_delete] after the test for [TASK_QUEUED] and after the
    test for [TASK_RUNNING], before the [free]; in the joins of
    [thread_pool_delete], where the client stays. *)
Inductive client_pc : Type :=
  | C_IDLE
  | C_PUSH_TOTAL (tid : nat)
  | C_PUSH_NEW (tid : nat)
  | C_PUSH_DONE (tid : nat)
  | C_PUSH_LOCK (tid : nat)
  | C_DELETE_RUNNING (tid : nat)
  | C_DELETE_FREE (tid : nat)
  | C_JOINS.

(** The shared memory, the client, and for each worker that is between the
    store of [TASK_DONE] and the unlock, the task whose lock it holds. *)
Record fine_world : Type := mk_fine {
  shared : world;
  client : client_pc;
  task_locks : gmap nat nat
}.

Definition fine_start : fine_world := mk_fine empty_world C_IDLE ∅.

(** The calls the client begins, the next step of the call it is in
    ([created] is whether [pthread_create] succeeds, should it be called),
    and the steps of worker [i]. *)
Inductive fine_event : Type :=
  | F_pool_new (max_thread_count : Z)
  | F_task_new (f : Z -> Z) (a : Z)
  | F_push (tid : nat)
  | F_task_delete (tid : nat)
  | F_pool_delete
  | F_next (created : bool)
  | F_take (i : nat)
  | F_start (i : nat)
  | F_finish (i : nat)
  | F_unlock (i : nat)
  | F_release (i : nat).

(** [thread_pool_push_task] from [pthread_mutex_lock] on: the task is
    linked at the end of the queue and a worker is created when all are
    busy and the bound allows it.  Nothing is tested again. *)
Definition push_locked (w : world) (tid : nat) (created : bool) : world :=
  match pool w, tasks w !! tid with
  | Some p, Some task =>
      let task' := mk_task (function task) (arg task) (result task) true TASK_QUEUED in
      let spawn :=
        (threads_created p <? max_threads p)
        && (threads_busy p =? threads_created p) && created in
      let p' :=
        mk_pool (max_threads p)
                (if spawn then threads_created p + 1 else threads_created p)
                (threads_busy p) (task_queue p ++ [tid]) (task_total p + 1)
                (shutting_down p) in
      let w := set_task tid task' (set_pool (Some p') w) in
      if spawn then set_workers (workers w ++ [W_WAIT]) w else w
  | _, _ => w
  end.

(** Some worker holds the lock of the task. *)
Definition task_locked (fw : fine_world) (tid : nat) : bool :=
  bool_decide (tid ∈ (map_to_list (task_locks fw)).*2).

(** One step.  A call is begun only between two calls, and a step that
    cannot be taken leaves the world as it is.  [None] is undefined
    behaviour: the use of a task or a pool that is not there, and
    [pthread_mutex_destroy] on a lock that is held. *)
Definition fine_step (fw : fine_world) (e : fine_event) : option fine_world :=
  let w := shared fw in
  let returns (w' : world) := Some (mk_fine w' C_IDLE (task_locks fw)) in
  let goes (pc : client_pc) := Some (mk_fine w pc (task_locks fw)) in
  let works (w' : world) := Some (mk_fine w' (client fw) (task_locks fw)) in
  match e with
  | F_pool_new n =>
      match client fw with
      | C_IDLE => returns (step w (E_pool_new n))
      | _ => Some fw
      end
  | F_task_new f a =>
      match client fw with
      | C_IDLE => returns (step w (E_task_new f a))
      | _ => Some fw
      end
  | F_push tid =>
      match client fw, pool w, tasks w !! tid with
      | C_IDLE, Some p, Some _ =>
          if shutting_down p then Some fw else goes (C_PUSH_TOTAL tid)
      | _, _, _ => Some fw
      end
  | F_task_delete tid =>
      match client fw, tasks w !! tid with
      | C_IDLE, Some t =>
          if bool_decide (state t = TASK_QUEUED) then Some fw
          else goes (C_DELETE_RUNNING tid)
      | _, _ => Some fw
      end
  | F_pool_delete =>
      match client fw, thread_pool_delete w with
      | C_IDLE, (w', TPOOL_OK) => Some (mk_fine w' C_JOINS (task_locks fw))
      | _, _ => Some fw
      end
  | F_next created =>
      match client fw with
      | C_IDLE | C_JOINS => Some fw
      | C_PUSH_TOTAL tid =>
          match pool w with
          | Some p =>
              if task_total p >=? TPOOL_MAX_TASKS then goes C_IDLE
              else goes (C_PUSH_NEW tid)
          | None => None
          end
      | C_PUSH_NEW tid =>
          match tasks w !! tid with
          | Some t =>
              if bool_decide (state t = TASK_NEW) then goes (C_PUSH_LOCK tid)
              else goes (C_PUSH_DONE tid)
          | None => None
          end
      | C_PUSH_DONE tid =>
          match tasks w !! tid with
          | Some t =>
              if bool_decide (state t = TASK_DONE) then goes (C_PUSH_LOCK tid)
              else goes C_IDLE
          | None => None
          end
      | C_PUSH_LOCK tid =>
          match pool w, tasks w !! tid with
          | Some _, Some _ => returns (push_locked w tid created)
          | _, _ => None
          end
      | C_DELETE_RUNNING tid =>
          match tasks w !! tid with
          | Some t =>
              if bool_decide (state t = TASK_RUNNING) then goes C_IDLE
              else goes (C_DELETE_FREE tid)
          | None => None
          end
      | C_DELETE_FREE tid =>
          match tasks w !! tid with
          | Some _ =>
              if task_locked fw tid then None
              else returns (mk_world (pool w) (delete tid (tasks w)) (workers w)
                                     (next_task w))
          | None => None
          end
      end
  | F_take i => works (worker_take w i)
  | F_start i =>
      match workers w !! i with
      | Some (W_PICKED t) =>
          match tasks w !! t with
          | Some _ => works (worker_start w i)
          | None => None
          end
      | _ => Some fw
      end
  | F_finish i =>
      match workers w !! i with
      | Some (W_RUN t) =>
          match tasks w !! t with
          | Some _ =>
              if task_locked fw t then Some fw
              else Some (mk_fine (worker_finish w i) (client fw)
                                 (<[i := t]> (task_locks fw)))
          | None => None
          end
      | _ => Some fw
      end
  | F_unlock i =>
      match task_locks fw !! i with
      | Some t =>
          match tasks w !! t with
          | Some _ => Some (mk_fine w (client fw) (delete i (task_locks fw)))
          | None => None
          end
      | None => Some fw
      end
  | F_release i =>
      match task_locks fw !! i with
      | Some _ => Some fw
      | None => works (worker_release w i)
      end
  end.

Fixpoint fine_run (fw : fine_world) (es : list fine_event) : option fine_world :=
  match es with
  | [] => Some fw
  | e :: es' =>
      match fine_step fw e with
      | Some fw' => fine_run fw' es'
      | None => None
      end
  end.

(** The task the client links into the queue in the step [e], and the
    task a worker pops in it. *)
Definition fine_pushes (fw : fine_world) (e : fine_event) : list nat :=
  match e, client fw with
  | F_next _, C_PUSH_LOCK tid => [tid]
  | _, _ => []
  end.

Definition fine_pops (fw : fine_world) (e : fine_event) : list nat :=
  match e with
  | F_take i => pops (shared fw) (E_take i)
  | _ => []
  end.

(** The tasks linked into the queue along a run, in order, and the tasks
    popped along it, in order. *)
Fixpoint fine_pushed (fw : fine_world) (es : list fine_event) : list nat :=
  match es with
  | [] => []
  | e :: es' =>
      fine_pushes fw e
      ++ match fine_step fw e with
         | Some fw' => fine_pushed fw' es'
         | None => []
         end
  end.

Fixpoint fine_picked (fw : fine_world) (es : list fine_event) : list nat :=
  match es with
  | [] => []
  | e :: es' =>
      fine_pops fw e
      ++ match fine_step fw e with
         | Some fw' => fine_picked fw' es'
         | None => []
         end
  end.

(** What the client has found by the tests it has made holds as long as it
    has not gone on. *)
Definition client_ok (fw : fine_world) : Prop :=
  let w := shared fw in
  let open (tid : nat) (ready : thread_pool -> Prop) :=
    (exists p, pool w = Some p /\ shutting_down p = false /\ ready p)
    /\ is_Some (tasks w !! tid) in
  let idle (tid : nat) :=
    exists t, tasks w !! tid = Some t /\ (state t = TASK_NEW \/ state t = TASK_DONE) in
  match client fw with
  | C_IDLE | C_JOINS => True
  | C_PUSH_TOTAL tid => open tid (fun _ => True)
  | C_PUSH_NEW tid | C_PUSH_DONE tid => open tid (fun p => task_total p < TPOOL_MAX_TASKS)
  | C_PUSH_LOCK tid => open tid (fun p => task_total p < TPOOL_MAX_TASKS) /\ idle tid
  | C_DELETE_RUNNING tid =>
      exists t, tasks w !! tid = Some t /\ state t <> TASK_QUEUED
  | C_DELETE_FREE tid => idle tid
  end.

(** A lock that is held is the lock of a task that is there. *)
Definition locks_ok (fw : fine_world) : Prop :=
  forall i t, task_locks fw !! i = Some t -> is_Some (tasks (shared fw) !! t).

Definition fine_ok (fw : fine_world) : Prop :=
  ids_fresh (shared fw) /\ in_use_ok (shared fw) /\ queue_ok (shared fw)
  /\ client_ok fw /\ locks_ok fw.

End Limits.

(** ** A concrete run for the examples: a pool of at most two workers, two
    tasks, both pushed before any worker gets to run.  The limits are taken
    as 20 threads and 100000 tasks. *)
Definition two_quick_pushes : list event :=
  [E_pool_new 2; E_task_new Z.succ 0; E_task_new Z.succ 0; E_push 0 true; E_push 1 true].

Definition pool_with_tasks : world :=
  run 20 100000 empty_world [E_pool_new 2; E_task_new Z.succ 0; E_task_new Z.succ 0;
                             E_task_new Z.succ 0].

(** One task pushed and popped by the worker the push creates. *)
Definition one_task_picked : list event :=
  [E_pool_new 2; E_task_new Z.succ 0; E_push 0 true; E_take 0].

(** The same task run to its end. *)
Definition one_task_done : list event :=
  one_task_picked ++ [E_start 0; E_finish 0].

(** The pool after that task, its worker waiting again. *)
Definition pool_served : world :=
  run 20 100000 empty_world (one_task_done ++ [E_release 0]).


(** Two tasks pushed, test by test, and the first of them popped by the
    worker the first push creates. *)
Definition two_pushed_one_popped : list fine_event :=
  [F_pool_new 2; F_task_new Z.succ 0; F_task_new Z.succ 0;
   F_push 0; F_next true; F_next true; F_next true;
   F_push 1; F_next true; F_next true; F_next true;
   F_take 0].

End Tpool.

(* ===================================================================== *)
(** * SHELL: the pipeline executor that follows in [thread_pool.c]       *)
(* ===================================================================== *)

Module Shell.

(** Modelled from the spec: parser.h is not among the sources.  An
    expression is a tagged node of a singly-linked list, with tags COMMAND
    (an executable and its arguments), PIPE, AND and OR; a command line has
    the head of the list, the output redirection and the background flag.
    A pointer to an expression is the list from that node on, NULL the
    empty list. *)
Inductive expr_type : Type :=
  | EXPR_TYPE_COMMAND
  | EXPR_TYPE_PIPE
  | EXPR_TYPE_AND
  | EXPR_TYPE_OR.

Record command : Type := mk_command {
  exe : string;
  args : list string
}.

Record expr : Type := mk_expr {
  type : expr_type;
  cmd : command
}.

Inductive output_type : Type :=
  | OUTPUT_TYPE_STDOUT
  | OUTPUT_TYPE_FILE_NEW
  | OUTPUT_TYPE_FILE_APPEND.

Record command_line : Type := mk_command_line {
  head : list expr;
  out_type : output_type;
  out_file : option string;
  is_background : bool
}.

Global Instance expr_type_eq_dec : EqDecision expr_type.
Proof. solve_decision. Defined.

Global Instance output_type_eq_dec : EqDecision output_type.
Proof. solve_decision. Defined.

Definition STDIN_FILENO : Z := 0.
Definition STDOUT_FILENO : Z := 1.

(** Where the standard output of a child goes: a descriptor of the shell
    duplicated onto it, or the file opened with [O_CREAT | O_WRONLY] and
    [O_TRUNC] or [O_APPEND]; [OUT_FAILED] when [out_file] is NULL and the
    child gives up. *)
Inductive out_target : Type :=
  | OUT_FD (fd : Z)
  | OUT_FILE (path : string) (truncate : bool)
  | OUT_FAILED.

(** What a forked child does before and at [execvp]: [sp_stdin] is the
    descriptor duplicated onto its standard input, [None] when the child
    closes it instead; [sp_closes] what else it closes. *)
Record spawn : Type := mk_spawn {
  sp_stdin : option Z;
  sp_stdout : out_target;
  sp_closes : list Z;
  sp_exe : string;
  sp_argv : list string
}.

(** What the shell process does to the system, in order. *)
Inductive event : Type :=
  | EV_DIAG (message : string)
  | EV_PIPE (ends : option (Z * Z))
  | EV_FORK (child : option (Z * spawn))
  | EV_WAIT (pid : Z)
  | EV_CLOSE (fd : Z)
  | EV_CHDIR (path : string).

(** The system as the shell meets it: whether the n-th allocation, [pipe]
    and [fork] succeed and with what, the exit status of a child by the way
    it was started ([None] when it does not exit normally), and the results
    of [chdir] and of [(int) strtol(s, &end, 10)]. *)
Record env : Type := mk_env {
  alloc_ok : nat -> bool;
  pipe_result : nat -> option (Z * Z);
  fork_result : nat -> option Z;
  exit_status : spawn -> option Z;
  chdir_result : string -> Z;
  strtol : string -> Z
}.

(** The shell process: what it did so far, how many requests of each kind it
    made, and the children it started. *)
Record shell : Type := mk_shell {
  events : list event;
  allocs : nat;
  pipes : nat;
  forks : nat;
  started : list (Z * spawn)
}.

Definition new_shell : shell := mk_shell [] 0 0 0 [].

Definition emit (e : event) (sh : shell) : shell :=
  mk_shell (events sh ++ [e]) (allocs sh) (pipes sh) (forks sh) (started sh).

Definition sys_alloc (E : env) (sh : shell) : bool * shell :=
  (alloc_ok E (allocs sh),
   mk_shell (events sh) (S (allocs sh)) (pipes sh) (forks sh) (started sh)).

Definition sys_pipe (E : env) (sh : shell) : option (Z * Z) * shell :=
  let r := pipe_result E (pipes sh) in
  (r, mk_shell (events sh ++ [EV_PIPE r]) (allocs sh) (S (pipes sh)) (forks sh)
               (started sh)).

(** [fork] as the parent sees it; [sp] is what the child goes on to do. *)
Definition sys_fork (E : env) (sp : spawn) (sh : shell) : option Z * shell :=
  match fork_result E (forks sh) with
  | None =>
      (None, mk_shell (events sh ++ [EV_FORK None]) (allocs sh) (pipes sh)
                      (S (forks sh)) (started sh))
  | Some pid =>
      (Some pid, mk_shell (events sh ++ [EV_FORK (Some (pid, sp))]) (allocs sh)
                          (pipes sh) (S (forks sh)) (started sh ++ [(pid, sp)]))
  end.

(** [waitpid(pid, &status, 0)]: the exit status when [WIFEXITED], of the
    latest child with that pid. *)
Definition sys_wait (E : env) (pid : Z) (sh : shell) : option Z * shell :=
  (match List.find (fun c => fst c =? pid) (rev (started sh)) with
   | Some (_, sp) => exit_status E sp
   | None => None
   end, emit (EV_WAIT pid) sh).

Definition sys_close (fd : Z) (sh : shell) : shell := emit (EV_CLOSE fd) sh.

Definition dprintf (message : string) (sh : shell) : shell := emit (EV_DIAG message) sh.

(** ** The process registry *)

Definition BG_PROC_ARR_INIT_SIZE : Z := 10.
Definition BG_PROC_ARR_GROW_COEFF : Z := 2.

(** [struct process_registry]: [size] is the length of [children]. *)
Record process_registry : Type := mk_registry {
  children : list Z;
  capacity : Z
}.

Definition registry_size (arr : process_registry) : Z := Z.of_nat (length (children arr)).

Definition initialize_process_registry (E : env) (sh : shell)
  : Z * process_registry * shell :=
  let '(ok, sh) := sys_alloc E sh in
  (if ok then 0 else 1, mk_registry [] 10, sh).

Definition adjust_process_registry_capacity (E : env) (arr : process_registry)
    (sh : shell) : Z * process_registry * shell :=
  let threshold := BG_PROC_ARR_INIT_SIZE in
  let factor := BG_PROC_ARR_GROW_COEFF in
  let target_capacity :=
    if (registry_size arr * factor <? capacity arr) && (registry_size arr >? threshold)
    then Z.quot (capacity arr) factor
    else if registry_size arr =? capacity arr then capacity arr * factor
    else 0 in
  if target_capacity =? 0 then (0, arr, sh)
  else
    let '(ok, sh) := sys_alloc E sh in
    if ok then (0, mk_registry (children arr) target_capacity, sh) else (1, arr, sh).

Definition register_process (E : env) (arr : process_registry) (child : Z) (sh : shell)
  : Z * process_registry * shell :=
  adjust_process_registry_capacity E (mk_registry (children arr ++ [child]) (capacity arr)) sh.

(** The loop of [pid_array_wait_and_free]: the status of the last child
    that exited normally, 0 when there is none. *)
Fixpoint wait_children (E : env) (pids : list Z) (final_status : Z) (sh : shell)
  : Z * shell :=
  match pids with
  | [] => (final_status, sh)
  | pid :: rest =>
      let '(status, sh) := sys_wait E pid sh in
      wait_children E rest (default final_status status) sh
  end.

Definition pid_array_wait_and_free (E : env) (arr : process_registry) (sh : shell)
  : Z * shell :=
  wait_children E (children arr) 0 sh.

(** ** Results *)

(** [struct exec_result]; [bg_pids] is [None] for NULL, [bg_count] the
    length of the list. *)
Record exec_result : Type := mk_exec_result {
  need_exit : bool;
  return_code : Z;
  bg_pids : option (list Z)
}.

Definition assemble_execution_outcome (need_exit : bool) (return_code : Z)
    (bg_pids : option (list Z)) : exec_result :=
  mk_exec_result need_exit return_code bg_pids.

Definition determine_expression_is_operator (e : list expr) : bool :=
  match e with
  | [] => false
  | x :: _ => bool_decide (type x = EXPR_TYPE_AND) || bool_decide (type x = EXPR_TYPE_OR)
  end.

Definition determine_operator_expression_is_terminal (e : list expr) : bool :=
  match e with
  | [] => false
  | _ :: [] => true
  | _ :: next => determine_expression_is_operator next
  end.

(** [perform_directory_transition]: the result of [chdir], 1 without
    exactly one argument. *)
Definition perform_directory_transition (E : env) (x : expr) (sh : shell) : Z * shell :=
  match args (cmd x) with
  | [path] => (chdir_result E path, emit (EV_CHDIR path) sh)
  | _ => (1, sh)
  end.

(** The two closes that end an iteration and some of the returns. *)
Definition close_in_out (io0 io1 : Z) (sh : shell) : shell :=
  let sh := if io0 =? STDIN_FILENO then sh else sys_close io0 sh in
  if io1 =? STDOUT_FILENO then sh else sys_close io1 sh.

(** Where the last command of a pipeline writes: the standard output, or
    the file that [open(out_file, O_CREAT | O_WRONLY | ...)] gives. *)
Definition terminal_output (out_file : option string) (out_type : output_type)
  : out_target :=
  match out_type, out_file with
  | OUTPUT_TYPE_STDOUT, _ => OUT_FD STDOUT_FILENO
  | OUTPUT_TYPE_FILE_NEW, Some path => OUT_FILE path true
  | OUTPUT_TYPE_FILE_APPEND, Some path => OUT_FILE path false
  | _, None => OUT_FAILED
  end.

(** What the child of the [fork] in [execute_pipeline] does. *)
Definition child_program (x : list expr) (out_file : option string)
    (out_type : output_type) (should_wait : bool) (io0 io1 io2 : Z)
    (registered : Z) : spawn :=
  let terminal := determine_operator_expression_is_terminal x in
  mk_spawn
    (if should_wait || (registered >? 0) then Some io0 else None)
    (if terminal then terminal_output out_file out_type else OUT_FD io1)
    ((if should_wait || (registered >? 0) then [] else [io0])
     ++ (if terminal && negb (io1 =? STDOUT_FILENO) then [io1] else [])
     ++ (if io2 =? -1 then [] else [io2]))
    (match x with e :: _ => exe (cmd e) | [] => "" end)
    (match x with e :: _ => exe (cmd e) :: args (cmd e) | [] => [] end).

(** The body of the loop of [execute_pipeline] comes in two parts.  First,
    for a command that is not the last of its pipeline, [pipe] and the swap
    that leaves the write end in [io_descriptors[1]] and the read end in
    [io_descriptors[2]]; [None] when [pipe] fails. *)
Definition pipeline_connect (E : env) (current_expression : list expr)
    (io1 io2 : Z) (sh : shell) : option (Z * Z) * shell :=
  if determine_operator_expression_is_terminal current_expression then
    (Some (io1, io2), sh)
  else
    match sys_pipe E sh with
    | (None, sh) => (None, sh)
    | (Some (rd, wr), sh) => (Some (wr, rd), sh)
    end.

(** Then the three branches: [cd] alone in its pipeline, [exit], and any
    other command, which is forked.  They leave a [return] ([inl]), a
    [break] ([inr (inl _)]) or the shell going on to the end of the body
    ([inr (inr _)]), with the registry and the shell as they are then. *)
Definition pipeline_branch (E : env) (out_file : option string)
    (out_type : output_type) (should_wait : bool) (current_expression : list expr)
    (io0 io1 io2 : Z) (process_ids : process_registry) (sh : shell)
  : (exec_result * shell)
    + ((process_registry * shell) + (process_registry * shell)) :=
  let terminal := determine_operator_expression_is_terminal current_expression in
  match current_expression with
  | [] => inr (inr (process_ids, sh))
  | x :: _ =>
      if String.eqb "cd" (exe (cmd x)) && (registry_size process_ids =? 0) && terminal
      then
        let '(r, sh) := perform_directory_transition E x sh in
        if r =? 0 then inr (inr (process_ids, sh))
        else
          inl (assemble_execution_outcome false (-1) None,
               close_in_out io0 io1 (dprintf "Change directory failed" sh))
      else if String.eqb "exit" (exe (cmd x)) then
        if terminal then
          let is_single_command := registry_size process_ids =? 0 in
          let '(_, sh) := pid_array_wait_and_free E process_ids sh in
          let sh := close_in_out io0 io1 sh in
          match args (cmd x) with
          | [] => inl (assemble_execution_outcome is_single_command 0 None, sh)
          | a :: _ =>
              inl (assemble_execution_outcome is_single_command (strtol E a) None, sh)
          end
        else inr (inr (process_ids, sh))
      else
        let sp := child_program current_expression out_file out_type should_wait
                                io0 io1 io2 (registry_size process_ids) in
        match sys_fork E sp sh with
        | (None, sh) =>
            let sh := dprintf "Process creation failed" sh in
            let '(_, sh) := pid_array_wait_and_free E process_ids sh in
            inl (assemble_execution_outcome true 1 None, sh)
        | (Some pid, sh) =>
            let '(r, process_ids, sh) := register_process E process_ids pid sh in
            if r =? 0 then inr (inr (process_ids, sh))
            else inr (inl (process_ids, dprintf "Failed to track process" sh))
        end
  end.

(** The [while] loop of [execute_pipeline] over the expressions from
    [current_expression] on.  [inl] is a [return] from inside the loop,
    [inr] the state after the loop, reached at its end and by [break]. *)
Fixpoint pipeline_loop (E : env) (out_file : option string) (out_type : output_type)
    (should_wait : bool) (current_expression : list expr) (command_index : Z)
    (io0 io1 io2 : Z) (process_ids : process_registry) (sh : shell)
  : (exec_result * shell) + (Z * process_registry * shell) :=
  match current_expression with
  | [] => inr (io0, process_ids, sh)
  | x :: next =>
      if determine_expression_is_operator current_expression then
        inr (io0, process_ids, sh)
      else if negb (bool_decide (type x = EXPR_TYPE_COMMAND)) then
        pipeline_loop E out_file out_type should_wait next command_index
                      io0 io1 io2 process_ids sh
      else
        match pipeline_connect E current_expression io1 io2 sh with
        | (None, sh) =>
            inl (assemble_execution_outcome false 0 None,
                 dprintf "Pipe creation error" sh)
        | (Some (io1, io2), sh) =>
            match pipeline_branch E out_file out_type should_wait current_expression
                                  io0 io1 io2 process_ids sh with
            | inl ret => inl ret
            | inr (inl (process_ids, sh)) => inr (io0, process_ids, sh)
            | inr (inr (process_ids, sh)) =>
                let sh := close_in_out io0 io1 sh in
                pipeline_loop E out_file out_type should_wait next (command_index + 1)
                              io2 io1 io2 process_ids sh
            end
        end
  end.

Definition execute_pipeline (E : env) (pipeline_start : list expr)
    (out_file : option string) (out_type : output_type) (should_wait : bool)
    (sh : shell) : exec_result * shell :=
  match pipeline_start with
  | [] => (assemble_execution_outcome false 1 None, dprintf "Invalid pipeline start" sh)
  | _ =>
      let '(r, process_ids, sh) := initialize_process_registry E sh in
      if negb (r =? 0) then
        (assemble_execution_outcome false 1 None, dprintf "Memory allocation failed" sh)
      else
        match pipeline_loop E out_file out_type should_wait pipeline_start 0
                            STDIN_FILENO STDOUT_FILENO (-1) process_ids sh with
        | inl ret => ret
        | inr (io0, process_ids, sh) =>
            let sh := if io0 =? STDIN_FILENO then sh else sys_close io0 sh in
            if should_wait then
              let '(rc, sh) := pid_array_wait_and_free E process_ids sh in
              (assemble_execution_outcome false rc None, sh)
            else
              (assemble_execution_outcome false 0 (Some (children process_ids)), sh)
        end
  end.

(** [while (a && !determine_expression_is_operator(a)) a = a->next]. *)
Fixpoint skip_to_operator (a : list expr) : list expr :=
  match a with
  | [] => []
  | _ :: next => if determine_expression_is_operator a then a else skip_to_operator next
  end.

(** The call of [execute_pipeline] on the segment at [b], with [a] the
    first operator after it: the redirection and the background flag of the
    line go to it when no operator follows. *)
Definition execute_segment (E : env) (line : command_line) (b a : list expr)
    (sh : shell) : exec_result * shell :=
  let c := bool_decide (a = []) in
  execute_pipeline E b
    (if c then out_file line else None)
    (if c then out_type line else OUTPUT_TYPE_STDOUT)
    (if c then negb (is_background line) else true) sh.

(** [while (a) { ... }] of [execute_command_line]; [None] when the fuel
    runs out. *)
Fixpoint command_line_loop (fuel : nat) (E : env) (line : command_line)
    (a : list expr) (d : exec_result) (sh : shell) : option (exec_result * shell) :=
  match a with
  | [] => Some (d, sh)
  | x :: next =>
      match fuel with
      | O => None
      | S fuel =>
          let e := type x in
          let a := next in
          if (bool_decide (e = EXPR_TYPE_AND) && (return_code d =? 0))
             || (bool_decide (e = EXPR_TYPE_OR) && negb (return_code d =? 0))
          then
            let b := a in
            let a := skip_to_operator a in
            let '(d, sh) := execute_segment E line b a sh in
            if need_exit d then Some (d, sh)
            else command_line_loop fuel E line a d sh
          else command_line_loop fuel E line a d sh
      end
  end.

Definition execute_command_line (E : env) (line : command_line) (sh : shell)
  : option (exec_result * shell) :=
  let a := head line in
  let b := a in
  let a := skip_to_operator a in
  let '(d, sh) := execute_segment E line b a sh in
  if need_exit d then Some (d, sh)
  else command_line_loop (length a) E line a d sh.

(** ** Notions the statements use *)

(** Whether the segment after operator [op] runs when the code so far is [c]. *)
Definition runs (op : expr_type) (c : Z) : bool :=
  (bool_decide (op = EXPR_TYPE_AND) && (c =? 0))
  || (bool_decide (op = EXPR_TYPE_OR) && negb (c =? 0)).

Definition is_operator (x : expr) : bool := determine_expression_is_operator [x].

(** A list of expressions without AND and OR: one pipeline segment, and the
    last one of its line when nothing follows it. *)
Definition no_operator (b : list expr) : bool := forallb (fun x => negb (is_operator x)) b.

(** Where a segment ends: at the end of the line or at an operator. *)
Definition boundary (rest : list expr) : bool :=
  match rest with
  | [] => true
  | x :: _ => is_operator x
  end.



Definition runs_expr (sp : spawn) (x : expr) : Prop :=
  sp_exe sp = exe (cmd x) /\ sp_argv sp = exe (cmd x) :: args (cmd x).








(** A system where nothing fails, [false] exits with 1 and [echo] with 0. *)
Definition plain_env : env :=
  mk_env (fun _ => true)
         (fun n => Some (Z.of_nat (3 + 2 * n), Z.of_nat (4 + 2 * n)))
         (fun n => Some (Z.of_nat (100 + n)))
         (fun sp => if String.eqb (sp_exe sp) "false" then Some 1 else Some 0)
         (fun _ => 0)
         (fun _ => 0).

Definition simple (exe : string) (args : list string) : expr :=
  mk_expr EXPR_TYPE_COMMAND (mk_command exe args).

Definition operator (t : expr_type) : expr := mk_expr t (mk_command "" []).

(** [false && echo A || echo B] *)
Definition false_and_A_or_B : list expr :=
  [simple "false" []; operator EXPR_TYPE_AND; simple "echo" ["A"];
   operator EXPR_TYPE_OR; simple "echo" ["B"]].


(** ** Pipelines of external commands *)

(** A system where allocation, [pipe] and [fork] do not fail. *)
Definition reliable (E : env) : Prop :=
  (forall n, alloc_ok E n = true)
  /\ (forall n, is_Some (pipe_result E n))
  /\ (forall n, is_Some (fork_result E n)).

(** A command that is forked wherever it stands: neither [cd] nor
    [exit]. *)
Definition is_external (x : expr) : bool :=
  bool_decide (type x = EXPR_TYPE_COMMAND)
  && negb (String.eqb "cd" (exe (cmd x)))
  && negb (String.eqb "exit" (exe (cmd x))).

(** [c1 | c2 | ... | ck]: external commands with a PIPE node between
    neighbours. *)
Fixpoint piped (b : list expr) : bool :=
  match b with
  | [] => false
  | c :: b' =>
      is_external c
      && match b' with
         | [] => true
         | p :: b'' => bool_decide (type p = EXPR_TYPE_PIPE) && piped b''
         end
  end.

Definition commands (b : list expr) : list expr :=
  List.filter (fun x => bool_decide (type x = EXPR_TYPE_COMMAND)) b.

(** Each child but the last writes to a pipe that the next one reads. *)
Definition linked (E : env) (new : list (Z * spawn)) : Prop :=
  forall i c1 c2,
    new !! i = Some c1 -> new !! S i = Some c2 ->
    exists n rd wr,
      pipe_result E n = Some (rd, wr)
      /\ sp_stdout (snd c1) = OUT_FD wr /\ sp_stdin (snd c2) = Some rd.

Definition is_wait (e : event) : bool :=
  match e with
  | EV_WAIT _ => true
  | _ => false
  end.

(** What [close_in_out] adds to the trace. *)
Definition closes (io0 io1 : Z) : list event :=
  (if io0 =? STDIN_FILENO then [] else [EV_CLOSE io0])
  ++ (if io1 =? STDOUT_FILENO then [] else [EV_CLOSE io1]).

(** [cat f | sort | uniq] *)
Definition three_stage : list expr :=
  [simple "cat" ["f"]; operator EXPR_TYPE_PIPE; simple "sort" [];
   operator EXPR_TYPE_PIPE; simple "uniq" []].

(** [exit 3 && echo a] *)
Definition exit_then_echo : command_line :=
  mk_command_line
    [simple "exit" ["3"]; operator EXPR_TYPE_AND; simple "echo" ["a"]]
    OUTPUT_TYPE_STDOUT None false.

End Shell.

(* ===================================================================== *)
(** * UFS: what the operations do                                      *)
(* ===================================================================== *)

Module UfsFacts.
Import Ufs.

(** ** Content of a chain *)

Lemma payload_app (l1 l2 : list block) : payload (l1 ++ l2) = payload l1 ++ payload l2.
Proof. unfold payload. by rewrite fmap_app, concat_app. Qed.

Lemma payload_cons (b : block) (l : list block) :
  payload (b :: l) = block_bytes b ++ payload l.
Proof. reflexivity. Qed.

Lemma payload_nil : payload [] = [].
Proof. reflexivity. Qed.

Lemma block_bytes_length (b : block) :
  block_wf b -> length (block_bytes b) = Z.to_nat (occupied b).
Proof.
  intros [Hm Ho]. unfold block_bytes. rewrite length_take. lia.
Qed.

Lemma empty_block_wf : block_wf empty_block.
Proof.
  split; unfold empty_block; cbn [memory occupied]; [by rewrite length_replicate | unfold BLOCK_SIZE; lia].
Qed.

Lemma chain_wf_lookup (bl : list block) (i : nat) (b : block) :
  chain_wf bl -> bl !! i = Some b -> block_wf b.
Proof.
  intros (_ & Hall & _) Hi. rewrite Forall_lookup in Hall. eauto.
Qed.

(** The blocks before the current one are full. *)
Lemma prefix_length (bl : list block) (cur : nat) :
  chain_wf bl -> (cur < length bl)%nat ->
  length (payload (take cur bl)) = (cur * Z.to_nat BLOCK_SIZE)%nat.
Proof.
  intros Hwf. induction cur as [|cur IH]; intros Hlt.
  - by rewrite take_0.
  - destruct (lookup_lt_is_Some_2 bl cur) as [b Hb]; [lia|].
    rewrite (take_S_r _ _ _ Hb), payload_app, length_app, IH by lia.
    rewrite payload_cons, payload_nil, app_nil_r.
    rewrite block_bytes_length by eauto using chain_wf_lookup.
    destruct Hwf as (_ & _ & Hfull). rewrite (Hfull cur b) by done. lia.
Qed.

Lemma payload_middle (bl : list block) (cur : nat) (b : block) :
  bl !! cur = Some b ->
  payload bl = payload (take cur bl) ++ block_bytes b ++ payload (drop (S cur) bl).
Proof.
  intros Hb. rewrite <- (take_drop_middle bl cur b Hb) at 1.
  by rewrite payload_app, payload_cons.
Qed.

Lemma payload_insert (bl : list block) (cur : nat) (b b' : block) :
  bl !! cur = Some b ->
  payload (<[cur := b']> bl)
  = payload (take cur bl) ++ block_bytes b' ++ payload (drop (S cur) bl).
Proof.
  intros Hb. rewrite insert_take_drop by eauto using lookup_lt_Some.
  by rewrite payload_app, payload_cons.
Qed.

(** A partial block is the last one, so nothing follows it. *)
Lemma partial_is_last (bl : list block) (cur : nat) (b : block) :
  chain_wf bl -> bl !! cur = Some b -> occupied b < BLOCK_SIZE ->
  drop (S cur) bl = [].
Proof.
  intros (_ & _ & Hfull) Hb Hocc. apply drop_ge.
  destruct (decide (S cur < length bl)%nat) as [Hlt|]; [|lia].
  specialize (Hfull _ _ Hb Hlt). lia.
Qed.

(** ** Overwriting a content in place *)

Lemma splice_length (P : list byte) (p : nat) (d : list byte) :
  (p <= length P)%nat ->
  length (splice P p d) = Nat.max (length P) (p + length d).
Proof.
  intros. unfold splice. rewrite !length_app, length_take, length_drop. lia.
Qed.

Lemma splice_nil (P : list byte) (p : nat) : splice P p [] = P.
Proof. unfold splice. simpl. rewrite Nat.add_0_r. apply take_drop. Qed.

Lemma splice_splice (P : list byte) (p : nat) (d1 d2 : list byte) :
  (p <= length P)%nat ->
  splice (splice P p d1) (p + length d1) d2 = splice P p (d1 ++ d2).
Proof.
  intros Hp. unfold splice.
  assert (Hl : length (take p P) = p) by (rewrite length_take; lia).
  rewrite (app_assoc (take p P) d1).
  rewrite take_app_length' by (rewrite length_app; lia).
  rewrite drop_app_ge by (rewrite length_app; lia).
  rewrite drop_drop, length_app.
  rewrite <- !app_assoc. do 3 f_equal. f_equal. rewrite length_app. lia.
Qed.


Lemma buffer_bytes_length (buf : Z -> byte) (off n : Z) :
  length (buffer_bytes buf off n) = Z.to_nat n.
Proof. unfold buffer_bytes. by rewrite length_fmap, length_seqZ. Qed.

Lemma buffer_bytes_nil (buf : Z -> byte) (off : Z) : buffer_bytes buf off 0 = [].
Proof. reflexivity. Qed.

Lemma buffer_bytes_app (buf : Z -> byte) (off n1 n2 : Z) :
  0 <= n1 -> 0 <= n2 ->
  buffer_bytes buf off (n1 + n2)
  = buffer_bytes buf off n1 ++ buffer_bytes buf (off + n1) n2.
Proof.
  intros. unfold buffer_bytes. rewrite seqZ_app, fmap_app by done. f_equal.
  replace (0 + n1) with (n1 + 0) by lia.
  rewrite <- (fmap_add_seqZ n1 0 n2), <- list_fmap_compose.
  apply list_fmap_ext. intros _ i _. simpl. f_equal. lia.
Qed.

(** ** One step of the write loop *)

Lemma block_bytes_copy (b : block) (pos n : Z) (buf : Z -> byte) (off : Z) :
  block_wf b -> 0 <= pos <= occupied b -> 0 <= n -> pos + n <= BLOCK_SIZE ->
  block_bytes (mk_block (copy_in (memory b) pos buf off n)
                        (if pos + n >? occupied b then pos + n else occupied b))
  = splice (block_bytes b) (Z.to_nat pos) (buffer_bytes buf off n).
Proof.
  intros [Hm Ho] Hpos Hn Hfit. unfold block_bytes, splice, copy_in. cbn [memory occupied].
  set (d := buffer_bytes buf off n).
  assert (Hd : length d = Z.to_nat n) by apply buffer_bytes_length.
  assert (Hl : length (take (Z.to_nat pos) (memory b)) = Z.to_nat pos)
    by (rewrite length_take; lia).
  rewrite take_take, Nat.min_l by lia.
  rewrite (app_assoc _ d), take_app_ge by (rewrite length_app; destruct (_ >? _) eqn:?; lia).
  rewrite <- app_assoc. do 2 f_equal.
  rewrite length_app, Hl, Hd.
  replace (Z.to_nat (pos + n)) with (Z.to_nat pos + Z.to_nat n)%nat by lia.
  rewrite take_drop_commute.
  destruct (pos + n >? occupied b) eqn:Hc.
  - rewrite !drop_ge; [done| |]; rewrite length_take; lia.
  - do 2 f_equal. lia.
Qed.

Lemma copy_in_length (b : block) (pos n : Z) (buf : Z -> byte) (off : Z) :
  block_wf b -> 0 <= pos -> 0 <= n -> pos + n <= BLOCK_SIZE ->
  length (copy_in (memory b) pos buf off n) = Z.to_nat BLOCK_SIZE.
Proof.
  intros [Hm Ho] ? ? ?. unfold copy_in.
  rewrite !length_app, length_take, length_drop, buffer_bytes_length. lia.
Qed.

Lemma offset_le_payload (bl : list block) (cur : nat) (b : block) (pos : Z) :
  chain_wf bl -> bl !! cur = Some b -> 0 <= pos <= occupied b ->
  (Z.to_nat (offset (Z.of_nat cur) pos) <= length (payload bl))%nat.
Proof.
  intros Hwf Hb Hpos. rewrite (payload_middle bl cur b Hb), !length_app.
  rewrite prefix_length by eauto using lookup_lt_Some.
  rewrite block_bytes_length by eauto using chain_wf_lookup.
  unfold offset, BLOCK_SIZE. lia.
Qed.

Lemma payload_copy (bl : list block) (cur : nat) (b b' : block) (pos : Z)
    (d : list byte) :
  chain_wf bl -> bl !! cur = Some b -> 0 <= pos <= occupied b ->
  Z.of_nat (length d) + pos <= BLOCK_SIZE ->
  block_bytes b' = splice (block_bytes b) (Z.to_nat pos) d ->
  payload (<[cur := b']> bl)
  = splice (payload bl) (Z.to_nat (offset (Z.of_nat cur) pos)) d.
Proof.
  intros Hwf Hb Hpos Hfit Hb'.
  assert (Hbw : block_wf b) by eauto using chain_wf_lookup.
  assert (Hpre := prefix_length bl cur Hwf (lookup_lt_Some _ _ _ Hb)).
  assert (Hbb := block_bytes_length b Hbw).
  rewrite (payload_insert bl cur b b' Hb), Hb'.
  rewrite (payload_middle bl cur b Hb).
  set (Ppre := payload (take cur bl)) in *.
  set (bb := block_bytes b) in *.
  set (Ppost := payload (drop (S cur) bl)).
  assert (Hoff : Z.to_nat (offset (Z.of_nat cur) pos) = (length Ppre + Z.to_nat pos)%nat)
    by (unfold offset, BLOCK_SIZE in *; lia).
  unfold splice. rewrite Hoff.
  rewrite take_app_add', drop_app_ge by lia.
  rewrite <- !app_assoc. f_equal.
  rewrite take_app_le by lia. do 2 f_equal.
  replace (length Ppre + Z.to_nat pos + length d - length Ppre)%nat
    with (Z.to_nat pos + length d)%nat by lia.
  rewrite drop_app.
  destruct (decide (Z.to_nat pos + length d <= length bb)%nat) as [Hle|Hgt].
  - replace (Z.to_nat pos + length d - length bb)%nat with 0%nat by lia. done.
  - assert (HP : Ppost = []).
    { unfold Ppost. rewrite (partial_is_last bl cur b Hwf Hb); [done|].
      unfold BLOCK_SIZE in *. lia. }
    rewrite HP, drop_nil. done.
Qed.


Lemma chain_wf_insert (bl : list block) (cur : nat) (b b' : block) :
  chain_wf bl -> bl !! cur = Some b -> block_wf b' -> occupied b <= occupied b' ->
  chain_wf (<[cur := b']> bl).
Proof.
  intros (Hne & Hall & Hfull) Hb Hb' Hocc. split; [|split].
  - intros Heq. apply (f_equal length) in Heq. rewrite length_insert in Heq.
    destruct bl; [done|]. simpl in Heq. lia.
  - by apply Forall_insert.
  - intros i x Hx Hlt. rewrite length_insert in Hlt.
    destruct (decide (i = cur)) as [->|Hne'].
    + rewrite list_lookup_insert_eq in Hx by eauto using lookup_lt_Some.
      injection Hx as <-. specialize (Hfull _ _ Hb Hlt).
      destruct Hb' as [_ ?]. lia.
    + rewrite list_lookup_insert_ne in Hx by done. eauto.
Qed.

Lemma chain_wf_snoc (bl : list block) (cur : nat) (b : block) :
  chain_wf bl -> bl !! cur = Some b -> bl !! S cur = None ->
  occupied b = BLOCK_SIZE -> chain_wf (bl ++ [empty_block]).
Proof.
  intros (Hne & Hall & Hfull) Hb Hnone Hocc.
  assert (Hlen : length bl = S cur).
  { apply lookup_ge_None in Hnone. apply lookup_lt_Some in Hb. lia. }
  split; [|split].
  - by destruct bl.
  - apply Forall_app. split; [done|]. constructor; [apply empty_block_wf | constructor].
  - intros i x Hx Hlt. rewrite length_app in Hlt. simpl in Hlt.
    rewrite lookup_app_l in Hx by lia.
    destruct (decide (i = cur)) as [->|]; [congruence|].
    apply (Hfull i x Hx). lia.
Qed.

Lemma write_advance_spec (h : heap) (bl : list block) (cur : nat) (b : block)
    (pos : Z) :
  heap_unlimited h -> chain_wf bl -> bl !! cur = Some b -> 0 <= pos <= occupied b ->
  exists h' bl' cur' b' pos',
    write_advance h bl cur (Z.of_nat cur) pos = inr (h', bl', cur', Z.of_nat cur', pos')
    /\ heap_ok h' = heap_ok h /\ chain_wf bl' /\ bl' !! cur' = Some b'
    /\ 0 <= pos' <= occupied b' /\ pos' < BLOCK_SIZE
    /\ payload bl' = payload bl
    /\ offset (Z.of_nat cur') pos' = offset (Z.of_nat cur) pos.
Proof.
  intros Hh Hwf Hb Hpos. unfold write_advance.
  assert (Hbw : block_wf b) by eauto using chain_wf_lookup.
  destruct (pos =? BLOCK_SIZE) eqn:Hp.
  - apply Z.eqb_eq in Hp. destruct (bl !! S cur) as [b2|] eqn:Hnext.
    + assert (block_wf b2) as [_ ?] by eauto using chain_wf_lookup.
      exists h, bl, (S cur), b2, 0. rewrite Nat2Z.inj_succ, <- Z.add_1_r.
      split_and!; try done; unfold offset, BLOCK_SIZE in *; lia.
    + unfold expand_storage_unit, heap_alloc. cbn [heap_ok heap_tick].
      rewrite !Hh. cbn [negb].
      assert (Hlen : length bl = S cur).
      { apply lookup_ge_None in Hnext. apply lookup_lt_Some in Hb. lia. }
      eexists _, (bl ++ [empty_block]), (S cur), empty_block, 0.
      rewrite length_app, Hlen. cbn [length Nat.add Nat.pred].
      replace (cur + 1)%nat with (S cur) by lia.
      rewrite Nat2Z.inj_succ, <- Z.add_1_r.
      destruct Hbw as [_ ?].
      assert (Hpay : payload (bl ++ [empty_block]) = payload bl).
      { rewrite payload_app, payload_cons, payload_nil. unfold block_bytes, empty_block.
        cbn [occupied memory]. by rewrite take_0, !app_nil_r. }
      assert (Hlk : (bl ++ [empty_block]) !! S cur = Some empty_block).
      { rewrite lookup_app_r by lia. by rewrite Hlen, Nat.sub_diag. }
      assert (Hcw : chain_wf (bl ++ [empty_block])).
      { eapply chain_wf_snoc; eauto. lia. }
      split_and!; try done;
        unfold empty_block; cbn [occupied]; unfold offset, BLOCK_SIZE in *; lia.
  - apply Z.eqb_neq in Hp. destruct Hbw as [_ ?].
    exists h, bl, cur, b, pos. split_and!; try done; unfold offset, BLOCK_SIZE in *; lia.
Qed.

Lemma write_loop_done (fuel : nat) (buf : Z -> byte) (size : Z) (h : heap)
    (bl : list block) (cur : nat) (seg pos written : Z) :
  size <= written ->
  write_loop fuel buf size h bl cur seg pos written
  = Some (mk_wresult UFS_ERR_NO_ERR h bl seg pos written).
Proof.
  intros Hle. destruct fuel; simpl; by rewrite (proj2 (Z.ltb_ge written size)).
Qed.


(** ** The write loop on a well-formed chain *)

Lemma write_loop_spec (buf : Z -> byte) (size : Z) (fuel : nat) :
  forall (h : heap) (bl : list block) (cur : nat) (b : block) (pos written : Z),
    heap_unlimited h -> chain_wf bl -> bl !! cur = Some b ->
    0 <= pos <= occupied b -> 0 <= written <= size ->
    (Z.to_nat (size - written) <= fuel)%nat ->
    exists r,
      write_loop fuel buf size h bl cur (Z.of_nat cur) pos written = Some r
      /\ w_error r = UFS_ERR_NO_ERR /\ w_total r = size
      /\ heap_ok (w_heap r) = heap_ok h
      /\ chain_wf (w_blocks r)
      /\ cursor_ok (w_blocks r) (w_segment r) (w_pos r)
      /\ offset (w_segment r) (w_pos r) = offset (Z.of_nat cur) pos + (size - written)
      /\ payload (w_blocks r)
         = splice (payload bl) (Z.to_nat (offset (Z.of_nat cur) pos))
                  (buffer_bytes buf written (size - written)).
Proof.
  induction fuel as [|fuel IH]; intros h bl cur b pos written Hh Hwf Hb Hpos Hw Hfuel.
  - assert (written = size) as -> by lia. rewrite write_loop_done by lia.
    eexists. split; [done|]. cbn [w_error w_total w_heap w_blocks w_segment w_pos].
    rewrite Z.sub_diag, buffer_bytes_nil, splice_nil.
    split_and!; try done; try lia.
    split; [lia|]. exists b. by rewrite Nat2Z.id.
  - destruct (decide (size <= written)) as [Hdone|Hmore].
    { assert (written = size) as -> by lia. rewrite write_loop_done by lia.
      eexists. split; [done|]. cbn [w_error w_total w_heap w_blocks w_segment w_pos].
      rewrite Z.sub_diag, buffer_bytes_nil, splice_nil.
      split_and!; try done; try lia.
      split; [lia|]. exists b. by rewrite Nat2Z.id. }
    cbn [write_loop]. rewrite (proj2 (Z.ltb_lt written size)) by lia. cbn [negb].
    destruct (write_advance_spec h bl cur b pos Hh Hwf Hb Hpos)
      as (h' & bl' & cur' & b' & pos' & -> & Hh' & Hwf' & Hb' & Hpos' & Hlt' & Hpay' & Hoff').
    assert (Hbw' : block_wf b') by eauto using chain_wf_lookup.
    replace ((pos' <? 0) || (BLOCK_SIZE <? pos')) with false
      by (symmetry; apply orb_false_intro; [apply Z.ltb_ge|apply Z.ltb_ge]; lia).
    rewrite Hb'.
    set (rem := if size - written <? BLOCK_SIZE - pos' then size - written
                else BLOCK_SIZE - pos').
    assert (Hrem : 0 < rem /\ rem <= size - written /\ pos' + rem <= BLOCK_SIZE).
    { unfold rem. destruct (_ <? _) eqn:Hc; [apply Z.ltb_lt in Hc|apply Z.ltb_ge in Hc]; lia. }
    set (b2 := mk_block _ _).
    assert (Hb2 : block_bytes b2
                  = splice (block_bytes b') (Z.to_nat pos') (buffer_bytes buf written rem)).
    { apply block_bytes_copy; (done || lia). }
    assert (Hb2w : block_wf b2).
    { split; unfold b2; cbn [memory occupied].
      - apply copy_in_length; (done || lia).
      - destruct Hbw' as [_ ?]. destruct (_ >? _); lia. }
    assert (Hocc2 : occupied b' <= occupied b2 /\ pos' + rem <= occupied b2).
    { unfold b2; cbn [occupied]. destruct (_ >? _) eqn:Hc; lia. }
    assert (Hheap' : heap_unlimited h') by (intros k; by rewrite Hh').
    destruct (IH h' (<[cur' := b2]> bl') cur' b2 (pos' + rem) (written + rem))
      as (r & Hr & He & Ht & Hhr & Hwfr & Hcur & Hoffr & Hpayr); try done.
    { eapply chain_wf_insert; eauto. lia. }
    { apply list_lookup_insert_eq. eauto using lookup_lt_Some. }
    { lia. }
    { lia. }
    { lia. }
    exists r. split; [done|]. split_and!; try done.
    + congruence.
    + rewrite Hoffr, <- Hoff'. unfold offset. lia.
    + rewrite Hpayr.
      rewrite (payload_copy bl' cur' b' b2 pos' (buffer_bytes buf written rem));
        try done; [|rewrite buffer_bytes_length; lia].
      rewrite Hpay', <- Hoff'.
      replace (Z.to_nat (offset (Z.of_nat cur') (pos' + rem)))
        with (Z.to_nat (offset (Z.of_nat cur') pos')
              + length (buffer_bytes buf written rem))%nat
        by (rewrite buffer_bytes_length; unfold offset, BLOCK_SIZE; lia).
      rewrite splice_splice.
      * f_equal. replace (size - written) with (rem + (size - written - rem)) by lia.
        rewrite buffer_bytes_app by lia. do 2 f_equal. lia.
      * rewrite <- Hpay'. eapply offset_le_payload; eauto.
Qed.


(** ** The read loop on a well-formed chain *)

Lemma payload_from (bl : list block) (cur : nat) (b : block) (pos : Z) :
  chain_wf bl -> bl !! cur = Some b -> 0 <= pos <= occupied b ->
  drop (Z.to_nat (offset (Z.of_nat cur) pos)) (payload bl)
  = drop (Z.to_nat pos) (block_bytes b) ++ payload (drop (S cur) bl).
Proof.
  intros Hwf Hb Hpos.
  assert (Hpre := prefix_length bl cur Hwf (lookup_lt_Some _ _ _ Hb)).
  assert (Hbb := block_bytes_length b (chain_wf_lookup _ _ _ Hwf Hb)).
  rewrite (payload_middle bl cur b Hb).
  replace (Z.to_nat (offset (Z.of_nat cur) pos))
    with (length (payload (take cur bl)) + Z.to_nat pos)%nat
    by (unfold offset, BLOCK_SIZE in *; lia).
  rewrite drop_app_add, drop_app_le by lia. done.
Qed.

Lemma payload_window (bl : list block) (cur : nat) (b : block) (pos n : Z) :
  chain_wf bl -> bl !! cur = Some b -> 0 <= pos -> 0 <= n -> pos + n <= occupied b ->
  take (Z.to_nat n) (drop (Z.to_nat (offset (Z.of_nat cur) pos)) (payload bl))
  = take (Z.to_nat n) (drop (Z.to_nat pos) (memory b)).
Proof.
  intros Hwf Hb Hpos Hn Hfit.
  assert (Hbb := block_bytes_length b (chain_wf_lookup _ _ _ Hwf Hb)).
  rewrite (payload_from bl cur b pos) by (done || lia).
  rewrite take_app_le by (rewrite length_drop; lia).
  unfold block_bytes. rewrite !take_drop_commute, take_take. do 2 f_equal. lia.
Qed.

Lemma payload_end (bl : list block) (cur : nat) (b : block) :
  chain_wf bl -> bl !! cur = Some b -> drop (S cur) bl = [] ->
  drop (Z.to_nat (offset (Z.of_nat cur) (occupied b))) (payload bl) = [].
Proof.
  intros Hwf Hb Hlast.
  assert (Hbw := chain_wf_lookup _ _ _ Hwf Hb).
  rewrite (payload_from bl cur b) by (done || destruct Hbw; lia).
  rewrite Hlast, payload_nil, app_nil_r. apply drop_ge.
  rewrite block_bytes_length by done. lia.
Qed.

Lemma read_loop_done (fuel : nat) (size : Z) (bl : list block) (cur : nat)
    (seg pos rd : Z) (out : list byte) :
  size <= rd ->
  read_loop fuel size bl cur seg pos rd out = Some (mk_rresult seg pos rd out).
Proof.
  intros Hle. destruct fuel; simpl; by rewrite (proj2 (Z.ltb_ge rd size)).
Qed.

Lemma size_t_wrap_small (z : Z) : 0 <= z <= BLOCK_SIZE -> size_t_wrap z = z.
Proof. intros. unfold size_t_wrap. apply Z.mod_small. unfold BLOCK_SIZE in *. lia. Qed.

Lemma read_loop_spec (size : Z) (fuel : nat) :
  forall (bl : list block) (cur : nat) (b : block) (pos rd : Z) (out : list byte),
    chain_wf bl -> bl !! cur = Some b -> 0 <= pos <= occupied b ->
    0 <= rd <= size -> (Z.to_nat (size - rd) <= fuel)%nat ->
    exists r,
      read_loop fuel size bl cur (Z.of_nat cur) pos rd out = Some r
      /\ r_data r
         = out ++ take (Z.to_nat (size - rd))
                       (drop (Z.to_nat (offset (Z.of_nat cur) pos)) (payload bl))
      /\ Z.of_nat (length (r_data r)) = Z.of_nat (length out) + (r_total r - rd)
      /\ cursor_ok bl (r_segment r) (r_pos r)
      /\ offset (r_segment r) (r_pos r) = offset (Z.of_nat cur) pos + (r_total r - rd).
Proof.
  induction fuel as [|fuel IH]; intros bl cur b pos rd out Hwf Hb Hpos Hrd Hfuel.
  - assert (rd = size) as -> by lia. rewrite read_loop_done by lia.
    eexists. split; [done|]. cbn [r_data r_total r_segment r_pos].
    rewrite Z.sub_diag, take_0, app_nil_r. split_and!; try done; try lia.
    split; [lia|]. exists b. by rewrite Nat2Z.id.
  - destruct (decide (size <= rd)) as [Hdone|Hmore].
    { assert (rd = size) as -> by lia. rewrite read_loop_done by lia.
      eexists. split; [done|]. cbn [r_data r_total r_segment r_pos].
      rewrite Z.sub_diag, take_0, app_nil_r. split_and!; try done; try lia.
      split; [lia|]. exists b. by rewrite Nat2Z.id. }
    assert (Hbw : block_wf b) by eauto using chain_wf_lookup.
    cbn [read_loop]. rewrite (proj2 (Z.ltb_lt rd size)) by lia. cbn [negb].
    (* the block the iteration reads from, after the step to the next one *)
    assert (Hnext :
      (pos = BLOCK_SIZE /\ bl !! S cur = None) \/
      exists cur' b' pos',
        (if pos =? BLOCK_SIZE then
           match bl !! S cur with
           | None => inl ()
           | Some _ => inr (S cur, Z.of_nat cur + 1, 0)
           end
         else inr (cur, Z.of_nat cur, pos)) = inr (cur', Z.of_nat cur', pos')
        /\ bl !! cur' = Some b' /\ 0 <= pos' <= occupied b'
        /\ (pos' = occupied b' -> occupied b' < BLOCK_SIZE)
        /\ offset (Z.of_nat cur') pos' = offset (Z.of_nat cur) pos).
    { destruct (pos =? BLOCK_SIZE) eqn:Hp.
      - apply Z.eqb_eq in Hp. destruct (bl !! S cur) as [b2|] eqn:Hn; [|by left].
        right. exists (S cur), b2, 0.
        assert (block_wf b2) as [_ ?] by eauto using chain_wf_lookup.
        rewrite Nat2Z.inj_succ, <- Z.add_1_r.
        split_and!; try done; unfold offset, BLOCK_SIZE in *; lia.
      - apply Z.eqb_neq in Hp. right. exists cur, b, pos.
        destruct Hbw as [_ ?]. split_and!; try done; lia. }
    destruct Hnext as [[Hp Hn]|(cur' & b' & pos' & -> & Hb' & Hpos' & Hpart & Hoff')].
    + rewrite (proj2 (Z.eqb_eq pos BLOCK_SIZE)), Hn by done.
      eexists. split; [done|]. cbn [r_data r_total r_segment r_pos].
      assert (Hocc : occupied b = BLOCK_SIZE) by (destruct Hbw; lia).
      rewrite Hp, <- Hocc, payload_end; try done.
      * rewrite take_nil, app_nil_r. split_and!; try done; try lia.
        split; [lia|]. exists b. rewrite Nat2Z.id. split; [done|lia].
      * apply drop_ge. apply lookup_ge_None in Hn. lia.
    + assert (Hbw' : block_wf b') by eauto using chain_wf_lookup.
      rewrite Hb'. rewrite size_t_wrap_small by (destruct Hbw'; lia).
      set (bytes := if size - rd <? occupied b' - pos' then size - rd
                    else occupied b' - pos').
      assert (Hbytes : 0 <= bytes /\ bytes <= size - rd /\ pos' + bytes <= occupied b'
                       /\ (bytes = 0 -> pos' = occupied b')).
      { unfold bytes. destruct (_ <? _) eqn:Hc; [apply Z.ltb_lt in Hc|apply Z.ltb_ge in Hc]; lia. }
      destruct (bytes =? 0) eqn:Hz.
      * apply Z.eqb_eq in Hz. eexists. split; [done|].
        cbn [r_data r_total r_segment r_pos].
        assert (Heq : pos' = occupied b') by lia.
        rewrite <- Hoff', Heq, payload_end; try done.
        -- rewrite take_nil, app_nil_r. split_and!; try done; try lia.
           split; [lia|]. exists b'. rewrite Nat2Z.id. split; [done|lia].
        -- eapply partial_is_last; eauto.
      * apply Z.eqb_neq in Hz.
        replace ((pos' <? 0) || (Z.of_nat (length (memory b')) <? pos' + bytes)) with false.
        2:{ symmetry. apply orb_false_intro; apply Z.ltb_ge; [lia|].
            destruct Hbw' as [-> ?]. lia. }
        destruct (IH bl cur' b' (pos' + bytes) (rd + bytes)
                     (out ++ take (Z.to_nat bytes) (drop (Z.to_nat pos') (memory b'))))
          as (r & Hr & Hdata & Hlen & Hcur & Hoffr); try done; try lia.
        exists r. split; [done|]. split_and!; try done.
        -- rewrite Hdata, <- app_assoc. f_equal.
           rewrite <- (payload_window bl cur' b' pos' bytes) by (done || lia).
           rewrite <- Hoff'.
           replace (Z.to_nat (size - rd))
             with (Z.to_nat bytes + Z.to_nat (size - (rd + bytes)))%nat by lia.
           rewrite <- take_take_drop, drop_drop. do 3 f_equal.
           unfold offset, BLOCK_SIZE in *. lia.
        -- rewrite length_app, length_take_le in Hlen; [lia|].
           rewrite length_drop. destruct Hbw' as [-> ?]. lia.
        -- rewrite Hoffr, <- Hoff'. unfold offset. lia.
Qed.


(** ** The descriptor table *)

Lemma first_free_Some (t : list (option filedesc)) (i j : Z) :
  first_free t i = Some j ->
  exists n : nat, j = i + Z.of_nat n /\ t !! n = Some None
                  /\ forall m, (m < n)%nat -> is_Some (mjoin (t !! m)).
Proof.
  revert i. induction t as [|[d|] t IH]; intros i H; simpl in H; [done| |].
  - destruct (IH _ H) as (n & -> & Hn & Hlt). exists (S n).
    split; [lia|]. split; [done|]. intros [|m] Hm; simpl; [eauto|]. apply Hlt. lia.
  - injection H as <-. exists 0%nat. split; [lia|]. split; [done|]. intros m Hm. lia.
Qed.

Lemma first_free_None (t : list (option filedesc)) (i : Z) :
  first_free t i = None ->
  forall m, (m < length t)%nat -> is_Some (mjoin (t !! m)).
Proof.
  revert i. induction t as [|[d|] t IH]; intros i H m Hm; simpl in *; [lia| |done].
  destruct m as [|m]; simpl; [eauto|]. eapply IH; [done|lia].
Qed.

Lemma first_free_full_app (t : list (option filedesc)) (i : Z) (n : nat) :
  first_free t i = None -> (0 < n)%nat ->
  first_free (t ++ replicate n None) i = Some (i + Z.of_nat (length t)).
Proof.
  revert i. induction t as [|[d|] t IH]; intros i H Hn; simpl in *; [| |done].
  - destruct n; [lia|]. simpl. f_equal. lia.
  - rewrite IH by done. f_equal. lia.
Qed.

Ltac ufs_simpl :=
  cbn [ufs_error_code file_list file_descriptors file_descriptor_count next_addr
       ufs_heap set_error set_file_list set_descriptors set_count set_next_addr
       set_heap heap_ok heap_tick default from_option id fst snd negb] in *.


Lemma frame_refl (st : ufs) : frame st st.
Proof. by unfold frame. Qed.

Lemma frame_trans (st1 st2 st3 : ufs) : frame st1 st2 -> frame st2 st3 -> frame st1 st3.
Proof. unfold frame. intros (?&?&?&?) (?&?&?&?). split_and!; congruence. Qed.

Lemma mjoin_lookup_app_nones (t : list (option filedesc)) (n i : nat) :
  mjoin ((t ++ replicate n None) !! i) = mjoin (t !! i).
Proof.
  destruct (decide (i < length t)%nat).
  - by rewrite lookup_app_l.
  - rewrite lookup_app_r, (lookup_ge_None_2 t) by lia.
    destruct (replicate n None !! _) as [o|] eqn:Ho; [|done].
    apply lookup_replicate in Ho as [-> _]. done.
Qed.

Lemma adjust_container_capacity_spec (st st' : ufs) (e : ufs_error_code_t) :
  table_wf st -> adjust_container_capacity st = (e, st') ->
  table_wf st' /\ frame st st' /\ ufs_error_code st' = ufs_error_code st
  /\ (forall i, mjoin (descriptor_table st' !! i) = mjoin (descriptor_table st !! i))
  /\ (is_Some (file_descriptors st) -> is_Some (file_descriptors st'))
  /\ (e = UFS_ERR_NO_ERR ->
      file_descriptor_capacity st <= file_descriptor_count st ->
      descriptor_table st'
      = descriptor_table st
        ++ replicate (Z.to_nat (file_descriptor_capacity st)) None)
  /\ (e <> UFS_ERR_NO_ERR -> descriptor_table st' = descriptor_table st).
Proof.
  intros Hwf. unfold adjust_container_capacity.
  set (cap := file_descriptor_capacity st).
  set (target := if _ >=? _ then _ else _).
  destruct (target =? cap) eqn:Ht.
  { intros [= <- <-]. apply Z.eqb_eq in Ht. split_and!; try done; try apply frame_refl.
    intros _ Hfull. unfold target in Ht.
    rewrite (proj2 (Z.geb_le _ _)) in Ht by (fold cap; lia).
    unfold CAPACITY_MULTIPLIER in Ht. assert (cap = 0) as -> by lia.
    simpl. by rewrite app_nil_r. }
  apply Z.eqb_neq in Ht. unfold alloc, heap_alloc.
  destruct (heap_ok (ufs_heap st) (heap_tick (ufs_heap st))); cbn [negb];
    intros [= <- <-].
  2:{ split_and!; try done. }
  unfold table_wf, table_ok, frame in *.
  unfold file_descriptor_capacity, descriptor_table in *.
  ufs_simpl.
  destruct (file_descriptors st) as [t|] eqn:Hfd; ufs_simpl.
  2:{ exfalso. unfold target, cap, CAPACITY_MULTIPLIER in Ht. rewrite Hwf in Ht.
      simpl in Ht. done. }
  destruct Hwf as (Hc & Hpos & Htail).
  unfold target, CAPACITY_MULTIPLIER, DESCRIPTOR_POOL_START_SIZE in *.
  destruct (file_descriptor_count st >=? cap) eqn:Hge.
  - apply Z.geb_le in Hge. rewrite (proj2 (Z.gtb_lt _ _)) by lia.
    replace (cap * 2 - cap) with cap by lia.
    split_and!; try done; try (rewrite ?length_app, ?length_replicate; lia).
    + intros i Hi. rewrite mjoin_lookup_app_nones. by apply Htail.
    + intros i. apply mjoin_lookup_app_nones.
  - assert (Hlt : file_descriptor_count st < cap) by (rewrite Z.geb_leb in Hge; apply Z.leb_gt in Hge; lia).
    destruct ((file_descriptor_count st <? cap `quot` 2) && (cap >? 10)) eqn:Hsh; [|lia].
    apply andb_prop in Hsh as [Hsh1 Hsh2]. apply Z.ltb_lt in Hsh1. apply Z.gtb_lt in Hsh2.
    assert (Hq : cap `quot` 2 < cap /\ 5 <= cap `quot` 2).
    { rewrite Z.quot_div_nonneg by lia. split.
      - apply Z.div_lt; lia.
      - apply Z.div_le_lower_bound; lia. }
    rewrite Z.gtb_ltb, (proj2 (Z.ltb_ge _ _)) by lia.
    split_and!; try done; try (rewrite ?length_take; lia).
    + intros i Hi. destruct (decide (i < Z.to_nat (cap `quot` 2))%nat).
      * rewrite lookup_take_lt by done. by apply Htail.
      * by rewrite lookup_take_ge by lia.
    + intros i. destruct (decide (i < Z.to_nat (cap `quot` 2))%nat).
      * by rewrite lookup_take_lt.
      * rewrite lookup_take_ge by lia. symmetry. apply Htail. lia.
Qed.


Lemma table_full_count (st : ufs) (t : list (option filedesc)) :
  table_wf st -> file_descriptors st = Some t -> first_free t 0 = None ->
  file_descriptor_count st = Z.of_nat (length t).
Proof.
  unfold table_wf. intros Hwf Hfd Hfull. rewrite Hfd in Hwf.
  destruct Hwf as (Hc & Hpos & Htail).
  destruct (decide (file_descriptor_count st = Z.of_nat (length t))) as [|Hne]; [done|].
  destruct (first_free_None t 0 Hfull (Z.to_nat (file_descriptor_count st))) as [d Hd]; [lia|].
  rewrite Htail in Hd by lia. done.
Qed.

Lemma open_slot_spec (st st' : ufs) (fd : Z) :
  table_wf st -> is_Some (file_descriptors st) -> open_slot st = (st', Some fd) ->
  table_wf st' /\ frame st st' /\ is_Some (file_descriptors st')
  /\ (forall i, mjoin (descriptor_table st' !! i) = mjoin (descriptor_table st !! i))
  /\ 0 <= fd <= file_descriptor_count st
  /\ (Z.to_nat fd < length (descriptor_table st'))%nat
  /\ slot_free st (Z.to_nat fd)
  /\ (forall m, (m < Z.to_nat fd)%nat -> ~ slot_free st m)
  /\ (descriptor_table st' = descriptor_table st
      \/ (fd = file_descriptor_capacity st
          /\ descriptor_table st'
             = descriptor_table st
               ++ replicate (Z.to_nat (file_descriptor_capacity st)) None)).
Proof.
  intros Hwf [t Hfd]. unfold open_slot, smallest_fd. rewrite Hfd.
  assert (Htab : descriptor_table st = t) by (unfold descriptor_table; by rewrite Hfd).
  destruct (first_free t 0) as [j|] eqn:Hff.
  - rewrite Htab, Hff. cbn [default from_option id].
    destruct (first_free_Some _ _ _ Hff) as (n & -> & Hn & Hbefore).
    rewrite Z.add_0_l. replace (Z.of_nat n =? -1) with false by (symmetry; apply Z.eqb_neq; lia).
    intros [= <- <-]. rewrite Nat2Z.id.
    assert (Hnc : Z.of_nat n <= file_descriptor_count st).
    { unfold table_wf in Hwf. rewrite Hfd in Hwf. destruct Hwf as (Hc & Hpos & Htail).
      destruct (decide (Z.of_nat n <= file_descriptor_count st)); [done|].
      destruct (Hbefore (Z.to_nat (file_descriptor_count st))) as [d Hd]; [lia|].
      rewrite Htail in Hd by lia. done. }
    split_and!;
      [ done | apply frame_refl | by eexists | intros i; by rewrite Htab | lia | lia
      | rewrite Htab; eauto using lookup_lt_Some
      | unfold slot_free; by rewrite Htab, Hn
      | unfold slot_free; rewrite Htab; intros m Hm Hf;
        destruct (Hbefore m Hm) as [d Hd]; congruence
      | by left ].
  - assert (Hcount := table_full_count st t Hwf Hfd Hff).
    assert (Hcap : file_descriptor_capacity st = Z.of_nat (length t))
      by (unfold file_descriptor_capacity; by rewrite Htab).
    rewrite Hcap, Hcount, Z.eqb_refl.
    assert (Hpos : (0 < length t)%nat).
    { unfold table_wf in Hwf. rewrite Hfd in Hwf. by destruct Hwf as (_ & ? & _). }
    assert (Hfree : slot_free st (length t)).
    { unfold slot_free. by rewrite Htab, lookup_ge_None_2. }
    assert (Hused : forall m, (m < length t)%nat -> ~ slot_free st m).
    { unfold slot_free. rewrite Htab. intros m Hm Hf.
      destruct (first_free_None t 0 Hff m Hm) as [d Hd]. congruence. }
    destruct (adjust_container_capacity st) as [e st1] eqn:Hadj.
    destruct (adjust_container_capacity_spec st st1 e Hwf Hadj)
      as (Hwf1 & Hfr1 & _ & Hlk1 & Hsome1 & Hgrow1 & Hfail1).
    assert (Hcount1 : file_descriptor_count st1 = Z.of_nat (length t))
      by (destruct Hfr1 as (_ & -> & _); done).
    destruct (decide (e = UFS_ERR_NO_ERR)) as [->|Hne].
    + assert (Htab1 : descriptor_table (set_error UFS_ERR_NO_ERR st1)
                      = t ++ replicate (length t) None).
      { unfold descriptor_table at 1. ufs_simpl. fold (descriptor_table st1).
        rewrite Hgrow1, Htab, Hcap, Nat2Z.id by (done || lia). done. }
      cbv beta iota zeta. rewrite Htab1.
      rewrite first_free_full_app by (done || lia). cbn [default from_option id].
      rewrite Z.add_0_l.
      replace (Z.of_nat (length t) =? -1) with false by (symmetry; apply Z.eqb_neq; lia).
      intros [= <- <-]. rewrite ?Nat2Z.id.
      split_and!;
        [ done | done | apply Hsome1; by eauto | done | lia | lia
        | rewrite Htab1, length_app, length_replicate; lia
        | done | done
        | right; split; [done|]; by rewrite Htab1, Htab ].
    + assert (Htab1 : descriptor_table (set_error e st1) = t) by (rewrite <- Htab; auto).
      replace (match e with UFS_ERR_NO_ERR => _ | _ => _ end) with (-1, set_error e st1)
        by (by destruct e).
      rewrite Htab1, Hff. cbn [default from_option id]. rewrite Z.eqb_refl.
      destruct (adjust_container_capacity (set_error e st1)) as [e2 st2] eqn:Hadj2.
      destruct (adjust_container_capacity_spec (set_error e st1) st2 e2 Hwf1 Hadj2)
        as (Hwf2 & Hfr2 & _ & Hlk2 & Hsome2 & Hgrow2 & _).
      assert (Hcount2 : file_descriptor_count st2 = Z.of_nat (length t))
        by (destruct Hfr2 as (_ & -> & _); done).
      destruct e2; intros [= <- <-].
      assert (Hcap1 : file_descriptor_capacity (set_error e st1) = Z.of_nat (length t))
        by (unfold file_descriptor_capacity; by rewrite Htab1).
      rewrite Hcap1 in Hgrow2. ufs_simpl. rewrite Htab1 in Hgrow2.
      rewrite Hcount2, Nat2Z.id.
      specialize (Hgrow2 eq_refl ltac:(lia)). rewrite Nat2Z.id in Hgrow2.
      split_and!;
        [ done | eapply frame_trans; [exact Hfr1|exact Hfr2]
        | apply Hsome2, Hsome1; by eauto
        | intros i; rewrite Hlk2; apply Hlk1 | lia | lia
        | rewrite Hgrow2, length_app, length_replicate; lia
        | done | done
        | right; split; [done|]; by rewrite Hgrow2, Htab ].
Qed.


(** ** Opening a file *)

Lemma mkfile_spec (st st' : ufs) (fname : string) (a : nat) :
  mkfile st fname = (Some a, st') ->
  a = next_addr st
  /\ file_list st' = mk_file a [empty_block] 0 fname false :: file_list st
  /\ next_addr st' = S a
  /\ file_descriptors st' = file_descriptors st
  /\ file_descriptor_count st' = file_descriptor_count st
  /\ heap_ok (ufs_heap st') = heap_ok (ufs_heap st).
Proof.
  unfold mkfile, alloc, expand_storage_unit, heap_alloc. ufs_simpl.
  repeat (match goal with
          | |- context [negb (heap_ok ?h ?k)] => destruct (heap_ok h k)
          end; ufs_simpl; try done).
  intros [= <- <-]. ufs_simpl. done.
Qed.

Lemma mkfile_progress (st : ufs) (fname : string) :
  heap_unlimited (ufs_heap st) -> exists a st', mkfile st fname = (Some a, st').
Proof.
  intros Hh. unfold mkfile, alloc, expand_storage_unit, heap_alloc. ufs_simpl.
  rewrite !Hh. ufs_simpl. eauto.
Qed.

Lemma find_file_list (st st' : ufs) (fname : string) :
  file_list st' = file_list st -> find st' fname = find st fname.
Proof. unfold find. by intros ->. Qed.

Lemma open_target_spec (st st' : ufs) (filename : string) (fl : Z) (a : nat) :
  table_wf st -> open_target st filename fl = (st', Some a) ->
  table_wf st' /\ is_Some (file_descriptors st')
  /\ file_descriptor_count st' = file_descriptor_count st
  /\ heap_ok (ufs_heap st') = heap_ok (ufs_heap st)
  /\ (forall i, mjoin (descriptor_table st' !! i) = mjoin (descriptor_table st !! i))
  /\ (file_descriptors st' = file_descriptors st
      \/ (file_descriptors st = None /\
          file_descriptors st'
          = Some (replicate (Z.to_nat DESCRIPTOR_POOL_START_SIZE) None)))
  /\ ((exists f, find st filename = Some f /\ a = addr f
                 /\ file_list st' = file_list st /\ next_addr st' = next_addr st)
      \/ (find st filename = None /\ Z.land fl UFS_CREATE <> 0 /\ a = next_addr st
          /\ file_list st' = mk_file a [empty_block] 0 filename false :: file_list st
          /\ next_addr st' = S a)).
Proof.
  intros Hwf. unfold open_target.
  (* the table after the set-up on first use *)
  assert (Hsetup : exists e0 st0,
    match file_descriptors st with
    | None => let '(e, st1) := fd_setup st in (e, set_error e st1)
    | Some _ => (UFS_ERR_NO_ERR, st)
    end = (e0, st0)
    /\ (e0 = UFS_ERR_NO_ERR ->
        table_wf st0 /\ is_Some (file_descriptors st0)
        /\ file_descriptor_count st0 = file_descriptor_count st
        /\ heap_ok (ufs_heap st0) = heap_ok (ufs_heap st)
        /\ (forall i, mjoin (descriptor_table st0 !! i) = mjoin (descriptor_table st !! i))
        /\ (file_descriptors st0 = file_descriptors st
            \/ (file_descriptors st = None /\
                file_descriptors st0
                = Some (replicate (Z.to_nat DESCRIPTOR_POOL_START_SIZE) None)))
        /\ file_list st0 = file_list st /\ next_addr st0 = next_addr st)).
  { destruct (file_descriptors st) as [t|] eqn:Hfd.
    - exists UFS_ERR_NO_ERR, st. split; [done|]. intros _.
      split_and!; try done; try (by rewrite ?Hfd); by left.
    - unfold fd_setup, alloc, heap_alloc. ufs_simpl.
      destruct (heap_ok _ _); ufs_simpl; eexists _, _; (split; [done|]); [|done].
      intros _. unfold table_wf, table_ok, descriptor_table in *. rewrite Hfd in *.
      ufs_simpl. rewrite length_replicate.
      split_and!; try done; unfold DESCRIPTOR_POOL_START_SIZE; try lia.
      + intros i _. destruct (replicate _ _ !! i) as [o|] eqn:Ho; [|done].
        by apply lookup_replicate in Ho as [-> _].
      + intros i. rewrite lookup_nil. destruct (replicate _ _ !! i) as [o|] eqn:Ho; [|done].
        by apply lookup_replicate in Ho as [-> _].
      + by right. }
  destruct Hsetup as (e0 & st0 & -> & H0).
  destruct (decide (e0 = UFS_ERR_NO_ERR)) as [->|Hne]; [|by destruct e0].
  destruct (H0 eq_refl) as (Hwf0 & Hs0 & Hc0 & Hh0 & Hlk0 & Ht0 & Hfl0 & Hna0). clear H0.
  rewrite (find_file_list st st0 filename Hfl0).
  destruct (find st filename) as [f|] eqn:Hfind.
  - rewrite bool_decide_eq_false_2 by done. cbn [andb]. intros [= <- <-].
    split_and!; try done. left. by exists f.
  - rewrite bool_decide_eq_true_2 by done. cbn [andb].
    destruct (Z.land fl UFS_CREATE =? 0) eqn:Hcr; [done|]. apply Z.eqb_neq in Hcr.
    destruct (mkfile st0 filename) as [[a'|] st1] eqn:Hmk; [|done].
    intros [= <- <-].
    destruct (mkfile_spec _ _ _ _ Hmk) as (-> & Hfl1 & Hna1 & Hfd1 & Hc1 & Hh1).
    assert (Htab1 : descriptor_table st1 = descriptor_table st0)
      by (unfold descriptor_table; by rewrite Hfd1).
    split_and!.
    + unfold table_wf. by rewrite Hfd1, Hc1.
    + by rewrite Hfd1.
    + congruence.
    + congruence.
    + intros i. by rewrite Htab1.
    + by rewrite Hfd1.
    + right. rewrite Hna0 in *. rewrite Hfl0 in Hfl1. done.
Qed.


Lemma table_wf_install (t : list (option filedesc)) (count fd : Z) (d : filedesc) :
  table_ok (Some t) count -> 0 <= fd <= count -> (Z.to_nat fd < length t)%nat ->
  table_ok (Some (<[Z.to_nat fd := Some d]> t))
           (if fd =? count then count + 1 else count).
Proof.
  intros (Hc & Hpos & Htail) Hfd Hlt. unfold table_ok. rewrite length_insert.
  destruct (fd =? count) eqn:He; [apply Z.eqb_eq in He|apply Z.eqb_neq in He].
  - split_and!; try lia. intros i Hi. rewrite list_lookup_insert_ne by lia.
    apply Htail. lia.
  - split_and!; try lia. intros i Hi. rewrite list_lookup_insert_ne by lia.
    by apply Htail.
Qed.

Lemma ufs_open_spec (st st' : ufs) (filename : string) (fl fd : Z) :
  table_wf st -> ufs_open st filename fl = (st', fd) -> fd <> -1 ->
  exists (a : nat) (files : list file) (t0 : list (option filedesc)),
    ((exists f, find st filename = Some f /\ a = addr f
                /\ files = file_list st /\ next_addr st' = next_addr st)
     \/ (find st filename = None /\ Z.land fl UFS_CREATE <> 0 /\ a = next_addr st
         /\ files = mk_file a [empty_block] 0 filename false :: file_list st
         /\ next_addr st' = S a))
    /\ file_list st' = store a (fun f => set_refs (refs f + 1) f) files
    /\ 0 <= fd <= file_descriptor_count st
    /\ slot_free st (Z.to_nat fd)
    /\ (forall m, (m < Z.to_nat fd)%nat -> ~ slot_free st m)
    /\ file_descriptors st' = Some (<[Z.to_nat fd := Some (mk_filedesc a 0 fl 0)]> t0)
    /\ (Z.to_nat fd < length t0)%nat
    /\ (forall i, mjoin (t0 !! i) = mjoin (descriptor_table st !! i))
    /\ file_descriptor_count st'
       = (if fd =? file_descriptor_count st then file_descriptor_count st + 1
          else file_descriptor_count st)
    /\ table_wf st'
    /\ heap_ok (ufs_heap st') = heap_ok (ufs_heap st)
    /\ ufs_error_code st' = UFS_ERR_NO_ERR.
Proof.
  intros Hwf. unfold ufs_open.
  destruct (open_target st filename fl) as [st1 [a|]] eqn:Htgt; [|by intros [= <- <-]].
  destruct (open_target_spec _ _ _ _ _ Hwf Htgt)
    as (Hwf1 & Hs1 & Hc1 & Hh1 & Hlk1 & _ & Hfile).
  destruct (open_slot st1) as [st2 [free_fd|]] eqn:Hslot; [|by intros [= <- <-]].
  destruct (open_slot_spec _ _ _ Hwf1 Hs1 Hslot)
    as (Hwf2 & (Hfl2 & Hc2 & Hna2 & Hh2) & [t2 Ht2] & Hlk2 & Hfd & Hlen & Hfree & Hused & _).
  assert (Htab2 : descriptor_table st2 = t2) by (unfold descriptor_table; by rewrite Ht2).
  unfold open_install, create_descriptor, alloc, heap_alloc. ufs_simpl.
  destruct (heap_ok _ _); ufs_simpl; [|by intros [= <- <-]].
  rewrite Htab2 in Hlen.
  unfold descriptor_table. ufs_simpl. rewrite Ht2. ufs_simpl.
  assert (Hcnt : file_descriptor_count st2 = file_descriptor_count st) by congruence.
  rewrite Hcnt.
  assert (Hwf' : table_ok (Some (<[Z.to_nat free_fd := Some (mk_filedesc a 0 fl 0)]> t2))
                   (if free_fd =? file_descriptor_count st
                    then file_descriptor_count st + 1 else file_descriptor_count st)).
  { apply table_wf_install; [|lia|done].
    unfold table_wf in Hwf2. by rewrite Ht2, Hcnt in Hwf2. }
  assert (Hfree' : slot_free st (Z.to_nat free_fd))
    by (unfold slot_free in *; by rewrite <- Hlk1).
  assert (Hused' : forall m, (m < Z.to_nat free_fd)%nat -> ~ slot_free st m)
    by (unfold slot_free in *; intros m Hm; rewrite <- Hlk1; by apply Hused).
  assert (Hlk' : forall i, mjoin (t2 !! i) = mjoin (default [] (file_descriptors st) !! i)).
  { intros i. rewrite <- Htab2, Hlk2. apply Hlk1. }
  assert (Hfile' :
    (exists f, find st filename = Some f /\ a = addr f
               /\ file_list st1 = file_list st /\ next_addr st2 = next_addr st)
    \/ (find st filename = None /\ Z.land fl UFS_CREATE <> 0 /\ a = next_addr st
        /\ file_list st1 = mk_file a [empty_block] 0 filename false :: file_list st
        /\ next_addr st2 = S a)).
  { destruct Hfile as [(f & ? & ? & ? & ?)|(? & ? & ? & ? & ?)].
    - left. exists f. split_and!; try done. congruence.
    - right. split_and!; try done. congruence. }
  destruct (free_fd =? file_descriptor_count st) eqn:Heq; ufs_simpl;
    intros [= <- <-] _; ufs_simpl; rewrite ?Heq;
    exists a, (file_list st1), t2; rewrite Hfl2;
    (split_and!; try exact Hfile'; try done; try lia; try congruence;
     unfold table_wf; ufs_simpl; by rewrite ?Hcnt).
Qed.


Lemma adjust_container_capacity_progress (st : ufs) :
  heap_unlimited (ufs_heap st) ->
  exists st', adjust_container_capacity st = (UFS_ERR_NO_ERR, st')
              /\ heap_ok (ufs_heap st') = heap_ok (ufs_heap st).
Proof.
  intros Hh. unfold adjust_container_capacity, alloc, heap_alloc.
  destruct (_ =? _); [by eexists|]. rewrite Hh. ufs_simpl. by eexists.
Qed.

Lemma open_slot_progress (st : ufs) :
  heap_unlimited (ufs_heap st) -> exists st' fd, open_slot st = (st', Some fd).
Proof.
  intros Hh. unfold open_slot.
  assert (Hs : exists fd st1, smallest_fd st = (fd, st1)
                              /\ heap_unlimited (ufs_heap st1)).
  { unfold smallest_fd. destruct (file_descriptors st); [|by eauto].
    destruct (first_free _ _); [by eauto|]. destruct (_ =? _); [|by eauto].
    destruct (adjust_container_capacity_progress st Hh) as (st1 & -> & Hh1).
    eexists _, _. split; [done|]. intros k. ufs_simpl. by rewrite Hh1. }
  destruct Hs as (fd & st1 & -> & Hh1).
  destruct (_ =? -1); [|by eauto].
  destruct (adjust_container_capacity_progress st1 Hh1) as (st2 & -> & _). eauto.
Qed.

Lemma open_target_progress (st : ufs) (filename : string) (fl : Z) :
  heap_unlimited (ufs_heap st) ->
  is_Some (find st filename) \/ Z.land fl UFS_CREATE <> 0 ->
  exists st' a, open_target st filename fl = (st', Some a).
Proof.
  intros Hh Hcan. unfold open_target.
  assert (Hs : exists st0,
    match file_descriptors st with
    | None => let '(e, st1) := fd_setup st in (e, set_error e st1)
    | Some _ => (UFS_ERR_NO_ERR, st)
    end = (UFS_ERR_NO_ERR, st0)
    /\ heap_unlimited (ufs_heap st0) /\ file_list st0 = file_list st).
  { destruct (file_descriptors st); [by eauto|].
    unfold fd_setup, alloc, heap_alloc. rewrite Hh. ufs_simpl.
    eexists. split; [done|]. split; [|done]. intros k. ufs_simpl. apply Hh. }
  destruct Hs as (st0 & -> & Hh0 & Hfl0).
  rewrite (find_file_list st st0 filename Hfl0).
  destruct (find st filename) as [f|] eqn:Hfind.
  - rewrite bool_decide_eq_false_2 by done. cbn [andb]. eauto.
  - rewrite bool_decide_eq_true_2 by done. cbn [andb].
    destruct Hcan as [[? ?]|Hcr]; [done|].
    rewrite (proj2 (Z.eqb_neq _ _) Hcr).
    destruct (mkfile_progress st0 filename Hh0) as (a & st1 & ->). eauto.
Qed.

Lemma ufs_open_progress (st : ufs) (filename : string) (fl : Z) :
  table_wf st -> heap_unlimited (ufs_heap st) ->
  is_Some (find st filename) \/ Z.land fl UFS_CREATE <> 0 ->
  exists st' fd, ufs_open st filename fl = (st', fd) /\ fd <> -1.
Proof.
  intros Hwf Hh Hcan. unfold ufs_open.
  destruct (open_target_progress st filename fl Hh Hcan) as (st1 & a & Htgt).
  rewrite Htgt.
  destruct (open_target_spec _ _ _ _ _ Hwf Htgt) as (Hwf1 & Hs1 & _ & Hh1 & _).
  assert (Hu1 : heap_unlimited (ufs_heap st1)) by (intros k; by rewrite Hh1).
  destruct (open_slot_progress st1 Hu1) as (st2 & fd & Hslot). rewrite Hslot.
  destruct (open_slot_spec _ _ _ Hwf1 Hs1 Hslot) as (_ & (_ & _ & _ & Hh2) & _ & _ & Hfd & _).
  unfold open_install, create_descriptor, alloc, heap_alloc.
  rewrite Hh2, Hu1. ufs_simpl. eexists _, _. split; [done|]. lia.
Qed.


(** ** File objects and descriptors *)

Lemma deref_addr (l : list file) (a : nat) (f : file) :
  deref l a = Some f -> addr f = a.
Proof.
  unfold deref. intros H. apply find_some in H as [_ H]. by apply Nat.eqb_eq in H.
Qed.

Lemma deref_head (f : file) (l : list file) : deref (f :: l) (addr f) = Some f.
Proof. unfold deref. simpl. by rewrite Nat.eqb_refl. Qed.

Lemma store_head (f : file) (l : list file) (g : file -> file) :
  store (addr f) g (f :: l) = g f :: l.
Proof. simpl. by rewrite Nat.eqb_refl. Qed.

Lemma deref_store_same (l : list file) (a : nat) (g : file -> file) (f : file) :
  (forall x, addr (g x) = addr x) -> deref l a = Some f ->
  deref (store a g l) a = Some (g f).
Proof.
  intros Hg. unfold deref. induction l as [|x l IH]; simpl; intros H; [done|].
  destruct (Nat.eqb (addr x) a) eqn:He; simpl.
  - rewrite Hg, He. by injection H as ->.
  - rewrite He. by apply IH.
Qed.

Lemma deref_store_other (l : list file) (a b : nat) (g : file -> file) :
  (forall x, addr (g x) = addr x) -> a <> b -> deref (store a g l) b = deref l b.
Proof.
  intros Hg Hne. unfold deref. induction l as [|x l IH]; simpl; [done|].
  destruct (Nat.eqb (addr x) a) eqn:He; simpl.
  - rewrite Hg. apply Nat.eqb_eq in He.
    by rewrite (proj2 (Nat.eqb_neq (addr x) b)) by lia.
  - by rewrite IH.
Qed.

Lemma locate_descriptor_Some (st : ufs) (fd : Z) (d : filedesc) :
  locate_descriptor st fd = Some d <->
  0 <= fd < file_descriptor_count st
  /\ descriptor_table st !! Z.to_nat fd = Some (Some d).
Proof.
  unfold locate_descriptor. split.
  - destruct (_ && _) eqn:Hb; [|done]. apply andb_prop in Hb as [H1 H2].
    apply Z.leb_le in H1. apply Z.ltb_lt in H2.
    destruct (_ !! _) as [[x|]|]; try done. intros [= ->]. done.
  - intros [[H1 H2] Hl]. rewrite (proj2 (Z.leb_le _ _) H1), (proj2 (Z.ltb_lt _ _) H2), Hl.
    done.
Qed.

Lemma table_wf_update (st : ufs) (fd : Z) (d d' : filedesc) :
  table_wf st -> locate_descriptor st fd = Some d ->
  table_ok (Some (<[Z.to_nat fd := Some d']> (descriptor_table st)))
           (file_descriptor_count st).
Proof.
  intros Hwf [Hfd Hl]%locate_descriptor_Some. unfold table_wf, descriptor_table in *.
  destruct (file_descriptors st) as [t|]; ufs_simpl; [|by rewrite lookup_nil in Hl].
  destruct Hwf as (Hc & Hpos & Htail). unfold table_ok. rewrite length_insert.
  split_and!; try lia; try done.
  intros i Hi. rewrite list_lookup_insert_ne by lia. by apply Htail.
Qed.

(** ** Writing through a descriptor *)

Lemma ufs_write_spec (st : ufs) (fd : Z) (d : filedesc) (f : file)
    (buf : Z -> byte) (size : Z) :
  locate_descriptor st fd = Some d -> is_writable (Some d) = true ->
  deref (file_list st) (fd_file d) = Some f ->
  chain_wf (block_list f) ->
  cursor_ok (block_list f) (curr_data_segment d) (byte_pos d) ->
  heap_unlimited (ufs_heap st) -> 0 <= size ->
  (forall b, block_list f !! Z.to_nat (curr_data_segment d) = Some b ->
             occupied b + curr_data_segment d * BLOCK_SIZE + size <= MAX_FILE_SIZE) ->
  exists st' bl' seg' pos',
    ufs_write st fd buf size = Some (st', size)
    /\ file_list st' = store (addr f) (set_blocks bl') (file_list st)
    /\ chain_wf bl'
    /\ payload bl'
       = splice (payload (block_list f))
                (Z.to_nat (offset (curr_data_segment d) (byte_pos d)))
                (buffer_bytes buf 0 size)
    /\ file_descriptors st'
       = Some (<[Z.to_nat fd := Some (set_cursor seg' pos' d)]> (descriptor_table st))
    /\ cursor_ok bl' seg' pos'
    /\ offset seg' pos' = offset (curr_data_segment d) (byte_pos d) + size
    /\ file_descriptor_count st' = file_descriptor_count st
    /\ next_addr st' = next_addr st
    /\ heap_ok (ufs_heap st') = heap_ok (ufs_heap st)
    /\ ufs_error_code st' = UFS_ERR_NO_ERR.
Proof.
  intros Hloc Hw Hf Hwf (Hseg & b & Hb & Hpos) Hh Hsize Hcap.
  unfold ufs_write. rewrite Hloc, Hw. cbn [negb]. rewrite Hf. cbn [mbind option_bind].
  rewrite Hb. cbn [mbind option_bind].
  specialize (Hcap b Hb).
  assert (Hbw : block_wf b) by eauto using chain_wf_lookup.
  assert (Hwrap : size_t_wrap (occupied b + curr_data_segment d * BLOCK_SIZE + size)
                  = occupied b + curr_data_segment d * BLOCK_SIZE + size).
  { unfold size_t_wrap. apply Z.mod_small. destruct Hbw as [_ ?].
    unfold BLOCK_SIZE, MAX_FILE_SIZE in *. lia. }
  rewrite Hwrap. rewrite Z.gtb_ltb, (proj2 (Z.ltb_ge _ _)) by lia.
  destruct (write_loop_spec buf size (Z.to_nat size) (ufs_heap st) (block_list f)
              (Z.to_nat (curr_data_segment d)) b (byte_pos d) 0)
    as (r & Hr & He & Ht & Hhr & Hwfr & Hcur & Hoff & Hpay); try done; try lia.
  rewrite Z2Nat.id in * by lia. rewrite Hr. cbn [mbind option_bind]. ufs_simpl.
  rewrite Z.sub_0_r in *.
  eexists _, (w_blocks r), (w_segment r), (w_pos r).
  rewrite Ht, He. split_and!; done.
Qed.


(** ** Reading through a descriptor *)

Lemma ufs_read_spec (st : ufs) (fd : Z) (d : filedesc) (f : file) (size : Z) :
  locate_descriptor st fd = Some d -> is_readable (Some d) = true ->
  deref (file_list st) (fd_file d) = Some f ->
  chain_wf (block_list f) ->
  cursor_ok (block_list f) (curr_data_segment d) (byte_pos d) ->
  0 <= size ->
  exists st' seg' pos' data,
    ufs_read st fd size = Some (st', Z.of_nat (length data), data)
    /\ data = take (Z.to_nat size)
                   (drop (Z.to_nat (offset (curr_data_segment d) (byte_pos d)))
                         (payload (block_list f)))
    /\ file_list st' = file_list st
    /\ file_descriptors st'
       = Some (<[Z.to_nat fd := Some (set_cursor seg' pos' d)]> (descriptor_table st))
    /\ cursor_ok (block_list f) seg' pos'
    /\ offset seg' pos'
       = offset (curr_data_segment d) (byte_pos d) + Z.of_nat (length data)
    /\ file_descriptor_count st' = file_descriptor_count st
    /\ next_addr st' = next_addr st
    /\ ufs_heap st' = ufs_heap st
    /\ ufs_error_code st' = UFS_ERR_NO_ERR.
Proof.
  intros Hloc Hr Hf Hwf (Hseg & b & Hb & Hpos) Hsize.
  unfold ufs_read. rewrite Hloc, Hr. cbn [negb]. rewrite Hf. cbn [mbind option_bind].
  rewrite Hb. cbn [mbind option_bind].
  destruct (read_loop_spec size (Z.to_nat size) (block_list f)
              (Z.to_nat (curr_data_segment d)) b (byte_pos d) 0 [])
    as (r & Hrl & Hdata & Hlen & Hcur & Hoff); try done; try lia.
  rewrite Z2Nat.id in * by lia. rewrite Hrl. cbn [mbind option_bind]. ufs_simpl.
  rewrite Z.sub_0_r, app_nil_l in *. cbn [length] in Hlen.
  eexists _, (r_segment r), (r_pos r), (r_data r).
  replace (r_total r) with (Z.of_nat (length (r_data r))) by lia.
  split_and!; try done. lia.
Qed.

Lemma take_nil_inv_pos {A} (l : list A) (n : nat) : (0 < n)%nat -> take n l = [] -> l = [].
Proof. intros Hn H. destruct l; [done|]. destruct n; [lia|done]. Qed.

Lemma read_until_eof_spec (fd chunk : Z) (f : file) (fuel : nat) :
  0 < chunk -> chain_wf (block_list f) ->
  forall (st : ufs) (d : filedesc),
    locate_descriptor st fd = Some d -> is_readable (Some d) = true ->
    deref (file_list st) (fd_file d) = Some f ->
    cursor_ok (block_list f) (curr_data_segment d) (byte_pos d) ->
    (length (drop (Z.to_nat (offset (curr_data_segment d) (byte_pos d)))
                  (payload (block_list f))) < fuel)%nat ->
    exists st',
      read_until_eof fuel st fd chunk
      = Some (st', drop (Z.to_nat (offset (curr_data_segment d) (byte_pos d)))
                        (payload (block_list f))).
Proof.
  intros Hchunk Hwf. induction fuel as [|fuel IH]; intros st d Hloc Hr Hf Hcur Hfuel; [lia|].
  destruct (ufs_read_spec st fd d f chunk Hloc Hr Hf Hwf Hcur ltac:(lia))
    as (st' & seg' & pos' & data & Hread & Hdata & Hfl & Hfds & Hcur' & Hoff & Hcnt & _).
  cbn [read_until_eof]. rewrite Hread.
  set (rest := drop _ (payload (block_list f))) in *.
  destruct (Z.of_nat (length data) =? 0) eqn:Hz.
  - apply Z.eqb_eq in Hz. exists st'. f_equal. f_equal.
    assert (data = []) as Hnil by (destruct data; [done|simpl in Hz; lia]).
    rewrite Hnil in Hdata. symmetry in Hdata.
    apply take_nil_inv_pos in Hdata; [done|lia].
  - apply Z.eqb_neq in Hz.
    rewrite (proj2 (Z.ltb_ge _ _)) by lia.
    apply locate_descriptor_Some in Hloc as [Hfd Hl].
    assert (Hloc' : locate_descriptor st' fd = Some (set_cursor seg' pos' d)).
    { apply locate_descriptor_Some. rewrite Hcnt. split; [done|].
      unfold descriptor_table at 1. rewrite Hfds. ufs_simpl.
      apply list_lookup_insert_eq. eauto using lookup_lt_Some. }
    assert (Hdrop : drop (Z.to_nat (offset seg' pos')) (payload (block_list f))
                    = drop (length data) rest).
    { unfold rest. rewrite drop_drop. f_equal. rewrite Hoff.
      destruct Hcur as (Hs0 & x & _ & Hp0). unfold offset, BLOCK_SIZE.
      lia. }
    destruct (IH st' (set_cursor seg' pos' d)) as (st'' & Hrec); try done.
    { by rewrite Hfl. }
    { cbn [curr_data_segment byte_pos set_cursor]. rewrite Hdrop, length_drop.
      assert (length data <> 0)%nat by lia.
      assert (length data <= length rest)%nat by (rewrite Hdata, length_take; lia).
      lia. }
    cbn [curr_data_segment byte_pos set_cursor] in Hrec. rewrite Hrec, Hdrop.
    exists st''. do 2 f_equal. rewrite Hdata at 1.
    rewrite Hdata, length_take. 
    destruct (decide (Z.to_nat chunk <= length rest)%nat).
    + rewrite Nat.min_l by lia. apply take_drop.
    + rewrite Nat.min_r by lia. rewrite take_ge, drop_all by lia. by rewrite app_nil_r.
Qed.


(** ** Closing a descriptor *)

Lemma trim_count_spec (t : list (option filedesc)) (c : nat) :
  (trim_count t c <= c)%nat
  /\ forall i, (trim_count t c <= i < c)%nat -> mjoin (t !! i) = None.
Proof.
  induction c as [|c [IH1 IH2]]; simpl; [split; [done|lia]|].
  destruct (mjoin (t !! c)) eqn:Hc.
  - split; [done|lia].
  - split; [lia|]. intros i Hi. destruct (decide (i = c)) as [->|]; [done|].
    apply IH2. lia.
Qed.

Lemma ufs_close_spec (st : ufs) (fd : Z) (d : filedesc) (f : file) :
  table_wf st -> locate_descriptor st fd = Some d ->
  deref (file_list st) (fd_file d) = Some f ->
  exists st',
    ufs_close st fd = Some (st', 0) /\ table_wf st'
    /\ file_list st'
       = (if (refs f - 1 =? 0) && is_removed f
          then unlink (addr f) (store (addr f) (set_refs (refs f - 1)) (file_list st))
          else store (addr f) (set_refs (refs f - 1)) (file_list st))
    /\ (forall i, mjoin (descriptor_table st' !! i)
                  = if decide (i = Z.to_nat fd) then None
                    else mjoin (descriptor_table st !! i))
    /\ file_descriptor_count st' <= file_descriptor_count st
    /\ next_addr st' = next_addr st
    /\ heap_ok (ufs_heap st') = heap_ok (ufs_heap st)
    /\ ufs_error_code st' = UFS_ERR_NO_ERR.
Proof.
  intros Hwf Hloc Hf. apply locate_descriptor_Some in Hloc as [Hfd Hl].
  unfold ufs_close.
  replace ((fd <? 0) || (fd >=? file_descriptor_count st)) with false.
  2:{ symmetry. apply orb_false_intro; [apply Z.ltb_ge; lia|].
      rewrite Z.geb_leb. apply Z.leb_gt. lia. }
  rewrite Hl. cbn [mjoin option_join option_bind mbind]. rewrite Hf. cbn [mbind option_bind].
  unfold table_wf, descriptor_table in Hwf, Hl.
  destruct (file_descriptors st) as [t|] eqn:Hfds; ufs_simpl; [|by rewrite lookup_nil in Hl].
  destruct Hwf as (Hc & Hpos & Htail).
  assert (Hlt : (Z.to_nat fd < length t)%nat) by eauto using lookup_lt_Some.
  set (files' := if (refs f - 1 =? 0) && is_removed f
                 then unlink (addr f)
                        (store (addr f) (set_refs (refs f - 1)) (file_list st))
                 else store (addr f) (set_refs (refs f - 1)) (file_list st)).
  (* the state handed to [adjust_container_capacity] *)
  match goal with
  | |- context [adjust_container_capacity ?s] =>
      assert (Hsa : exists sa,
        s = sa /\ table_wf sa /\ file_list sa = files'
        /\ descriptor_table sa = <[Z.to_nat fd := None]> t
        /\ file_descriptor_count sa <= file_descriptor_count st
        /\ next_addr sa = next_addr st /\ ufs_heap sa = ufs_heap st)
  end.
  { unfold files'. cbv zeta.
    destruct ((refs f - 1 =? 0) && is_removed f); unfold descriptor_table; ufs_simpl;
      rewrite Hfds; ufs_simpl;
      (destruct (fd =? file_descriptor_count st - 1) eqn:Hlast;
       (eexists; split; [done|]); unfold table_wf, table_ok, descriptor_table; ufs_simpl;
       rewrite ?length_insert;
       [ destruct (trim_count_spec (<[Z.to_nat fd:=None]> t)
                     (Z.to_nat (file_descriptor_count st))) as [Hle Hnone];
         split_and!; try done; try lia;
         intros i Hi; rewrite Nat2Z.id in Hi;
         destruct (decide (i < Z.to_nat (file_descriptor_count st))%nat);
         [ apply Hnone; lia | rewrite list_lookup_insert_ne by lia; apply Htail; lia ]
       | split_and!; try done; try lia;
         intros i Hi; rewrite list_lookup_insert_ne by lia; by apply Htail ]). }
  destruct Hsa as (sa & -> & Hsa).
  destruct Hsa as (Hwfa & Hfla & Htaba & Hca & Hnaa & Hha).
  destruct (adjust_container_capacity sa) as [e st1] eqn:Hadj.
  destruct (adjust_container_capacity_spec sa st1 e Hwfa Hadj)
    as (Hwf1 & (Hfl1 & Hc1 & Hna1 & Hh1) & _ & Hlk1 & _).
  eexists. split; [done|]. ufs_simpl.
  split_and!; try done; try congruence.
  - unfold descriptor_table at 1. ufs_simpl. fold (descriptor_table st1).
    intros i. rewrite Hlk1, Htaba. unfold descriptor_table. rewrite Hfds. ufs_simpl.
    destruct (decide (i = Z.to_nat fd)) as [->|].
    + by rewrite list_lookup_insert_eq.
    + by rewrite list_lookup_insert_ne.
Qed.


(** ** The round trip *)

Lemma buffer_of_bytes (B : list byte) :
  buffer_bytes (buffer_of B) 0 (Z.of_nat (length B)) = B.
Proof.
  apply list_eq. intros i. unfold buffer_bytes, buffer_of.
  rewrite list_lookup_fmap. destruct (decide (i < length B)%nat) as [Hlt|Hge].
  - rewrite lookup_seqZ_lt by lia. cbn [fmap option_fmap option_map].
    rewrite Z.add_0_l, Z.add_0_l, Nat2Z.id.
    destruct (lookup_lt_is_Some_2 B i Hlt) as [x ->]. done.
  - rewrite lookup_seqZ_ge by lia. by rewrite lookup_ge_None_2 by lia.
Qed.

Lemma chain_wf_fresh : chain_wf [empty_block].
Proof.
  split; [done|]. split.
  - constructor; [apply empty_block_wf|constructor].
  - intros i b _ Hlt. simpl in Hlt. lia.
Qed.

Lemma cursor_ok_start (bl : list block) : chain_wf bl -> cursor_ok bl 0 0.
Proof.
  intros Hwf. split; [lia|]. destruct bl as [|b bl]; [by destruct Hwf|].
  exists b. split; [done|]. assert (block_wf b) as [_ ?] by (eapply chain_wf_lookup with (i := 0%nat); eauto).
  lia.
Qed.

Lemma ufs_open_locate (st st' : ufs) (fd : Z) (t0 : list (option filedesc))
    (d : filedesc) :
  0 <= fd <= file_descriptor_count st ->
  file_descriptors st' = Some (<[Z.to_nat fd := Some d]> t0) ->
  (Z.to_nat fd < length t0)%nat ->
  file_descriptor_count st'
  = (if fd =? file_descriptor_count st then file_descriptor_count st + 1
     else file_descriptor_count st) ->
  locate_descriptor st' fd = Some d.
Proof.
  intros Hfd Hfds Hlen Hcnt. apply locate_descriptor_Some. split.
  - rewrite Hcnt. destruct (fd =? _) eqn:He; [apply Z.eqb_eq in He|apply Z.eqb_neq in He]; lia.
  - unfold descriptor_table. rewrite Hfds. ufs_simpl. by apply list_lookup_insert_eq.
Qed.

Lemma find_head (st : ufs) (f : file) (l : list file) :
  file_list st = f :: l -> is_removed f = false -> find st (name f) = Some f.
Proof.
  intros Hfl Hrm. unfold find. rewrite Hfl. simpl. by rewrite Hrm, String.eqb_refl.
Qed.

(** C1: on a fresh name, with allocation never failing, opening with
    CREATE, writing the bytes [B] (at most 100 MiB) in one [ufs_write],
    closing, reopening read-only and reading in chunks of any positive size
    until [ufs_read] returns 0 all succeed, the write takes every byte, and
    the bytes read are [B], in order. *)
Theorem round_trip (st : ufs) (fname : string) (B : list byte) (chunk : Z) :
  table_wf st -> heap_unlimited (ufs_heap st) -> find st fname = None ->
  Z.of_nat (length B) <= MAX_FILE_SIZE -> 0 < chunk ->
  exists st1 fd st2 st3 st4 fd',
    ufs_open st fname UFS_CREATE = (st1, fd) /\ fd <> -1
    /\ ufs_write st1 fd (buffer_of B) (Z.of_nat (length B))
       = Some (st2, Z.of_nat (length B))
    /\ ufs_close st2 fd = Some (st3, 0)
    /\ ufs_open st3 fname UFS_READ_ONLY = (st4, fd') /\ fd' <> -1
    /\ forall fuel, (length B < fuel)%nat ->
         exists st5, read_until_eof fuel st4 fd' chunk = Some (st5, B).
Proof.
  intros Hwf Hh Hfresh Hsize Hchunk.
  (* open with CREATE *)
  destruct (ufs_open_progress st fname UFS_CREATE Hwf Hh) as (st1 & fd & Hopen & Hfd);
    [by right|].
  destruct (ufs_open_spec _ _ _ _ _ Hwf Hopen Hfd)
    as (a & files & t0 & Hfile & Hfl1 & Hfdr & _ & _ & Hfds1 & Hlen1 & _ & Hcnt1
        & Hwf1 & Hh1 & _).
  destruct Hfile as [(f & Hf & _)|(_ & _ & _ & -> & _)]; [congruence|].
  set (f0 := mk_file a [empty_block] 0 fname false) in *.
  change a with (addr f0) in Hfl1 at 1. rewrite store_head in Hfl1.
  set (f1 := set_refs (refs f0 + 1) f0) in *.
  set (d0 := mk_filedesc a 0 UFS_CREATE 0) in *.
  assert (Hloc1 : locate_descriptor st1 fd = Some d0) by eauto using ufs_open_locate.
  assert (Hu1 : heap_unlimited (ufs_heap st1)) by (intros k; by rewrite Hh1).
  (* write B *)
  destruct (ufs_write_spec st1 fd d0 f1 (buffer_of B) (Z.of_nat (length B)))
    as (st2 & bl & seg & pos & Hwrite & Hfl2 & Hwfb & Hpay & Hfds2 & _ & _ & Hcnt2
        & _ & Hh2 & _); try done; try lia.
  { rewrite Hfl1. apply (deref_head f1). }
  { apply chain_wf_fresh. }
  { apply cursor_ok_start, chain_wf_fresh. }
  { intros b. cbn. intros [= <-]. unfold empty_block. cbn [occupied]. lia. }
  rewrite Hfl1 in Hfl2. rewrite store_head in Hfl2.
  assert (Hp0 : payload (block_list f1) = []) by reflexivity.
  assert (Ho0 : Z.to_nat (offset (curr_data_segment d0) (byte_pos d0)) = 0%nat)
    by reflexivity.
  rewrite Hp0, Ho0, buffer_of_bytes in Hpay. unfold splice in Hpay.
  rewrite take_nil, drop_nil, app_nil_r in Hpay. cbn [app] in Hpay.
  set (f2 := set_blocks bl f1) in *.
  set (d2 := set_cursor seg pos d0) in *.
  assert (Hwf2 : table_wf st2).
  { unfold table_wf. rewrite Hfds2, Hcnt2. eapply table_wf_update; eauto. }
  assert (Hloc2 : locate_descriptor st2 fd = Some d2).
  { apply locate_descriptor_Some in Hloc1 as [? Hl]. apply locate_descriptor_Some.
    rewrite Hcnt2. split; [done|]. unfold descriptor_table at 1. rewrite Hfds2. ufs_simpl.
    apply list_lookup_insert_eq. eauto using lookup_lt_Some. }
  (* close *)
  destruct (ufs_close_spec st2 fd d2 f2 Hwf2 Hloc2)
    as (st3 & Hclose & Hwf3 & Hfl3 & _ & _ & _ & Hh3 & _).
  { rewrite Hfl2. apply (deref_head f2). }
  cbn [is_removed f2 f1 f0 set_blocks set_refs andb] in Hfl3.
  rewrite andb_false_r, Hfl2 in Hfl3. rewrite store_head in Hfl3.
  set (f3 := set_refs (refs f2 - 1) f2) in *.
  assert (Hu3 : heap_unlimited (ufs_heap st3)) by (intros k; by rewrite Hh3, Hh2).
  (* open read-only *)
  assert (Hfind3 : find st3 fname = Some f3) by (by apply (find_head st3 f3 _ Hfl3)).
  destruct (ufs_open_progress st3 fname UFS_READ_ONLY Hwf3 Hu3) as (st4 & fd' & Hopen' & Hfd');
    [left; by rewrite Hfind3|].
  destruct (ufs_open_spec _ _ _ _ _ Hwf3 Hopen' Hfd')
    as (a' & files' & t0' & Hfile' & Hfl4 & Hfdr' & _ & _ & Hfds4 & Hlen4 & _ & Hcnt4 & _).
  destruct Hfile' as [(f & Hf & -> & -> & _)|(Hnone & _)]; [|congruence].
  assert (f = f3) as -> by congruence.
  rewrite Hfl3, store_head in Hfl4.
  set (f4 := set_refs (refs f3 + 1) f3) in *.
  set (d4 := mk_filedesc (addr f3) 0 UFS_READ_ONLY 0) in *.
  assert (Hloc4 : locate_descriptor st4 fd' = Some d4) by eauto using ufs_open_locate.
  exists st1, fd, st2, st3, st4, fd'. split_and!; try done.
  intros fuel Hfuel.
  destruct (read_until_eof_spec fd' chunk f4 fuel Hchunk Hwfb st4 d4) as (st5 & Hread);
    try done.
  { rewrite Hfl4. apply (deref_head f4). }
  { apply cursor_ok_start. exact Hwfb. }
  { cbn [block_list f4 f3 f2 set_refs set_blocks curr_data_segment byte_pos d4].
    unfold offset. cbn [Z.mul Z.add Z.to_nat]. rewrite drop_0, Hpay. done. }
  exists st5. rewrite Hread. do 2 f_equal.
  cbn [block_list f4 f3 f2 set_refs set_blocks curr_data_segment byte_pos d4].
  unfold offset. cbn [Z.mul Z.add Z.to_nat]. by rewrite drop_0.
Qed.


(** ** Where a new descriptor goes *)



(** C10: a descriptor from a successful [ufs_open] starts at block 0, byte 0,
    whether the file existed or not, and a first write through it that
    completes replaces the content from its first byte on. *)
Theorem open_starts_at_offset_zero (st st' : ufs) (filename : string) (fl fd : Z) :
  table_wf st -> ufs_open st filename fl = (st', fd) -> fd <> -1 ->
  exists d,
    locate_descriptor st' fd = Some d
    /\ curr_data_segment d = 0 /\ byte_pos d = 0 /\ flags d = fl
    /\ forall f buf size,
         deref (file_list st') (fd_file d) = Some f ->
         chain_wf (block_list f) -> heap_unlimited (ufs_heap st') ->
         is_writable (Some d) = true -> 0 <= size ->
         (forall b, block_list f !! 0%nat = Some b -> occupied b + size <= MAX_FILE_SIZE) ->
         exists st'' f',
           ufs_write st' fd buf size = Some (st'', size)
           /\ deref (file_list st'') (fd_file d) = Some f'
           /\ payload (block_list f')
              = splice (payload (block_list f)) 0 (buffer_bytes buf 0 size).
Proof.
  intros Hwf Hopen Hfd.
  destruct (ufs_open_spec _ _ _ _ _ Hwf Hopen Hfd)
    as (a & files & t0 & _ & _ & Hfdr & _ & _ & Hfds & Hlen & _ & Hcnt & _).
  set (d := mk_filedesc a 0 fl 0) in *.
  assert (Hloc : locate_descriptor st' fd = Some d) by eauto using ufs_open_locate.
  exists d. split_and!; try done.
  intros f buf size Hf Hcwf Hh Hw Hsize Hcap.
  destruct (ufs_write_spec st' fd d f buf size Hloc Hw Hf Hcwf)
    as (st'' & bl & seg & pos & Hwrite & Hfl & _ & Hpay & _); try done.
  { by apply cursor_ok_start. }
  { intros b Hb. cbn [curr_data_segment d Z.to_nat] in *. specialize (Hcap b Hb). lia. }
  exists st'', (set_blocks bl f). split; [done|]. split; [|done].
  rewrite Hfl, (deref_addr _ _ _ Hf). by apply deref_store_same.
Qed.


(** ** The size cap *)

Lemma payload_length_cursor (bl : list block) (cur : nat) (b : block) :
  chain_wf bl -> bl !! cur = Some b ->
  (Z.to_nat (offset (Z.of_nat cur) (occupied b)) <= length (payload bl))%nat.
Proof.
  intros Hwf Hb. eapply offset_le_payload; eauto.
  assert (block_wf b) as [_ ?] by eauto using chain_wf_lookup. lia.
Qed.

(** C2, as the code has it, for a [size] below [2 ^ 63], where the sum of
    the test does not wrap: the write is refused, with nothing written and
    only the error code changed, when the bytes up to the end of the
    cursor's block data plus [size] pass 100 MiB.  Every write whose
    completion would take the content past 100 MiB is among those; a write
    under that bound goes through when the allocator does not fail, and the
    content stays within 100 MiB. *)
Theorem write_size_cap (st : ufs) (fd : Z) (d : filedesc) (f : file) (b : block)
    (buf : Z -> byte) (size : Z) :
  locate_descriptor st fd = Some d -> is_writable (Some d) = true ->
  deref (file_list st) (fd_file d) = Some f ->
  chain_wf (block_list f) ->
  0 <= curr_data_segment d ->
  block_list f !! Z.to_nat (curr_data_segment d) = Some b ->
  0 <= byte_pos d <= occupied b ->
  Z.of_nat (length (payload (block_list f))) <= MAX_FILE_SIZE ->
  0 <= size < 2 ^ 63 ->
  let total_size := occupied b + curr_data_segment d * BLOCK_SIZE in
  (MAX_FILE_SIZE < total_size + size ->
   ufs_write st fd buf size = Some (set_error UFS_ERR_NO_MEM st, -1))
  /\ (forall n, payload_after_write st fd size = Some n -> MAX_FILE_SIZE < n ->
                MAX_FILE_SIZE < total_size + size)
  /\ (total_size + size <= MAX_FILE_SIZE -> heap_unlimited (ufs_heap st) ->
      exists st' f',
        ufs_write st fd buf size = Some (st', size)
        /\ ufs_error_code st' = UFS_ERR_NO_ERR
        /\ deref (file_list st') (fd_file d) = Some f'
        /\ Z.of_nat (length (payload (block_list f'))) <= MAX_FILE_SIZE).
Proof.
  intros Hloc Hw Hf Hwf Hseg Hb Hpos Hlen Hsize total_size.
  assert (Hbw : block_wf b) by eauto using chain_wf_lookup.
  assert (Hoff : (Z.to_nat (offset (curr_data_segment d) (byte_pos d))
                  <= length (payload (block_list f)))%nat).
  { pose proof (offset_le_payload (block_list f) (Z.to_nat (curr_data_segment d)) b
                  (byte_pos d) Hwf Hb Hpos) as H. by rewrite Z2Nat.id in H. }
  split_and!.
  - intros Hbig. unfold ufs_write. rewrite Hloc, Hw. cbn [negb]. rewrite Hf.
    cbn [mbind option_bind]. rewrite Hb. cbn [mbind option_bind].
    fold total_size.
    assert (Hwrap : size_t_wrap (total_size + size) = total_size + size).
    { unfold size_t_wrap. apply Z.mod_small. destruct Hbw as [_ ?].
      unfold total_size, BLOCK_SIZE, MAX_FILE_SIZE in *.
      assert (Z.of_nat (Z.to_nat (offset (curr_data_segment d) (byte_pos d)))
              <= Z.of_nat (length (payload (block_list f)))) by lia.
      unfold offset, BLOCK_SIZE in *. lia. }
    rewrite Hwrap. by rewrite (proj2 (Z.gtb_lt _ _)) by lia.
  - intros n. unfold payload_after_write. rewrite Hloc. cbn [mbind option_bind].
    rewrite Hf. cbn [mbind option_bind]. intros [= <-] Hbig.
    unfold total_size, offset in *. lia.
  - intros Hfit Hh.
    destruct (ufs_write_spec st fd d f buf size Hloc Hw Hf Hwf)
      as (st' & bl & seg & pos & Hwrite & Hfl & _ & Hpay & _ & _ & _ & _ & _ & _ & He);
      try done; try lia.
    { split; [done|]. by exists b. }
    { intros b' Hb'. assert (b' = b) as -> by congruence. fold total_size. lia. }
    exists st', (set_blocks bl f). split_and!; try done.
    + rewrite Hfl, (deref_addr _ _ _ Hf). by apply deref_store_same.
    + cbn [block_list set_blocks]. rewrite Hpay, splice_length by done.
      rewrite buffer_bytes_length.
      unfold total_size, offset, BLOCK_SIZE in *. lia.
Qed.

(** C2, the counterexample: the file holds one byte and the descriptor
    stands at its start; a write of exactly 100 MiB would leave a content of
    100 MiB, which is not beyond the cap, and is refused all the same. *)
Lemma write_within_cap_refused :
  payload_after_write st_one_byte 0 MAX_FILE_SIZE = Some MAX_FILE_SIZE
  /\ is_writable (locate_descriptor st_one_byte 0) = true
  /\ ufs_write st_one_byte 0 letter_a MAX_FILE_SIZE
     = Some (set_error UFS_ERR_NO_MEM st_one_byte, -1).
Proof. vm_compute. split_and!; reflexivity. Qed.

(** ** Access flags *)

(** A refused read or write changes the error code and nothing else. *)
Lemma ufs_read_denied (st : ufs) (fd : Z) (d : filedesc) (size : Z) :
  locate_descriptor st fd = Some d -> is_readable (Some d) = false ->
  ufs_read st fd size = Some (set_error UFS_ERR_NO_PERMISSION st, -1, []).
Proof. intros Hloc Hr. unfold ufs_read. by rewrite Hloc, Hr. Qed.

Lemma ufs_write_denied (st : ufs) (fd : Z) (d : filedesc) (buf : Z -> byte) (size : Z) :
  locate_descriptor st fd = Some d -> is_writable (Some d) = false ->
  ufs_write st fd buf size = Some (set_error UFS_ERR_NO_PERMISSION st, -1).
Proof. intros Hloc Hw. unfold ufs_write. by rewrite Hloc, Hw. Qed.

(** What the two [switch] statements accept: the exact flag values 0,
    [UFS_CREATE], the access mode itself and [UFS_READ_WRITE]. *)
Lemma is_readable_iff (d : filedesc) :
  is_readable (Some d) = true <->
  flags d = 0 \/ flags d = UFS_CREATE \/ flags d = UFS_READ_ONLY
  \/ flags d = UFS_READ_WRITE.
Proof.
  unfold is_readable.
  repeat match goal with
         | |- context [?a =? ?b] => destruct (Z.eqb_spec a b)
         end; split; intros; try done; intuition congruence.
Qed.

Lemma is_writable_iff (d : filedesc) :
  is_writable (Some d) = true <->
  flags d = 0 \/ flags d = UFS_CREATE \/ flags d = UFS_WRITE_ONLY
  \/ flags d = UFS_READ_WRITE.
Proof.
  unfold is_writable.
  repeat match goal with
         | |- context [?a =? ?b] => destruct (Z.eqb_spec a b)
         end; split; intros; try done; intuition congruence.
Qed.

(** C3, where the code leaves the bitset reading: a descriptor whose flags
    are [UFS_CREATE | UFS_READ_ONLY] is refused every read with
    [UFS_ERR_NO_PERMISSION], although its read-only bit is set and the same
    flags without the CREATE bit allow the read; likewise
    [UFS_CREATE | UFS_WRITE_ONLY] and writes, and [UFS_CREATE | UFS_READ_WRITE]
    and both.  The refusal changes the error code and nothing else.  On the
    empty file system, [ufs_open] with [UFS_CREATE | UFS_READ_ONLY] gives
    descriptor 0, and reading one byte through it is refused. *)
Theorem create_read_only_cannot_read :
  (forall st fd d size,
     locate_descriptor st fd = Some d ->
     flags d = Z.lor UFS_CREATE UFS_READ_ONLY
     \/ flags d = Z.lor UFS_CREATE UFS_READ_WRITE ->
     ufs_read st fd size = Some (set_error UFS_ERR_NO_PERMISSION st, -1, []))
  /\ (forall st fd d buf size,
        locate_descriptor st fd = Some d ->
        flags d = Z.lor UFS_CREATE UFS_WRITE_ONLY
        \/ flags d = Z.lor UFS_CREATE UFS_READ_WRITE ->
        ufs_write st fd buf size = Some (set_error UFS_ERR_NO_PERMISSION st, -1))
  /\ (forall d, flags d = UFS_READ_ONLY \/ flags d = UFS_READ_WRITE \/ flags d = 0 ->
                is_readable (Some d) = true)
  /\ (forall d, flags d = UFS_WRITE_ONLY \/ flags d = UFS_READ_WRITE \/ flags d = 0 ->
                is_writable (Some d) = true)
  /\ (exists st1,
        ufs_open (initial always_ok) "f" (Z.lor UFS_CREATE UFS_READ_ONLY) = (st1, 0)
        /\ ufs_read st1 0 1 = Some (set_error UFS_ERR_NO_PERMISSION st1, -1, [])).
Proof.
  split_and!.
  - intros st fd d size Hloc Hfl. apply (ufs_read_denied st fd d size Hloc).
    destruct (is_readable (Some d)) eqn:Hr; [|done].
    apply is_readable_iff in Hr. revert Hr. destruct Hfl as [-> | ->]; vm_compute;
      intros [H|[H|[H|H]]]; discriminate.
  - intros st fd d buf size Hloc Hfl. apply (ufs_write_denied st fd d buf size Hloc).
    destruct (is_writable (Some d)) eqn:Hw; [|done].
    apply is_writable_iff in Hw. revert Hw. destruct Hfl as [-> | ->]; vm_compute;
      intros [H|[H|[H|H]]]; discriminate.
  - intros d Hfl. apply is_readable_iff. tauto.
  - intros d Hfl. apply is_writable_iff. tauto.
  - eexists. split; [vm_compute; reflexivity|]. vm_compute. reflexivity.
Qed.


(** ** Deletion *)

Lemma find_Some_inv (st : ufs) (fname : string) (F : file) :
  find st fname = Some F ->
  exists i, file_list st !! i = Some F /\ is_removed F = false /\ name F = fname.
Proof.
  unfold find. intros H. apply find_some in H as [Hin Hp].
  apply andb_prop in Hp as [Hr Hn]. apply negb_true_iff in Hr. apply String.eqb_eq in Hn.
  apply list_elem_of_In, list_elem_of_lookup in Hin as [i Hi]. eauto.
Qed.

Lemma find_all_false {A} (p : A -> bool) (l : list A) :
  (forall i x, l !! i = Some x -> p x = false) -> List.find p l = None.
Proof.
  induction l as [|x l IH]; intros H; simpl; [done|].
  rewrite (H 0%nat x eq_refl). apply IH. intros i y Hy. by apply (H (S i)).
Qed.

Lemma deref_not_in (l : list file) (a : nat) : a ∉ addr <$> l -> deref l a = None.
Proof.
  intros Hn. unfold deref. apply find_all_false. intros i x Hx.
  apply Nat.eqb_neq. intros <-. apply Hn. apply list_elem_of_fmap. exists x.
  split; [done|]. eauto using list_elem_of_lookup_2.
Qed.

Lemma store_insert (l : list file) (i : nat) (f : file) (g : file -> file) :
  NoDup (addr <$> l) -> l !! i = Some f -> store (addr f) g l = <[i := g f]> l.
Proof.
  revert i. induction l as [|x l IH]; intros i Hnd Hi; [done|].
  rewrite fmap_cons in Hnd. apply NoDup_cons in Hnd as [Hx Hnd].
  destruct i as [|i]; simpl in *.
  - injection Hi as ->. by rewrite Nat.eqb_refl.
  - destruct (Nat.eqb_spec (addr x) (addr f)) as [He|_].
    + exfalso. apply Hx. rewrite He. apply list_elem_of_fmap. exists f.
      split; [done|]. eauto using list_elem_of_lookup_2.
    + f_equal. by apply IH.
Qed.

Lemma store_addrs (l : list file) (a : nat) (g : file -> file) :
  (forall x, addr (g x) = addr x) -> addr <$> store a g l = addr <$> l.
Proof.
  intros Hg. induction l as [|x l IH]; [done|]. cbn [store].
  destruct (Nat.eqb (addr x) a); rewrite !fmap_cons, ?Hg, ?IH; done.
Qed.

Lemma deref_unlink_same (l : list file) (a : nat) :
  NoDup (addr <$> l) -> deref (unlink a l) a = None.
Proof.
  induction l as [|x l IH]; intros Hnd; simpl; [done|].
  rewrite fmap_cons in Hnd. apply NoDup_cons in Hnd as [Hx Hnd].
  destruct (Nat.eqb_spec (addr x) a) as [<-|Hne].
  - by apply deref_not_in.
  - unfold deref in *. simpl. rewrite (proj2 (Nat.eqb_neq _ _) Hne). by apply IH.
Qed.

Lemma deref_unlink_other (l : list file) (a b : nat) :
  a <> b -> deref (unlink a l) b = deref l b.
Proof.
  intros Hne. unfold deref. induction l as [|x l IH]; simpl; [done|].
  destruct (Nat.eqb_spec (addr x) a) as [->|Hx]; simpl.
  - by rewrite (proj2 (Nat.eqb_neq a b) Hne).
  - by rewrite IH.
Qed.

Lemma deref_lookup (l : list file) (i : nat) (f : file) :
  NoDup (addr <$> l) -> l !! i = Some f -> deref l (addr f) = Some f.
Proof.
  revert i. induction l as [|x l IH]; intros i Hnd Hi; [done|].
  rewrite fmap_cons in Hnd. apply NoDup_cons in Hnd as [Hx Hnd].
  unfold deref in *. destruct i as [|i]; simpl in *.
  - injection Hi as ->. by rewrite Nat.eqb_refl.
  - destruct (Nat.eqb_spec (addr x) (addr f)) as [He|_]; [|by eapply IH].
    exfalso. apply Hx. rewrite He. apply list_elem_of_fmap. exists f.
    split; [done|]. eauto using list_elem_of_lookup_2.
Qed.

Lemma find_after_mark (st : ufs) (fname : string) (F : file) :
  files_wf st -> find st fname = Some F ->
  find (set_file_list (store (addr F) (set_removed true) (file_list st)) st) fname = None.
Proof.
  intros (Hnd & _ & Huniq) Hfind.
  destruct (find_Some_inv _ _ _ Hfind) as (i & Hi & Hvis & Hname).
  unfold find. ufs_simpl. rewrite (store_insert _ i) by done.
  apply find_all_false. intros j g Hg.
  destruct (decide (j = i)) as [->|Hne].
  - rewrite list_lookup_insert_eq in Hg by eauto using lookup_lt_Some.
    by injection Hg as <-.
  - rewrite list_lookup_insert_ne in Hg by done.
    destruct (is_removed g) eqn:Hr; [done|]. cbn [negb andb].
    apply String.eqb_neq. intros Hn. apply Hne. apply (Huniq j i g F); congruence.
Qed.


(** Reading depends on the state through the descriptor table and the
    blocks of the file objects only. *)
Lemma ufs_read_same (st st1 : ufs) (fd size : Z) :
  file_descriptors st1 = file_descriptors st ->
  file_descriptor_count st1 = file_descriptor_count st ->
  (forall a, block_list <$> deref (file_list st1) a
             = block_list <$> deref (file_list st) a) ->
  read_outcome (ufs_read st1 fd size) = read_outcome (ufs_read st fd size).
Proof.
  intros Hfds Hcnt Hbl. unfold ufs_read, locate_descriptor, descriptor_table.
  rewrite Hfds, Hcnt.
  destruct ((0 <=? fd) && (fd <? file_descriptor_count st)); [|done].
  destruct (mjoin (default [] (file_descriptors st) !! Z.to_nat fd)) as [d|]; [|done].
  destruct (negb (is_readable (Some d))); [done|].
  specialize (Hbl (fd_file d)).
  destruct (deref (file_list st1) (fd_file d)) as [f1|],
           (deref (file_list st) (fd_file d)) as [f|]; try done.
  cbn in Hbl. injection Hbl as Hbl. cbn [mbind option_bind]. rewrite Hbl.
  destruct (block_list f !! Z.to_nat (curr_data_segment d)); [|done].
  cbn [mbind option_bind]. by destruct (read_loop _ _ _ _ _ _ _ _).
Qed.

(** C4: [ufs_delete] on a file with open descriptors only marks it: the name
    is free again (an open with CREATE makes a new file object at another
    address) while the old object, its blocks and the descriptors on it stay
    as they are; closing the last descriptor on a marked file unlinks the
    object, closing any other leaves it; with no open descriptor the delete
    unlinks the object at once. *)
Theorem deferred_deletion (st : ufs) (fname : string) (F : file) :
  files_wf st -> table_wf st -> find st fname = Some F ->
  exists st1,
    ufs_delete st fname = (st1, 0)
    /\ file_descriptors st1 = file_descriptors st
    /\ file_descriptor_count st1 = file_descriptor_count st
    /\ (refs F = 0 -> deref (file_list st1) (addr F) = None)
    /\ (refs F <> 0 ->
        find st1 fname = None
        /\ deref (file_list st1) (addr F) = Some (set_removed true F)
        /\ (forall fd size,
              read_outcome (ufs_read st1 fd size) = read_outcome (ufs_read st fd size))
        /\ (forall st2 fd fl,
              ufs_open st1 fname fl = (st2, fd) -> fd <> -1 ->
              exists d,
                locate_descriptor st2 fd = Some d /\ fd_file d <> addr F
                /\ deref (file_list st2) (addr F) = Some (set_removed true F)
                /\ forall i, i <> Z.to_nat fd ->
                     mjoin (descriptor_table st2 !! i)
                     = mjoin (descriptor_table st !! i))
        /\ (forall st' fd d F',
              files_wf st' -> table_wf st' ->
              locate_descriptor st' fd = Some d ->
              deref (file_list st') (fd_file d) = Some F' ->
              is_removed F' = true ->
              refs F' = Z.of_nat (open_descriptors st' (addr F')) ->
              exists st'',
                ufs_close st' fd = Some (st'', 0)
                /\ (open_descriptors st' (addr F') = 1%nat ->
                    deref (file_list st'') (addr F') = None)
                /\ (open_descriptors st' (addr F') <> 1%nat ->
                    deref (file_list st'') (addr F')
                    = Some (set_refs (refs F' - 1) F')))).
Proof.
  intros Hfwf Hwf Hfind.
  destruct (find_Some_inv _ _ _ Hfind) as (i & Hi & Hvis & Hname).
  pose proof Hfwf as (Hnd & Hfresh & Huniq).
  assert (HF : deref (file_list st) (addr F) = Some F) by eauto using deref_lookup.
  unfold ufs_delete. rewrite Hfind.
  destruct (Z.eqb_spec (refs F) 0) as [Hz|Hnz].
  - eexists. split; [done|]. unfold rm. ufs_simpl. split_and!; try done.
    intros _. by apply deref_unlink_same.
  - eexists. split; [done|]. ufs_simpl. split_and!; try done. intros _.
    set (st1 := set_error UFS_ERR_NO_ERR
                  (set_file_list (store (addr F) (set_removed true) (file_list st)) st)).
    assert (Hfind1 : find st1 fname = None) by (by apply find_after_mark).
    assert (HF1 : deref (file_list st1) (addr F) = Some (set_removed true F))
      by (by apply deref_store_same).
    split_and!; try done.
    + intros fd size. apply ufs_read_same; try done.
      intros a. unfold st1. ufs_simpl.
      destruct (decide (a = addr F)) as [->|Hne].
      * rewrite (deref_store_same _ _ _ F), (deref_lookup _ i F); done.
      * by rewrite deref_store_other.
    + intros st2 fd fl Hopen Hfd.
      destruct (ufs_open_spec st1 st2 fname fl fd Hwf Hopen Hfd)
        as (a & files & t0 & Hfile & Hfl2 & Hfdr & _ & _ & Hfds & Hlen & Hlk & Hcnt & _).
      destruct Hfile as [(f & Hf & _)|(_ & _ & Ha & -> & _)]; [congruence|].
      assert (Hne : a <> addr F).
      { rewrite Ha. cbn. specialize (Hfresh F (list_elem_of_lookup_2 _ _ _ Hi)). lia. }
      exists (mk_filedesc a 0 fl 0). split_and!.
      * eauto using ufs_open_locate.
      * done.
      * rewrite Hfl2. set (f0 := mk_file a _ _ _ _).
        change a with (addr f0) at 1. rewrite store_head.
        unfold deref. cbn [List.find addr set_refs f0].
        rewrite (proj2 (Nat.eqb_neq _ _) Hne). exact HF1.
      * intros j Hj. unfold descriptor_table at 1. rewrite Hfds. ufs_simpl.
        rewrite list_lookup_insert_ne by done. apply Hlk.
    + intros st' fd d F' (Hnd' & _) Hwf' Hloc HF' Hrm Hrefs.
      destruct (ufs_close_spec st' fd d F' Hwf' Hloc HF')
        as (st'' & Hclose & _ & Hfl'' & _).
      exists st''. split; [done|]. rewrite Hrm, andb_true_r in Hfl''.
      assert (HF'' : deref (file_list st') (addr F') = Some F')
        by (by rewrite (deref_addr _ _ _ HF')).
      split; intros Hn.
      * rewrite (proj2 (Z.eqb_eq _ _)) in Hfl'' by lia. rewrite Hfl''.
        apply deref_unlink_same. by rewrite store_addrs.
      * rewrite (proj2 (Z.eqb_neq _ _)) in Hfl'' by lia. rewrite Hfl''.
        by apply deref_store_same.
Qed.

(** ** The descriptor table stays well-formed *)

Lemma ufs_write_table_wf (st st' : ufs) (fd : Z) (buf : Z -> byte) (size n : Z) :
  table_wf st -> ufs_write st fd buf size = Some (st', n) -> table_wf st'.
Proof.
  intros Hwf. unfold ufs_write.
  destruct (locate_descriptor st fd) as [d|] eqn:Hloc; [|by intros [= <- _]].
  destruct (negb (is_writable (Some d))); [by intros [= <- _]|].
  destruct (deref (file_list st) (fd_file d)) as [f|]; [|done]. cbn [mbind option_bind].
  destruct (block_list f !! Z.to_nat (curr_data_segment d)) as [b|]; [|done].
  cbn [mbind option_bind].
  destruct (size_t_wrap _ >? MAX_FILE_SIZE); [by intros [= <- _]|].
  destruct (write_loop _ _ _ _ _ _ _ _ _) as [r|]; [|done]. cbn [mbind option_bind].
  intros [= <- _]. unfold table_wf, descriptor_table. ufs_simpl.
  exact (table_wf_update st fd d _ Hwf Hloc).
Qed.

Lemma ufs_read_table_wf (st st' : ufs) (fd size n : Z) (data : list byte) :
  table_wf st -> ufs_read st fd size = Some (st', n, data) -> table_wf st'.
Proof.
  intros Hwf. unfold ufs_read.
  destruct (locate_descriptor st fd) as [d|] eqn:Hloc; [|by intros [= <- _ _]].
  destruct (negb (is_readable (Some d))); [by intros [= <- _ _]|].
  destruct (deref (file_list st) (fd_file d)) as [f|]; [|done]. cbn [mbind option_bind].
  destruct (block_list f !! Z.to_nat (curr_data_segment d)) as [b|]; [|done].
  cbn [mbind option_bind].
  destruct (read_loop _ _ _ _ _ _ _ _) as [r|]; [|done]. cbn [mbind option_bind].
  intros [= <- _ _]. unfold table_wf, descriptor_table. ufs_simpl.
  exact (table_wf_update st fd d _ Hwf Hloc).
Qed.

Lemma ufs_delete_table_wf (st st' : ufs) (filename : string) (n : Z) :
  table_wf st -> ufs_delete st filename = (st', n) -> table_wf st'.
Proof.
  intros Hwf. unfold ufs_delete.
  destruct (find st filename) as [f|]; [|by intros [= <- _]].
  destruct (refs f =? 0); by intros [= <- _].
Qed.

(** ** The statements at concrete states *)

Lemma table_wf_check (st : ufs) (l : list (option filedesc)) :
  file_descriptors st = Some l ->
  (0 <=? file_descriptor_count st) && (file_descriptor_count st <=? Z.of_nat (length l))
  && (0 <? Z.of_nat (length l))
  && forallb (fun o => match o with None => true | Some _ => false end)
             (drop (Z.to_nat (file_descriptor_count st)) l) = true ->
  table_wf st.
Proof.
  intros Hl Hall. unfold table_wf, table_ok. rewrite Hl.
  repeat (apply andb_prop in Hall as [Hall ?]).
  split_and!; try lia.
  intros i Hi.
  match goal with H : forallb _ _ = true |- _ => rewrite forallb_forall in H; rename H into Hf end.
  destruct (l !! i) as [[d|]|] eqn:Hli; try done. exfalso.
  assert (Hin : In (Some d) (drop (Z.to_nat (file_descriptor_count st)) l)).
  { apply list_elem_of_In, list_elem_of_lookup.
    exists (i - Z.to_nat (file_descriptor_count st))%nat.
    rewrite lookup_drop.
    replace (Z.to_nat (file_descriptor_count st)
             + (i - Z.to_nat (file_descriptor_count st)))%nat with i by lia.
    done. }
  by apply Hf in Hin.
Qed.

Lemma chain_wf_single (b : block) : block_wf b -> chain_wf [b].
Proof.
  intros Hb. split_and!; [done | by constructor |].
  intros [|i] b' Hlk Hlen; cbn [length] in Hlen; lia.
Qed.

Lemma initial_table_wf (ok : nat -> bool) : table_wf (initial ok).
Proof. unfold table_wf, table_ok, initial. cbn. reflexivity. Qed.

Lemma always_ok_unlimited (st : ufs) :
  heap_ok (ufs_heap st) = always_ok -> heap_unlimited (ufs_heap st).
Proof. intros H k. by rewrite H. Qed.

Lemma files_wf_single (st : ufs) (F : file) :
  file_list st = [F] -> (addr F < next_addr st)%nat -> files_wf st.
Proof.
  intros Hfl Haddr. unfold files_wf. rewrite Hfl. split_and!.
  - cbn [fmap list_fmap]. apply NoDup_singleton.
  - intros f Hin. by apply list_elem_of_singleton in Hin as ->.
  - intros [|i] [|j] f g Hf Hg _ _ _; try done;
      cbn in Hf, Hg; try (rewrite lookup_nil in Hf; done);
      try (rewrite lookup_nil in Hg; done).
Qed.

Lemma st_stored_table_wf : table_wf st_stored.
Proof. eapply table_wf_check; vm_compute; reflexivity. Qed.

Lemma st_one_byte_table_wf : table_wf st_one_byte.
Proof. eapply table_wf_check; vm_compute; reflexivity. Qed.


Lemma st_one_byte_files_wf : files_wf st_one_byte.
Proof.
  assert (H : exists F, file_list st_one_byte = [F] /\ addr F = 0%nat)
    by (eexists; split; vm_compute; reflexivity).
  destruct H as (F & Hfl & Haddr).
  apply (files_wf_single _ F Hfl). rewrite Haddr. vm_compute. lia.
Qed.

(** C1 at the bytes [abc], read back two at a time. *)
Lemma round_trip_witness :
  exists st1 fd st2 st3 st4 fd',
    ufs_open (initial always_ok) "f" UFS_CREATE = (st1, fd) /\ fd <> -1
    /\ ufs_write st1 fd (buffer_of abc) (Z.of_nat (length abc))
       = Some (st2, Z.of_nat (length abc))
    /\ ufs_close st2 fd = Some (st3, 0)
    /\ ufs_open st3 "f" UFS_READ_ONLY = (st4, fd') /\ fd' <> -1
    /\ forall fuel, (length abc < fuel)%nat ->
         exists st5, read_until_eof fuel st4 fd' 2 = Some (st5, abc).
Proof.
  apply (round_trip (initial always_ok) "f" abc 2).
  - apply initial_table_wf.
  - intros k. reflexivity.
  - reflexivity.
  - vm_compute. discriminate.
  - lia.
Defined.

(** C2 on the file of one byte with the descriptor at its start: a write
    of 100 MiB less one byte goes through. *)
Lemma write_size_cap_witness :
  exists st' f',
    ufs_write st_one_byte 0 letter_a (MAX_FILE_SIZE - 1) = Some (st', MAX_FILE_SIZE - 1)
    /\ ufs_error_code st' = UFS_ERR_NO_ERR
    /\ deref (file_list st') 0%nat = Some f'
    /\ Z.of_nat (length (payload (block_list f'))) <= MAX_FILE_SIZE.
Proof.
  assert (H : exists d f b,
             locate_descriptor st_one_byte 0 = Some d
             /\ deref (file_list st_one_byte) (fd_file d) = Some f
             /\ block_list f = [b]
             /\ fd_file d = 0%nat /\ flags d = UFS_READ_WRITE
             /\ curr_data_segment d = 0 /\ byte_pos d = 0 /\ occupied b = 1
             /\ length (memory b) = Z.to_nat BLOCK_SIZE).
  { do 3 eexists. split_and!; vm_compute; reflexivity. }
  destruct H as (d & f & b & Hloc & Hf & Hbl & Ha & Hfl & Hseg & Hpos & Hocc & Hmem).
  assert (Hwf : chain_wf (block_list f)).
  { rewrite Hbl. apply chain_wf_single. split; [exact Hmem|].
    rewrite Hocc. unfold BLOCK_SIZE. lia. }
  destruct (write_size_cap st_one_byte 0 d f b letter_a (MAX_FILE_SIZE - 1)) as (_ & _ & Hgo).
  - exact Hloc.
  - apply is_writable_iff. rewrite Hfl. auto.
  - exact Hf.
  - exact Hwf.
  - rewrite Hseg. lia.
  - rewrite Hseg, Hbl. reflexivity.
  - rewrite Hpos, Hocc. lia.
  - rewrite Hbl, payload_cons, payload_nil, app_nil_r.
    rewrite block_bytes_length by (split; [exact Hmem | rewrite Hocc; unfold BLOCK_SIZE; lia]).
    rewrite Hocc. unfold MAX_FILE_SIZE. lia.
  - unfold MAX_FILE_SIZE. lia.
  - rewrite <- Ha. apply Hgo.
    + rewrite Hocc, Hseg. lia.
    + intros k. reflexivity.
Defined.

(** C4 on the file of one byte with its descriptor 0 open: after the
    delete the name is free and descriptor 0 still reads the byte; closing
    descriptor 0 then leaves no object at the address of the file. *)
Lemma deferred_deletion_witness :
  exists F st1 st2,
    find st_one_byte "f" = Some F
    /\ ufs_delete st_one_byte "f" = (st1, 0)
    /\ find st1 "f" = None
    /\ deref (file_list st1) (addr F) = Some (set_removed true F)
    /\ read_outcome (ufs_read st1 0 1) = Some (1, [Byte.x61])
    /\ ufs_close st1 0 = Some (st2, 0)
    /\ deref (file_list st2) (addr F) = None.
Proof.
  assert (H : exists F, find st_one_byte "f" = Some F /\ refs F = 1 /\ addr F = 0%nat
                        /\ file_list st_one_byte = [F])
    by (eexists; split_and!; vm_compute; reflexivity).
  destruct H as (F & HF & Hrefs & Haddr & Hlist).
  destruct (deferred_deletion st_one_byte "f" F st_one_byte_files_wf
              st_one_byte_table_wf HF) as (st1 & Hdel & Hfds & Hcnt & _ & Hlater).
  destruct Hlater as (Hgone & Hkept & Hread & _ & Hlast); [rewrite Hrefs; discriminate|].
  assert (Hst1 : st1 = fst (ufs_delete st_one_byte "f")) by (by rewrite Hdel).
  assert (Hlist1 : file_list st1 = [set_removed true F]).
  { rewrite Hst1. unfold ufs_delete. rewrite HF, Hrefs. cbn [Z.eqb fst].
    unfold set_error, set_file_list. cbn [file_list]. rewrite Hlist.
    cbn [store]. by rewrite Nat.eqb_refl. }
  assert (Hloc : exists d, locate_descriptor st1 0 = Some d /\ fd_file d = 0%nat).
  { rewrite Hst1. eexists. split; vm_compute; reflexivity. }
  destruct Hloc as (d & Hloc & Hd).
  destruct (Hlast st1 0 d (set_removed true F)) as (st2 & Hclose & Hfreed & _).
  - apply (files_wf_single _ _ Hlist1). cbn [addr set_removed]. rewrite Haddr, Hst1.
    vm_compute. lia.
  - eapply ufs_delete_table_wf; [apply st_one_byte_table_wf | exact Hdel].
  - exact Hloc.
  - rewrite Hd, <- Haddr. exact Hkept.
  - reflexivity.
  - cbn [refs addr set_removed]. rewrite Hrefs, Haddr, Hst1. vm_compute. reflexivity.
  - exists F, st1, st2. split_and!; try assumption.
    + rewrite Hread. vm_compute. reflexivity.
    + apply Hfreed. cbn [addr set_removed]. rewrite Haddr, Hst1. vm_compute. reflexivity.
Defined.


(** C10 on the file that holds the byte [a]: a descriptor opened on it
    stands at block 0, byte 0, and a write of the byte [b] through it leaves
    a file that holds [b] alone. *)
Lemma open_starts_at_offset_zero_witness :
  exists st' d st'' f',
    ufs_open st_stored "f" UFS_READ_WRITE = (st', 0)
    /\ locate_descriptor st' 0 = Some d
    /\ curr_data_segment d = 0 /\ byte_pos d = 0 /\ flags d = UFS_READ_WRITE
    /\ ufs_write st' 0 (buffer_of [Byte.x62]) 1 = Some (st'', 1)
    /\ deref (file_list st'') (fd_file d) = Some f'
    /\ payload (block_list f') = [Byte.x62].
Proof.
  assert (H : exists st', ufs_open st_stored "f" UFS_READ_WRITE = (st', 0))
    by (eexists; vm_compute; reflexivity).
  destruct H as (st' & Hopen).
  destruct (open_starts_at_offset_zero st_stored st' "f" UFS_READ_WRITE 0
              st_stored_table_wf Hopen) as (d & Hloc & Hseg & Hpos & Hfl & Hwrite);
    [discriminate|].
  assert (Hst' : st' = st_one_byte).
  { change st_one_byte with (fst (ufs_open st_stored "f" UFS_READ_WRITE)).
    by rewrite Hopen. }
  assert (H : exists f b,
             deref (file_list st_one_byte) 0%nat = Some f /\ block_list f = [b]
             /\ occupied b = 1 /\ length (memory b) = Z.to_nat BLOCK_SIZE
             /\ payload (block_list f) = [Byte.x61]).
  { do 2 eexists. split_and!; vm_compute; reflexivity. }
  destruct H as (f & b & Hf & Hbl & Hocc & Hmem & Hpay).
  assert (Hd : fd_file d = 0%nat).
  { subst st'. revert Hloc. vm_compute. by intros [= <-]. }
  destruct (Hwrite f (buffer_of [Byte.x62]) 1) as (st'' & f' & Hw & Hf' & Hpay').
  - by rewrite Hd, Hst'.
  - rewrite Hbl. apply chain_wf_single. split; [exact Hmem|].
    rewrite Hocc. unfold BLOCK_SIZE. lia.
  - intros k. subst st'. reflexivity.
  - apply is_writable_iff. rewrite Hfl. auto.
  - lia.
  - intros b'. rewrite Hbl. intros [= <-]. rewrite Hocc. unfold MAX_FILE_SIZE. lia.
  - exists st', d, st'', f'. split_and!; try assumption.
    rewrite Hpay', Hpay. reflexivity.
Defined.

End UfsFacts.

(* ===================================================================== *)
(** * UFS: what holds in every state                                   *)
(* ===================================================================== *)

Module UfsInvariant.
Import Ufs UfsFacts.

(** ** Counting the descriptors on a file *)

Lemma points_to_none (a : nat) (t : list (option filedesc)) :
  (forall i, mjoin (t !! i) = None) -> List.filter (points_to a) t = [].
Proof.
  induction t as [|x t IH]; intros H; [done|].
  specialize (H 0%nat) as H0. cbn in H0. subst x. cbn. apply IH.
  intros i. apply (H (S i)).
Qed.

(** The count depends on what the slots hold, not on the length of the
    array. *)
Lemma points_to_ext (a : nat) (t t' : list (option filedesc)) :
  (forall i, mjoin (t !! i) = mjoin (t' !! i)) ->
  List.filter (points_to a) t = List.filter (points_to a) t'.
Proof.
  revert t'. induction t as [|x t IH]; intros t' H.
  - symmetry. apply points_to_none. intros i. by rewrite <- H, lookup_nil.
  - destruct t' as [|y t'].
    + apply points_to_none. intros i. by rewrite H, lookup_nil.
    + specialize (H 0%nat) as H0. cbn in H0. subst y. cbn.
      rewrite (IH t'); [done|]. intros i. apply (H (S i)).
Qed.

Lemma points_to_insert (a : nat) (t : list (option filedesc)) (i : nat)
    (o o' : option filedesc) :
  t !! i = Some o ->
  (length (List.filter (points_to a) (<[i := o']> t))
   + (if points_to a o then 1 else 0)
   = length (List.filter (points_to a) t) + (if points_to a o' then 1 else 0))%nat.
Proof.
  intros Hx. rewrite insert_take_drop by eauto using lookup_lt_Some.
  rewrite <- (take_drop_middle t i o Hx) at 3.
  rewrite !List.filter_app, !length_app. cbn [List.filter].
  destruct (points_to a o), (points_to a o'); cbn [length]; lia.
Qed.

(** ** Writing, whatever the allocator does *)

Lemma grows_refl (bl : list block) : grows bl bl.
Proof. intros i b Hb. exists b. split; [done|lia]. Qed.

Lemma grows_trans (bl1 bl2 bl3 : list block) :
  grows bl1 bl2 -> grows bl2 bl3 -> grows bl1 bl3.
Proof.
  intros H12 H23 i b Hb. destruct (H12 i b Hb) as (b2 & Hb2 & Hle2).
  destruct (H23 i b2 Hb2) as (b3 & Hb3 & Hle3). exists b3. split; [done|lia].
Qed.

Lemma grows_snoc (bl : list block) (b : block) : grows bl (bl ++ [b]).
Proof.
  intros i x Hx. exists x. split; [|lia]. by apply lookup_app_l_Some.
Qed.

Lemma grows_insert (bl : list block) (cur : nat) (b b' : block) :
  bl !! cur = Some b -> occupied b <= occupied b' -> grows bl (<[cur := b']> bl).
Proof.
  intros Hb Hle i x Hx. destruct (decide (i = cur)) as [->|Hne].
  - exists b'. split; [apply list_lookup_insert_eq; eauto using lookup_lt_Some|].
    assert (x = b) as -> by congruence. done.
  - exists x. split; [by rewrite list_lookup_insert_ne|lia].
Qed.

Lemma cursor_ok_grows (bl bl' : list block) (seg pos : Z) :
  grows bl bl' -> cursor_ok bl seg pos -> cursor_ok bl' seg pos.
Proof.
  intros Hg (Hseg & b & Hb & Hpos). destruct (Hg _ _ Hb) as (b' & Hb' & Hle).
  split; [done|]. exists b'. split; [done|lia].
Qed.

(** One pass through the advance: the early return, or a current block
    with room. *)
Lemma write_advance_any (h : heap) (bl : list block) (cur : nat) (b : block) (pos : Z) :
  chain_wf bl -> bl !! cur = Some b -> 0 <= pos <= occupied b ->
  (exists e h', write_advance h bl cur (Z.of_nat cur) pos = inl (e, h'))
  \/ exists h' bl' cur' b' pos',
      write_advance h bl cur (Z.of_nat cur) pos = inr (h', bl', cur', Z.of_nat cur', pos')
      /\ chain_wf bl' /\ bl' !! cur' = Some b'
      /\ 0 <= pos' <= occupied b' /\ pos' < BLOCK_SIZE
      /\ payload bl' = payload bl
      /\ offset (Z.of_nat cur') pos' = offset (Z.of_nat cur) pos
      /\ grows bl bl'.
Proof.
  intros Hwf Hb Hpos. unfold write_advance.
  assert (Hbw : block_wf b) by eauto using chain_wf_lookup.
  destruct (pos =? BLOCK_SIZE) eqn:Hp.
  - apply Z.eqb_eq in Hp. destruct (bl !! S cur) as [b2|] eqn:Hnext.
    + right. assert (block_wf b2) as [_ ?] by eauto using chain_wf_lookup.
      exists h, bl, (S cur), b2, 0. rewrite Nat2Z.inj_succ, <- Z.add_1_r.
      split_and!; try done; try apply grows_refl; unfold offset, BLOCK_SIZE in *; lia.
    + unfold expand_storage_unit, heap_alloc. cbn [heap_ok heap_tick].
      destruct (heap_ok h (heap_tick h)); cbn [negb]; [|left; by eexists _, _].
      destruct (heap_ok h (S (heap_tick h))); cbn [negb]; [|left; by eexists _, _].
      right.
      assert (Hlen : length bl = S cur).
      { apply lookup_ge_None in Hnext. apply lookup_lt_Some in Hb. lia. }
      eexists _, (bl ++ [empty_block]), (S cur), empty_block, 0.
      rewrite length_app, Hlen. cbn [length Nat.add Nat.pred].
      replace (cur + 1)%nat with (S cur) by lia.
      rewrite Nat2Z.inj_succ, <- Z.add_1_r.
      destruct Hbw as [_ ?].
      assert (Hpay : payload (bl ++ [empty_block]) = payload bl).
      { rewrite payload_app, payload_cons, payload_nil. unfold block_bytes, empty_block.
        cbn [occupied memory]. by rewrite take_0, !app_nil_r. }
      assert (Hlk : (bl ++ [empty_block]) !! S cur = Some empty_block).
      { rewrite lookup_app_r by lia. by rewrite Hlen, Nat.sub_diag. }
      assert (Hcw : chain_wf (bl ++ [empty_block])).
      { eapply chain_wf_snoc; eauto. lia. }
      split_and!; try done; try apply grows_snoc;
        unfold empty_block; cbn [occupied]; unfold offset, BLOCK_SIZE in *; lia.
  - right. apply Z.eqb_neq in Hp. destruct Hbw as [_ ?].
    exists h, bl, cur, b, pos.
    split_and!; try done; try apply grows_refl; unfold offset, BLOCK_SIZE in *; lia.
Qed.

(** The loop of [ufs_write] ends within [size] rounds whatever the
    allocator does, with a well-formed chain that has the old blocks, none
    with less data, the cursor inside it, and no more content than the
    write asked for. *)
Lemma write_loop_any (buf : Z -> byte) (size : Z) (fuel : nat) :
  forall (h : heap) (bl : list block) (cur : nat) (b : block) (pos written : Z),
    chain_wf bl -> bl !! cur = Some b ->
    0 <= pos <= occupied b -> 0 <= written <= size ->
    (Z.to_nat (size - written) <= fuel)%nat ->
    exists r,
      write_loop fuel buf size h bl cur (Z.of_nat cur) pos written = Some r
      /\ chain_wf (w_blocks r)
      /\ cursor_ok (w_blocks r) (w_segment r) (w_pos r)
      /\ grows bl (w_blocks r)
      /\ Z.of_nat (length (payload (w_blocks r)))
         <= Z.max (Z.of_nat (length (payload bl)))
                  (offset (Z.of_nat cur) pos + (size - written)).
Proof.
  induction fuel as [|fuel IH]; intros h bl cur b pos written Hwf Hb Hpos Hw Hfuel.
  - assert (written = size) as -> by lia. rewrite write_loop_done by lia.
    eexists. split; [done|]. cbn [w_blocks w_segment w_pos].
    split_and!; try done; try apply grows_refl; try lia.
    split; [lia|]. exists b. by rewrite Nat2Z.id.
  - destruct (decide (size <= written)) as [Hdone|Hmore].
    { assert (written = size) as -> by lia. rewrite write_loop_done by lia.
      eexists. split; [done|]. cbn [w_blocks w_segment w_pos].
      split_and!; try done; try apply grows_refl; try lia.
      split; [lia|]. exists b. by rewrite Nat2Z.id. }
    cbn [write_loop]. rewrite (proj2 (Z.ltb_lt written size)) by lia. cbn [negb].
    destruct (write_advance_any h bl cur b pos Hwf Hb Hpos)
      as [(e & h' & ->)
         |(h' & bl' & cur' & b' & pos' & -> & Hwf' & Hb' & Hpos' & Hlt' & Hpay' & Hoff' & Hg')].
    { eexists. split; [done|]. cbn [w_blocks w_segment w_pos].
      split_and!; try done; try apply grows_refl; try lia.
      split; [lia|]. exists b. by rewrite Nat2Z.id. }
    assert (Hbw' : block_wf b') by eauto using chain_wf_lookup.
    replace ((pos' <? 0) || (BLOCK_SIZE <? pos')) with false
      by (symmetry; apply orb_false_intro; [apply Z.ltb_ge|apply Z.ltb_ge]; lia).
    rewrite Hb'.
    set (rem := if size - written <? BLOCK_SIZE - pos' then size - written
                else BLOCK_SIZE - pos').
    assert (Hrem : 0 < rem /\ rem <= size - written /\ pos' + rem <= BLOCK_SIZE).
    { unfold rem. destruct (_ <? _) eqn:Hc; [apply Z.ltb_lt in Hc|apply Z.ltb_ge in Hc]; lia. }
    set (b2 := mk_block _ _).
    assert (Hb2 : block_bytes b2
                  = splice (block_bytes b') (Z.to_nat pos') (buffer_bytes buf written rem)).
    { apply block_bytes_copy; (done || lia). }
    assert (Hb2w : block_wf b2).
    { split; unfold b2; cbn [memory occupied].
      - apply copy_in_length; (done || lia).
      - destruct Hbw' as [_ ?]. destruct (_ >? _); lia. }
    assert (Hocc2 : occupied b' <= occupied b2 /\ pos' + rem <= occupied b2).
    { unfold b2; cbn [occupied]. destruct (_ >? _) eqn:Hc; lia. }
    destruct (IH h' (<[cur' := b2]> bl') cur' b2 (pos' + rem) (written + rem))
      as (r & Hr & Hwfr & Hcur & Hgr & Hlen); try done.
    { eapply chain_wf_insert; eauto. lia. }
    { apply list_lookup_insert_eq. eauto using lookup_lt_Some. }
    { lia. }
    { lia. }
    { lia. }
    exists r. split; [done|]. split_and!; try done.
    + eapply grows_trans; [exact Hg'|]. eapply grows_trans; [|exact Hgr].
      eapply grows_insert; eauto. lia.
    + rewrite (payload_copy bl' cur' b' b2 pos' (buffer_bytes buf written rem)) in Hlen;
        try done; [|rewrite buffer_bytes_length; lia].
      rewrite splice_length in Hlen by (eapply offset_le_payload; eauto).
      rewrite buffer_bytes_length, Hpay' in Hlen.
      unfold offset, BLOCK_SIZE in *. lia.
Qed.

(** ** The list of file objects *)

(** With distinct addresses, [store] changes every object at the address,
    which is at most one. *)
Lemma store_fmap (a : nat) (g : file -> file) (l : list file) :
  NoDup (addr <$> l) ->
  store a g l = (fun x => if Nat.eqb (addr x) a then g x else x) <$> l.
Proof.
  induction l as [|x l IH]; intros Hnd; [done|].
  rewrite fmap_cons in Hnd. apply NoDup_cons in Hnd as [Hx Hnd].
  cbn [store]. rewrite fmap_cons.
  destruct (Nat.eqb_spec (addr x) a) as [Ha|Ha].
  - f_equal. symmetry. rewrite <- (list_fmap_id l) at 2. apply list_fmap_ext.
    intros i y Hy. destruct (Nat.eqb_spec (addr y) a) as [Hya|]; [|done].
    exfalso. apply Hx. rewrite Ha, <- Hya. apply list_elem_of_fmap.
    exists y. split; [done|]. eauto using list_elem_of_lookup_2.
  - f_equal. by apply IH.
Qed.

Lemma unlink_delete (l : list file) (i : nat) (f : file) :
  NoDup (addr <$> l) -> l !! i = Some f -> unlink (addr f) l = delete i l.
Proof.
  revert i. induction l as [|x l IH]; intros i Hnd Hi; [done|].
  rewrite fmap_cons in Hnd. apply NoDup_cons in Hnd as [Hx Hnd].
  destruct i as [|i]; cbn in Hi |- *.
  - injection Hi as ->. by rewrite Nat.eqb_refl.
  - destruct (Nat.eqb_spec (addr x) (addr f)) as [Ha|Ha].
    + exfalso. apply Hx. rewrite Ha. apply list_elem_of_fmap. exists f.
      split; [done|]. eauto using list_elem_of_lookup_2.
    + f_equal. by apply IH.
Qed.

Lemma deref_Some_lookup (l : list file) (a : nat) (f : file) :
  deref l a = Some f -> exists i, l !! i = Some f /\ addr f = a.
Proof.
  unfold deref. intros H. apply find_some in H as [Hin Ha].
  apply Nat.eqb_eq in Ha. apply list_elem_of_In, list_elem_of_lookup in Hin as [i Hi].
  eauto.
Qed.

Lemma deref_elem (l : list file) (f : file) :
  NoDup (addr <$> l) -> f ∈ l -> deref l (addr f) = Some f.
Proof.
  intros Hnd Hin. apply list_elem_of_lookup in Hin as [i Hi]. by eapply deref_lookup.
Qed.

Lemma deref_fmap (l : list file) (h : file -> file) (a : nat) :
  (forall x, addr (h x) = addr x) -> deref (h <$> l) a = h <$> deref l a.
Proof.
  intros Hh. unfold deref. induction l as [|x l IH]; [done|].
  rewrite fmap_cons. cbn [List.find]. rewrite Hh.
  destruct (Nat.eqb (addr x) a); [done|exact IH].
Qed.

(** [files_wf] after a change of the objects that keeps addresses and
    names and makes no removed file visible. *)
Lemma files_wf_fmap (st st' : ufs) (h : file -> file) :
  files_wf st ->
  (forall x, addr (h x) = addr x /\ name (h x) = name x
             /\ (is_removed (h x) = false -> is_removed x = false)) ->
  file_list st' = h <$> file_list st -> next_addr st' = next_addr st ->
  files_wf st'.
Proof.
  intros (Hnd & Hfresh & Huniq) Hh Hl Hn. unfold files_wf. rewrite Hl, Hn.
  split_and!.
  - rewrite <- list_fmap_compose.
    erewrite list_fmap_ext; [exact Hnd|]. intros i x _. cbn. apply Hh.
  - intros f' Hin. apply list_elem_of_fmap in Hin as (f & -> & Hin).
    rewrite (proj1 (Hh f)). by apply Hfresh.
  - intros i j f' g' Hi Hj Hvi Hvj Hname.
    rewrite list_lookup_fmap in Hi, Hj.
    destruct (file_list st !! i) as [f|] eqn:Hfi; [|done].
    destruct (file_list st !! j) as [g|] eqn:Hgj; [|done].
    cbn in Hi, Hj. injection Hi as <-. injection Hj as <-.
    destruct (Hh f) as (_ & Hnf & Hrf), (Hh g) as (_ & Hng & Hrg).
    apply (Huniq i j f g); auto. congruence.
Qed.

Lemma files_wf_delete (st st' : ufs) (k : nat) :
  files_wf st -> file_list st' = delete k (file_list st) ->
  next_addr st' = next_addr st -> files_wf st'.
Proof.
  intros (Hnd & Hfresh & Huniq) Hl Hn. unfold files_wf. rewrite Hl, Hn. split_and!.
  - rewrite list_fmap_delete. eapply sublist_NoDup; [exact Hnd|apply sublist_delete].
  - intros f Hin. apply Hfresh. by eapply list_elem_of_delete_inv.
  - intros i j f g Hi Hj Hvi Hvj Hname.
    destruct (decide (i < k)%nat), (decide (j < k)%nat).
    + rewrite list_lookup_delete_lt in Hi, Hj by lia. eauto.
    + rewrite list_lookup_delete_lt in Hi by lia.
      rewrite list_lookup_delete_ge in Hj by lia.
      specialize (Huniq i (S j) f g Hi Hj Hvi Hvj Hname). lia.
    + rewrite list_lookup_delete_ge in Hi by lia.
      rewrite list_lookup_delete_lt in Hj by lia.
      specialize (Huniq (S i) j f g Hi Hj Hvi Hvj Hname). lia.
    + rewrite list_lookup_delete_ge in Hi, Hj by lia.
      specialize (Huniq (S i) (S j) f g Hi Hj Hvi Hvj Hname). lia.
Qed.

Lemma find_None_visible (st : ufs) (fname : string) (f : file) :
  find st fname = None -> f ∈ file_list st -> is_removed f = false -> name f <> fname.
Proof.
  unfold find. intros Hnone Hin Hvis Hname.
  apply list_elem_of_In in Hin.
  pose proof (find_none _ _ Hnone f Hin) as H. cbn in H.
  rewrite Hvis in H. cbn in H. apply String.eqb_neq in H. done.
Qed.

(** Descriptors and the objects they point to. *)
Lemma no_descriptor_on (a : nat) (t : list (option filedesc)) :
  (forall i d, mjoin (t !! i) = Some d -> fd_file d <> a) ->
  List.filter (points_to a) t = [].
Proof.
  induction t as [|x t IH]; intros H; [done|]. cbn [List.filter].
  destruct x as [d|]; cbn [points_to].
  - specialize (H 0%nat d eq_refl) as Hd. rewrite (proj2 (Nat.eqb_neq _ _) Hd).
    apply IH. intros i. apply (H (S i)).
  - apply IH. intros i. apply (H (S i)).
Qed.

Lemma descriptor_on (a : nat) (t : list (option filedesc)) (i : nat) (d : filedesc) :
  mjoin (t !! i) = Some d -> fd_file d = a ->
  (0 < length (List.filter (points_to a) t))%nat.
Proof.
  revert i. induction t as [|x t IH]; intros i Hd Ha.
  - by rewrite lookup_nil in Hd.
  - cbn [List.filter]. destruct i as [|i]; cbn in Hd.
    + subst x. cbn [points_to]. rewrite (proj2 (Nat.eqb_eq _ _) Ha). cbn. lia.
    + specialize (IH i Hd Ha). destruct (points_to a x); cbn [length]; lia.
Qed.

(** ** What keeps [ufs_ok] *)

Lemma open_descriptors_ext (st st' : ufs) (a : nat) :
  (forall i, mjoin (descriptor_table st' !! i) = mjoin (descriptor_table st !! i)) ->
  open_descriptors st' a = open_descriptors st a.
Proof. intros H. unfold open_descriptors. by rewrite (points_to_ext a _ _ H). Qed.

(** The same objects and the same descriptors, in a table that may have
    another length. *)
Lemma ufs_ok_same (st st' : ufs) :
  ufs_ok st -> table_wf st' ->
  file_list st' = file_list st -> next_addr st' = next_addr st ->
  (forall i, mjoin (descriptor_table st' !! i) = mjoin (descriptor_table st !! i)) ->
  ufs_ok st'.
Proof.
  intros (Hwf & Hfiles & Hfok & Hdok) Hwf' Hl Hn Ht. split_and!.
  - exact Hwf'.
  - destruct Hfiles as (H1 & H2 & H3). unfold files_wf. rewrite Hl, Hn. done.
  - intros f Hin. rewrite Hl in Hin. destruct (Hfok f Hin) as (? & ? & ? & ?).
    split_and!; try done. by rewrite (open_descriptors_ext st st').
  - intros i d Hd. rewrite Ht in Hd. destruct (Hdok i d Hd) as (f & Hf & Hc).
    exists f. by rewrite Hl.
Qed.

(** A new object at a fresh address, for a name no visible file has. *)
Lemma ufs_ok_new_file (st st' : ufs) (fname : string) :
  ufs_ok st -> find st fname = None -> table_wf st' ->
  file_list st' = mk_file (next_addr st) [empty_block] 0 fname false :: file_list st ->
  next_addr st' = S (next_addr st) ->
  (forall i, mjoin (descriptor_table st' !! i) = mjoin (descriptor_table st !! i)) ->
  ufs_ok st'.
Proof.
  intros (Hwf & (Hnd & Hfresh & Huniq) & Hfok & Hdok) Hfind Hwf' Hl Hn Ht.
  set (new := mk_file (next_addr st) [empty_block] 0 fname false) in *.
  assert (Hnotin : next_addr st ∉ addr <$> file_list st).
  { intros Hin. apply list_elem_of_fmap in Hin as (f & Ha & Hin).
    specialize (Hfresh f Hin). lia. }
  assert (Hnodesc : forall i d, mjoin (descriptor_table st !! i) = Some d ->
                                fd_file d <> next_addr st).
  { intros i d Hd Ha. destruct (Hdok i d Hd) as (f & Hf & _).
    apply deref_Some_lookup in Hf as (j & Hj & Haddr).
    specialize (Hfresh f (list_elem_of_lookup_2 _ _ _ Hj)). lia. }
  split_and!.
  - exact Hwf'.
  - unfold files_wf. rewrite Hl, Hn. split_and!.
    + rewrite fmap_cons. apply NoDup_cons. done.
    + intros f Hin. apply elem_of_cons in Hin as [->|Hin]; [cbn; lia|].
      specialize (Hfresh f Hin). lia.
    + intros [|i] [|j] f g Hi Hj Hvi Hvj Hname; cbn in Hi, Hj.
      * done.
      * injection Hi as <-. exfalso.
        apply (find_None_visible st fname g Hfind); eauto using list_elem_of_lookup_2.
      * injection Hj as <-. exfalso.
        apply (find_None_visible st fname f Hfind); eauto using list_elem_of_lookup_2.
      * f_equal. eauto.
  - intros f Hin. rewrite Hl in Hin. apply elem_of_cons in Hin as [->|Hin].
    + split_and!.
      * apply chain_wf_fresh.
      * cbn [refs addr new]. unfold open_descriptors.
        rewrite (points_to_ext _ _ _ Ht), no_descriptor_on; done.
      * cbn [block_list new]. rewrite payload_cons, payload_nil, app_nil_r.
        unfold block_bytes, empty_block. cbn [occupied memory]. rewrite take_0.
        unfold MAX_FILE_SIZE. cbn. lia.
      * done.
    + destruct (Hfok f Hin) as (? & ? & ? & ?).
      split_and!; try done. by rewrite (open_descriptors_ext st st').
  - intros i d Hd. rewrite Ht in Hd. destruct (Hdok i d Hd) as (f & Hf & Hc).
    exists f. split; [|done]. rewrite Hl. unfold deref. cbn [List.find addr new].
    rewrite (proj2 (Nat.eqb_neq _ _)); [exact Hf|].
    intros Ha. by apply (Hnodesc i d Hd).
Qed.

Lemma refs_nonneg (st : ufs) (f : file) : file_ok st f -> 0 <= refs f.
Proof. intros (_ & -> & _). lia. Qed.

(** A descriptor at the start of the object at [a], put into a free slot,
    with one more reference on the object. *)
Lemma ufs_ok_install (st st' : ufs) (a fd : nat) (fl : Z) (f : file) :
  ufs_ok st -> deref (file_list st) a = Some f ->
  descriptor_table st !! fd = Some None -> table_wf st' ->
  file_list st' = store a (fun x => set_refs (refs x + 1) x) (file_list st) ->
  file_descriptors st' = Some (<[fd := Some (mk_filedesc a 0 fl 0)]> (descriptor_table st)) ->
  next_addr st' = next_addr st ->
  ufs_ok st'.
Proof.
  intros (Hwf & Hfiles & Hfok & Hdok) Hf Hslot Hwf' Hl Ht Hn.
  pose proof Hfiles as (Hnd & _ & _).
  set (h := fun x => if Nat.eqb (addr x) a then set_refs (refs x + 1) x else x).
  rewrite (store_fmap _ _ _ Hnd) in Hl. fold h in Hl.
  assert (Hh : forall x, addr (h x) = addr x /\ name (h x) = name x
                         /\ block_list (h x) = block_list x
                         /\ is_removed (h x) = is_removed x).
  { intros x. unfold h. by destruct (Nat.eqb (addr x) a). }
  assert (Htab : descriptor_table st' = <[fd := Some (mk_filedesc a 0 fl 0)]> (descriptor_table st)).
  { unfold descriptor_table at 1. by rewrite Ht. }
  assert (Hcount : forall b,
             open_descriptors st' b
             = (open_descriptors st b + (if Nat.eqb a b then 1 else 0))%nat).
  { intros b. unfold open_descriptors. rewrite Htab.
    pose proof (points_to_insert b _ fd None (Some (mk_filedesc a 0 fl 0)) Hslot) as H.
    cbn [points_to fd_file] in H. lia. }
  split_and!.
  - exact Hwf'.
  - apply (files_wf_fmap st st' h); try done. intros x. destruct (Hh x) as (?&?&?&Hr).
    split_and!; try done. by rewrite Hr.
  - intros f' Hin. rewrite Hl in Hin. apply list_elem_of_fmap in Hin as (f0 & -> & Hin).
    destruct (Hfok f0 Hin) as (Hc & Hr & Hp & Hrm). destruct (Hh f0) as (Ha & _ & Hb & Hrem).
    split_and!.
    + by rewrite Hb.
    + rewrite Ha, Hcount. unfold h. rewrite (Nat.eqb_sym a).
      destruct (Nat.eqb (addr f0) a); cbn [refs set_refs]; lia.
    + by rewrite Hb.
    + rewrite Hrem. intros Hx. specialize (Hrm Hx). unfold h.
      destruct (Nat.eqb (addr f0) a); cbn [refs set_refs]; lia.
  - intros i d Hd. rewrite Htab in Hd. unfold descriptor_ok. rewrite Hl, deref_fmap by apply Hh.
    destruct (decide (i = fd)) as [->|Hne].
    + rewrite list_lookup_insert_eq in Hd by eauto using lookup_lt_Some.
      cbn in Hd. injection Hd as <-. cbn [fd_file curr_data_segment byte_pos].
      rewrite Hf. eexists. split; [done|]. destruct (Hh f) as (_ & _ & -> & _).
      apply cursor_ok_start.
      apply deref_Some_lookup in Hf as (j & Hj & _).
      by destruct (Hfok f (list_elem_of_lookup_2 _ _ _ Hj)).
    + rewrite list_lookup_insert_ne in Hd by done.
      destruct (Hdok i d Hd) as (f2 & Hf2 & Hc2). rewrite Hf2. eexists. split; [done|].
      by destruct (Hh f2) as (_ & _ & -> & _).
Qed.

Lemma store_same_blocks (l : list file) (f : file) :
  NoDup (addr <$> l) -> deref l (addr f) = Some f ->
  store (addr f) (set_blocks (block_list f)) l = l.
Proof.
  intros Hnd Hf. rewrite store_fmap by done. rewrite <- (list_fmap_id l) at 2.
  apply list_fmap_ext. intros i x Hx.
  destruct (Nat.eqb_spec (addr x) (addr f)) as [Ha|]; [|done].
  assert (x = f) as ->.
  { pose proof (deref_lookup _ _ _ Hnd Hx) as H. rewrite Ha, Hf in H. congruence. }
  by destruct f.
Qed.

(** New blocks for the object behind descriptor [fd] and a new cursor for
    the descriptor: what [ufs_write] and [ufs_read] do. *)
Lemma ufs_ok_update (st st' : ufs) (fd : Z) (d : filedesc) (f : file)
    (bl' : list block) (seg' pos' : Z) :
  ufs_ok st -> locate_descriptor st fd = Some d ->
  deref (file_list st) (fd_file d) = Some f ->
  chain_wf bl' -> grows (block_list f) bl' -> cursor_ok bl' seg' pos' ->
  Z.of_nat (length (payload bl')) <= MAX_FILE_SIZE ->
  file_list st' = store (addr f) (set_blocks bl') (file_list st) ->
  file_descriptors st'
  = Some (<[Z.to_nat fd := Some (set_cursor seg' pos' d)]> (descriptor_table st)) ->
  file_descriptor_count st' = file_descriptor_count st ->
  next_addr st' = next_addr st ->
  ufs_ok st'.
Proof.
  intros (Hwf & Hfiles & Hfok & Hdok) Hloc Hf Hc' Hg Hcur' Hpay' Hl Ht Hcnt Hn.
  pose proof Hfiles as (Hnd & _ & _).
  pose proof (deref_addr _ _ _ Hf) as Haddr.
  apply locate_descriptor_Some in Hloc as Hloc'. destruct Hloc' as [Hfd Hslot].
  set (h := fun x => if Nat.eqb (addr x) (addr f) then set_blocks bl' x else x).
  rewrite (store_fmap _ _ _ Hnd) in Hl. fold h in Hl.
  assert (Hh : forall x, addr (h x) = addr x /\ name (h x) = name x
                         /\ refs (h x) = refs x
                         /\ is_removed (h x) = is_removed x).
  { intros x. unfold h. by destruct (Nat.eqb (addr x) (addr f)). }
  assert (Htab : descriptor_table st'
                 = <[Z.to_nat fd := Some (set_cursor seg' pos' d)]> (descriptor_table st)).
  { unfold descriptor_table at 1. by rewrite Ht. }
  assert (Hcount : forall b, open_descriptors st' b = open_descriptors st b).
  { intros b. unfold open_descriptors. rewrite Htab.
    pose proof (points_to_insert b _ _ _ (Some (set_cursor seg' pos' d)) Hslot) as H.
    cbn [points_to fd_file set_cursor] in H. destruct (Nat.eqb (fd_file d) b); lia. }
  assert (Hsame : forall x, x ∈ file_list st -> addr x = addr f -> x = f).
  { intros x Hx Ha. pose proof (deref_elem _ _ Hnd Hx) as H.
    rewrite Ha, Haddr, Hf in H. congruence. }
  split_and!.
  - unfold table_wf. rewrite Ht, Hcnt. by eapply table_wf_update.
  - apply (files_wf_fmap st st' h); try done. intros x. destruct (Hh x) as (?&?&?&Hr).
    split_and!; try done. by rewrite Hr.
  - intros f' Hin. rewrite Hl in Hin. apply list_elem_of_fmap in Hin as (f0 & -> & Hin).
    destruct (Hfok f0 Hin) as (Hc & Hr & Hp & Hrm).
    destruct (Hh f0) as (Ha & _ & Hrefs & Hrem).
    unfold file_ok. rewrite Ha, Hrefs, Hrem, Hcount. split_and!; try done.
    + unfold h. destruct (Nat.eqb (addr f0) (addr f)); [done|done].
    + unfold h. destruct (Nat.eqb (addr f0) (addr f)); [done|done].
  - intros i d2 Hd. rewrite Htab in Hd. unfold descriptor_ok.
    rewrite Hl, deref_fmap by apply Hh.
    destruct (decide (i = Z.to_nat fd)) as [->|Hne].
    + rewrite list_lookup_insert_eq in Hd by eauto using lookup_lt_Some.
      cbn in Hd. injection Hd as <-. cbn [fd_file curr_data_segment byte_pos set_cursor].
      rewrite Hf. eexists. split; [done|]. unfold h. rewrite Haddr at 1.
      by rewrite Haddr, Nat.eqb_refl.
    + rewrite list_lookup_insert_ne in Hd by done.
      destruct (Hdok i d2 Hd) as (f2 & Hf2 & Hc2). rewrite Hf2. eexists. split; [done|].
      unfold h. destruct (Nat.eqb_spec (addr f2) (addr f)) as [Ha|]; [|done].
      cbn [block_list set_blocks].
      apply deref_Some_lookup in Hf2 as (j & Hj & _).
      rewrite (Hsame f2 (list_elem_of_lookup_2 _ _ _ Hj) Ha) in Hc2.
      by eapply cursor_ok_grows.
Qed.

Lemma no_descriptor_when_zero (st : ufs) (a : nat) (i : nat) (d : filedesc) :
  open_descriptors st a = 0%nat -> mjoin (descriptor_table st !! i) = Some d ->
  fd_file d <> a.
Proof.
  intros Hz Hd Ha. pose proof (descriptor_on a _ i d Hd Ha) as H.
  unfold open_descriptors in Hz. lia.
Qed.

(** The slot of a descriptor cleared, one reference less on its object,
    and the object unlinked when that was the last one of a removed file:
    what [ufs_close] does. *)
Lemma ufs_ok_close (st st' : ufs) (fd : Z) (d : filedesc) (f : file) :
  ufs_ok st -> locate_descriptor st fd = Some d ->
  deref (file_list st) (fd_file d) = Some f -> table_wf st' ->
  file_list st'
  = (if (refs f - 1 =? 0) && is_removed f
     then unlink (addr f) (store (addr f) (set_refs (refs f - 1)) (file_list st))
     else store (addr f) (set_refs (refs f - 1)) (file_list st)) ->
  (forall i, mjoin (descriptor_table st' !! i)
             = if decide (i = Z.to_nat fd) then None
               else mjoin (descriptor_table st !! i)) ->
  next_addr st' = next_addr st ->
  ufs_ok st'.
Proof.
  intros (Hwf & Hfiles & Hfok & Hdok) Hloc Hf Hwf' Hl Ht Hn.
  pose proof Hfiles as (Hnd & _ & _).
  pose proof (deref_addr _ _ _ Hf) as Haddr.
  apply locate_descriptor_Some in Hloc as Hloc'. destruct Hloc' as [Hfd Hslot].
  destruct (deref_Some_lookup _ _ _ Hf) as (k & Hk & _).
  assert (Hfin : f ∈ file_list st) by eauto using list_elem_of_lookup_2.
  destruct (Hfok f Hfin) as (Hcf & Hrf & Hpf & Hrmf).
  set (h := fun x => if Nat.eqb (addr x) (addr f) then set_refs (refs f - 1) x else x).
  set (l1 := store (addr f) (set_refs (refs f - 1)) (file_list st)) in *.
  assert (Hl1 : l1 = h <$> file_list st) by (unfold l1; by rewrite store_fmap).
  assert (Hh : forall x, addr (h x) = addr x /\ name (h x) = name x
                         /\ block_list (h x) = block_list x
                         /\ is_removed (h x) = is_removed x).
  { intros x. unfold h. by destruct (Nat.eqb (addr x) (addr f)). }
  assert (Hsame : forall x, x ∈ file_list st -> addr x = addr f -> x = f).
  { intros x Hx Ha. pose proof (deref_elem _ _ Hnd Hx) as H.
    rewrite Ha, Haddr, Hf in H. congruence. }
  assert (Hcount : forall b,
             (open_descriptors st' b + (if Nat.eqb (fd_file d) b then 1 else 0)
              = open_descriptors st b)%nat).
  { intros b. unfold open_descriptors.
    rewrite (points_to_ext b (descriptor_table st')
                           (<[Z.to_nat fd := None]> (descriptor_table st))).
    - pose proof (points_to_insert b _ _ _ None Hslot) as H.
      cbn [points_to] in H. lia.
    - intros i. rewrite Ht. destruct (decide (i = Z.to_nat fd)) as [->|Hne].
      + by rewrite list_lookup_insert_eq by eauto using lookup_lt_Some.
      + by rewrite list_lookup_insert_ne. }
  assert (Hcf' : Z.of_nat (open_descriptors st' (addr f)) = refs f - 1).
  { specialize (Hcount (addr f)). rewrite <- Haddr, Nat.eqb_refl in Hcount. lia. }
  (* the state between the store and the unlink *)
  set (st1 := set_file_list l1 st).
  assert (Hfiles1 : files_wf st1).
  { apply (files_wf_fmap st st1 h); try done. intros x. destruct (Hh x) as (?&?&?&Hr).
    split_and!; try done. by rewrite Hr. }
  assert (Hfok1 : forall f', f' ∈ l1 ->
             (addr f' = addr f -> refs f' = refs f - 1) /\
             (addr f' <> addr f -> file_ok st' f') /\
             (refs f - 1 <> 0 -> file_ok st' f')).
  { intros f' Hin. rewrite Hl1 in Hin. apply list_elem_of_fmap in Hin as (f0 & -> & Hin).
    destruct (Hfok f0 Hin) as (Hc & Hr & Hp & Hrm).
    destruct (Hh f0) as (Ha & _ & Hb & Hrem). rewrite Ha.
    unfold file_ok. rewrite Ha, Hb, Hrem. unfold h.
    destruct (Nat.eqb_spec (addr f0) (addr f)) as [He|He]; cbn [refs set_refs].
    - split_and!; try done. intros Hnz. rewrite He, Hcf'. split_and!; try done.
      intros _. lia.
    - specialize (Hcount (addr f0)).
      rewrite (proj2 (Nat.eqb_neq (fd_file d) (addr f0))) in Hcount by congruence.
      split_and!; try done; intros _; (split_and!; [done|lia|done|done]). }
  assert (Hdok1 : forall i d2, mjoin (descriptor_table st' !! i) = Some d2 ->
             exists f2, deref l1 (fd_file d2) = Some f2
                        /\ cursor_ok (block_list f2) (curr_data_segment d2) (byte_pos d2)).
  { intros i d2 Hd. rewrite Ht in Hd. destruct (decide (i = Z.to_nat fd)); [done|].
    destruct (Hdok i d2 Hd) as (f2 & Hf2 & Hc2).
    rewrite Hl1, deref_fmap, Hf2 by apply Hh. eexists. split; [done|].
    by destruct (Hh f2) as (_ & _ & -> & _). }
  destruct ((refs f - 1 =? 0) && is_removed f) eqn:Hlast.
  - apply andb_prop in Hlast as [Hz Hrem]. apply Z.eqb_eq in Hz.
    assert (Hk1 : l1 !! k = Some (h f)) by (by rewrite Hl1, list_lookup_fmap, Hk).
    assert (Hnd1 : NoDup (addr <$> l1)) by apply Hfiles1.
    assert (Hdel : file_list st' = delete k l1).
    { rewrite Hl. destruct (Hh f) as (<- & _). by apply unlink_delete. }
    assert (Hgone : deref (file_list st') (addr f) = None).
    { rewrite Hl. by apply deref_unlink_same. }
    assert (Hfiles' : files_wf st') by (by apply (files_wf_delete st1 st' k)).
    split_and!; try done.
    + intros f' Hin.
      assert (Hne : addr f' <> addr f).
      { intros Ha. pose proof (deref_elem _ _ (proj1 Hfiles') Hin) as H.
        rewrite Ha, Hgone in H. done. }
      rewrite Hdel in Hin. apply list_elem_of_delete_inv in Hin.
      destruct (Hfok1 f' Hin) as (_ & H2 & _). by apply H2.
    + intros i d2 Hd. destruct (Hdok1 i d2 Hd) as (f2 & Hf2 & Hc2). exists f2.
      split; [|done]. rewrite Hl, deref_unlink_other; [done|].
      intros Ha. apply (no_descriptor_when_zero st' (addr f) i d2); [lia|done|done].
  - assert (Hnz : refs f - 1 <> 0 \/ is_removed f = false).
    { apply andb_false_iff in Hlast as [H|H]; [left; by apply Z.eqb_neq|by right]. }
    assert (Hfiles' : files_wf st').
    { apply (files_wf_fmap st st' h); try done; [|by rewrite Hl].
      intros x. destruct (Hh x) as (?&?&?&Hr). split_and!; try done. by rewrite Hr. }
    split_and!; try done.
    + intros f' Hin. rewrite Hl in Hin. destruct (Hfok1 f' Hin) as (H1 & H2 & H3).
      destruct (decide (addr f' = addr f)) as [Ha|Ha]; [|by apply H2].
      destruct Hnz as [Hnz|Hvis]; [by apply H3|].
      (* the object of the descriptor, visible: one reference less *)
      specialize (H1 Ha).
      assert (Hin' := Hin). rewrite Hl1 in Hin'.
      apply list_elem_of_fmap in Hin' as (f0 & Hf0 & Hin0).
      destruct (Hh f0) as (Ha0 & _ & Hb0 & Hr0).
      assert (f0 = f) as -> by (apply Hsame; [done|]; by rewrite <- Ha0, <- Hf0).
      unfold file_ok. rewrite Hf0, Hb0, Hr0, Ha0, Hcf', Hvis. rewrite Hf0 in H1.
      split_and!; try done.
    + intros i d2 Hd. destruct (Hdok1 i d2 Hd) as (f2 & Hf2 & Hc2). exists f2.
      by rewrite Hl.
Qed.

(** [ufs_delete] on a file that is there. *)
Lemma ufs_ok_delete (st st' : ufs) (fname : string) (F : file) :
  ufs_ok st -> find st fname = Some F -> table_wf st' ->
  file_list st'
  = (if refs F =? 0 then unlink (addr F) (file_list st)
     else store (addr F) (set_removed true) (file_list st)) ->
  (forall i, mjoin (descriptor_table st' !! i) = mjoin (descriptor_table st !! i)) ->
  next_addr st' = next_addr st ->
  ufs_ok st'.
Proof.
  intros (Hwf & Hfiles & Hfok & Hdok) Hfind Hwf' Hl Ht Hn.
  pose proof Hfiles as (Hnd & _ & _).
  destruct (find_Some_inv _ _ _ Hfind) as (k & Hk & Hvis & Hname).
  assert (HFin : F ∈ file_list st) by eauto using list_elem_of_lookup_2.
  destruct (Hfok F HFin) as (HcF & HrF & HpF & HrmF).
  assert (Hcount : forall b, open_descriptors st' b = open_descriptors st b)
    by (intros b; by apply open_descriptors_ext).
  destruct (Z.eqb_spec (refs F) 0) as [Hz|Hnz].
  - rewrite (unlink_delete _ k F Hnd Hk) in Hl.
    split_and!; try done.
    + by apply (files_wf_delete st st' k).
    + intros f Hin. rewrite Hl in Hin. apply list_elem_of_delete_inv in Hin.
      destruct (Hfok f Hin) as (? & ? & ? & ?). unfold file_ok. by rewrite Hcount.
    + intros i d Hd. rewrite Ht in Hd. destruct (Hdok i d Hd) as (f & Hf & Hc).
      exists f. split; [|done].
      rewrite Hl, <- (unlink_delete _ k F Hnd Hk), deref_unlink_other; [done|].
      intros Ha. apply (no_descriptor_when_zero st (addr F) i d); [lia|done|done].
  - set (h := fun x => if Nat.eqb (addr x) (addr F) then set_removed true x else x).
    rewrite (store_fmap _ _ _ Hnd) in Hl. fold h in Hl.
    assert (Hh : forall x, addr (h x) = addr x /\ name (h x) = name x
                           /\ block_list (h x) = block_list x /\ refs (h x) = refs x).
    { intros x. unfold h. by destruct (Nat.eqb (addr x) (addr F)). }
    split_and!; try done.
    + apply (files_wf_fmap st st' h); try done. intros x. destruct (Hh x) as (?&?&?&?).
      split_and!; try done. unfold h. by destruct (Nat.eqb (addr x) (addr F)).
    + intros f' Hin. rewrite Hl in Hin. apply list_elem_of_fmap in Hin as (f0 & -> & Hin).
      destruct (Hfok f0 Hin) as (Hc & Hr & Hp & Hrm).
      destruct (Hh f0) as (Ha & _ & Hb & Hrefs).
      unfold file_ok. rewrite Ha, Hb, Hrefs, Hcount. split_and!; try done.
      unfold h. destruct (Nat.eqb_spec (addr f0) (addr F)) as [He|He]; [|done].
      intros _. pose proof (deref_elem _ _ Hnd Hin) as H1.
      pose proof (deref_elem _ _ Hnd HFin) as H2. rewrite He, H2 in H1.
      injection H1 as <-. lia.
    + intros i d Hd. rewrite Ht in Hd. destruct (Hdok i d Hd) as (f & Hf & Hc).
      unfold descriptor_ok. rewrite Hl, deref_fmap, Hf by apply Hh.
      eexists. split; [done|]. by destruct (Hh f) as (_ & _ & -> & _).
Qed.

(** ** The operations keep [ufs_ok], and are defined where it holds *)

Lemma ufs_ok_set_error (st : ufs) (e : ufs_error_code_t) :
  ufs_ok st -> ufs_ok (set_error e st).
Proof. intros H. apply (ufs_ok_same st); try done. apply H. Qed.

Lemma ufs_write_ok (st : ufs) (fd : Z) (buf : Z -> byte) (size : Z) :
  ufs_ok st -> 0 <= size < 2 ^ 63 ->
  exists st' n, ufs_write st fd buf size = Some (st', n) /\ ufs_ok st'.
Proof.
  intros Hok Hsize. pose proof Hok as (Hwf & Hfiles & Hfok & Hdok).
  unfold ufs_write.
  destruct (locate_descriptor st fd) as [d|] eqn:Hloc.
  2: { eexists _, _. split; [done|]. by apply ufs_ok_set_error. }
  destruct (negb (is_writable (Some d))).
  { eexists _, _. split; [done|]. by apply ufs_ok_set_error. }
  apply locate_descriptor_Some in Hloc as Hloc'. destruct Hloc' as [Hfd Hslot].
  destruct (Hdok (Z.to_nat fd) d) as (f & Hf & Hseg & b & Hb & Hpos);
    [by rewrite Hslot|].
  rewrite Hf. cbn [mbind option_bind]. rewrite Hb. cbn [mbind option_bind].
  apply deref_Some_lookup in Hf as Hf'. destruct Hf' as (k & Hk & Haddr).
  destruct (Hfok f (list_elem_of_lookup_2 _ _ _ Hk)) as (Hc & Hr & Hp & Hrm).
  assert (Hbw : block_wf b) by eauto using chain_wf_lookup.
  destruct Hbw as [_ Hocc].
  assert (Hwrap : size_t_wrap (occupied b + curr_data_segment d * BLOCK_SIZE + size)
                  = occupied b + curr_data_segment d * BLOCK_SIZE + size).
  { unfold size_t_wrap. apply Z.mod_small. unfold BLOCK_SIZE in *.
    assert (curr_data_segment d * 4096 <= Z.of_nat (length (payload (block_list f)))).
    { pose proof (offset_le_payload (block_list f) (Z.to_nat (curr_data_segment d)) b 0
                    Hc Hb ltac:(lia)) as H.
      unfold offset, BLOCK_SIZE in H. lia. }
    unfold MAX_FILE_SIZE in Hp. lia. }
  rewrite Hwrap.
  destruct (_ >? MAX_FILE_SIZE) eqn:Hcap.
  { eexists _, _. split; [done|]. by apply ufs_ok_set_error. }
  rewrite Z.gtb_ltb in Hcap. apply Z.ltb_ge in Hcap.
  destruct (write_loop_any buf size (Z.to_nat size) (ufs_heap st) (block_list f)
              (Z.to_nat (curr_data_segment d)) b (byte_pos d) 0)
    as (r & Hr' & Hcr & Hcur & Hgr & Hlen); try done; try lia.
  rewrite Z2Nat.id in Hr', Hlen by lia. rewrite Hr'. cbn [mbind option_bind].
  eexists _, _. split; [done|].
  eapply (ufs_ok_update st _ fd d f (w_blocks r) (w_segment r) (w_pos r));
    try done; ufs_simpl; try done.
  unfold offset in Hlen. lia.
Qed.

Lemma ufs_read_ok (st : ufs) (fd size : Z) :
  ufs_ok st -> 0 <= size ->
  exists st' n data, ufs_read st fd size = Some (st', n, data) /\ ufs_ok st'.
Proof.
  intros Hok Hsize. pose proof Hok as (Hwf & Hfiles & Hfok & Hdok).
  destruct (locate_descriptor st fd) as [d|] eqn:Hloc.
  2: { unfold ufs_read. rewrite Hloc. eexists _, _, _. split; [done|].
       by apply ufs_ok_set_error. }
  destruct (is_readable (Some d)) eqn:Hrd.
  2: { unfold ufs_read. rewrite Hloc, Hrd. eexists _, _, _. split; [done|].
       by apply ufs_ok_set_error. }
  apply locate_descriptor_Some in Hloc as Hloc'. destruct Hloc' as [Hfd Hslot].
  destruct (Hdok (Z.to_nat fd) d) as (f & Hf & Hcur); [by rewrite Hslot|].
  apply deref_Some_lookup in Hf as Hf'. destruct Hf' as (k & Hk & Haddr).
  destruct (Hfok f (list_elem_of_lookup_2 _ _ _ Hk)) as (Hc & Hr & Hp & Hrm).
  destruct (ufs_read_spec st fd d f size Hloc Hrd Hf Hc Hcur Hsize)
    as (st' & seg' & pos' & data & Hread & _ & Hl & Ht & Hcur' & _ & Hcnt & Hn & _).
  exists st', (Z.of_nat (length data)), data. split; [done|].
  apply (ufs_ok_update st st' fd d f (block_list f) seg' pos'); try done.
  - apply grows_refl.
  - rewrite Hl. symmetry. apply store_same_blocks; [apply Hfiles|].
    by rewrite Haddr.
Qed.

Lemma ufs_close_ok (st : ufs) (fd : Z) :
  ufs_ok st -> exists st' n, ufs_close st fd = Some (st', n) /\ ufs_ok st'.
Proof.
  intros Hok. pose proof Hok as (Hwf & Hfiles & Hfok & Hdok).
  destruct (locate_descriptor st fd) as [d|] eqn:Hloc.
  - apply locate_descriptor_Some in Hloc as Hloc'. destruct Hloc' as [Hfd Hslot].
    destruct (Hdok (Z.to_nat fd) d) as (f & Hf & Hcur); [by rewrite Hslot|].
    destruct (ufs_close_spec st fd d f Hwf Hloc Hf)
      as (st' & Hclose & Hwf' & Hl & Ht & _ & Hn & _).
    exists st', 0. split; [done|]. by apply (ufs_ok_close st st' fd d f).
  - unfold ufs_close. unfold locate_descriptor in Hloc.
    destruct (fd <? 0) eqn:H0; cbn [orb].
    { eexists _, _. split; [done|]. by apply ufs_ok_set_error. }
    destruct (fd >=? file_descriptor_count st) eqn:H1.
    { eexists _, _. split; [done|]. by apply ufs_ok_set_error. }
    apply Z.ltb_ge in H0. rewrite Z.geb_leb in H1. apply Z.leb_gt in H1.
    rewrite (proj2 (Z.leb_le 0 fd)), (proj2 (Z.ltb_lt fd _)) in Hloc by lia.
    cbn [andb] in Hloc. rewrite Hloc.
    eexists _, _. split; [done|]. by apply ufs_ok_set_error.
Qed.

Lemma ufs_delete_ok (st : ufs) (filename : string) :
  ufs_ok st -> ufs_ok (fst (ufs_delete st filename)).
Proof.
  intros Hok. unfold ufs_delete.
  destruct (find st filename) as [F|] eqn:Hfind; cbn [fst].
  2: { by apply ufs_ok_set_error. }
  eapply (ufs_ok_delete st _ filename F); try done; ufs_simpl.
  - destruct (refs F =? 0); apply Hok.
  - unfold rm. by destruct (refs F =? 0).
  - intros i. unfold rm. by destruct (refs F =? 0).
  - unfold rm. by destruct (refs F =? 0).
Qed.

(** *** [ufs_open], also where it fails *)

(** The set-up of the table on first use. *)
Lemma table_setup_any (st st0 : ufs) (e0 : ufs_error_code_t) :
  table_wf st ->
  match file_descriptors st with
  | None => let '(e, st1) := fd_setup st in (e, set_error e st1)
  | Some _ => (UFS_ERR_NO_ERR, st)
  end = (e0, st0) ->
  table_wf st0 /\ file_list st0 = file_list st /\ next_addr st0 = next_addr st
  /\ (forall i, mjoin (descriptor_table st0 !! i) = mjoin (descriptor_table st !! i)).
Proof.
  intros Hwf. destruct (file_descriptors st) as [t|] eqn:Hfd.
  - by intros [= <- <-].
  - unfold fd_setup, alloc, heap_alloc. ufs_simpl.
    unfold table_wf, table_ok, descriptor_table in *. rewrite Hfd in *.
    destruct (heap_ok _ _); ufs_simpl; intros [= <- <-]; ufs_simpl.
    + split_and!; try done; cbn [length]; try lia.
      * intros i _. do 10 (destruct i as [|i]; [done|]). done.
      * intros i. do 10 (destruct i as [|i]; [done|]). done.
    + by rewrite Hfd.
Qed.

Lemma mkfile_none (st st' : ufs) (fname : string) :
  mkfile st fname = (None, st') ->
  file_list st' = file_list st /\ next_addr st' = next_addr st
  /\ file_descriptors st' = file_descriptors st
  /\ file_descriptor_count st' = file_descriptor_count st.
Proof.
  unfold mkfile, alloc, expand_storage_unit, heap_alloc. ufs_simpl.
  repeat (match goal with
          | |- context [negb (heap_ok ?h ?k)] => destruct (heap_ok h k)
          end; ufs_simpl; try done);
    intros [= <-]; ufs_simpl; done.
Qed.

Lemma open_target_none (st st' : ufs) (filename : string) (fl : Z) :
  table_wf st -> open_target st filename fl = (st', None) ->
  table_wf st' /\ file_list st' = file_list st /\ next_addr st' = next_addr st
  /\ (forall i, mjoin (descriptor_table st' !! i) = mjoin (descriptor_table st !! i)).
Proof.
  intros Hwf. unfold open_target.
  destruct (match file_descriptors st with
            | None => let '(e, st1) := fd_setup st in (e, set_error e st1)
            | Some _ => (UFS_ERR_NO_ERR, st)
            end) as [e0 st0] eqn:Hsetup.
  destruct (table_setup_any st st0 e0 Hwf Hsetup) as (Hwf0 & Hl0 & Hn0 & Ht0).
  destruct e0; try (by intros [= <-]).
  destruct (find st0 filename) as [f|].
  { rewrite bool_decide_eq_false_2 by done. cbn [andb]. done. }
  rewrite bool_decide_eq_true_2 by done. cbn [andb].
  destruct (Z.land fl UFS_CREATE =? 0).
  { by intros [= <-]. }
  destruct (mkfile st0 filename) as [[a|] st1] eqn:Hmk; [done|].
  destruct (mkfile_none _ _ _ Hmk) as (Hl1 & Hn1 & Hfd1 & Hc1).
  intros [= <-]. unfold table_wf, descriptor_table in *. ufs_simpl.
  rewrite Hfd1, Hc1. split_and!; try done; congruence.
Qed.

Lemma smallest_fd_any (st st' : ufs) (fd : Z) :
  table_wf st -> smallest_fd st = (fd, st') ->
  table_wf st' /\ file_list st' = file_list st /\ next_addr st' = next_addr st
  /\ (forall i, mjoin (descriptor_table st' !! i) = mjoin (descriptor_table st !! i)).
Proof.
  intros Hwf. unfold smallest_fd.
  destruct (file_descriptors st) as [t|]; [|by intros [= _ <-]].
  destruct (first_free t 0); [by intros [= _ <-]|].
  destruct (_ =? _); [|by intros [= _ <-]].
  destruct (adjust_container_capacity st) as [e st1] eqn:Hadj.
  destruct (adjust_container_capacity_spec st st1 e Hwf Hadj)
    as (Hwf1 & (Hl1 & _ & Hn1 & _) & _ & Ht1 & _).
  destruct e; intros [= _ <-]; done.
Qed.

Lemma open_slot_any (st st' : ufs) (slot : option Z) :
  table_wf st -> open_slot st = (st', slot) ->
  table_wf st' /\ file_list st' = file_list st /\ next_addr st' = next_addr st
  /\ (forall i, mjoin (descriptor_table st' !! i) = mjoin (descriptor_table st !! i)).
Proof.
  intros Hwf. unfold open_slot.
  destruct (smallest_fd st) as [fd0 st0] eqn:Hs.
  destruct (smallest_fd_any st st0 fd0 Hwf Hs) as (Hwf0 & Hl0 & Hn0 & Ht0).
  destruct (_ =? -1); [|by intros [= <- _]].
  destruct (adjust_container_capacity st0) as [e st1] eqn:Hadj.
  destruct (adjust_container_capacity_spec st0 st1 e Hwf0 Hadj)
    as (Hwf1 & (Hl1 & _ & Hn1 & _) & _ & Ht1 & _).
  assert (forall i, mjoin (descriptor_table st1 !! i) = mjoin (descriptor_table st !! i))
    by (intros i; by rewrite Ht1).
  destruct e; intros [= <- _]; split_and!; try done; congruence.
Qed.

Lemma ufs_open_ok (st : ufs) (filename : string) (fl : Z) :
  ufs_ok st -> ufs_ok (fst (ufs_open st filename fl)).
Proof.
  intros Hok. pose proof Hok as (Hwf & Hfiles & Hfok & Hdok). unfold ufs_open.
  destruct (open_target st filename fl) as [st1 [a|]] eqn:Htarget.
  2: { destruct (open_target_none _ _ _ _ Hwf Htarget) as (Hwf1 & Hl1 & Hn1 & Ht1).
       cbn [fst]. by apply (ufs_ok_same st). }
  destruct (open_target_spec _ _ _ _ _ Hwf Htarget)
    as (Hwf1 & Hsome1 & Hc1 & _ & Ht1 & _ & Hcase).
  (* the state with the target in it *)
  assert (Hok1 : ufs_ok st1 /\ exists f, deref (file_list st1) a = Some f).
  { destruct Hcase as [(f & Hfind & -> & Hl1 & Hn1)|(Hfind & _ & -> & Hl1 & Hn1)].
    - split; [by apply (ufs_ok_same st)|]. exists f. rewrite Hl1.
      destruct (find_Some_inv _ _ _ Hfind) as (k & Hk & _).
      eapply deref_lookup; [apply Hfiles|exact Hk].
    - split; [by apply (ufs_ok_new_file st st1 filename)|].
      eexists. rewrite Hl1. apply (deref_head (mk_file _ _ _ _ _)). }
  destruct Hok1 as (Hok1 & f & Hf).
  destruct (open_slot st1) as [st2 [free_fd|]] eqn:Hslot.
  2: { destruct (open_slot_any _ _ _ Hwf1 Hslot) as (Hwf2 & Hl2 & Hn2 & Ht2).
       cbn [fst]. by apply (ufs_ok_same st1). }
  destruct (open_slot_spec _ _ _ Hwf1 Hsome1 Hslot)
    as (Hwf2 & (Hl2 & Hc2 & Hn2 & _) & Hsome2 & Ht2 & Hfd & Hlen & Hfree & _).
  assert (Hok2 : ufs_ok st2) by (by apply (ufs_ok_same st1)).
  assert (Hnone : descriptor_table st2 !! Z.to_nat free_fd = Some None).
  { unfold slot_free in Hfree. rewrite <- Ht2 in Hfree.
    destruct (lookup_lt_is_Some_2 _ _ Hlen) as [o Ho]. rewrite Ho in Hfree |- *.
    cbn in Hfree. by subst o. }
  unfold open_install, create_descriptor, alloc, heap_alloc. ufs_simpl.
  destruct (heap_ok _ _); ufs_simpl.
  2: { apply ufs_ok_set_error, ufs_ok_set_error. apply (ufs_ok_same st2); try done. }
  apply (ufs_ok_install st2 _ a (Z.to_nat free_fd) fl f); try done.
  - rewrite <- Hl2 in Hf. done.
  - unfold table_wf. ufs_simpl.
    destruct Hsome2 as [t2 Hfd2].
    assert (Htab2 : descriptor_table st2 = t2) by (unfold descriptor_table; by rewrite Hfd2).
    unfold descriptor_table. ufs_simpl. rewrite Hfd2. ufs_simpl.
    unfold table_wf in Hwf2. rewrite Hfd2 in Hwf2.
    rewrite Htab2 in Hlen.
    pose proof (table_wf_install t2 (file_descriptor_count st2) free_fd
                  (mk_filedesc a 0 fl 0) Hwf2 ltac:(lia) Hlen) as H.
    destruct (free_fd =? file_descriptor_count st2); exact H.
  - destruct (free_fd =? file_descriptor_count st2); done.
  - destruct (free_fd =? file_descriptor_count st2); done.
  - destruct (free_fd =? file_descriptor_count st2); done.
Qed.

(** ** Every reachable state *)

Lemma initial_ok (ok : nat -> bool) : ufs_ok (initial ok).
Proof.
  split_and!.
  - apply initial_table_wf.
  - split_and!; cbn; [constructor | intros f Hf; inversion Hf |].
    intros i j f g Hi. by rewrite lookup_nil in Hi.
  - intros f Hf. inversion Hf.
  - intros i d. cbn. by rewrite lookup_nil.
Qed.

Lemma perform_ok (st : ufs) (c : call) :
  ufs_ok st -> call_ok c -> exists st', perform st c = Some st' /\ ufs_ok st'.
Proof.
  intros Hok Hc. destruct c as [filename fl|fd buf size|fd size|fd|filename]; cbn [perform].
  - eexists. split; [done|]. by apply ufs_open_ok.
  - destruct (ufs_write_ok st fd buf size Hok Hc) as (st' & n & -> & Hok').
    by exists st'.
  - destruct (ufs_read_ok st fd size Hok ltac:(cbn in Hc; lia)) as (st' & n & data & -> & Hok').
    by exists st'.
  - destruct (ufs_close_ok st fd Hok) as (st' & n & -> & Hok'). by exists st'.
  - eexists. split; [done|]. by apply ufs_delete_ok.
Qed.



End UfsInvariant.

(* ===================================================================== *)
(** * UFS: errors, sharing and shutting down                           *)
(* ===================================================================== *)

Module UfsExtra.
Import Ufs UfsFacts UfsInvariant.

(** ** Writes that the allocator cuts short *)

(** One pass through the block change of [ufs_write]: either the cursor
    stands at the end of the last block and one of the two requests for a
    new block is refused, or the loop goes on at a position with room. *)
Lemma write_advance_cases (h : heap) (bl : list block) (cur : nat) (b : block) (pos : Z) :
  chain_wf bl -> bl !! cur = Some b -> 0 <= pos <= occupied b ->
  (exists h', write_advance h bl cur (Z.of_nat cur) pos = inl (UFS_ERR_NO_MEM, h')
              /\ pos = BLOCK_SIZE /\ bl !! S cur = None
              /\ ~ heap_unlimited h)
  \/ exists h' bl' cur' b' pos',
      write_advance h bl cur (Z.of_nat cur) pos = inr (h', bl', cur', Z.of_nat cur', pos')
      /\ heap_ok h' = heap_ok h
      /\ chain_wf bl' /\ bl' !! cur' = Some b'
      /\ 0 <= pos' <= occupied b' /\ pos' < BLOCK_SIZE
      /\ payload bl' = payload bl
      /\ offset (Z.of_nat cur') pos' = offset (Z.of_nat cur) pos
      /\ grows bl bl'.
Proof.
  intros Hwf Hb Hpos. unfold write_advance.
  assert (Hbw : block_wf b) by eauto using chain_wf_lookup.
  destruct (pos =? BLOCK_SIZE) eqn:Hp.
  - apply Z.eqb_eq in Hp. destruct (bl !! S cur) as [b2|] eqn:Hnext.
    + right. assert (block_wf b2) as [_ ?] by eauto using chain_wf_lookup.
      exists h, bl, (S cur), b2, 0. rewrite Nat2Z.inj_succ, <- Z.add_1_r.
      split_and!; try done; try apply grows_refl; unfold offset, BLOCK_SIZE in *; lia.
    + unfold expand_storage_unit, heap_alloc. cbn [heap_ok heap_tick].
      destruct (heap_ok h (heap_tick h)) eqn:H1; cbn [negb].
      2: { left. eexists. split_and!; try done. intros Hu. by rewrite Hu in H1. }
      destruct (heap_ok h (S (heap_tick h))) eqn:H2; cbn [negb].
      2: { left. eexists. split_and!; try done. intros Hu. by rewrite Hu in H2. }
      right.
      assert (Hlen : length bl = S cur).
      { apply lookup_ge_None in Hnext. apply lookup_lt_Some in Hb. lia. }
      eexists _, (bl ++ [empty_block]), (S cur), empty_block, 0.
      rewrite length_app, Hlen. cbn [length Nat.add Nat.pred].
      replace (cur + 1)%nat with (S cur) by lia.
      rewrite Nat2Z.inj_succ, <- Z.add_1_r.
      destruct Hbw as [_ ?].
      assert (Hpay : payload (bl ++ [empty_block]) = payload bl).
      { rewrite payload_app, payload_cons, payload_nil. unfold block_bytes, empty_block.
        cbn [occupied memory]. by rewrite take_0, !app_nil_r. }
      assert (Hlk : (bl ++ [empty_block]) !! S cur = Some empty_block).
      { rewrite lookup_app_r by lia. by rewrite Hlen, Nat.sub_diag. }
      assert (Hcw : chain_wf (bl ++ [empty_block])).
      { eapply chain_wf_snoc; eauto. lia. }
      split_and!; try done; try apply grows_snoc;
        unfold empty_block; cbn [occupied]; unfold offset, BLOCK_SIZE in *; lia.
  - right. apply Z.eqb_neq in Hp. destruct Hbw as [_ ?].
    exists h, bl, cur, b, pos.
    split_and!; try done; try apply grows_refl; unfold offset, BLOCK_SIZE in *; lia.
Qed.

(** The loop of [ufs_write] under any allocator: it ends, the bytes it
    counts are the bytes it stored, in order, from the cursor on, and it
    stops early only at the end of the last block, on a refused request. *)
Lemma write_loop_prefix (buf : Z -> byte) (size : Z) (fuel : nat) :
  forall (h : heap) (bl : list block) (cur : nat) (b : block) (pos written : Z),
    chain_wf bl -> bl !! cur = Some b ->
    0 <= pos <= occupied b -> 0 <= written <= size ->
    (Z.to_nat (size - written) <= fuel)%nat ->
    exists r,
      write_loop fuel buf size h bl cur (Z.of_nat cur) pos written = Some r
      /\ written <= w_total r <= size
      /\ chain_wf (w_blocks r)
      /\ cursor_ok (w_blocks r) (w_segment r) (w_pos r)
      /\ grows bl (w_blocks r)
      /\ offset (w_segment r) (w_pos r)
         = offset (Z.of_nat cur) pos + (w_total r - written)
      /\ payload (w_blocks r)
         = splice (payload bl) (Z.to_nat (offset (Z.of_nat cur) pos))
                  (buffer_bytes buf written (w_total r - written))
      /\ (w_error r = UFS_ERR_NO_ERR /\ w_total r = size
          \/ w_error r = UFS_ERR_NO_MEM /\ w_total r < size
             /\ w_pos r = BLOCK_SIZE /\ ~ heap_unlimited h).
Proof.
  induction fuel as [|fuel IH]; intros h bl cur b pos written Hwf Hb Hpos Hw Hfuel.
  - assert (written = size) as -> by lia. rewrite write_loop_done by lia.
    eexists. split; [done|]. cbn [w_error w_total w_heap w_blocks w_segment w_pos].
    rewrite Z.sub_diag, buffer_bytes_nil, splice_nil.
    split_and!; try done; try apply grows_refl; try lia; [|by left].
    split; [lia|]. exists b. by rewrite Nat2Z.id.
  - destruct (decide (size <= written)) as [Hdone|Hmore].
    { assert (written = size) as -> by lia. rewrite write_loop_done by lia.
      eexists. split; [done|]. cbn [w_error w_total w_heap w_blocks w_segment w_pos].
      rewrite Z.sub_diag, buffer_bytes_nil, splice_nil.
      split_and!; try done; try apply grows_refl; try lia; [|by left].
      split; [lia|]. exists b. by rewrite Nat2Z.id. }
    cbn [write_loop]. rewrite (proj2 (Z.ltb_lt written size)) by lia. cbn [negb].
    destruct (write_advance_cases h bl cur b pos Hwf Hb Hpos)
      as [(h' & -> & Hend & Hlast & Hfail)
         |(h' & bl' & cur' & b' & pos' & -> & Hh' & Hwf' & Hb' & Hpos' & Hlt' & Hpay'
           & Hoff' & Hg')].
    { eexists. split; [done|]. cbn [w_error w_total w_heap w_blocks w_segment w_pos].
      rewrite Z.sub_diag, buffer_bytes_nil, splice_nil.
      split_and!; try done; try apply grows_refl; try lia.
      - split; [lia|]. exists b. by rewrite Nat2Z.id.
      - right. split_and!; try done. lia. }
    assert (Hbw' : block_wf b') by eauto using chain_wf_lookup.
    replace ((pos' <? 0) || (BLOCK_SIZE <? pos')) with false
      by (symmetry; apply orb_false_intro; [apply Z.ltb_ge|apply Z.ltb_ge]; lia).
    rewrite Hb'.
    set (rem := if size - written <? BLOCK_SIZE - pos' then size - written
                else BLOCK_SIZE - pos').
    assert (Hrem : 0 < rem /\ rem <= size - written /\ pos' + rem <= BLOCK_SIZE).
    { unfold rem. destruct (_ <? _) eqn:Hc; [apply Z.ltb_lt in Hc|apply Z.ltb_ge in Hc]; lia. }
    set (b2 := mk_block _ _).
    assert (Hb2 : block_bytes b2
                  = splice (block_bytes b') (Z.to_nat pos') (buffer_bytes buf written rem)).
    { apply block_bytes_copy; (done || lia). }
    assert (Hb2w : block_wf b2).
    { split; unfold b2; cbn [memory occupied].
      - apply copy_in_length; (done || lia).
      - destruct Hbw' as [_ ?]. destruct (_ >? _); lia. }
    assert (Hocc2 : occupied b' <= occupied b2 /\ pos' + rem <= occupied b2).
    { unfold b2; cbn [occupied]. destruct (_ >? _) eqn:Hc; lia. }
    destruct (IH h' (<[cur' := b2]> bl') cur' b2 (pos' + rem) (written + rem))
      as (r & Hr & Ht & Hwfr & Hcur & Hgr & Hoffr & Hpayr & Hend); try done.
    { eapply chain_wf_insert; eauto. lia. }
    { apply list_lookup_insert_eq. eauto using lookup_lt_Some. }
    { lia. }
    { lia. }
    { lia. }
    exists r. split; [done|]. split_and!; try done; try lia.
    + eapply grows_trans; [exact Hg'|]. eapply grows_trans; [|exact Hgr].
      eapply grows_insert; eauto. lia.
    + rewrite Hoffr, <- Hoff'. unfold offset. lia.
    + rewrite Hpayr.
      rewrite (payload_copy bl' cur' b' b2 pos' (buffer_bytes buf written rem));
        try done; [|rewrite buffer_bytes_length; lia].
      rewrite Hpay', <- Hoff'.
      replace (Z.to_nat (offset (Z.of_nat cur') (pos' + rem)))
        with (Z.to_nat (offset (Z.of_nat cur') pos')
              + length (buffer_bytes buf written rem))%nat
        by (rewrite buffer_bytes_length; unfold offset, BLOCK_SIZE; lia).
      rewrite splice_splice.
      * f_equal. replace (w_total r - written) with (rem + (w_total r - (written + rem))) by lia.
        rewrite buffer_bytes_app by lia. do 2 f_equal.
      * rewrite <- Hpay'. eapply offset_le_payload; eauto.
    + destruct Hend as [?|(? & ? & ? & Hfail)]; [by left|right].
      split_and!; try done. intros Hu. apply Hfail. intros k. by rewrite Hh'.
Qed.


(** After a descriptor's entry is replaced and nothing else changes, the
    descriptor is found with its new value and the others as before. *)
Lemma locate_after_update (st st' : ufs) (fd : Z) (d d' : filedesc) :
  locate_descriptor st fd = Some d ->
  file_descriptors st'
  = Some (<[Z.to_nat fd := Some d']> (descriptor_table st)) ->
  file_descriptor_count st' = file_descriptor_count st ->
  locate_descriptor st' fd = Some d'
  /\ forall fd2, fd2 <> fd -> locate_descriptor st' fd2 = locate_descriptor st fd2.
Proof.
  intros [Hfd Hl]%locate_descriptor_Some Ht Hc.
  assert (Hdt : descriptor_table st' = <[Z.to_nat fd := Some d']> (descriptor_table st)).
  { unfold descriptor_table at 1. by rewrite Ht. }
  split.
  - apply locate_descriptor_Some. split; [lia|]. rewrite Hdt.
    apply list_lookup_insert_eq. eauto using lookup_lt_Some.
  - intros fd2 Hne. unfold locate_descriptor. rewrite Hc, Hdt.
    destruct (_ && _) eqn:Hb; [|done]. apply andb_prop in Hb as [H1 H2].
    apply Z.leb_le in H1. apply Z.ltb_lt in H2.
    rewrite list_lookup_insert_ne by lia. done.
Qed.

(** [ufs_write] in a state that keeps the invariants, under any allocator,
    when the content and the write together stay within 100 MiB. *)
Lemma ufs_write_any (st : ufs) (fd : Z) (d : filedesc) (f : file)
    (buf : Z -> byte) (size : Z) :
  ufs_ok st -> locate_descriptor st fd = Some d -> is_writable (Some d) = true ->
  deref (file_list st) (fd_file d) = Some f -> 0 <= size ->
  Z.of_nat (length (payload (block_list f))) + size <= MAX_FILE_SIZE ->
  exists st' n bl' seg' pos',
    ufs_write st fd buf size = Some (st', n) /\ 0 <= n <= size
    /\ file_list st' = store (addr f) (set_blocks bl') (file_list st)
    /\ file_descriptors st'
       = Some (<[Z.to_nat fd := Some (set_cursor seg' pos' d)]> (descriptor_table st))
    /\ file_descriptor_count st' = file_descriptor_count st
    /\ next_addr st' = next_addr st
    /\ chain_wf bl' /\ grows (block_list f) bl' /\ cursor_ok bl' seg' pos'
    /\ offset seg' pos' = offset (curr_data_segment d) (byte_pos d) + n
    /\ payload bl'
       = splice (payload (block_list f))
                (Z.to_nat (offset (curr_data_segment d) (byte_pos d)))
                (buffer_bytes buf 0 n)
    /\ (n = size /\ ufs_error_code st' = UFS_ERR_NO_ERR
        \/ n < size /\ ufs_error_code st' = UFS_ERR_NO_MEM
           /\ ~ heap_unlimited (ufs_heap st))
    /\ ufs_ok st'.
Proof.
  intros Hok Hloc Hw Hf Hsize Hcap. pose proof Hok as (Hwf & Hfiles & Hfok & Hdok).
  apply locate_descriptor_Some in Hloc as Hloc'. destruct Hloc' as [Hfd Hslot].
  destruct (Hdok (Z.to_nat fd) d) as (f0 & Hf0 & Hseg & b & Hb & Hpos);
    [by rewrite Hslot|].
  assert (f0 = f) as -> by congruence.
  apply deref_Some_lookup in Hf as Hf'. destruct Hf' as (k & Hk & Haddr).
  destruct (Hfok f (list_elem_of_lookup_2 _ _ _ Hk)) as (Hc & Hr & Hp & Hrm).
  assert (Hbw : block_wf b) by eauto using chain_wf_lookup.
  destruct Hbw as [_ Hocc].
  pose proof (offset_le_payload (block_list f) (Z.to_nat (curr_data_segment d)) b
                (occupied b) Hc Hb ltac:(lia)) as Hle.
  rewrite Z2Nat.id in Hle by lia.
  assert (Hwrap : size_t_wrap (occupied b + curr_data_segment d * BLOCK_SIZE + size)
                  = occupied b + curr_data_segment d * BLOCK_SIZE + size).
  { unfold size_t_wrap. apply Z.mod_small.
    unfold offset, BLOCK_SIZE, MAX_FILE_SIZE in *. lia. }
  unfold ufs_write. rewrite Hloc, Hw. cbn [negb]. rewrite Hf. cbn [mbind option_bind].
  rewrite Hb. cbn [mbind option_bind]. rewrite Hwrap.
  rewrite Z.gtb_ltb, (proj2 (Z.ltb_ge _ _))
    by (unfold offset, BLOCK_SIZE in *; lia).
  destruct (write_loop_prefix buf size (Z.to_nat size) (ufs_heap st) (block_list f)
              (Z.to_nat (curr_data_segment d)) b (byte_pos d) 0)
    as (r & Hr' & Ht & Hcr & Hcur & Hgr & Hoff & Hpay & Hend); try done; try lia.
  rewrite Z2Nat.id in Hr', Hoff, Hpay by lia. rewrite Hr'. cbn [mbind option_bind].
  rewrite Z.sub_0_r in *.
  assert (Hlen : Z.of_nat (length (payload (w_blocks r))) <= MAX_FILE_SIZE).
  { rewrite Hpay, splice_length, buffer_bytes_length.
    - unfold offset, BLOCK_SIZE in *. lia.
    - pose proof (offset_le_payload (block_list f) (Z.to_nat (curr_data_segment d)) b
                    (byte_pos d) Hc Hb Hpos) as H. by rewrite Z2Nat.id in H by lia. }
  eexists _, (w_total r), (w_blocks r), (w_segment r), (w_pos r).
  split; [done|]. ufs_simpl. split_and!; try done; try lia.
  - destruct Hend as [[-> ->]|(-> & ? & _ & ?)]; [by left|by right].
  - eapply (ufs_ok_update st _ fd d f (w_blocks r) (w_segment r) (w_pos r));
      try done; ufs_simpl; done.
Qed.

(** The file object behind an address after [store] on that address. *)
Lemma deref_store_blocks (st : ufs) (f : file) (bl' : list block) :
  deref (file_list st) (addr f) = Some f ->
  deref (store (addr f) (set_blocks bl') (file_list st)) (addr f)
  = Some (set_blocks bl' f).
Proof. intros Hf. by apply deref_store_same. Qed.

(** Every state reached by calls from a state that keeps the invariants
    keeps them. *)
Lemma perform_all_ok (cs : list call) :
  forall st, ufs_ok st -> Forall call_ok cs ->
             exists st', perform_all st cs = Some st' /\ ufs_ok st'.
Proof.
  induction cs as [|c cs IH]; intros st Hok Hcs.
  - by exists st.
  - apply Forall_cons in Hcs as [Hc Hcs].
    destruct (perform_ok st c Hok Hc) as (st1 & Hp & Hok1).
    destruct (IH st1 Hok1 Hcs) as (st' & Hall & Hok').
    exists st'. split; [|done]. cbn [perform_all]. by rewrite Hp.
Qed.

Lemma st_exhausted_ok : ufs_ok st_exhausted.
Proof. apply ufs_open_ok, initial_ok. Qed.

Lemma st_stored_ok : ufs_ok st_stored.
Proof.
  destruct (perform_all_ok
              [CALL_open "f" UFS_CREATE; CALL_write 0 letter_a 1; CALL_close 0]
              (initial always_ok) (initial_ok always_ok))
    as (st & Hst & Hok); [repeat constructor; cbn; lia|].
  replace st_stored with st; [exact Hok|].
  apply (inj Some). rewrite <- Hst. vm_compute. reflexivity.
Qed.

Lemma st_one_byte_ok : ufs_ok st_one_byte.
Proof. apply ufs_open_ok, st_stored_ok. Qed.

Lemma st_shared_ok : ufs_ok st_shared.
Proof. apply ufs_open_ok, ufs_open_ok, initial_ok. Qed.

(** X2: a write counts exactly the bytes it stored.  In a state that
    keeps the invariants, under any allocator, a write through a writable
    descriptor that stays within 100 MiB returns some [n] between 0 and
    [size]; the content of the file is then the old content with the first
    [n] bytes of the buffer written over it from the descriptor's offset,
    and the descriptor stands [n] bytes further.  Either [n = size] and the
    error code is NO_ERR, or [n] is smaller and the error code is NO_MEM,
    which does not happen under an allocator that grants every request:
    the bytes taken before the refusal stay written. *)
Theorem write_stores_what_it_counts (st : ufs) (fd : Z) (d : filedesc) (f : file)
    (buf : Z -> byte) (size : Z) :
  ufs_ok st -> locate_descriptor st fd = Some d -> is_writable (Some d) = true ->
  deref (file_list st) (fd_file d) = Some f -> 0 <= size ->
  Z.of_nat (length (payload (block_list f))) + size <= MAX_FILE_SIZE ->
  exists st' n d' f',
    ufs_write st fd buf size = Some (st', n) /\ 0 <= n <= size
    /\ deref (file_list st') (fd_file d) = Some f'
    /\ payload (block_list f')
       = splice (payload (block_list f))
                (Z.to_nat (offset (curr_data_segment d) (byte_pos d)))
                (buffer_bytes buf 0 n)
    /\ locate_descriptor st' fd = Some d'
    /\ fd_file d' = fd_file d /\ flags d' = flags d
    /\ offset (curr_data_segment d') (byte_pos d')
       = offset (curr_data_segment d) (byte_pos d) + n
    /\ (n = size /\ ufs_errno st' = UFS_ERR_NO_ERR
        \/ n < size /\ ufs_errno st' = UFS_ERR_NO_MEM
           /\ ~ heap_unlimited (ufs_heap st)).
Proof.
  intros Hok Hloc Hw Hf Hsize Hcap.
  destruct (ufs_write_any st fd d f buf size Hok Hloc Hw Hf Hsize Hcap)
    as (st' & n & bl' & seg' & pos' & Hwr & Hn & Hfl & Ht & Hcnt & _ & _ & _ & _
        & Hoff & Hpay & Hend & _).
  destruct (locate_after_update st st' fd d (set_cursor seg' pos' d) Hloc Ht Hcnt)
    as [Hloc' _].
  exists st', n, (set_cursor seg' pos' d), (set_blocks bl' f).
  assert (Ha : addr f = fd_file d) by (by apply deref_addr in Hf).
  split_and!; try done; try lia.
  rewrite Hfl, <- Ha. apply deref_store_blocks. by rewrite Ha.
Qed.

(** X2 where the allocator has nothing left: of 5000 bytes written to the
    new file, the 4096 that fill its block are taken. *)
Lemma write_stores_what_it_counts_witness :
  exists st' n d' f',
    ufs_write st_exhausted 0 letter_a 5000 = Some (st', n) /\ 0 <= n <= 5000
    /\ deref (file_list st') 0%nat = Some f'
    /\ payload (block_list f')
       = splice [] (Z.to_nat (offset 0 0)) (buffer_bytes letter_a 0 n)
    /\ locate_descriptor st' 0 = Some d'
    /\ fd_file d' = 0%nat /\ flags d' = UFS_CREATE
    /\ offset (curr_data_segment d') (byte_pos d') = offset 0 0 + n
    /\ (n = 5000 /\ ufs_errno st' = UFS_ERR_NO_ERR
        \/ n < 5000 /\ ufs_errno st' = UFS_ERR_NO_MEM
           /\ ~ heap_unlimited (ufs_heap st_exhausted)).
Proof.
  apply (write_stores_what_it_counts st_exhausted 0
           (mk_filedesc 0 0 UFS_CREATE 0) (mk_file 0 [empty_block] 1 "f" false)).
  - apply st_exhausted_ok.
  - reflexivity.
  - reflexivity.
  - reflexivity.
  - lia.
  - vm_compute. discriminate.
Defined.


(** ** Reading *)

(** The file object and the cursor behind an open descriptor. *)
Lemma descriptor_target (st : ufs) (fd : Z) (d : filedesc) :
  ufs_ok st -> locate_descriptor st fd = Some d ->
  exists f, deref (file_list st) (fd_file d) = Some f
            /\ f ∈ file_list st
            /\ chain_wf (block_list f)
            /\ cursor_ok (block_list f) (curr_data_segment d) (byte_pos d)
            /\ offset (curr_data_segment d) (byte_pos d)
               <= Z.of_nat (length (payload (block_list f)))
            /\ 0 <= offset (curr_data_segment d) (byte_pos d).
Proof.
  intros (Hwf & Hfiles & Hfok & Hdok) Hloc.
  apply locate_descriptor_Some in Hloc as [Hfd Hslot].
  destruct (Hdok (Z.to_nat fd) d) as (f & Hf & Hcur); [by rewrite Hslot|].
  apply deref_Some_lookup in Hf as Hf'. destruct Hf' as (k & Hk & Haddr).
  assert (Hin : f ∈ file_list st) by eauto using list_elem_of_lookup_2.
  destruct (Hfok f Hin) as (Hc & _).
  exists f. split_and!; try done.
  - destruct Hcur as (Hseg & b & Hb & Hpos).
    pose proof (offset_le_payload (block_list f) (Z.to_nat (curr_data_segment d)) b
                  (byte_pos d) Hc Hb Hpos) as H.
    rewrite Z2Nat.id in H by lia. unfold offset, BLOCK_SIZE in *. lia.
  - destruct Hcur as (Hseg & b & Hb & Hpos). unfold offset, BLOCK_SIZE. lia.
Qed.

(** X3: a read returns the bytes of the file from the descriptor's offset
    on, as many as were asked for or as are left, in order, and counts
    them; at the end of the file it returns 0.  It sets the error code to
    NO_ERR, moves the descriptor by the count, asks the allocator for
    nothing and leaves every file as it was. *)
Theorem read_returns_window (st : ufs) (fd : Z) (d : filedesc) (size : Z) :
  ufs_ok st -> locate_descriptor st fd = Some d -> is_readable (Some d) = true ->
  0 <= size ->
  exists f st' d' data,
    deref (file_list st) (fd_file d) = Some f
    /\ data = take (Z.to_nat size)
                   (drop (Z.to_nat (offset (curr_data_segment d) (byte_pos d)))
                         (payload (block_list f)))
    /\ ufs_read st fd size = Some (st', Z.of_nat (length data), data)
    /\ Z.of_nat (length data)
       = Z.min size (Z.of_nat (length (payload (block_list f)))
                     - offset (curr_data_segment d) (byte_pos d))
    /\ file_list st' = file_list st /\ ufs_heap st' = ufs_heap st
    /\ ufs_errno st' = UFS_ERR_NO_ERR
    /\ locate_descriptor st' fd = Some d'
    /\ fd_file d' = fd_file d /\ flags d' = flags d
    /\ offset (curr_data_segment d') (byte_pos d')
       = offset (curr_data_segment d) (byte_pos d) + Z.of_nat (length data).
Proof.
  intros Hok Hloc Hrd Hsize.
  destruct (descriptor_target st fd d Hok Hloc) as (f & Hf & _ & Hc & Hcur & Hle & Hge).
  destruct (ufs_read_spec st fd d f size Hloc Hrd Hf Hc Hcur Hsize)
    as (st' & seg' & pos' & data & Hread & Hdata & Hl & Ht & _ & Hoff & Hcnt & _ & Hh & He).
  destruct (locate_after_update st st' fd d (set_cursor seg' pos' d) Hloc Ht Hcnt)
    as [Hloc' _].
  exists f, st', (set_cursor seg' pos' d), data.
  rewrite <- Hdata. split_and!; try done.
  rewrite Hdata, length_take, length_drop. lia.
Qed.

(** X3 on the file of one byte, read from its start with room for
    five. *)
Lemma read_returns_window_witness :
  exists f st' d' data,
    deref (file_list st_one_byte) 0%nat = Some f
    /\ data = take (Z.to_nat 5) (drop (Z.to_nat (offset 0 0)) (payload (block_list f)))
    /\ ufs_read st_one_byte 0 5 = Some (st', Z.of_nat (length data), data)
    /\ Z.of_nat (length data)
       = Z.min 5 (Z.of_nat (length (payload (block_list f))) - offset 0 0)
    /\ file_list st' = file_list st_one_byte /\ ufs_heap st' = ufs_heap st_one_byte
    /\ ufs_errno st' = UFS_ERR_NO_ERR
    /\ locate_descriptor st' 0 = Some d'
    /\ fd_file d' = 0%nat /\ flags d' = UFS_READ_WRITE
    /\ offset (curr_data_segment d') (byte_pos d')
       = offset 0 0 + Z.of_nat (length data).
Proof.
  apply (read_returns_window st_one_byte 0 (mk_filedesc 0 0 UFS_READ_WRITE 0) 5).
  - apply st_one_byte_ok.
  - vm_compute. reflexivity.
  - reflexivity.
  - lia.
Defined.

(** ** Two descriptors on one file *)

(** X4: descriptors on one file share its content and nothing else.  A
    write through one descriptor leaves another descriptor on the same
    file where it was, and a read through that other descriptor then
    returns the bytes of the new content from its own offset on. *)
Theorem descriptors_share_content_only (st : ufs) (fd1 fd2 : Z) (d1 d2 : filedesc)
    (f : file) (buf : Z -> byte) (size : Z) :
  ufs_ok st ->
  locate_descriptor st fd1 = Some d1 -> locate_descriptor st fd2 = Some d2 ->
  fd1 <> fd2 -> fd_file d1 = fd_file d2 ->
  is_writable (Some d1) = true -> is_readable (Some d2) = true ->
  deref (file_list st) (fd_file d1) = Some f -> 0 <= size ->
  Z.of_nat (length (payload (block_list f))) + size <= MAX_FILE_SIZE ->
  exists st1 n content,
    ufs_write st fd1 buf size = Some (st1, n)
    /\ content = splice (payload (block_list f))
                        (Z.to_nat (offset (curr_data_segment d1) (byte_pos d1)))
                        (buffer_bytes buf 0 n)
    /\ locate_descriptor st1 fd2 = Some d2
    /\ forall k, 0 <= k ->
         read_outcome (ufs_read st1 fd2 k)
         = Some (Z.min k (Z.of_nat (length content)
                          - offset (curr_data_segment d2) (byte_pos d2)),
                 take (Z.to_nat k)
                      (drop (Z.to_nat (offset (curr_data_segment d2) (byte_pos d2)))
                            content)).
Proof.
  intros Hok Hloc1 Hloc2 Hne Hsame Hw Hr Hf Hsize Hcap.
  destruct (ufs_write_any st fd1 d1 f buf size Hok Hloc1 Hw Hf Hsize Hcap)
    as (st1 & n & bl' & seg' & pos' & Hwr & Hn & Hfl & Ht & Hcnt & _ & Hc' & _ & _
        & _ & Hpay & _ & Hok1).
  destruct (locate_after_update st st1 fd1 d1 (set_cursor seg' pos' d1) Hloc1 Ht Hcnt)
    as [_ Hother].
  assert (Hloc2' : locate_descriptor st1 fd2 = Some d2).
  { rewrite Hother by done. exact Hloc2. }
  assert (Ha : addr f = fd_file d1) by (by apply deref_addr in Hf).
  assert (Hf1 : deref (file_list st1) (fd_file d2) = Some (set_blocks bl' f)).
  { rewrite Hfl, <- Hsame, <- Ha. apply deref_store_blocks. by rewrite Ha. }
  exists st1, n, (payload bl'). split_and!; try done.
  intros k Hk.
  destruct (descriptor_target st1 fd2 d2 Hok1 Hloc2') as (f1 & Hf1' & _ & Hc1 & Hcur1 & Hle & Hge).
  assert (f1 = set_blocks bl' f) as -> by congruence.
  destruct (ufs_read_spec st1 fd2 d2 _ k Hloc2' Hr Hf1 Hc1 Hcur1 Hk)
    as (st2 & seg2 & pos2 & data & Hread & Hdata & _).
  rewrite Hread. cbn [read_outcome fmap option_fmap option_map fst snd].
  cbn [block_list set_blocks] in Hdata, Hle. rewrite <- Hdata. do 2 f_equal.
  rewrite Hdata, length_take, length_drop. lia.
Qed.

(** X4 on a new file with the creating descriptor 0 and the read-only
    descriptor 1, both at its start. *)
Lemma descriptors_share_content_only_witness :
  exists st1 n content,
    ufs_write st_shared 0 (buffer_of abc) 3 = Some (st1, n)
    /\ content = splice [] (Z.to_nat (offset 0 0)) (buffer_bytes (buffer_of abc) 0 n)
    /\ locate_descriptor st1 1 = Some (mk_filedesc 0 0 UFS_READ_ONLY 0)
    /\ forall k, 0 <= k ->
         read_outcome (ufs_read st1 1 k)
         = Some (Z.min k (Z.of_nat (length content) - offset 0 0),
                 take (Z.to_nat k) (drop (Z.to_nat (offset 0 0)) content)).
Proof.
  apply (descriptors_share_content_only st_shared 0 1
           (mk_filedesc 0 0 UFS_CREATE 0) (mk_filedesc 0 0 UFS_READ_ONLY 0)
           (mk_file 0 [empty_block] 2 "f" false)).
  - apply st_shared_ok.
  - reflexivity.
  - reflexivity.
  - lia.
  - reflexivity.
  - reflexivity.
  - reflexivity.
  - reflexivity.
  - lia.
  - vm_compute. discriminate.
Defined.


(** ** Descriptors that are not open *)

(** In a well-formed table the slots from the count on are empty, so a
    descriptor is open exactly when its slot holds one. *)
Lemma locate_mjoin (st : ufs) (fd : Z) :
  table_wf st -> 0 <= fd ->
  locate_descriptor st fd = mjoin (descriptor_table st !! Z.to_nat fd).
Proof.
  intros Hwf Hfd. unfold locate_descriptor.
  rewrite (proj2 (Z.leb_le _ _) Hfd). cbn [andb].
  destruct (fd <? file_descriptor_count st) eqn:Hlt; [done|].
  apply Z.ltb_ge in Hlt. symmetry.
  unfold table_wf, table_ok, descriptor_table in *.
  destruct (file_descriptors st) as [t|]; cbn [default].
  - destruct Hwf as (_ & _ & Htail). apply Htail. lia.
  - by rewrite lookup_nil.
Qed.

Lemma locate_negative (st : ufs) (fd : Z) : fd < 0 -> locate_descriptor st fd = None.
Proof.
  intros Hfd. unfold locate_descriptor. by rewrite (proj2 (Z.leb_gt _ _) Hfd).
Qed.

(** Two well-formed tables with the same slots have the same descriptors
    open. *)
Lemma locate_ext (st st' : ufs) :
  table_wf st -> table_wf st' ->
  (forall i, mjoin (descriptor_table st' !! i) = mjoin (descriptor_table st !! i)) ->
  forall fd, locate_descriptor st' fd = locate_descriptor st fd.
Proof.
  intros Hwf Hwf' Ht fd. destruct (decide (0 <= fd)) as [Hfd|Hfd].
  - by rewrite !locate_mjoin.
  - by rewrite !locate_negative by lia.
Qed.

Lemma ufs_close_unopened (st : ufs) (fd : Z) :
  locate_descriptor st fd = None ->
  ufs_close st fd = Some (set_error UFS_ERR_NO_FILE st, -1).
Proof.
  unfold locate_descriptor, ufs_close. intros Hloc.
  destruct (fd <? 0) eqn:H1; [done|]. apply Z.ltb_ge in H1.
  rewrite (proj2 (Z.leb_le _ _) H1) in Hloc. cbn [andb orb] in *.
  rewrite Z.geb_leb. destruct (fd <? file_descriptor_count st) eqn:H2.
  - apply Z.ltb_lt in H2. rewrite (proj2 (Z.leb_gt _ _) H2). by rewrite Hloc.
  - apply Z.ltb_ge in H2. by rewrite (proj2 (Z.leb_le _ _) H2).
Qed.

(** X5: a closed descriptor is gone and nothing else is.  Closing an open
    descriptor succeeds with NO_ERR; afterwards the descriptor is not open,
    so that a read, a write or a second close through it returns -1 with
    NO_FILE and changes nothing but the error code, while every other
    descriptor is open exactly as before, whether or not the table was
    shrunk. *)
Theorem closed_descriptor_is_gone (st : ufs) (fd : Z) (d : filedesc) :
  ufs_ok st -> locate_descriptor st fd = Some d ->
  exists st',
    ufs_close st fd = Some (st', 0) /\ ufs_errno st' = UFS_ERR_NO_ERR
    /\ locate_descriptor st' fd = None
    /\ (forall fd2, fd2 <> fd -> locate_descriptor st' fd2 = locate_descriptor st fd2)
    /\ ufs_close st' fd = Some (set_error UFS_ERR_NO_FILE st', -1)
    /\ (forall size, ufs_read st' fd size = Some (set_error UFS_ERR_NO_FILE st', -1, []))
    /\ (forall buf size,
          ufs_write st' fd buf size = Some (set_error UFS_ERR_NO_FILE st', -1)).
Proof.
  intros Hok Hloc. pose proof Hok as (Hwf & _).
  destruct (descriptor_target st fd d Hok Hloc) as (f & Hf & _).
  destruct (ufs_close_spec st fd d f Hwf Hloc Hf)
    as (st' & Hclose & Hwf' & _ & Ht & _ & _ & _ & He).
  apply locate_descriptor_Some in Hloc as Hfd. destruct Hfd as [Hfd _].
  assert (Hgone : locate_descriptor st' fd = None).
  { rewrite locate_mjoin by (done || lia). rewrite Ht. by rewrite decide_True. }
  exists st'. split_and!; try done.
  - intros fd2 Hne. destruct (decide (0 <= fd2)) as [H2|H2].
    + rewrite !locate_mjoin by done. rewrite Ht. rewrite decide_False by lia. done.
    + by rewrite !locate_negative by lia.
  - by apply ufs_close_unopened.
  - intros size. unfold ufs_read. by rewrite Hgone.
  - intros buf size. unfold ufs_write. by rewrite Hgone.
Qed.

(** X5 on the two descriptors of [st_shared]: 0 is closed, 1 stays. *)
Lemma closed_descriptor_is_gone_witness :
  exists st',
    ufs_close st_shared 0 = Some (st', 0) /\ ufs_errno st' = UFS_ERR_NO_ERR
    /\ locate_descriptor st' 0 = None
    /\ (forall fd2, fd2 <> 0 -> locate_descriptor st' fd2 = locate_descriptor st_shared fd2)
    /\ ufs_close st' 0 = Some (set_error UFS_ERR_NO_FILE st', -1)
    /\ (forall size, ufs_read st' 0 size = Some (set_error UFS_ERR_NO_FILE st', -1, []))
    /\ (forall buf size,
          ufs_write st' 0 buf size = Some (set_error UFS_ERR_NO_FILE st', -1)).
Proof.
  apply (closed_descriptor_is_gone st_shared 0 (mk_filedesc 0 0 UFS_CREATE 0)).
  - apply st_shared_ok.
  - reflexivity.
Defined.

(** ** Writes one after the other *)

(** X6: two writes through one descriptor, one after the other, store what
    one write of the two buffers joined stores.  With an allocator that
    never fails and the content and both writes within 100 MiB, both are
    complete, and the file then holds the old content with the bytes of
    the first buffer followed by the bytes of the second written over it
    from the descriptor's offset. *)
Theorem consecutive_writes_concatenate (st : ufs) (fd : Z) (d : filedesc) (f : file)
    (buf1 buf2 : Z -> byte) (n1 n2 : Z) :
  ufs_ok st -> locate_descriptor st fd = Some d -> is_writable (Some d) = true ->
  deref (file_list st) (fd_file d) = Some f ->
  heap_unlimited (ufs_heap st) -> 0 <= n1 -> 0 <= n2 ->
  Z.of_nat (length (payload (block_list f))) + n1 + n2 <= MAX_FILE_SIZE ->
  exists st1 st2 f2,
    ufs_write st fd buf1 n1 = Some (st1, n1)
    /\ ufs_write st1 fd buf2 n2 = Some (st2, n2)
    /\ deref (file_list st2) (fd_file d) = Some f2
    /\ payload (block_list f2)
       = splice (payload (block_list f))
                (Z.to_nat (offset (curr_data_segment d) (byte_pos d)))
                (buffer_bytes buf1 0 n1 ++ buffer_bytes buf2 0 n2).
Proof.
  intros Hok Hloc Hw Hf Hh Hn1 Hn2 Hcap.
  destruct (descriptor_target st fd d Hok Hloc) as (f0 & Hf0 & _ & Hc & Hcur & Hle & Hge).
  assert (f0 = f) as -> by congruence.
  assert (Ha : addr f = fd_file d) by (by apply deref_addr in Hf).
  destruct (ufs_write_any st fd d f buf1 n1 Hok Hloc Hw Hf Hn1 ltac:(lia))
    as (st1 & m1 & bl1 & seg1 & pos1 & Hwr1 & Hm1 & Hfl1 & Ht1 & Hcnt1 & _ & _ & _ & _
        & Hoff1 & Hpay1 & Hend1 & Hok1).
  destruct Hend1 as [[-> _]|(_ & _ & Hfail)]; [|by destruct Hfail].
  destruct (ufs_write_spec st fd d f buf1 n1 Hloc Hw Hf Hc Hcur Hh Hn1)
    as (st1' & _ & _ & _ & Hwr1' & _ & _ & _ & _ & _ & _ & _ & _ & Hh1 & _).
  { intros b Hb.
    pose proof (offset_le_payload (block_list f) (Z.to_nat (curr_data_segment d)) b
                  (occupied b) Hc Hb) as H.
    assert (Hbw : block_wf b) by eauto using chain_wf_lookup. destruct Hbw as [_ ?].
    destruct Hcur as [? _].
    rewrite Z2Nat.id in H by lia. unfold offset in H. lia. }
  assert (st1' = st1) as -> by congruence.
  destruct (locate_after_update st st1 fd d (set_cursor seg1 pos1 d) Hloc Ht1 Hcnt1)
    as [Hloc1 _].
  assert (Hf1 : deref (file_list st1) (fd_file (set_cursor seg1 pos1 d))
                = Some (set_blocks bl1 f)).
  { cbn [fd_file set_cursor]. rewrite Hfl1, <- Ha. apply deref_store_blocks.
    by rewrite Ha. }
  assert (Hlen1 : Z.of_nat (length (payload bl1))
                  <= Z.of_nat (length (payload (block_list f))) + n1).
  { rewrite Hpay1, splice_length, buffer_bytes_length by lia. lia. }
  destruct (ufs_write_any st1 fd (set_cursor seg1 pos1 d) (set_blocks bl1 f) buf2 n2
              Hok1 Hloc1 Hw Hf1 Hn2)
    as (st2 & m2 & bl2 & seg2 & pos2 & Hwr2 & Hm2 & Hfl2 & _ & _ & _ & _ & _ & _
        & _ & Hpay2 & Hend2 & _).
  { cbn [block_list set_blocks]. lia. }
  destruct Hend2 as [[-> _]|(_ & _ & Hfail)].
  2: { destruct Hfail. intros k. by rewrite Hh1. }
  exists st1, st2, (set_blocks bl2 (set_blocks bl1 f)). split_and!; try done.
  - rewrite Hfl2. cbn [addr set_blocks]. rewrite <- Ha.
    apply (deref_store_same _ _ _ (set_blocks bl1 f)); [done|].
    cbn [fd_file set_cursor] in Hf1. by rewrite Ha.
  - cbn [block_list set_blocks curr_data_segment byte_pos set_cursor] in *.
    rewrite Hpay2, Hpay1, Hoff1.
    replace (Z.to_nat (offset (curr_data_segment d) (byte_pos d) + n1))
      with (Z.to_nat (offset (curr_data_segment d) (byte_pos d))
            + length (buffer_bytes buf1 0 n1))%nat
      by (rewrite buffer_bytes_length; lia).
    apply splice_splice. lia.
Qed.

(** X6 on the new file of [st_shared]: "abc" and then "a". *)
Lemma consecutive_writes_concatenate_witness :
  exists st1 st2 f2,
    ufs_write st_shared 0 (buffer_of abc) 3 = Some (st1, 3)
    /\ ufs_write st1 0 letter_a 1 = Some (st2, 1)
    /\ deref (file_list st2) 0%nat = Some f2
    /\ payload (block_list f2)
       = splice [] (Z.to_nat (offset 0 0))
                (buffer_bytes (buffer_of abc) 0 3 ++ buffer_bytes letter_a 0 1).
Proof.
  apply (consecutive_writes_concatenate st_shared 0 (mk_filedesc 0 0 UFS_CREATE 0)
           (mk_file 0 [empty_block] 2 "f" false)).
  - apply st_shared_ok.
  - reflexivity.
  - reflexivity.
  - reflexivity.
  - intros k. reflexivity.
  - lia.
  - lia.
  - vm_compute. discriminate.
Defined.


(** ** An open that fails *)

(** X7: an [ufs_open] that returns -1 opens nothing and loses nothing:
    the same descriptors are open afterwards, with the same values, and
    the files are the ones there were.  The one thing it may leave behind
    is the new file: when the name was free and CREATE was given, and a
    later allocation (the growth of the table or the descriptor) was
    refused, the empty file made for the name stays in the list, with
    no descriptor on it. *)
Theorem failed_open_opens_nothing (st st' : ufs) (filename : string) (fl : Z) :
  ufs_ok st -> ufs_open st filename fl = (st', -1) ->
  (forall fd, locate_descriptor st' fd = locate_descriptor st fd)
  /\ (file_list st' = file_list st
      \/ (find st filename = None /\ Z.land fl UFS_CREATE <> 0
          /\ file_list st'
             = mk_file (next_addr st) [empty_block] 0 filename false :: file_list st)).
Proof.
  intros Hok. pose proof Hok as (Hwf & _). unfold ufs_open.
  destruct (open_target st filename fl) as [st1 [a|]] eqn:Htgt.
  2: { intros [= <-].
       destruct (open_target_none _ _ _ _ Hwf Htgt) as (Hwf1 & Hl1 & _ & Ht1).
       split; [by apply locate_ext|by left]. }
  destruct (open_target_spec _ _ _ _ _ Hwf Htgt)
    as (Hwf1 & Hsome1 & _ & _ & Ht1 & _ & Hcase).
  assert (Hfiles : file_list st1 = file_list st
                   \/ (find st filename = None /\ Z.land fl UFS_CREATE <> 0
                       /\ file_list st1
                          = mk_file (next_addr st) [empty_block] 0 filename false
                              :: file_list st)).
  { destruct Hcase as [(f & _ & _ & Hl & _)|(Hnone & Hcr & -> & Hl & _)];
      [by left|by right]. }
  destruct (open_slot st1) as [st2 [free_fd|]] eqn:Hslot.
  2: { intros [= <-].
       destruct (open_slot_any _ _ _ Hwf1 Hslot) as (Hwf2 & Hl2 & _ & Ht2).
       split; [|by rewrite Hl2].
       apply locate_ext; try done. intros i. by rewrite Ht2. }
  destruct (open_slot_spec _ _ _ Hwf1 Hsome1 Hslot)
    as (Hwf2 & (Hl2 & Hc2 & _) & _ & Ht2 & Hfd & _).
  unfold open_install, create_descriptor, alloc, heap_alloc. ufs_simpl.
  destruct (heap_ok _ _); ufs_simpl; [intros [= _ Hminus]; lia|intros [= <-]].
  ufs_simpl. split; [|by rewrite Hl2].
  apply locate_ext; try done.
  intros i. unfold descriptor_table in *. ufs_simpl. by rewrite Ht2.
Qed.

(** X7 where the allocator grants the five requests of the table and the
    file and refuses the descriptor. *)
Lemma failed_open_opens_nothing_witness :
  (forall fd, locate_descriptor (fst (ufs_open (initial (grants 5)) "f" UFS_CREATE)) fd
              = locate_descriptor (initial (grants 5)) fd)
  /\ (file_list (fst (ufs_open (initial (grants 5)) "f" UFS_CREATE))
      = file_list (initial (grants 5))
      \/ (find (initial (grants 5)) "f" = None /\ Z.land UFS_CREATE UFS_CREATE <> 0
          /\ file_list (fst (ufs_open (initial (grants 5)) "f" UFS_CREATE))
             = mk_file (next_addr (initial (grants 5))) [empty_block] 0 "f" false
                 :: file_list (initial (grants 5)))).
Proof.
  apply (failed_open_opens_nothing (initial (grants 5))
           (fst (ufs_open (initial (grants 5)) "f" UFS_CREATE)) "f" UFS_CREATE).
  - apply initial_ok.
  - vm_compute. reflexivity.
Defined.


(** ** Deleting *)

Lemma find_delete_skip {A} (p : A -> bool) (l : list A) (i : nat) (x : A) :
  l !! i = Some x -> p x = false -> List.find p (delete i l) = List.find p l.
Proof.
  revert i. induction l as [|y l IH]; intros i Hi Hp; [done|].
  destruct i as [|i]; cbn in Hi |- *.
  - injection Hi as ->. by rewrite Hp.
  - destruct (p y); [done|]. by apply IH.
Qed.

Lemma find_insert_skip {A} (p : A -> bool) (l : list A) (i : nat) (x y : A) :
  l !! i = Some x -> p x = false -> p y = false ->
  List.find p (<[i := y]> l) = List.find p l.
Proof.
  revert i. induction l as [|z l IH]; intros i Hi Hx Hy; [done|].
  destruct i as [|i]; cbn in Hi |- *.
  - injection Hi as ->. by rewrite Hx, Hy.
  - destruct (p z); [done|]. by apply IH.
Qed.

(** X8: a deleted name is free at once, whether or not the file is still
    open.  After a successful [ufs_delete] the name is not found, a second
    [ufs_delete] of it returns -1 with NO_FILE and changes nothing else,
    the lookup of every other name gives what it gave before, and the
    same descriptors are open. *)
Theorem delete_frees_the_name (st : ufs) (fname : string) (F : file) :
  ufs_ok st -> find st fname = Some F ->
  exists st1,
    ufs_delete st fname = (st1, 0) /\ ufs_errno st1 = UFS_ERR_NO_ERR
    /\ find st1 fname = None
    /\ ufs_delete st1 fname = (set_error UFS_ERR_NO_FILE st1, -1)
    /\ (forall other, other <> fname -> find st1 other = find st other)
    /\ (forall fd, locate_descriptor st1 fd = locate_descriptor st fd).
Proof.
  intros (Hwf & Hfiles & _) Hfind. pose proof Hfiles as (Hnd & _ & Huniq).
  destruct (find_Some_inv _ _ _ Hfind) as (i & Hi & Hvis & Hname).
  unfold ufs_delete at 1. rewrite Hfind.
  eexists. split; [done|].
  set (st1 := set_error _ _).
  assert (Hnone : find st1 fname = None).
  { unfold st1. destruct (refs F =? 0).
    - unfold find, rm. ufs_simpl. rewrite (unlink_delete _ i) by done.
      apply find_all_false. intros j g Hg.
      destruct (is_removed g) eqn:Hr; [done|]. cbn [negb andb].
      apply String.eqb_neq. intros Hn.
      destruct (decide (j < i)%nat) as [Hlt|Hge].
      + rewrite list_lookup_delete_lt in Hg by done.
        assert (j = i) by (apply (Huniq j i g F); congruence). lia.
      + rewrite list_lookup_delete_ge in Hg by lia.
        assert (S j = i) by (apply (Huniq (S j) i g F); congruence). lia.
    - pose proof (find_after_mark st fname F Hfiles Hfind) as H.
      unfold find in *. by ufs_simpl. }
  split_and!; try done.
  - unfold ufs_delete. by rewrite Hnone.
  - intros other Hne. unfold st1, find, rm.
    assert (Hskip : negb (is_removed F) && String.eqb (name F) other = false).
    { rewrite Hvis, Hname. cbn [negb andb]. by apply String.eqb_neq. }
    destruct (refs F =? 0); ufs_simpl.
    + rewrite (unlink_delete _ i) by done. by apply (find_delete_skip _ _ _ F).
    + rewrite (store_insert _ i) by done. by apply (find_insert_skip _ _ _ F).
  - intros fd. unfold st1, locate_descriptor, descriptor_table, rm.
    destruct (refs F =? 0); by ufs_simpl.
Qed.

(** X8 on the stored file "f", which no descriptor holds. *)
Lemma delete_frees_the_name_witness :
  exists st1,
    ufs_delete st_stored "f" = (st1, 0) /\ ufs_errno st1 = UFS_ERR_NO_ERR
    /\ find st1 "f" = None
    /\ ufs_delete st1 "f" = (set_error UFS_ERR_NO_FILE st1, -1)
    /\ (forall other, other <> "f"%string -> find st1 other = find st_stored other)
    /\ (forall fd, locate_descriptor st1 fd = locate_descriptor st_stored fd).
Proof.
  apply (delete_frees_the_name st_stored "f"
           (mk_file 0 [mk_block (<[0%nat := Byte.x61]> (memory empty_block)) 1]
                    0 "f" false)).
  - apply st_stored_ok.
  - vm_compute. reflexivity.
Defined.


(** ** The size of the descriptor table *)
















(** ** Shutting down *)

Ltac ufs_norm :=
  cbv [set_error set_file_list set_descriptors set_count set_next_addr set_heap
       ufs_error_code file_list file_descriptors file_descriptor_count next_addr
       ufs_heap heap_ok heap_tick default from_option id fst snd].

Lemma rm_all_shape (fuel : nat) (st : ufs) :
  (length (file_list st) <= fuel)%nat ->
  rm_all fuel st
  = mk_ufs (ufs_error_code st) [] (file_descriptors st) (file_descriptor_count st)
           (next_addr st) (ufs_heap st).
Proof.
  revert st. induction fuel as [|fuel IH]; intros st Hlen.
  - destruct st as [e l t c n h]. cbn in *. destruct l; [done|cbn in Hlen; lia].
  - cbn [rm_all]. destruct (file_list st) as [|f l] eqn:Hl.
    + destruct st as [e l' t c n h]. cbn in *. by subst.
    + rewrite IH.
      * unfold rm. by ufs_simpl.
      * unfold rm. ufs_simpl. rewrite Hl. cbn [unlink]. rewrite Nat.eqb_refl.
        cbn [length] in Hlen. lia.
Qed.

Lemma ufs_destroy_shape (st : ufs) :
  table_wf st ->
  ufs_destroy st
  = Some (mk_ufs (ufs_error_code st) [] None (file_descriptor_count st)
                 (next_addr st) (ufs_heap st)).
Proof.
  intros Hwf. unfold ufs_destroy.
  assert (Hin : match file_descriptors st with
                | None => file_descriptor_count st <=? 0
                | Some t => file_descriptor_count st <=? Z.of_nat (length t)
                end = true).
  { unfold table_wf, table_ok in Hwf. destruct (file_descriptors st) as [t|].
    - apply Z.leb_le. lia.
    - apply Z.leb_le. lia. }
  rewrite Hin. f_equal. rewrite rm_all_shape; by ufs_simpl.
Qed.

(** X10: [ufs_destroy] empties the file system, open files included, and
    the interface starts over after it.  On a state whose descriptor table
    is well formed the call is defined; no file and no descriptor table is
    left, so that no name is found.  The count of descriptors is left as
    it was: when it is not 0, a second [ufs_destroy] at once reads through
    the NULL pointer and has no defined behaviour.  With an allocator that
    does not fail, the next [ufs_open] with CREATE sets up a table of 10
    slots and returns descriptor 0 on a new, empty file, the only one
    there is. *)
Theorem destroy_starts_over (st : ufs) (filename : string) :
  table_wf st -> heap_unlimited (ufs_heap st) ->
  exists st0,
    ufs_destroy st = Some st0
    /\ file_list st0 = [] /\ file_descriptors st0 = None
    /\ (forall other, find st0 other = None)
    /\ (0 < file_descriptor_count st -> ufs_destroy st0 = None)
    /\ exists st' F,
         ufs_open st0 filename UFS_CREATE = (st', 0)
         /\ file_list st' = [F] /\ name F = filename /\ refs F = 1
         /\ payload (block_list F) = []
         /\ locate_descriptor st' 0 = Some (mk_filedesc (addr F) 0 UFS_CREATE 0)
         /\ file_descriptor_count st' = 1 /\ file_descriptor_capacity st' = 10
         /\ ufs_errno st' = UFS_ERR_NO_ERR.
Proof.
  intros Hwf Hh. eexists. split; [by apply ufs_destroy_shape|].
  split_and!; try done.
  { intros Hc. unfold ufs_destroy. cbn [file_descriptors file_descriptor_count].
    by rewrite (proj2 (Z.leb_gt _ _)) by lia. }
  clear Hwf.
  destruct st as [e l t c n [ok tick]]. unfold heap_unlimited in Hh. cbn in Hh.
  unfold ufs_open, open_target, fd_setup, alloc, heap_alloc. ufs_norm. rewrite Hh.
  unfold find. ufs_norm. cbn [List.find].
  rewrite bool_decide_eq_true_2 by done.
  change (Z.land UFS_CREATE UFS_CREATE =? 0) with false. cbn [andb].
  unfold mkfile, alloc, expand_storage_unit, heap_alloc. ufs_norm. rewrite !Hh.
  ufs_norm. cbn [app negb].
  unfold open_slot, smallest_fd, descriptor_table. ufs_norm.
  assert (Hff : first_free (replicate (Z.to_nat DESCRIPTOR_POOL_START_SIZE)
                                      (@None filedesc)) 0 = Some 0) by reflexivity.
  rewrite !Hff. change (0 =? -1) with false. cbv match.
  unfold open_install, create_descriptor, alloc, heap_alloc. ufs_norm. rewrite Hh.
  cbn [negb]. ufs_norm. unfold descriptor_table. ufs_norm.
  change (0 =? 0) with true. cbv match. ufs_norm.
  cbn [store addr]. rewrite Nat.eqb_refl.
  eexists _, _. split; [reflexivity|].
  split; [reflexivity|]. cbn [name refs set_refs block_list addr].
  split_and!; try done.
Qed.

(** X10 on the state with the file "f" open twice. *)
Lemma destroy_starts_over_witness :
  exists st0,
    ufs_destroy st_shared = Some st0
    /\ file_list st0 = [] /\ file_descriptors st0 = None
    /\ (forall other, find st0 other = None)
    /\ (0 < file_descriptor_count st_shared -> ufs_destroy st0 = None)
    /\ exists st' F,
         ufs_open st0 "g" UFS_CREATE = (st', 0)
         /\ file_list st' = [F] /\ name F = "g"%string /\ refs F = 1
         /\ payload (block_list F) = []
         /\ locate_descriptor st' 0 = Some (mk_filedesc (addr F) 0 UFS_CREATE 0)
         /\ file_descriptor_count st' = 1 /\ file_descriptor_capacity st' = 10
         /\ ufs_errno st' = UFS_ERR_NO_ERR.
Proof.
  apply (destroy_starts_over st_shared "g").
  - exact (proj1 st_shared_ok).
  - intros k. reflexivity.
Defined.

End UfsExtra.

(* ===================================================================== *)
(** * TPOOL: counters, workers and refusals                            *)
(* ===================================================================== *)

Module TpoolFacts.
Import Tpool.

(** ** Counting workers *)

Lemma filter_count_insert {A} (f : A -> bool) (l : list A) (i : nat) (x y : A) :
  l !! i = Some x ->
  (length (List.filter f (<[i := y]> l)) + b2n (f x)
   = length (List.filter f l) + b2n (f y))%nat.
Proof.
  intros Hx. rewrite insert_take_drop by eauto using lookup_lt_Some.
  rewrite <- (take_drop_middle l i x Hx) at 3.
  rewrite !List.filter_app, !length_app. cbn [List.filter].
  destruct (f x), (f y); cbn [b2n length]; lia.
Qed.

Lemma filter_count_snoc {A} (f : A -> bool) (l : list A) (y : A) :
  length (List.filter f (l ++ [y])) = (length (List.filter f l) + b2n (f y))%nat.
Proof.
  rewrite List.filter_app, length_app. cbn [List.filter]. by destruct (f y).
Qed.

Lemma busy_le_live (l : list worker_pc) :
  (length (List.filter worker_busy l) <= length (List.filter worker_live l))%nat.
Proof.
  induction l as [|pc l IH]; [done|]. destruct pc; simpl; lia.
Qed.

Ltac w_simpl :=
  cbn [pool tasks workers next_task set_pool set_task set_workers set_worker
       max_threads threads_created threads_busy task_queue task_total shutting_down
       fst snd] in *.

Section Limits.

Variable TPOOL_MAX_THREADS : Z.
Variable TPOOL_MAX_TASKS : Z.

(** ** The counters along the steps *)

Lemma counters_ok_push (w : world) (tid : nat) (created : bool) :
  counters_ok w -> counters_ok (fst (thread_pool_push_task TPOOL_MAX_TASKS w tid created)).
Proof.
  intros Hw. unfold thread_pool_push_task.
  destruct (pool w) as [p|] eqn:Hp; [|done].
  destruct (tasks w !! tid) as [t|]; [|done].
  destruct (shutting_down p); [done|].
  destruct (_ >=? _); [done|].
  destruct (_ && _); [done|].
  unfold counters_ok in *. rewrite Hp in Hw. destruct Hw as (Hb & Hc & Hm & Ht).
  destruct (threads_created p <? max_threads p) eqn:Hlt; cbn [andb].
  2:{ w_simpl. rewrite length_app. cbn [length]. split_and!; try done. lia. }
  apply Z.ltb_lt in Hlt.
  destruct (threads_busy p =? threads_created p); cbn [andb].
  2:{ w_simpl. rewrite length_app. cbn [length]. split_and!; try done. lia. }
  destruct created; w_simpl; rewrite ?filter_count_snoc, length_app;
    cbn [length b2n worker_busy worker_live]; split_and!; lia.
Qed.

Lemma counters_ok_take (w : world) (i : nat) : counters_ok w -> counters_ok (worker_take w i).
Proof.
  intros Hw. unfold worker_take.
  destruct (workers w !! i) as [[| | | |]|] eqn:Hi; try done.
  destruct (pool w) as [p|] eqn:Hp; [|done].
  unfold counters_ok in *. rewrite Hp in Hw. destruct Hw as (Hb & Hc & Hm & Ht).
  pose proof (filter_count_insert worker_busy (workers w) i W_WAIT) as Hfb.
  pose proof (filter_count_insert worker_live (workers w) i W_WAIT) as Hfl.
  destruct (shutting_down p).
  - w_simpl. specialize (Hfb W_EXIT Hi). specialize (Hfl W_EXIT Hi).
    cbn [b2n worker_busy worker_live] in *. split_and!; lia.
  - destruct (task_queue p) as [|t q] eqn:Hq; [rewrite Hp, Hq; by split_and!|].
    w_simpl. specialize (Hfb (W_PICKED t) Hi). specialize (Hfl (W_PICKED t) Hi).
    cbn [b2n worker_busy worker_live length] in *. split_and!; lia.
Qed.

Lemma counters_ok_start (w : world) (i : nat) : counters_ok w -> counters_ok (worker_start w i).
Proof.
  intros Hw. unfold worker_start.
  destruct (workers w !! i) as [[|t|t| |]|] eqn:Hi; try done.
  destruct (tasks w !! t); [|done].
  unfold counters_ok in *. w_simpl. destruct (pool w) as [p|]; [|done].
  destruct Hw as (Hb & Hc & Hm & Ht).
  pose proof (filter_count_insert worker_busy (workers w) i (W_PICKED t) (W_RUN t) Hi) as Hfb.
  pose proof (filter_count_insert worker_live (workers w) i (W_PICKED t) (W_RUN t) Hi) as Hfl.
  cbn [b2n worker_busy worker_live] in *. split_and!; lia.
Qed.

Lemma counters_ok_finish (w : world) (i : nat) :
  counters_ok w -> counters_ok (worker_finish w i).
Proof.
  intros Hw. unfold worker_finish.
  destruct (workers w !! i) as [[|t|t| |]|] eqn:Hi; try done.
  destruct (tasks w !! t); [|done].
  unfold counters_ok in *. w_simpl. destruct (pool w) as [p|]; [|done].
  destruct Hw as (Hb & Hc & Hm & Ht).
  pose proof (filter_count_insert worker_busy (workers w) i (W_RUN t) W_PUBLISHED Hi) as Hfb.
  pose proof (filter_count_insert worker_live (workers w) i (W_RUN t) W_PUBLISHED Hi) as Hfl.
  cbn [b2n worker_busy worker_live] in *. split_and!; lia.
Qed.

Lemma counters_ok_release (w : world) (i : nat) :
  counters_ok w -> counters_ok (worker_release w i).
Proof.
  intros Hw. unfold worker_release.
  destruct (workers w !! i) as [[| | | |]|] eqn:Hi; try done.
  destruct (pool w) as [p|] eqn:Hp; [|done].
  unfold counters_ok in *. rewrite Hp in Hw. destruct Hw as (Hb & Hc & Hm & Ht). w_simpl.
  pose proof (filter_count_insert worker_busy (workers w) i W_PUBLISHED W_WAIT Hi) as Hfb.
  pose proof (filter_count_insert worker_live (workers w) i W_PUBLISHED W_WAIT Hi) as Hfl.
  cbn [b2n worker_busy worker_live] in *. split_and!; lia.
Qed.

Lemma counters_ok_step (w : world) (e : event) :
  counters_ok w -> counters_ok (step TPOOL_MAX_THREADS TPOOL_MAX_TASKS w e).
Proof.
  intros Hw. destruct e; cbn [step].
  - destruct (pool w) eqn:Hp; [done|]. unfold thread_pool_new. cbn [negb orb].
    destruct (max_thread_count <=? 0) eqn:H0; [done|]. apply Z.leb_gt in H0.
    cbn [orb]. destruct (_ >? _); [done|]. cbn [negb fst].
    unfold counters_ok. w_simpl. cbn. lia.
  - unfold thread_task_new. cbn [negb fst]. exact Hw.
  - by apply counters_ok_push.
  - unfold thread_task_delete. destruct (tasks w !! tid); [|done].
    destruct (_ || _); done.
  - unfold thread_pool_delete. destruct (pool w) as [p|] eqn:Hp; [|done].
    destruct (_ || _); [done|]. unfold counters_ok in *. rewrite Hp in Hw. w_simpl. done.
  - unfold thread_pool_free. destruct (pool w) as [p|] eqn:Hp; [|done].
    destruct (_ && _); [done|done].
  - by apply counters_ok_take.
  - by apply counters_ok_start.
  - by apply counters_ok_finish.
  - by apply counters_ok_release.
Qed.

Lemma counters_ok_run (es : list event) (w : world) :
  counters_ok w -> counters_ok (run TPOOL_MAX_THREADS TPOOL_MAX_TASKS w es).
Proof.
  revert w. induction es as [|e es IH]; intros w Hw; [done|].
  cbn [run fold_left]. apply IH. by apply counters_ok_step.
Qed.

Lemma counters_bounds (w : world) : counters_ok w -> bounds_ok w.
Proof.
  unfold counters_ok, bounds_ok. destruct (pool w) as [p|]; [|done].
  intros (Hb & Hc & Hm & _). pose proof (busy_le_live (workers w)). lia.
Qed.

(** ** A push and the number of workers *)

Lemma push_ok_inv (w w' : world) (tid : nat) (created : bool) :
  thread_pool_push_task TPOOL_MAX_TASKS w tid created = (w', TPOOL_OK) ->
  exists p task,
    pool w = Some p /\ tasks w !! tid = Some task
    /\ shutting_down p = false /\ task_total p < TPOOL_MAX_TASKS
    /\ (state task = TASK_NEW \/ state task = TASK_DONE)
    /\ let spawn := (threads_created p <? max_threads p)
                     && (threads_busy p =? threads_created p) && created in
       pool w' = Some (mk_pool (max_threads p)
                          (if spawn then threads_created p + 1 else threads_created p)
                          (threads_busy p) (task_queue p ++ [tid]) (task_total p + 1)
                          false)
       /\ workers w' = (if spawn then workers w ++ [W_WAIT] else workers w)
       /\ tasks w' = <[tid := mk_task (function task) (arg task) (result task) true
                                       TASK_QUEUED]> (tasks w).
Proof.
  unfold thread_pool_push_task.
  destruct (pool w) as [p|] eqn:Hp; [|done].
  destruct (tasks w !! tid) as [t|] eqn:Ht; [|done].
  destruct (shutting_down p) eqn:Hs; [done|].
  destruct (task_total p >=? TPOOL_MAX_TASKS) eqn:Hm; [done|].
  destruct (negb _ && negb _) eqn:Hst; [done|].
  intros [= <-]. exists p, t. split_and!; try done.
  - rewrite Z.geb_leb in Hm. apply Z.leb_gt in Hm. lia.
  - apply andb_false_iff in Hst as [H|H]; apply negb_false_iff, bool_decide_eq_true in H; auto.
  - destruct (_ && _ && _); done.
  - destruct (_ && _ && _); done.
  - destruct (_ && _ && _); done.
Qed.

Lemma thread_count_step (w : world) (e : event) :
  counters_ok w ->
  thread_pool_thread_count (step TPOOL_MAX_THREADS TPOOL_MAX_TASKS w e)
  <= thread_pool_thread_count w
     + Z.of_nat (pushes_ok TPOOL_MAX_THREADS TPOOL_MAX_TASKS w [e]).
Proof.
  intros Hw.
  assert (H0 : 0 <= thread_pool_thread_count w).
  { unfold thread_pool_thread_count, counters_ok in *. destruct (pool w); [|done]. lia. }
  destruct e; cbn [step pushes_ok Nat.add]; rewrite ?Nat.add_0_r; cbn [Z.of_nat];
    rewrite ?Z.add_0_r.
  - destruct (pool w) eqn:Hp; [lia|]. unfold thread_pool_new. cbn [negb orb].
    destruct (_ || _); cbn [fst]; [lia|]. unfold thread_pool_thread_count in *.
    w_simpl. rewrite Hp in *. done.
  - unfold thread_task_new. cbn [negb fst]. unfold thread_pool_thread_count. w_simpl. lia.
  - destruct (thread_pool_push_task TPOOL_MAX_TASKS w tid created) as [w' c] eqn:Hpush.
    cbn [fst snd]. destruct c;
      try (unfold thread_pool_push_task in Hpush;
           repeat (match type of Hpush with
                   | context [match ?x with _ => _ end] => destruct x
                   end; try done);
           injection Hpush as <-; lia).
    destruct (push_ok_inv _ _ _ _ Hpush) as (p & t & Hp & _ & _ & _ & _ & Hp' & _).
    unfold thread_pool_thread_count. rewrite Hp, Hp'. w_simpl.
    destruct (_ && _ && _); lia.
  - unfold thread_task_delete. destruct (tasks w !! tid); [|cbn [fst]; lia].
    destruct (_ || _); cbn [fst]; unfold thread_pool_thread_count; w_simpl; lia.
  - unfold thread_pool_delete, thread_pool_thread_count in *.
    destruct (pool w) as [p|] eqn:Hp; cbn [fst]; [|rewrite Hp; lia].
    destruct (_ || _); cbn [fst]; w_simpl; rewrite ?Hp; lia.
  - unfold thread_pool_free, thread_pool_thread_count in *.
    destruct (pool w) as [p|] eqn:Hp; [|rewrite Hp; lia].
    destruct (_ && _); w_simpl; rewrite ?Hp; lia.
  - unfold worker_take, thread_pool_thread_count in *.
    destruct (workers w !! i) as [[| | | |]|]; try lia.
    destruct (pool w) as [p|] eqn:Hp; [|rewrite Hp; lia].
    destruct (shutting_down p); [w_simpl; lia|].
    destruct (task_queue p); [rewrite Hp; lia|]. w_simpl. lia.
  - unfold worker_start, thread_pool_thread_count in *.
    destruct (workers w !! i) as [[| | | |]|]; try lia.
    destruct (tasks w !! t); w_simpl; lia.
  - unfold worker_finish, thread_pool_thread_count in *.
    destruct (workers w !! i) as [[| | | |]|]; try lia.
    destruct (tasks w !! t); w_simpl; lia.
  - unfold worker_release, thread_pool_thread_count in *.
    destruct (workers w !! i) as [[| | | |]|]; try lia.
    destruct (pool w) as [p|] eqn:Hp; [|rewrite Hp; lia]. w_simpl. lia.
Qed.

Lemma thread_count_run (es : list event) (w : world) :
  counters_ok w ->
  thread_pool_thread_count (run TPOOL_MAX_THREADS TPOOL_MAX_TASKS w es)
  <= thread_pool_thread_count w
     + Z.of_nat (pushes_ok TPOOL_MAX_THREADS TPOOL_MAX_TASKS w es).
Proof.
  revert w. induction es as [|e es IH]; intros w Hw.
  - cbn. lia.
  - cbn [run fold_left].
    pose proof (thread_count_step w e Hw) as Hs.
    pose proof (IH _ (counters_ok_step w e Hw)) as Hr.
    unfold run in Hr. cbn [pushes_ok] in *. rewrite Nat.add_0_r in Hs. lia.
Qed.

Lemma push_ok (w : world) (p : thread_pool) (task : thread_task) (tid : nat)
    (created : bool) :
  pool w = Some p -> tasks w !! tid = Some task -> shutting_down p = false ->
  task_total p < TPOOL_MAX_TASKS -> state task = TASK_NEW \/ state task = TASK_DONE ->
  snd (thread_pool_push_task TPOOL_MAX_TASKS w tid created) = TPOOL_OK.
Proof.
  intros Hp Ht Hs Hm Hst. unfold thread_pool_push_task. rewrite Hp, Ht, Hs.
  rewrite Z.geb_leb, (proj2 (Z.leb_gt _ _)) by lia.
  replace (negb _ && negb _) with false; [done|].
  symmetry. apply andb_false_iff.
  destruct Hst as [H|H]; [left|right]; apply negb_false_iff, bool_decide_eq_true; done.
Qed.

(** After [K] rounds of the eager schedule on a fresh pool with bound [M]:
    [min K M] workers, all of them holding a task. *)
Lemma eager_run (M : Z) (N : nat) (w0 : world) :
  1 <= M -> Z.of_nat N <= TPOOL_MAX_TASKS ->
  pool w0 = Some (mk_pool M 0 0 [] 0 false) -> workers w0 = [] ->
  (forall k, (k < N)%nat -> exists t, tasks w0 !! k = Some t /\ state t = TASK_NEW) ->
  forall K, (K <= N)%nat ->
    let w := run TPOOL_MAX_THREADS TPOOL_MAX_TASKS w0 (eager K) in
    counters_ok w
    /\ (exists p, pool w = Some p /\ max_threads p = M /\ shutting_down p = false
                  /\ threads_created p = Z.min (Z.of_nat K) M
                  /\ threads_busy p = Z.min (Z.of_nat K) M
                  /\ task_total p = Z.of_nat K - Z.min (Z.of_nat K) M)
    /\ length (workers w) = Z.to_nat (Z.min (Z.of_nat K) M)
    /\ (forall k, (K <= k < N)%nat -> exists t, tasks w !! k = Some t /\ state t = TASK_NEW).
Proof.
  intros HM HN Hp0 Hw0 Ht0. induction K as [|K IH]; intros HK w.
  - unfold w. cbn [eager run fold_left]. split_and!.
    + unfold counters_ok. rewrite Hp0, Hw0. cbn. lia.
    + eexists. split; [exact Hp0|]. cbn. split_and!; try done; lia.
    + rewrite Hw0. cbn. lia.
    + intros k Hk. apply Ht0. lia.
  - unfold w. cbn [eager]. unfold run. rewrite fold_left_app. cbn [fold_left].
    fold (run TPOOL_MAX_THREADS TPOOL_MAX_TASKS w0 (eager K)).
    destruct (IH ltac:(lia)) as (Hc & (p & Hp & Hmax & Hsh & Hcr & Hbu & Hto) & Hlen & Hts).
    set (wK := run TPOOL_MAX_THREADS TPOOL_MAX_TASKS w0 (eager K)) in *.
    destruct (Hts K ltac:(lia)) as (t & Ht & Hst).
    assert (Hq : task_total p = Z.of_nat (length (task_queue p))).
    { unfold counters_ok in Hc. rewrite Hp in Hc. tauto. }
    pose proof (push_ok wK p t K true Hp Ht Hsh ltac:(lia) (or_introl Hst)) as Hok.
    destruct (thread_pool_push_task TPOOL_MAX_TASKS wK K true) as [w1 c] eqn:Hpush.
    cbn [snd] in Hok. subst c.
    destruct (push_ok_inv _ _ _ _ Hpush)
      as (p_ & t_ & Hp_ & Ht_ & _ & _ & _ & Hp1 & Hwk1 & Htk1).
    assert (p_ = p) as -> by congruence. assert (t_ = t) as -> by congruence.
    assert (Hc1 : counters_ok w1).
    { pose proof (counters_ok_push wK K true Hc) as H. by rewrite Hpush in H. }
    cbn [step]. rewrite Hpush. cbn [fst].
    assert (Hc2 : counters_ok (worker_take w1 K)) by (by apply counters_ok_take).
    split; [exact Hc2|].
    destruct (decide (Z.of_nat K < M)) as [Hlt|Hge].
    + (* a worker is created and takes the task *)
      rewrite Hcr, Hbu, Hmax in *.
      rewrite (proj2 (Z.ltb_lt _ _)), Z.eqb_refl in * by lia. cbn [andb] in *.
      assert (Hmin : Z.min (Z.of_nat K) M = Z.of_nat K) by lia.
      assert (Hqe : task_queue p = []).
      { destruct (task_queue p); [done|]. cbn [length] in Hq. lia. }
      assert (Hwi : workers w1 !! K = Some W_WAIT).
      { rewrite Hwk1, lookup_app_r by lia.
        replace (K - length (workers wK))%nat with 0%nat by lia. done. }
      unfold worker_take. rewrite Hwi, Hp1. w_simpl. rewrite Hqe. cbn [app]. w_simpl.
      split_and!.
      * eexists. split; [done|]. w_simpl. split_and!; try done; lia.
      * rewrite length_insert, Hwk1, length_app. cbn [length]. lia.
      * intros k Hk. rewrite Htk1, lookup_insert_ne by lia. apply Hts. lia.
    + (* the bound is reached: the task waits in the queue *)
      rewrite Hcr, Hbu, Hmax in *.
      assert (Hmin : Z.min (Z.of_nat K) M = M) by lia. rewrite Hmin in *.
      rewrite (proj2 (Z.ltb_ge _ _)) in * by lia. cbn [andb] in *.
      assert (Hwi : workers w1 !! K = None).
      { rewrite Hwk1. apply lookup_ge_None. lia. }
      unfold worker_take. rewrite Hwi.
      split_and!.
      * eexists. split; [exact Hp1|]. w_simpl. split_and!; try done; lia.
      * rewrite Hwk1. lia.
      * intros k Hk. rewrite Htk1, lookup_insert_ne by lia. apply Hts. lia.
Qed.

Lemma push_failed_same (w w' : world) (tid : nat) (created : bool) (c : tpool_code) :
  thread_pool_push_task TPOOL_MAX_TASKS w tid created = (w', c) -> c <> TPOOL_OK -> w' = w.
Proof.
  unfold thread_pool_push_task.
  destruct (pool w) as [p|]; [|by intros [= <- _]].
  destruct (tasks w !! tid) as [t|]; [|by intros [= <- _]].
  destruct (shutting_down p); [by intros [= <- _]|].
  destruct (_ >=? _); [by intros [= <- _]|].
  destruct (_ && _); [by intros [= <- _]|].
  by intros [= _ <-].
Qed.

(** While [thread_pool_delete] is not called the pool stays, with its bound
    and without the shutdown flag, and only a push that succeeds changes
    the number of workers. *)
Lemma created_step (w : world) (p : thread_pool) (e : event) :
  pool w = Some p -> shutting_down p = false -> e <> E_pool_delete ->
  exists p',
    pool (step TPOOL_MAX_THREADS TPOOL_MAX_TASKS w e) = Some p'
    /\ max_threads p' = max_threads p /\ shutting_down p' = false
    /\ (pushes_ok TPOOL_MAX_THREADS TPOOL_MAX_TASKS w [e] = 0%nat ->
        threads_created p' = threads_created p).
Proof.
  intros Hp Hs He. destruct e; cbn [step pushes_ok]; try done.
  - rewrite Hp. by exists p.
  - unfold thread_task_new. cbn [negb fst]. w_simpl. by exists p.
  - destruct (thread_pool_push_task TPOOL_MAX_TASKS w tid created) as [w' c] eqn:Hpush.
    cbn [fst snd].
    assert (Hc : c = TPOOL_OK \/ c <> TPOOL_OK) by (destruct c; auto).
    destruct Hc as [->|Hc].
    + destruct (push_ok_inv _ _ _ _ Hpush) as (p_ & t & Hp_ & _ & _ & _ & _ & Hp' & _).
      assert (p_ = p) as -> by congruence.
      eexists. split; [exact Hp'|]. w_simpl. split_and!; try done.
    + rewrite (push_failed_same _ _ _ _ _ Hpush Hc). by exists p.
  - unfold thread_task_delete. destruct (tasks w !! tid); [|by exists p].
    destruct (_ || _); cbn [fst]; w_simpl; by exists p.
  - unfold thread_pool_free. rewrite Hp, Hs. cbn [andb]. by exists p.
  - unfold worker_take.
    destruct (workers w !! i) as [[| | | |]|]; try by exists p.
    rewrite Hp, Hs. destruct (task_queue p); [by exists p|].
    w_simpl. eexists. split; [done|]. by w_simpl.
  - unfold worker_start.
    destruct (workers w !! i) as [[| | | |]|]; try by exists p.
    destruct (tasks w !! t); w_simpl; by exists p.
  - unfold worker_finish.
    destruct (workers w !! i) as [[| | | |]|]; try by exists p.
    destruct (tasks w !! t); w_simpl; by exists p.
  - unfold worker_release.
    destruct (workers w !! i) as [[| | | |]|]; try by exists p.
    rewrite Hp. w_simpl. eexists. split; [done|]. by w_simpl.
Qed.

(** On a pool that is not shut down, where every successful push finds all
    workers busy, the workers are as many as the successful pushes, up to
    the bound. *)
Lemma all_busy_run (es : list event) :
  forall (w : world) (p : thread_pool) (n0 : Z),
    pool w = Some p -> shutting_down p = false ->
    threads_created p = Z.min n0 (max_threads p) ->
    no_pool_delete es ->
    pushes_find_all_busy TPOOL_MAX_THREADS TPOOL_MAX_TASKS w es ->
    exists p',
      pool (run TPOOL_MAX_THREADS TPOOL_MAX_TASKS w es) = Some p'
      /\ max_threads p' = max_threads p
      /\ threads_created p'
         = Z.min (n0 + Z.of_nat (pushes_ok TPOOL_MAX_THREADS TPOOL_MAX_TASKS w es))
                 (max_threads p).
Proof.
  induction es as [|e es IH]; intros w p n0 Hp Hs Hn Hnd Hbusy.
  - exists p. cbn. rewrite Z.add_0_r. done.
  - apply Forall_cons in Hnd as [He Hnd]. cbn [pushes_find_all_busy] in Hbusy.
    destruct Hbusy as [Hpush Hbusy]. cbn [run fold_left].
    destruct (created_step w p e Hp Hs He) as (p1 & Hp1 & Hm1 & Hs1 & Hsame).
    set (k := pushes_ok TPOOL_MAX_THREADS TPOOL_MAX_TASKS w [e]) in *.
    assert (Hk : threads_created p1 = Z.min (n0 + Z.of_nat k) (max_threads p)).
    { destruct e; try (rewrite Hsame by done; subst k; cbn; rewrite Z.add_0_r; exact Hn).
      subst k. cbn [pushes_ok] in *. cbn [step] in Hp1.
      destruct (thread_pool_push_task TPOOL_MAX_TASKS w tid created) as [w' c] eqn:Hpu.
      cbn [fst snd] in *.
      assert (Hc : c = TPOOL_OK \/ c <> TPOOL_OK) by (destruct c; auto).
      destruct Hc as [->|Hc].
      2: { rewrite Hsame by (by destruct c). destruct c; try done;
           cbn; rewrite Z.add_0_r; exact Hn. }
      destruct (Hpush eq_refl p Hp) as [Hb Hcr].
      destruct (push_ok_inv _ _ _ _ Hpu) as (p_ & t & Hp_ & _ & _ & _ & _ & Hp' & _).
      assert (p_ = p) as -> by congruence.
      rewrite Hp1 in Hp'. injection Hp' as ->. w_simpl.
      rewrite Hb, Z.eqb_refl.
      destruct (threads_created p <? max_threads p) eqn:Hlt.
      - apply Z.ltb_lt in Hlt. rewrite Hcr by lia. cbn [andb]. lia.
      - apply Z.ltb_ge in Hlt. cbn [andb]. lia. }
    destruct (IH _ p1 (n0 + Z.of_nat k) Hp1 Hs1) as (p' & Hp' & Hm' & Hc'); try done.
    { by rewrite Hm1. }
    exists p'. split; [exact Hp'|]. split; [congruence|].
    rewrite Hc', Hm1. f_equal.
    assert (Hsum : pushes_ok TPOOL_MAX_THREADS TPOOL_MAX_TASKS w (e :: es)
                   = (k + pushes_ok TPOOL_MAX_THREADS TPOOL_MAX_TASKS
                            (step TPOOL_MAX_THREADS TPOOL_MAX_TASKS w e) es)%nat).
    { subst k. cbn [pushes_ok]. lia. }
    rewrite Hsum. lia.
Qed.

(** Without [thread_pool_delete] the pool keeps its bound. *)
Lemma bound_kept_run (es : list event) :
  forall (w : world) (p : thread_pool),
    pool w = Some p -> shutting_down p = false -> no_pool_delete es ->
    exists p',
      pool (run TPOOL_MAX_THREADS TPOOL_MAX_TASKS w es) = Some p'
      /\ max_threads p' = max_threads p.
Proof.
  induction es as [|e es IH]; intros w p Hp Hs Hnd; [by exists p|].
  apply Forall_cons in Hnd as [He Hnd]. cbn [run fold_left].
  destruct (created_step w p e Hp Hs He) as (p1 & Hp1 & Hm1 & Hs1 & _).
  destruct (IH _ p1 Hp1 Hs1 Hnd) as (p' & Hp' & Hm'). exists p'. split; [done|congruence].
Qed.

(** C7, as the code has it: a push that succeeds creates a worker exactly
    when every worker created so far is busy, the bound is not reached and
    [pthread_create] succeeds; along every run the counters stay within
    [threads_busy <= threads_created <= max_threads] and the number of
    workers is at most the number of successful pushes; on a fresh pool
    with bound [M] the schedule in which each new worker takes its task
    before the next push, and none finishes, ends with [min K M] workers
    after [K] pushes.  On a fresh pool with bound [M], in every run without
    [thread_pool_delete], the workers are at most [min K M] for the [K]
    pushes that succeed, and exactly that many when each of these pushes
    finds every worker created so far busy and can create its thread. *)
Theorem lazy_worker_growth (w : world) (p : thread_pool) (es : list event) :
  counters_ok w -> pool w = Some p ->
  (forall tid created w',
     thread_pool_push_task TPOOL_MAX_TASKS w tid created = (w', TPOOL_OK) ->
     exists p',
       pool w' = Some p'
       /\ (threads_busy p = threads_created p /\ threads_created p < max_threads p
           /\ created = true ->
           threads_created p' = threads_created p + 1
           /\ workers w' = workers w ++ [W_WAIT])
       /\ (~ (threads_busy p = threads_created p /\ threads_created p < max_threads p
              /\ created = true) ->
           threads_created p' = threads_created p /\ workers w' = workers w))
  /\ bounds_ok (run TPOOL_MAX_THREADS TPOOL_MAX_TASKS w es)
  /\ thread_pool_thread_count (run TPOOL_MAX_THREADS TPOOL_MAX_TASKS w es)
     <= thread_pool_thread_count w
        + Z.of_nat (pushes_ok TPOOL_MAX_THREADS TPOOL_MAX_TASKS w es)
  /\ (p = mk_pool (max_threads p) 0 0 [] 0 false -> workers w = [] ->
      1 <= max_threads p ->
      forall K : nat,
        Z.of_nat K <= TPOOL_MAX_TASKS ->
        (forall k, (k < K)%nat -> exists t, tasks w !! k = Some t /\ state t = TASK_NEW) ->
        thread_pool_thread_count (run TPOOL_MAX_THREADS TPOOL_MAX_TASKS w (eager K))
        = Z.min (Z.of_nat K) (max_threads p))
  /\ (p = mk_pool (max_threads p) 0 0 [] 0 false -> no_pool_delete es ->
      let K := Z.of_nat (pushes_ok TPOOL_MAX_THREADS TPOOL_MAX_TASKS w es) in
      thread_pool_thread_count (run TPOOL_MAX_THREADS TPOOL_MAX_TASKS w es)
      <= Z.min K (max_threads p)
      /\ (pushes_find_all_busy TPOOL_MAX_THREADS TPOOL_MAX_TASKS w es ->
          thread_pool_thread_count (run TPOOL_MAX_THREADS TPOOL_MAX_TASKS w es)
          = Z.min K (max_threads p))).
Proof.
  intros Hc Hp. split_and!.
  - intros tid created w' Hpush.
    destruct (push_ok_inv _ _ _ _ Hpush) as (p_ & t & Hp_ & _ & _ & _ & _ & Hp' & Hw' & _).
    assert (p_ = p) as -> by congruence.
    eexists. split; [exact Hp'|]. w_simpl. split.
    + intros (Hb & Hlt & ->).
      rewrite (proj2 (Z.ltb_lt _ _)), (proj2 (Z.eqb_eq _ _)) in * by done. done.
    + intros Hn.
      destruct (threads_created p <? max_threads p) eqn:H1; [|done].
      destruct (threads_busy p =? threads_created p) eqn:H2; [|done].
      destruct created; [|done].
      exfalso. apply Hn. apply Z.ltb_lt in H1. apply Z.eqb_eq in H2. done.
  - apply counters_bounds. by apply counters_ok_run.
  - by apply thread_count_run.
  - intros Hfresh Hws HM K HK Hts.
    assert (Hpool : pool w = Some (mk_pool (max_threads p) 0 0 [] 0 false))
      by (by rewrite <- Hfresh).
    destruct (eager_run (max_threads p) K w HM HK Hpool Hws Hts K (Nat.le_refl K))
      as (_ & (p' & Hp' & _ & _ & Hcr & _) & _).
    unfold thread_pool_thread_count. by rewrite Hp'.
  - intros Hfresh Hnd K.
    assert (Hs : shutting_down p = false) by (by rewrite Hfresh).
    assert (H0 : threads_created p = 0) by (by rewrite Hfresh).
    split.
    + pose proof (thread_count_run es w Hc) as Hle.
      pose proof (counters_bounds _ (counters_ok_run es w Hc)) as Hb.
      destruct (bound_kept_run es w p Hp Hs Hnd) as (p' & Hp' & Hm').
      unfold thread_pool_thread_count, bounds_ok in *. rewrite Hp, Hp' in *.
      fold K in Hle. lia.
    + intros Hbusy.
      assert (HM : 0 <= max_threads p).
      { unfold counters_ok in Hc. rewrite Hp in Hc. lia. }
      destruct (all_busy_run es w p 0 Hp Hs) as (p' & Hp' & _ & Hcr); try done.
      { lia. }
      unfold thread_pool_thread_count. rewrite Hp', Hcr. by rewrite Z.add_0_l.
Qed.

(** C8: the refusals of [thread_pool_delete], [thread_task_delete] and
    [thread_task_join] return their codes and give back the world they
    got; a task just made by [thread_task_new] is in state [TASK_NEW]. *)
Theorem lifecycle_errors_change_nothing (w : world) :
  (forall p, pool w = Some p -> task_total p > 0 \/ threads_busy p > 0 ->
             thread_pool_delete w = (w, TPOOL_ERR_HAS_TASKS))
  /\ (forall tid t, tasks w !! tid = Some t ->
                    state t = TASK_QUEUED \/ state t = TASK_RUNNING ->
                    thread_task_delete w tid = (w, TPOOL_ERR_TASK_IN_POOL))
  /\ (forall tid t, tasks w !! tid = Some t -> state t = TASK_NEW ->
                    thread_task_join w tid true = JOIN_ERROR TPOOL_ERR_TASK_NOT_PUSHED)
  /\ (forall f a w', thread_task_new w f a true true = (w', TPOOL_OK) ->
                     exists t, tasks w' !! next_task w = Some t
                               /\ state t = TASK_NEW /\ owner t = false
                               /\ pool w' = pool w).
Proof.
  split_and!.
  - intros p Hp Hbusy. unfold thread_pool_delete. rewrite Hp.
    replace ((task_total p >? 0) || (threads_busy p >? 0)) with true; [done|].
    symmetry. apply orb_true_iff. rewrite !Z.gtb_ltb, !Z.ltb_lt. lia.
  - intros tid t Ht Hst. unfold thread_task_delete. rewrite Ht.
    replace (bool_decide _ || bool_decide _) with true; [done|].
    symmetry. apply orb_true_iff. rewrite !bool_decide_eq_true. done.
  - intros tid t Ht Hst. unfold thread_task_join. rewrite Ht. cbn [negb].
    by rewrite (bool_decide_eq_true_2 _ Hst).
  - intros f a w'. unfold thread_task_new. cbn [negb]. intros [= <-].
    eexists. w_simpl. rewrite lookup_insert_eq. done.
Qed.

End Limits.

(** C7, the counterexample: two pushes into a fresh pool with bound 2, before
    the first worker gets to run: both succeed, and one worker exists, not
    [min 2 2]. *)
Lemma two_pushes_one_worker :
  pushes_ok 20 100000 empty_world two_quick_pushes = 2%nat
  /\ thread_pool_thread_count (run 20 100000 empty_world two_quick_pushes) = 1
  /\ Z.min 2 2 = 2.
Proof. vm_compute. split_and!; reflexivity. Qed.

(** C7 on a fresh pool with bound 2 and three tasks, each worker taking
    its task before the next push: three pushes succeed, each finds every
    worker busy, and two workers are created. *)
Lemma lazy_worker_growth_witness :
  thread_pool_thread_count (run 20 100000 pool_with_tasks (eager 3)) = Z.min 3 2
  /\ bounds_ok (run 20 100000 pool_with_tasks (eager 3))
  /\ pushes_ok 20 100000 pool_with_tasks (eager 3) = 3%nat
  /\ thread_pool_thread_count (run 20 100000 pool_with_tasks (eager 3))
     = Z.min (Z.of_nat (pushes_ok 20 100000 pool_with_tasks (eager 3))) 2.
Proof.
  assert (Hc : counters_ok pool_with_tasks).
  { vm_compute. split_and!; try reflexivity. discriminate. }
  assert (Hp : pool pool_with_tasks = Some (mk_pool 2 0 0 [] 0 false)) by reflexivity.
  destruct (lazy_worker_growth 20 100000 pool_with_tasks (mk_pool 2 0 0 [] 0 false)
              (eager 3) Hc Hp) as (_ & Hb & _ & He & Hall).
  split; [|split; [exact Hb|split; [reflexivity|]]].
  - apply (He eq_refl eq_refl); [cbn; lia | lia |].
    intros [|[|[|k]]] Hk; try lia; eexists; split; vm_compute; reflexivity.
  - apply Hall; [reflexivity | |].
    + repeat constructor; discriminate.
    + cbn [eager app pushes_find_all_busy]. split_and!; try exact I;
        intros _ p [= <-]; (split; [reflexivity | intros _; reflexivity]).
Defined.

(** C8 on a pool where task 0 is queued and task 1 was never pushed. *)
Lemma lifecycle_errors_change_nothing_witness :
  let w := run 20 100000 pool_with_tasks [E_push 0 true] in
  thread_pool_delete w = (w, TPOOL_ERR_HAS_TASKS)
  /\ thread_task_delete w 0 = (w, TPOOL_ERR_TASK_IN_POOL)
  /\ thread_task_join w 1 true = JOIN_ERROR TPOOL_ERR_TASK_NOT_PUSHED.
Proof.
  intros w.
  destruct (lifecycle_errors_change_nothing w) as (Hpool & Hdel & Hjoin & _).
  split_and!.
  - eapply Hpool; [vm_compute; reflexivity|]. left. vm_compute. reflexivity.
  - eapply Hdel; [vm_compute; reflexivity|]. left. reflexivity.
  - eapply Hjoin; [vm_compute; reflexivity|]. reflexivity.
Defined.

End TpoolFacts.

(* ===================================================================== *)
(** * TPOOL: the queue, the results and the shutdown                   *)
(* ===================================================================== *)

Module TpoolExtra.
Import Tpool TpoolFacts.

(** ** The tasks in the workers' hands *)

Lemma held_insert_same (l : list worker_pc) (i : nat) (pc0 pc : worker_pc) :
  l !! i = Some pc0 -> holds pc = holds pc0 ->
  omap holds (<[i := pc]> l) = omap holds l.
Proof.
  revert i. induction l as [|x l IH]; intros [|i] Hi Hh; try done; cbn in Hi |- *.
  - injection Hi as ->. by rewrite Hh.
  - destruct (holds x); [f_equal|]; by apply (IH i).
Qed.

Lemma held_insert_gain (l : list worker_pc) (i : nat) (pc0 pc : worker_pc) (t : nat) :
  l !! i = Some pc0 -> holds pc0 = None -> holds pc = Some t ->
  omap holds (<[i := pc]> l) ≡ₚ t :: omap holds l.
Proof.
  revert i. induction l as [|x l IH]; intros [|i] Hi H0 H1; try done; cbn in Hi |- *.
  - injection Hi as ->. by rewrite H0, H1.
  - destruct (holds x) as [y|]; [|by apply (IH i)].
    etrans; [apply perm_skip, (IH i); done|]. apply perm_swap.
Qed.

Lemma held_insert_lose (l : list worker_pc) (i : nat) (pc0 pc : worker_pc) (t : nat) :
  l !! i = Some pc0 -> holds pc0 = Some t -> holds pc = None ->
  t :: omap holds (<[i := pc]> l) ≡ₚ omap holds l.
Proof.
  revert i. induction l as [|x l IH]; intros [|i] Hi H0 H1; try done; cbn in Hi |- *.
  - injection Hi as ->. by rewrite H0, H1.
  - destruct (holds x) as [y|]; [|by apply (IH i)].
    etrans; [apply perm_swap|]. apply perm_skip, (IH i); done.
Qed.

Lemma held_elem (l : list worker_pc) (t : nat) :
  t ∈ omap holds l <-> exists i, l !! i = Some (W_PICKED t) \/ l !! i = Some (W_RUN t).
Proof.
  rewrite list_elem_of_omap. split.
  - intros (pc & Hin & Hh). apply list_elem_of_lookup in Hin as [i Hi]. exists i.
    destruct pc; cbn in Hh; try done; injection Hh as ->; auto.
  - intros (i & [Hi|Hi]); eexists; (split; [by eapply list_elem_of_lookup_2|done]).
Qed.

(** Two workers do not hold one task. *)
Lemma held_distinct (l : list worker_pc) (i j : nat) (pc pc' : worker_pc) (t : nat) :
  NoDup (omap holds l) -> l !! i = Some pc -> l !! j = Some pc' ->
  holds pc = Some t -> holds pc' = Some t -> i = j.
Proof.
  revert i j. induction l as [|x l IH]; intros i j Hnd Hi Hj Hh Hh'; [done|].
  cbn in Hnd.
  destruct i as [|i], j as [|j]; cbn in Hi, Hj; try done.
  - injection Hi as ->. rewrite Hh in Hnd. apply NoDup_cons in Hnd as [Hnot _].
    exfalso. apply Hnot. apply list_elem_of_omap. exists pc'.
    split; [by eapply list_elem_of_lookup_2|done].
  - injection Hj as ->. rewrite Hh' in Hnd. apply NoDup_cons in Hnd as [Hnot _].
    exfalso. apply Hnot. apply list_elem_of_omap. exists pc.
    split; [by eapply list_elem_of_lookup_2|done].
  - f_equal. apply IH; try done. destruct (holds x); [by apply NoDup_cons in Hnd as [_ ?]|done].
Qed.

Lemma task_in_same (w w' : world) (tid : nat) (s : task_state) :
  tasks w' = tasks w -> task_in w tid s -> task_in w' tid s.
Proof. unfold task_in. by intros ->. Qed.

Lemma task_in_insert_ne (w w' : world) (t tid : nat) (x : thread_task) (s : task_state) :
  tasks w' = <[t := x]> (tasks w) -> tid <> t -> task_in w tid s -> task_in w' tid s.
Proof. unfold task_in. intros -> Hne. by rewrite lookup_insert_ne. Qed.

Lemma task_in_insert_eq (w w' : world) (t : nat) (x : thread_task) :
  tasks w' = <[t := x]> (tasks w) -> task_in w' t (state x).
Proof. unfold task_in. intros ->. exists x. by rewrite lookup_insert_eq. Qed.

Lemma task_in_state (w : world) (tid : nat) (t : thread_task) (s : task_state) :
  task_in w tid s -> tasks w !! tid = Some t -> state t = s.
Proof. intros (t' & Ht' & Hs) Ht. congruence. Qed.

(** What a task in use cannot be: new, or done. *)
Lemma in_use_state (w : world) (tid : nat) (t : thread_task) :
  in_use_ok w -> tid ∈ queued w ++ held w -> tasks w !! tid = Some t ->
  state t = TASK_QUEUED \/ state t = TASK_RUNNING.
Proof.
  intros (_ & Hq & Hp & Hr) Hin Ht. apply elem_of_app in Hin as [Hin|Hin].
  - left. eapply task_in_state; eauto.
  - apply held_elem in Hin as (i & [Hi|Hi]).
    + left. eapply task_in_state; eauto.
    + right. eapply task_in_state; eauto.
Qed.

Section Limits.

Variable TPOOL_MAX_THREADS : Z.
Variable TPOOL_MAX_TASKS : Z.

Lemma run_snoc (w : world) (es : list event) (e : event) :
  run TPOOL_MAX_THREADS TPOOL_MAX_TASKS w (es ++ [e])
  = step TPOOL_MAX_THREADS TPOOL_MAX_TASKS
         (run TPOOL_MAX_THREADS TPOOL_MAX_TASKS w es) e.
Proof. unfold run. by rewrite fold_left_app. Qed.

Lemma run_app (w : world) (es es' : list event) :
  run TPOOL_MAX_THREADS TPOOL_MAX_TASKS w (es ++ es')
  = run TPOOL_MAX_THREADS TPOOL_MAX_TASKS
        (run TPOOL_MAX_THREADS TPOOL_MAX_TASKS w es) es'.
Proof. unfold run. by rewrite fold_left_app. Qed.

(** A push that does not return 0 changes nothing. *)
Lemma push_refused (w w' : world) (tid : nat) (created : bool) (c : tpool_code) :
  thread_pool_push_task TPOOL_MAX_TASKS w tid created = (w', c) -> c <> TPOOL_OK -> w' = w.
Proof.
  unfold thread_pool_push_task.
  destruct (pool w) as [p|]; [|by intros [= <- _]].
  destruct (tasks w !! tid) as [t|]; [|by intros [= <- _]].
  destruct (shutting_down p); [by intros [= <- _]|].
  destruct (_ >=? _); [by intros [= <- _]|].
  destruct (_ && _); [by intros [= <- _]|].
  by intros [= _ <-].
Qed.

Lemma push_next_task (w : world) (tid : nat) (created : bool) :
  next_task (fst (thread_pool_push_task TPOOL_MAX_TASKS w tid created)) = next_task w.
Proof.
  unfold thread_pool_push_task.
  destruct (pool w) as [p|]; [|done].
  destruct (tasks w !! tid) as [t|]; [|done].
  destruct (shutting_down p); [done|].
  destruct (_ >=? _); [done|].
  destruct (_ && _); [done|].
  destruct (_ && _ && _); done.
Qed.

(** ** Task objects and their addresses *)

Lemma ids_fresh_step (w : world) (e : event) : ids_fresh w -> ids_fresh (step TPOOL_MAX_THREADS TPOOL_MAX_TASKS w e).
Proof.
  intros Hw. destruct e; cbn [step].
  - destruct (pool w); [done|]. unfold thread_pool_new.
    destruct (_ || _); [done|]. cbn [negb fst]. done.
  - unfold thread_task_new. cbn [negb fst]. intros tid. w_simpl.
    rewrite lookup_insert_is_Some. intros [<-|[_ H]]; [lia|].
    apply Hw in H. lia.
  - destruct (thread_pool_push_task TPOOL_MAX_TASKS w tid created) as [w' c] eqn:Hpush.
    pose proof (push_next_task w tid created) as Hn. rewrite Hpush in Hn.
    cbn [fst] in *.
    assert (Hc : c = TPOOL_OK \/ c <> TPOOL_OK) by (destruct c; auto).
    destruct Hc as [->|Hc].
    + destruct (push_ok_inv _ _ _ _ _ Hpush) as (p & t & _ & Ht & _ & _ & _ & _ & _ & Htk).
      intros x. rewrite Hn, Htk, lookup_insert_is_Some.
      intros [<-|[_ H]]; [apply Hw; by eexists|by apply Hw].
    + by rewrite (push_refused _ _ _ _ _ Hpush Hc).
  - unfold thread_task_delete. destruct (tasks w !! tid); [|done].
    destruct (_ || _); [done|]. cbn [fst]. intros x. w_simpl.
    intros [y Hy]. apply lookup_delete_Some in Hy as [_ Hy]. apply Hw. by eexists.
  - unfold thread_pool_delete. destruct (pool w); [|done]. by destruct (_ || _).
  - unfold thread_pool_free. destruct (pool w); [|done]. by destruct (_ && _).
  - unfold worker_take. destruct (workers w !! i) as [[| | | |]|]; try done.
    destruct (pool w) as [p|]; [|done]. destruct (shutting_down p); [done|].
    by destruct (task_queue p).
  - unfold worker_start. destruct (workers w !! i) as [[| | | |]|]; try done.
    destruct (tasks w !! t) eqn:Ht; [|done]. intros x. w_simpl.
    rewrite lookup_insert_is_Some. intros [<-|[_ H]]; apply Hw; [by eexists|done].
  - unfold worker_finish. destruct (workers w !! i) as [[| | | |]|]; try done.
    destruct (tasks w !! t) eqn:Ht; [|done]. intros x. w_simpl.
    rewrite lookup_insert_is_Some. intros [<-|[_ H]]; apply Hw; [by eexists|done].
  - unfold worker_release. destruct (workers w !! i) as [[| | | |]|]; try done.
    by destruct (pool w).
Qed.

(** ** Tasks in use along the steps *)

Lemma in_use_ok_intro (w w' : world) :
  NoDup (queued w' ++ held w') ->
  (forall tid, tid ∈ queued w' -> task_in w' tid TASK_QUEUED) ->
  (forall i tid, workers w' !! i = Some (W_PICKED tid) -> task_in w' tid TASK_QUEUED) ->
  (forall i tid, workers w' !! i = Some (W_RUN tid) -> task_in w' tid TASK_RUNNING) ->
  in_use_ok w'.
Proof. by intros; split_and!. Qed.

(** The same queue, the same workers' hands, the same task objects. *)
Lemma in_use_ok_same (w w' : world) :
  queued w' = queued w -> held w' = held w -> tasks w' = tasks w ->
  (forall i tid, workers w' !! i = Some (W_PICKED tid) ->
                 exists j, workers w !! j = Some (W_PICKED tid)) ->
  (forall i tid, workers w' !! i = Some (W_RUN tid) ->
                 exists j, workers w !! j = Some (W_RUN tid)) ->
  in_use_ok w -> in_use_ok w'.
Proof.
  intros Hq Hh Ht Hp Hr (Hnd & Hqs & Hps & Hrs). split_and!.
  - by rewrite Hq, Hh.
  - intros tid Hin. rewrite Hq in Hin. eapply task_in_same; eauto.
  - intros i tid Hi. destruct (Hp i tid Hi) as [j Hj]. eapply task_in_same; eauto.
  - intros i tid Hi. destruct (Hr i tid Hi) as [j Hj]. eapply task_in_same; eauto.
Qed.

Lemma insert_lookup_old (l : list worker_pc) (i j : nat) (pc x : worker_pc) :
  <[i := pc]> l !! j = Some x -> x <> pc -> l !! j = Some x.
Proof.
  intros H Hne. apply list_lookup_insert_Some in H as [(_ & ? & _)|[_ H]]; [congruence|done].
Qed.

Lemma in_use_step (w : world) (e : event) :
  in_use_ok w -> ids_fresh w -> in_use_ok (step TPOOL_MAX_THREADS TPOOL_MAX_TASKS w e).
Proof.
  intros Hw Hfresh. pose proof Hw as (Hnd & Hqs & Hps & Hrs).
  destruct e; cbn [step].
  - (* thread_pool_new *)
    destruct (pool w) eqn:Hp; [done|]. unfold thread_pool_new.
    destruct (_ || _); [done|]. cbn [negb fst].
    split_and!; unfold queued, held; w_simpl; cbn; try done.
    + constructor.
    + intros tid Hin. by apply elem_of_nil in Hin.
  - (* thread_task_new *)
    unfold thread_task_new. cbn [negb fst].
    set (w' := mk_world _ _ _ _).
    assert (Ht : tasks w' = <[next_task w := mk_task f a 0 false TASK_NEW]> (tasks w))
      by done.
    assert (Hold : forall tid s, task_in w tid s -> task_in w' tid s).
    { intros tid s Hin. eapply task_in_insert_ne; eauto.
      destruct Hin as (t & Hin & _). assert (tid < next_task w)%nat; [|lia].
      apply Hfresh. by eexists. }
    split_and!; eauto.
  - (* thread_pool_push_task *)
    destruct (thread_pool_push_task TPOOL_MAX_TASKS w tid created) as [w' c] eqn:Hpush. cbn [fst].
    assert (Hc : c = TPOOL_OK \/ c <> TPOOL_OK) by (destruct c; auto).
    destruct Hc as [->|Hc]; [|by rewrite (push_refused _ _ _ _ _ Hpush Hc)].
    destruct (push_ok_inv _ _ _ _ _ Hpush)
      as (p & t & Hp & Ht & _ & _ & Hst & Hp' & Hwk & Htk).
    cbn zeta in Hp', Hwk.
    assert (Hq' : queued w' = queued w ++ [tid]).
    { unfold queued. by rewrite Hp', Hp. }
    assert (Hh' : held w' = held w).
    { unfold held. rewrite Hwk. destruct (_ && _ && _); [|done].
      rewrite omap_app. cbn. by rewrite app_nil_r. }
    assert (Hnew : tid ∉ queued w ++ held w).
    { intros Hin. destruct (in_use_state w tid t Hw Hin Ht); destruct Hst; congruence. }
    assert (Hold : forall x s, x ∈ queued w ++ held w -> task_in w x s -> task_in w' x s).
    { intros x s Hin Hx. eapply task_in_insert_ne; eauto. intros ->. done. }
    assert (Hwk' : forall i pc, workers w' !! i = Some pc -> pc <> W_WAIT ->
                                workers w !! i = Some pc).
    { intros i pc Hi Hne. rewrite Hwk in Hi. destruct (_ && _ && _); [|done].
      apply lookup_app_Some in Hi as [Hi|[_ Hi]]; [done|].
      destruct (i - length (workers w))%nat; cbn in Hi; [congruence|done]. }
    split_and!.
    + rewrite Hq', Hh', <- app_assoc. cbn [app].
      rewrite <- Permutation_middle. apply NoDup_cons. done.
    + intros x Hin. rewrite Hq' in Hin. apply elem_of_app in Hin as [Hin|Hin].
      * apply Hold; [apply elem_of_app; by left|by apply Hqs].
      * apply list_elem_of_singleton in Hin as ->.
        apply (task_in_insert_eq w w' tid _ Htk).
    + intros i x Hi. apply Hwk' in Hi; [|done].
      apply Hold; [|by eapply Hps]. apply elem_of_app. right. apply held_elem. eauto.
    + intros i x Hi. apply Hwk' in Hi; [|done].
      apply Hold; [|by eapply Hrs]. apply elem_of_app. right. apply held_elem. eauto.
  - (* thread_task_delete *)
    unfold thread_task_delete. destruct (tasks w !! tid) as [t|] eqn:Ht; [|done].
    destruct (_ || _) eqn:Hst; [done|]. cbn [fst].
    apply orb_false_elim in Hst as [H1 H2].
    apply bool_decide_eq_false in H1. apply bool_decide_eq_false in H2.
    set (w' := mk_world _ _ _ _).
    assert (Hold : forall x s, x ∈ queued w ++ held w -> task_in w x s -> task_in w' x s).
    { intros x s Hin (tx & Hx & Hs). exists tx. split; [|done]. unfold w'. w_simpl.
      rewrite lookup_delete_ne; [done|]. intros <-.
      destruct (in_use_state w tid t Hw Hin Ht); congruence. }
    split_and!.
    + done.
    + intros x Hin. apply Hold; [apply elem_of_app; by left|by apply Hqs].
    + intros i x Hi. apply Hold; [|by eapply Hps].
      apply elem_of_app. right. apply held_elem. eauto.
    + intros i x Hi. apply Hold; [|by eapply Hrs].
      apply elem_of_app. right. apply held_elem. eauto.
  - (* thread_pool_delete *)
    unfold thread_pool_delete. destruct (pool w) as [p|] eqn:Hp; [|done].
    destruct (_ || _); [done|]. cbn [fst].
    apply (in_use_ok_same w); try done; eauto.
    unfold queued. w_simpl. by rewrite Hp.
  - (* thread_pool_free *)
    unfold thread_pool_free. destruct (pool w) as [p|] eqn:Hp; [|done].
    destruct (_ && _); [|done].
    split_and!; unfold queued, held in *; w_simpl; eauto.
    + rewrite Hp in Hnd. by apply NoDup_app in Hnd as (_ & _ & ?).
    + intros tid Hin. by apply elem_of_nil in Hin.
  - (* worker_take *)
    unfold worker_take. destruct (workers w !! i) as [[| | | |]|] eqn:Hi; try done.
    destruct (pool w) as [p|] eqn:Hp; [|done].
    destruct (shutting_down p).
    + apply (in_use_ok_same w); unfold queued, held; w_simpl; try done.
      * by rewrite Hp.
      * by apply (held_insert_same _ _ W_WAIT).
      * intros j x Hj. exists j. by eapply insert_lookup_old.
      * intros j x Hj. exists j. by eapply insert_lookup_old.
    + destruct (task_queue p) as [|t q] eqn:Hq; [done|].
      assert (Hqw : queued w = t :: q) by (unfold queued; by rewrite Hp, Hq).
      rewrite Hqw in Hnd, Hqs.
      split_and!; unfold queued, held; w_simpl.
      * rewrite (held_insert_gain _ _ W_WAIT (W_PICKED t) t) by done.
        rewrite <- Permutation_middle. done.
      * intros x Hin. apply Hqs. by right.
      * intros j x Hj. apply list_lookup_insert_Some in Hj as [(_ & Hx & _)|[_ Hj]].
        -- injection Hx as <-. apply Hqs. by left.
        -- by eapply Hps.
      * intros j x Hj. eapply Hrs. by eapply insert_lookup_old.
  - (* worker_start *)
    unfold worker_start. destruct (workers w !! i) as [[|t|t| |]|] eqn:Hi; try done.
    destruct (tasks w !! t) as [task|] eqn:Ht; [|done].
    set (w' := set_worker _ _ _).
    assert (Htk : tasks w' = <[t := set_state TASK_RUNNING task]> (tasks w)) by done.
    assert (Hh' : held w' = held w).
    { unfold held, w'. w_simpl. by apply (held_insert_same _ _ (W_PICKED t)). }
    assert (Hq' : queued w' = queued w) by done.
    assert (Hheld : t ∈ held w) by (apply held_elem; eauto).
    assert (Hother : forall j pc x, j <> i -> workers w !! j = Some pc ->
                                    holds pc = Some x -> x <> t).
    { intros j pc x Hne Hj Hx ->. apply Hne.
      apply (held_distinct (workers w) j i pc (W_PICKED t) t); try done.
      by apply NoDup_app in Hnd as (_ & _ & ?). }
    split_and!.
    + by rewrite Hq', Hh'.
    + intros x Hin. rewrite Hq' in Hin.
      apply (task_in_insert_ne w w' t x _ _ Htk); [|by apply Hqs].
      intros ->. apply NoDup_app in Hnd as (_ & Hdisj & _). by apply (Hdisj t).
    + intros j x Hj. unfold w' in Hj. w_simpl.
      apply list_lookup_insert_Some in Hj as [(_ & Hx & _)|[Hne Hj]]; [done|].
      apply (task_in_insert_ne w w' t x _ _ Htk);
        [by apply (Hother j (W_PICKED x) x)|by eapply Hps].
    + intros j x Hj. unfold w' in Hj. w_simpl.
      apply list_lookup_insert_Some in Hj as [(_ & Hx & _)|[Hne Hj]].
      * injection Hx as <-. apply (task_in_insert_eq w w' t _ Htk).
      * apply (task_in_insert_ne w w' t x _ _ Htk);
          [by apply (Hother j (W_RUN x) x)|by eapply Hrs].
  - (* worker_finish *)
    unfold worker_finish. destruct (workers w !! i) as [[|t|t| |]|] eqn:Hi; try done.
    destruct (tasks w !! t) as [task|] eqn:Ht; [|done].
    set (w' := set_worker _ _ _).
    assert (Htk : tasks w'
                  = <[t := mk_task (function task) (arg task) (function task (arg task))
                                   (owner task) TASK_DONE]> (tasks w)) by done.
    assert (Hh' : t :: held w' ≡ₚ held w).
    { unfold held, w'. w_simpl. by apply (held_insert_lose _ _ (W_RUN t)). }
    assert (Hq' : queued w' = queued w) by done.
    assert (Hheld : t ∈ held w) by (apply held_elem; eauto).
    assert (Hother : forall j pc x, j <> i -> workers w !! j = Some pc ->
                                    holds pc = Some x -> x <> t).
    { intros j pc x Hne Hj Hx ->. apply Hne.
      apply (held_distinct (workers w) j i pc (W_RUN t) t); try done.
      by apply NoDup_app in Hnd as (_ & _ & ?). }
    split_and!.
    + rewrite Hq'. rewrite <- Hh' in Hnd.
      rewrite <- Permutation_middle in Hnd. by apply NoDup_cons in Hnd as [_ ?].
    + intros x Hin. rewrite Hq' in Hin.
      apply (task_in_insert_ne w w' t x _ _ Htk); [|by apply Hqs].
      intros ->. apply NoDup_app in Hnd as (_ & Hdisj & _). by apply (Hdisj t).
    + intros j x Hj. unfold w' in Hj. w_simpl.
      apply list_lookup_insert_Some in Hj as [(_ & Hx & _)|[Hne Hj]]; [done|].
      apply (task_in_insert_ne w w' t x _ _ Htk);
        [by apply (Hother j (W_PICKED x) x)|by eapply Hps].
    + intros j x Hj. unfold w' in Hj. w_simpl.
      apply list_lookup_insert_Some in Hj as [(_ & Hx & _)|[Hne Hj]]; [done|].
      apply (task_in_insert_ne w w' t x _ _ Htk);
        [by apply (Hother j (W_RUN x) x)|by eapply Hrs].
  - (* worker_release *)
    unfold worker_release. destruct (workers w !! i) as [[| | | |]|] eqn:Hi; try done.
    destruct (pool w) as [p|] eqn:Hp; [|done].
    apply (in_use_ok_same w); unfold queued, held; w_simpl; try done.
    + by rewrite Hp.
    + by apply (held_insert_same _ _ W_PUBLISHED).
    + intros j x Hj. exists j. by eapply insert_lookup_old.
    + intros j x Hj. exists j. by eapply insert_lookup_old.
Qed.

Lemma in_use_run (es : list event) :
  forall w, in_use_ok w -> ids_fresh w -> in_use_ok (run TPOOL_MAX_THREADS TPOOL_MAX_TASKS w es) /\ ids_fresh (run TPOOL_MAX_THREADS TPOOL_MAX_TASKS w es).
Proof.
  induction es as [|e es IH]; intros w Hw Hf; [done|].
  cbn [run fold_left]. apply IH; [by apply in_use_step|by apply ids_fresh_step].
Qed.

Lemma empty_in_use : in_use_ok empty_world /\ ids_fresh empty_world.
Proof.
  split.
  - split_and!; cbn; try done; [constructor|].
    intros tid Hin. by apply elem_of_nil in Hin.
  - intros tid [t Ht]. cbn in Ht. by rewrite lookup_empty in Ht.
Qed.

(** ** The queue *)

Lemma queue_ok_step (w : world) (e : event) :
  queue_ok w -> queue_ok (step TPOOL_MAX_THREADS TPOOL_MAX_TASKS w e).
Proof.
  intros Hw. destruct e; cbn [step].
  - destruct (pool w) eqn:Hp; [done|]. unfold thread_pool_new.
    destruct (_ || _); [done|]. cbn [negb fst]. unfold queue_ok. w_simpl. by cbn.
  - unfold thread_task_new. cbn [negb fst]. exact Hw.
  - destruct (thread_pool_push_task TPOOL_MAX_TASKS w tid created) as [w' c] eqn:Hpush.
    cbn [fst].
    assert (Hc : c = TPOOL_OK \/ c <> TPOOL_OK) by (destruct c; auto).
    destruct Hc as [->|Hc]; [|by rewrite (push_refused _ _ _ _ _ Hpush Hc)].
    destruct (push_ok_inv _ _ _ _ _ Hpush) as (p & t & Hp & _ & _ & _ & _ & Hp' & _).
    cbn zeta in Hp'. unfold queue_ok in *. rewrite Hp in Hw. rewrite Hp'. w_simpl.
    destruct Hw as [Hlen _]. split; [|done]. rewrite length_app. cbn [length]. lia.
  - unfold thread_task_delete. destruct (tasks w !! tid); [|done].
    by destruct (_ || _).
  - unfold thread_pool_delete. destruct (pool w) as [p|] eqn:Hp; [|done].
    destruct (_ || _) eqn:Hbusy; [done|]. cbn [fst].
    unfold queue_ok in *. rewrite Hp in Hw. w_simpl. destruct Hw as [Hlen Hsh].
    split; [done|]. intros _. apply orb_false_elim in Hbusy as [Ht _].
    rewrite Z.gtb_ltb in Ht. apply Z.ltb_ge in Ht.
    destruct (task_queue p); [done|]. cbn [length] in Hlen. lia.
  - unfold thread_pool_free. destruct (pool w) as [p|] eqn:Hp; [|done].
    destruct (_ && _); [|done]. unfold queue_ok. by w_simpl.
  - unfold worker_take. destruct (workers w !! i) as [[| | | |]|]; try done.
    destruct (pool w) as [p|] eqn:Hp; [|done].
    unfold queue_ok in *. rewrite Hp in Hw. destruct Hw as [Hlen Hsh].
    destruct (shutting_down p) eqn:Hs; [w_simpl; split; [done|by intros _; apply Hsh]|].
    destruct (task_queue p) as [|t q] eqn:Hq; [rewrite Hp, Hq; by split|].
    w_simpl. cbn [length] in Hlen. split; [lia|done].
  - unfold worker_start. destruct (workers w !! i) as [[| | | |]|]; try done.
    by destruct (tasks w !! t).
  - unfold worker_finish. destruct (workers w !! i) as [[| | | |]|]; try done.
    by destruct (tasks w !! t).
  - unfold worker_release. destruct (workers w !! i) as [[| | | |]|]; try done.
    destruct (pool w) as [p|] eqn:Hp; [|done].
    unfold queue_ok in *. rewrite Hp in Hw. by w_simpl.
Qed.

(** One step: what is pushed goes to the back of the queue, what is
    popped comes from its front. *)
Lemma fifo_step (w : world) (e : event) :
  queue_ok w ->
  queued w ++ pushed TPOOL_MAX_THREADS TPOOL_MAX_TASKS w [e]
  = pops TPOOL_MAX_THREADS TPOOL_MAX_TASKS w e
    ++ queued (step TPOOL_MAX_THREADS TPOOL_MAX_TASKS w e).
Proof.
  intros Hw. cbn [pushed]. rewrite app_nil_r. destruct e; cbn [pops step app];
    rewrite ?app_nil_r.
  - destruct (pool w) eqn:Hp; [done|]. unfold thread_pool_new.
    destruct (_ || _); [done|]. cbn [negb fst]. unfold queued. w_simpl. by rewrite Hp.
  - done.
  - destruct (thread_pool_push_task TPOOL_MAX_TASKS w tid created) as [w' c] eqn:Hpush.
    cbn [fst snd].
    assert (Hc : c = TPOOL_OK \/ c <> TPOOL_OK) by (destruct c; auto).
    destruct Hc as [->|Hc].
    + destruct (push_ok_inv _ _ _ _ _ Hpush) as (p & t & Hp & _ & _ & _ & _ & Hp' & _).
      cbn zeta in Hp'. unfold queued. by rewrite Hp, Hp'.
    + rewrite (push_refused _ _ _ _ _ Hpush Hc).
      destruct c; try done; by rewrite app_nil_r.
  - unfold thread_task_delete. destruct (tasks w !! tid); [|done].
    by destruct (_ || _).
  - unfold thread_pool_delete, queued.
    destruct (pool w) as [p|] eqn:Hp; [|cbn [fst]; by rewrite Hp].
    destruct (_ || _); cbn [fst]; w_simpl; by rewrite ?Hp.
  - unfold thread_pool_free, queued. destruct (pool w) as [p|] eqn:Hp; [|by rewrite ?Hp].
    destruct (shutting_down p) eqn:Hs; cbn [andb]; [|by rewrite ?Hp].
    destruct (forallb _ _); w_simpl; [|by rewrite ?Hp].
    unfold queue_ok in Hw. rewrite Hp in Hw. destruct Hw as [_ Hq]. by apply Hq.
  - unfold worker_take, queued.
    destruct (workers w !! i) as [[| | | |]|] eqn:Hi; try done.
    destruct (pool w) as [p|] eqn:Hp; [|by rewrite ?Hi, ?Hp].
    destruct (shutting_down p).
    { w_simpl. rewrite list_lookup_insert_eq by eauto using lookup_lt_Some. done. }
    destruct (task_queue p) as [|t q] eqn:Hq; [by rewrite ?Hi, ?Hp, ?Hq|].
    w_simpl. rewrite list_lookup_insert_eq by eauto using lookup_lt_Some. done.
  - unfold worker_start, queued. destruct (workers w !! i) as [[| | | |]|]; try done.
    by destruct (tasks w !! t).
  - unfold worker_finish, queued. destruct (workers w !! i) as [[| | | |]|]; try done.
    by destruct (tasks w !! t).
  - unfold worker_release, queued. destruct (workers w !! i) as [[| | | |]|]; try done.
    destruct (pool w) as [p|] eqn:Hp; [|by rewrite ?Hp]. by w_simpl.
Qed.

Lemma fifo_run (es : list event) :
  forall w, queue_ok w ->
    queued w ++ pushed TPOOL_MAX_THREADS TPOOL_MAX_TASKS w es
    = picked TPOOL_MAX_THREADS TPOOL_MAX_TASKS w es
      ++ queued (run TPOOL_MAX_THREADS TPOOL_MAX_TASKS w es).
Proof.
  induction es as [|e es IH]; intros w Hw.
  - cbn. by rewrite app_nil_r.
  - cbn [picked run fold_left].
    pose proof (fifo_step w e Hw) as Hs. cbn [pushed] in Hs |- *.
    rewrite app_nil_r in Hs. rewrite app_assoc, Hs, <- !app_assoc. f_equal.
    apply IH. by apply queue_ok_step.
Qed.

(** ** Results *)

Lemma results_ok_step (w : world) (e : event) :
  results_ok w -> results_ok (step TPOOL_MAX_THREADS TPOOL_MAX_TASKS w e).
Proof.
  intros Hw. destruct e; cbn [step].
  - destruct (pool w); [done|]. unfold thread_pool_new.
    destruct (_ || _); [done|]. cbn [negb fst]. done.
  - unfold thread_task_new. cbn [negb fst]. intros tid t. w_simpl.
    destruct (decide (tid = next_task w)) as [->|Hne].
    + rewrite lookup_insert_eq. by intros [= <-].
    + rewrite lookup_insert_ne by done. apply Hw.
  - destruct (thread_pool_push_task TPOOL_MAX_TASKS w tid created) as [w' c] eqn:Hpush.
    cbn [fst].
    assert (Hc : c = TPOOL_OK \/ c <> TPOOL_OK) by (destruct c; auto).
    destruct Hc as [->|Hc]; [|by rewrite (push_refused _ _ _ _ _ Hpush Hc)].
    destruct (push_ok_inv _ _ _ _ _ Hpush) as (p & t & _ & _ & _ & _ & _ & _ & _ & Htk).
    intros x tx. rewrite Htk. destruct (decide (x = tid)) as [->|Hne].
    + rewrite lookup_insert_eq. by intros [= <-].
    + rewrite lookup_insert_ne by done. apply Hw.
  - unfold thread_task_delete. destruct (tasks w !! tid); [|done].
    destruct (_ || _); [done|]. cbn [fst]. intros x tx. w_simpl.
    intros Hx Hd. apply lookup_delete_Some in Hx as [_ Hx]. by apply (Hw x).
  - unfold thread_pool_delete. destruct (pool w); [|done]. by destruct (_ || _).
  - unfold thread_pool_free. destruct (pool w); [|done]. by destruct (_ && _).
  - unfold worker_take. destruct (workers w !! i) as [[| | | |]|]; try done.
    destruct (pool w) as [p|]; [|done]. destruct (shutting_down p); [done|].
    by destruct (task_queue p).
  - unfold worker_start. destruct (workers w !! i) as [[| | | |]|]; try done.
    destruct (tasks w !! t) eqn:Ht; [|done]. intros x tx. w_simpl.
    destruct (decide (x = t)) as [->|Hne].
    + rewrite lookup_insert_eq. by intros [= <-].
    + rewrite lookup_insert_ne by done. apply Hw.
  - unfold worker_finish. destruct (workers w !! i) as [[| | | |]|]; try done.
    destruct (tasks w !! t) eqn:Ht; [|done]. intros x tx. w_simpl.
    destruct (decide (x = t)) as [->|Hne].
    + rewrite lookup_insert_eq. by intros [= <-].
    + rewrite lookup_insert_ne by done. apply Hw.
  - unfold worker_release. destruct (workers w !! i) as [[| | | |]|]; try done.
    by destruct (pool w).
Qed.

Lemma results_ok_run (es : list event) :
  forall w, results_ok w -> results_ok (run TPOOL_MAX_THREADS TPOOL_MAX_TASKS w es).
Proof.
  induction es as [|e es IH]; intros w Hw; [done|].
  cbn [run fold_left]. apply IH. by apply results_ok_step.
Qed.

(** X13: a join that returns gives the value of the task's function at
    the task's argument.  In every state reachable from the start, when
    [thread_task_join] on a task does not wait and reports no error, the
    task is finished and the result handed out is [function arg] for the
    function and the argument the task holds. *)
Theorem join_gives_function_value (es : list event) (tid : nat) (r : Z) :
  thread_task_join (run TPOOL_MAX_THREADS TPOOL_MAX_TASKS empty_world es) tid true
  = JOIN_RESULT r ->
  exists t,
    tasks (run TPOOL_MAX_THREADS TPOOL_MAX_TASKS empty_world es) !! tid = Some t
    /\ state t = TASK_DONE /\ owner t = true /\ r = function t (arg t).
Proof.
  assert (Hr : results_ok (run TPOOL_MAX_THREADS TPOOL_MAX_TASKS empty_world es)).
  { apply results_ok_run. intros x t Hx. cbn in Hx. by rewrite lookup_empty in Hx. }
  unfold thread_task_join.
  destruct (tasks _ !! tid) as [t|] eqn:Ht; [|done]. cbn [negb].
  destruct (bool_decide (state t = TASK_NEW) || negb (owner t)) eqn:Hn; [done|].
  destruct (bool_decide (state t = TASK_DONE)) eqn:Hd; [|done].
  intros [= <-]. apply bool_decide_eq_true in Hd.
  apply orb_false_elim in Hn as [_ Ho]. apply negb_false_iff in Ho.
  exists t. split_and!; try done. by apply (Hr tid).
Qed.

(** ** One task at a time *)

(** After [K] rounds of the schedule [serve] on a fresh pool: one worker,
    idle, and the first [K] tasks finished. *)
Lemma serve_run (M : Z) (N : nat) (w0 : world) :
  1 <= M -> 1 <= TPOOL_MAX_TASKS ->
  pool w0 = Some (mk_pool M 0 0 [] 0 false) -> workers w0 = [] ->
  (forall k, (k < N)%nat -> exists t, tasks w0 !! k = Some t /\ state t = TASK_NEW) ->
  forall K, (K <= N)%nat ->
    let w := run TPOOL_MAX_THREADS TPOOL_MAX_TASKS w0 (serve K) in
    pool w = Some (mk_pool M (Z.min (Z.of_nat K) 1) 0 [] 0 false)
    /\ workers w = match K with O => [] | S _ => [W_WAIT] end
    /\ (forall k, (K <= k)%nat -> tasks w !! k = tasks w0 !! k)
    /\ (forall k t0, (k < K)%nat -> tasks w0 !! k = Some t0 ->
          tasks w !! k
          = Some (mk_task (function t0) (arg t0) (function t0 (arg t0)) true TASK_DONE)).
Proof.
  intros HM HT Hp0 Hw0 Ht0. induction K as [|K IH]; intros HK w.
  - unfold w. cbn [serve run fold_left]. split_and!; try done. intros k t0 Hk. lia.
  - unfold w. cbn [serve]. rewrite run_app.
    destruct (IH ltac:(lia)) as (Hp & Hwk & Hhi & Hlo). clear IH.
    set (wK := run TPOOL_MAX_THREADS TPOOL_MAX_TASKS w0 (serve K)) in *.
    destruct (Ht0 K ltac:(lia)) as (t & Ht & Hst).
    assert (HtK : tasks wK !! K = Some t) by (rewrite Hhi by lia; done).
    set (c := Z.min (Z.of_nat K) 1) in *.
    set (c' := Z.min (Z.of_nat (S K)) 1).
    assert (Hc' : c' = 1) by (unfold c'; lia).
    assert (Hspawn : (if (c <? M) && (0 =? c) && true then c + 1 else c) = 1
                     /\ (if (c <? M) && (0 =? c) && true then workers wK ++ [W_WAIT]
                         else workers wK) = [W_WAIT]).
    { rewrite Hwk. destruct K as [|K'].
      - assert (c = 0) as -> by (unfold c; lia).
        rewrite (proj2 (Z.ltb_lt 0 M)) by lia. cbn. done.
      - assert (c = 1) as -> by (unfold c; lia).
        destruct (1 <? M); cbn; done. }
    destruct Hspawn as [Hcr Hws].
    pose proof (push_ok TPOOL_MAX_TASKS wK _ t K true Hp HtK eq_refl ltac:(cbn; lia)
                  (or_introl Hst)) as Hok.
    destruct (thread_pool_push_task TPOOL_MAX_TASKS wK K true) as [w1 code] eqn:Hpush.
    cbn [snd] in Hok. subst code.
    destruct (push_ok_inv _ _ _ _ _ Hpush)
      as (p_ & t_ & Hp_ & Ht_ & _ & _ & _ & Hp1 & Hwk1 & Htk1).
    assert (p_ = mk_pool M c 0 [] 0 false) as -> by congruence.
    assert (t_ = t) as -> by congruence.
    cbn zeta in Hp1, Hwk1. w_simpl. rewrite Hcr in Hp1. rewrite Hws in Hwk1.
    cbn [app] in Hp1. change (0 + 1) with 1 in Hp1.
    cbn [run fold_left step]. rewrite Hpush. cbn [fst].
    destruct w1 as [pl1 tk1 wk1 nt1]. cbn [pool tasks workers] in Hp1, Hwk1, Htk1.
    subst pl1 wk1 tk1. clear Hpush.
    set (queued_task := mk_task (function t) (arg t) (result t) true TASK_QUEUED).
    (* the worker pops the task *)
    assert (H2 : worker_take
                   (mk_world (Some (mk_pool M 1 0 [K] 1 false))
                             (<[K := queued_task]> (tasks wK)) [W_WAIT] nt1) 0
                 = mk_world (Some (mk_pool M 1 1 [] 0 false))
                            (<[K := queued_task]> (tasks wK)) [W_PICKED K] nt1)
      by reflexivity.
    rewrite H2. clear H2.
    (* marks it as running *)
    assert (H3 : worker_start
                   (mk_world (Some (mk_pool M 1 1 [] 0 false))
                             (<[K := queued_task]> (tasks wK)) [W_PICKED K] nt1) 0
                 = mk_world (Some (mk_pool M 1 1 [] 0 false))
                            (<[K := set_state TASK_RUNNING queued_task]>
                               (<[K := queued_task]> (tasks wK))) [W_RUN K] nt1).
    { unfold worker_start. cbn [workers tasks lookup list_lookup].
      rewrite lookup_insert_eq. reflexivity. }
    rewrite H3. clear H3.
    (* publishes it *)
    assert (H4 : worker_finish
                   (mk_world (Some (mk_pool M 1 1 [] 0 false))
                             (<[K := set_state TASK_RUNNING queued_task]>
                                (<[K := queued_task]> (tasks wK))) [W_RUN K] nt1) 0
                 = mk_world (Some (mk_pool M 1 1 [] 0 false))
                            (<[K := mk_task (function t) (arg t) (function t (arg t))
                                            true TASK_DONE]>
                               (<[K := set_state TASK_RUNNING queued_task]>
                                  (<[K := queued_task]> (tasks wK)))) [W_PUBLISHED] nt1).
    { unfold worker_finish. cbn [workers tasks lookup list_lookup].
      rewrite lookup_insert_eq. reflexivity. }
    rewrite H4. clear H4.
    (* and goes back to waiting *)
    unfold worker_release. cbn [workers pool lookup list_lookup]. w_simpl.
    cbn [insert list_insert]. change (1 - 1) with 0. rewrite Hc'.
    split_and!; try done.
    + intros k Hk. rewrite !lookup_insert_ne by lia. apply Hhi. lia.
    + intros k t0 Hk Hk0. destruct (decide (k = K)) as [->|Hne].
      * rewrite lookup_insert_eq. assert (t0 = t) as -> by congruence. done.
      * rewrite !lookup_insert_ne by lia. apply Hlo; [lia|done].
Qed.

(** X14: a load that comes one task at a time is served by one worker.
    On a fresh pool, when each task is taken, run and published by the
    worker, and the worker has counted itself idle again ([threads_busy--]
    under the pool's lock), before the next task is pushed, the pool
    creates its worker at the first push and no other, whatever its bound
    is, and after [K] such rounds the first [K] tasks are finished: a join
    on each returns at once with the value of the task's function at its
    argument. *)
Theorem one_worker_serves_a_sequential_load (M : Z) (N K : nat) (w0 : world) :
  1 <= M -> 1 <= TPOOL_MAX_TASKS ->
  pool w0 = Some (mk_pool M 0 0 [] 0 false) -> workers w0 = [] ->
  (forall k, (k < N)%nat -> exists t, tasks w0 !! k = Some t /\ state t = TASK_NEW) ->
  (K <= N)%nat ->
  let w := run TPOOL_MAX_THREADS TPOOL_MAX_TASKS w0 (serve K) in
  thread_pool_thread_count w = Z.min (Z.of_nat K) 1
  /\ forall k t0, (k < K)%nat -> tasks w0 !! k = Some t0 ->
       thread_task_join w k true = JOIN_RESULT (function t0 (arg t0)).
Proof.
  intros HM HT Hp0 Hw0 Ht0 HK w.
  destruct (serve_run M N w0 HM HT Hp0 Hw0 Ht0 K HK) as (Hp & Hwk & Hhi & Hlo).
  fold w in Hp, Hwk, Hhi, Hlo. split_and!.
  - unfold thread_pool_thread_count. by rewrite Hp.
  - intros k t0 Hk Hk0. unfold thread_task_join. rewrite (Hlo k t0 Hk Hk0). done.
Qed.

(** ** Shutting the pool down *)

Lemma filter_none {A} (f : A -> bool) (l : list A) (i : nat) (x : A) :
  length (List.filter f l) = 0%nat -> l !! i = Some x -> f x = false.
Proof.
  revert i. induction l as [|y l IH]; intros i Hlen Hi; [done|].
  cbn [List.filter] in Hlen. destruct (f y) eqn:Hy; [done|].
  destruct i as [|i]; cbn in Hi; [congruence|]. by eapply IH.
Qed.

Lemma forallb_lookup {A} (f : A -> bool) (l : list A) :
  (forall i x, l !! i = Some x -> f x = true) -> forallb f l = true.
Proof.
  induction l as [|y l IH]; intros H; [done|]. cbn [forallb].
  rewrite (H 0%nat y eq_refl). apply IH. intros i x Hi. by apply (H (S i)).
Qed.

(** Once the flag is set and no worker is busy, letting the first [k]
    workers run makes them return and touches nothing else. *)
Lemma drain_run (w1 : world) (k : nat) :
  (exists p, pool w1 = Some p /\ shutting_down p = true) ->
  (forall i pc, workers w1 !! i = Some pc -> worker_busy pc = false) ->
  let wk := run TPOOL_MAX_THREADS TPOOL_MAX_TASKS w1 (E_take <$> seq 0 k) in
  (exists p, pool wk = Some p /\ shutting_down p = true)
  /\ tasks wk = tasks w1 /\ length (workers wk) = length (workers w1)
  /\ (forall j pc, (j < k)%nat -> workers wk !! j = Some pc -> pc = W_EXIT)
  /\ (forall j, (k <= j)%nat -> workers wk !! j = workers w1 !! j).
Proof.
  intros Hp1 Hidle. induction k as [|k IH]; intros wk.
  - unfold wk. cbn. split_and!; try done. intros j pc Hj. lia.
  - unfold wk. rewrite seq_S, fmap_app, run_app. cbn [fmap list_fmap Nat.add].
    destruct IH as ((p & Hp & Hs) & Ht & Hlen & Hlo & Hhi).
    set (w := run TPOOL_MAX_THREADS TPOOL_MAX_TASKS w1 (E_take <$> seq 0 k)) in *.
    cbn [run fold_left step]. unfold worker_take. rewrite Hp, Hs.
    destruct (workers w !! k) as [pc|] eqn:Hk.
    2: { split_and!; try done; [by exists p| |].
         - intros j pc Hj Hpc. destruct (decide (j = k)) as [->|]; [congruence|].
           apply (Hlo j); [lia|done].
         - intros j Hj. apply Hhi. lia. }
    assert (Hnb : worker_busy pc = false).
    { apply (Hidle k). rewrite <- Hhi by lia. done. }
    destruct pc; try done.
    + w_simpl. split_and!.
      * eexists. split; [done|]. done.
      * done.
      * by rewrite length_insert.
      * intros j pc Hj Hpc. apply list_lookup_insert_Some in Hpc as [(_ & <- & _)|[Hne Hpc]];
          [done|]. apply (Hlo j); [lia|done].
      * intros j Hj. rewrite list_lookup_insert_ne by lia. apply Hhi. lia.
    + split_and!; try done; [by exists p| |].
      * intros j pc Hj Hpc. destruct (decide (j = k)) as [->|]; [congruence|].
        apply (Hlo j); [lia|done].
      * intros j Hj. apply Hhi. lia.
Qed.

(** X15: [thread_pool_delete] on an idle pool comes to its end.  When the
    queue is empty and no worker is busy, the call is not refused; once
    it has set the flag, each worker that gets to run returns, none takes
    a task, and when all have returned the pool is released, with every
    task object as it was. *)
Theorem shutdown_completes (w : world) (p : thread_pool) :
  counters_ok w -> pool w = Some p -> task_total p <= 0 -> threads_busy p <= 0 ->
  let w' := run TPOOL_MAX_THREADS TPOOL_MAX_TASKS w (shutdown (length (workers w))) in
  snd (thread_pool_delete w) = TPOOL_OK
  /\ pool w' = None /\ tasks w' = tasks w
  /\ length (workers w') = length (workers w)
  /\ (forall i pc, workers w' !! i = Some pc -> pc = W_EXIT).
Proof.
  intros Hc Hp Ht Hb w'.
  assert (Hdel : thread_pool_delete w
                 = (set_pool (Some (mk_pool (max_threads p) (threads_created p)
                                            (threads_busy p) (task_queue p)
                                            (task_total p) true)) w, TPOOL_OK)).
  { unfold thread_pool_delete. rewrite Hp.
    rewrite !Z.gtb_ltb, (proj2 (Z.ltb_ge _ _) Ht), (proj2 (Z.ltb_ge _ _) Hb). done. }
  split; [by rewrite Hdel|].
  unfold w', shutdown. cbn [run fold_left step]. rewrite Hdel. cbn [fst].
  set (w1 := set_pool _ w).
  fold (run TPOOL_MAX_THREADS TPOOL_MAX_TASKS w1
            ((E_take <$> seq 0 (length (workers w))) ++ [E_pool_free])).
  rewrite run_snoc.
  assert (Hidle : forall i pc, workers w1 !! i = Some pc -> worker_busy pc = false).
  { intros i pc Hi. unfold counters_ok in Hc. rewrite Hp in Hc.
    destruct Hc as (Hbusy & _). apply (filter_none worker_busy (workers w) i); [lia|done]. }
  destruct (drain_run w1 (length (workers w))) as ((p2 & Hp2 & Hs2) & Ht2 & Hlen2 & Hlo & _).
  { eexists. split; [done|]. done. }
  { exact Hidle. }
  set (w2 := run TPOOL_MAX_THREADS TPOOL_MAX_TASKS w1 _) in *.
  assert (Hall : forall i pc, workers w2 !! i = Some pc -> pc = W_EXIT).
  { intros i pc Hi. apply (Hlo i); [|done].
    apply lookup_lt_Some in Hi. change (workers w1) with (workers w) in Hlen2. lia. }
  cbn [step]. unfold thread_pool_free. rewrite Hp2, Hs2. cbn [andb].
  rewrite forallb_lookup.
  2: { intros i pc Hi. by rewrite (Hall i pc Hi). }
  w_simpl. split_and!; try done.
Qed.

(** ** The length of the queue *)

Lemma total_step (w : world) (e : event) (p' : thread_pool) :
  pool (step TPOOL_MAX_THREADS TPOOL_MAX_TASKS w e) = Some p' ->
  task_total p' = 0
  \/ exists p, pool w = Some p
               /\ (task_total p' = task_total p \/ task_total p' = task_total p - 1
                   \/ (task_total p' = task_total p + 1 /\ task_total p < TPOOL_MAX_TASKS)).
Proof.
  assert (Hsame : pool w = Some p' ->
                  task_total p' = 0
                  \/ exists p, pool w = Some p
                       /\ (task_total p' = task_total p \/ task_total p' = task_total p - 1
                           \/ (task_total p' = task_total p + 1
                               /\ task_total p < TPOOL_MAX_TASKS))).
  { intros Hp'. right. exists p'. split; [done|by left]. }
  destruct e; cbn [step].
  - destruct (pool w) eqn:Hp; [cbn [fst]; rewrite ?Hp; exact Hsame|]. unfold thread_pool_new.
    destruct (_ || _); cbn [negb fst]; [cbn [fst]; rewrite ?Hp; exact Hsame|]. w_simpl. intros [= <-]. by left.
  - unfold thread_task_new. cbn [negb fst]. w_simpl. done.
  - destruct (thread_pool_push_task TPOOL_MAX_TASKS w tid created) as [w' c] eqn:Hpush.
    cbn [fst].
    assert (Hc : c = TPOOL_OK \/ c <> TPOOL_OK) by (destruct c; auto).
    destruct Hc as [->|Hc].
    + destruct (push_ok_inv _ _ _ _ _ Hpush) as (p & t & Hp & _ & _ & Hlt & _ & Hp' & _).
      cbn zeta in Hp'. rewrite Hp'. intros [= <-]. right. exists p. w_simpl. auto.
    + by rewrite (push_refused _ _ _ _ _ Hpush Hc).
  - unfold thread_task_delete. destruct (tasks w !! tid); [|done].
    destruct (_ || _); cbn [fst]; w_simpl; done.
  - unfold thread_pool_delete. destruct (pool w) as [p|] eqn:Hp; [|cbn [fst]; rewrite ?Hp; exact Hsame].
    destruct (_ || _); cbn [fst]; w_simpl; [cbn [fst]; rewrite ?Hp; exact Hsame|].
    intros [= <-]. right. exists p. w_simpl. auto.
  - unfold thread_pool_free. destruct (pool w) as [p|] eqn:Hp; [|cbn [fst]; rewrite ?Hp; exact Hsame].
    destruct (_ && _); w_simpl; [done|]. cbn [fst]; rewrite ?Hp; exact Hsame.
  - unfold worker_take. destruct (workers w !! i) as [[| | | |]|]; try done.
    destruct (pool w) as [p|] eqn:Hp; [|cbn [fst]; rewrite ?Hp; exact Hsame].
    destruct (shutting_down p).
    { w_simpl. intros [= <-]. right. exists p. w_simpl. auto. }
    destruct (task_queue p); [cbn [fst]; rewrite ?Hp; exact Hsame|].
    w_simpl. intros [= <-]. right. exists p. w_simpl. auto.
  - unfold worker_start. destruct (workers w !! i) as [[| | | |]|]; try done.
    destruct (tasks w !! t); w_simpl; done.
  - unfold worker_finish. destruct (workers w !! i) as [[| | | |]|]; try done.
    destruct (tasks w !! t); w_simpl; done.
  - unfold worker_release. destruct (workers w !! i) as [[| | | |]|]; try done.
    destruct (pool w) as [p|] eqn:Hp; [|cbn [fst]; rewrite ?Hp; exact Hsame].
    w_simpl. intros [= <-]. right. exists p. w_simpl. auto.
Qed.

(** Along a run the queue has [task_total] tasks, between 0 and the
    limit, when it has so at the start. *)
Lemma queue_bound_run (es : list event) :
  0 <= TPOOL_MAX_TASKS ->
  forall w, queue_ok w ->
    (forall q, pool w = Some q -> task_total q <= TPOOL_MAX_TASKS) ->
    forall q, pool (run TPOOL_MAX_THREADS TPOOL_MAX_TASKS w es) = Some q ->
              task_total q = Z.of_nat (length (task_queue q))
              /\ 0 <= task_total q <= TPOOL_MAX_TASKS.
Proof.
  intros HT. induction es as [|e es IH]; intros w Hq Hb q Hp.
  - cbn in Hp. unfold queue_ok in Hq. rewrite Hp in Hq. destruct Hq as [Hlen _].
    split; [done|]. split; [lia|by apply Hb].
  - cbn [run fold_left] in Hp. apply (IH (step TPOOL_MAX_THREADS TPOOL_MAX_TASKS w e));
      [by apply queue_ok_step| |done].
    intros q' Hq'. destruct (total_step w e q' Hq') as [H0|(q0 & Hq0 & Hcase)]; [lia|].
    specialize (Hb q0 Hq0). unfold queue_ok in Hq. rewrite Hq0 in Hq.
    destruct Hq as [Hlen _]. lia.
Qed.

End Limits.

(** X14 on a pool with bound 2 and three new tasks. *)
Lemma one_worker_serves_a_sequential_load_witness :
  let w := run 20 100000 pool_with_tasks (serve 3) in
  thread_pool_thread_count w = Z.min 3 1
  /\ forall k t0, (k < 3)%nat -> tasks pool_with_tasks !! k = Some t0 ->
       thread_task_join w k true = JOIN_RESULT (function t0 (arg t0)).
Proof.
  apply (one_worker_serves_a_sequential_load 20 100000 2 3 3 pool_with_tasks).
  - lia.
  - lia.
  - reflexivity.
  - reflexivity.
  - intros [|[|[|k]]] Hk; try lia; eexists; split; vm_compute; reflexivity.
  - lia.
Defined.

(** X15 on the pool whose one worker has served a task and waits. *)
Lemma shutdown_completes_witness :
  let w' := run 20 100000 pool_served (shutdown (length (workers pool_served))) in
  snd (thread_pool_delete pool_served) = TPOOL_OK
  /\ pool w' = None /\ tasks w' = tasks pool_served
  /\ length (workers w') = length (workers pool_served)
  /\ (forall i pc, workers w' !! i = Some pc -> pc = W_EXIT).
Proof.
  apply (shutdown_completes 20 100000 pool_served (mk_pool 2 1 0 [] 0 false)).
  - apply counters_ok_run. exact I.
  - vm_compute. reflexivity.
  - cbn. lia.
  - cbn. lia.
Defined.

(** X13 on the task that computes the successor of 0. *)
Lemma join_gives_function_value_witness :
  exists t,
    tasks (run 20 100000 empty_world one_task_done) !! 0%nat = Some t
    /\ state t = TASK_DONE /\ owner t = true /\ 1 = function t (arg t).
Proof.
  apply (join_gives_function_value 20 100000 one_task_done 0 1).
  vm_compute. reflexivity.
Defined.

End TpoolExtra.

(* ===================================================================== *)
(** * TPOOL: one client and the workers, lock by lock                  *)
(* ===================================================================== *)

Module TpoolLocks.
Import Tpool TpoolFacts TpoolExtra.

Ltac f_simpl :=
  cbn [shared client task_locks pool tasks workers next_task set_pool set_task
       set_workers set_worker max_threads threads_created threads_busy task_queue
       task_total shutting_down fst snd] in *.

(** ** What the steps of a worker leave as it is *)

(** A worker does not shut the pool down and adds nothing to the queue; it
    frees no task, and the state of a task changes only from queued to
    running and from running to done. *)
Lemma worker_effect (w w' : world) (i : nat) :
  in_use_ok w ->
  w' = worker_take w i \/ w' = worker_start w i \/ w' = worker_finish w i
  \/ w' = worker_release w i ->
  (forall p, pool w = Some p -> shutting_down p = false ->
             exists p', pool w' = Some p' /\ shutting_down p' = false
                        /\ task_total p' <= task_total p)
  /\ (forall tid t, tasks w !! tid = Some t ->
        exists t', tasks w' !! tid = Some t'
                   /\ (state t' = state t
                       \/ (state t = TASK_QUEUED /\ state t' = TASK_RUNNING)
                       \/ (state t = TASK_RUNNING /\ state t' = TASK_DONE))).
Proof.
  intros (_ & _ & Hpk & Hrn) [-> | [-> | [-> | ->]]].
  - unfold worker_take. split.
    + intros p Hp Hs.
      destruct (workers w !! i) as [[| | | |]|]; try (exists p; split_and!; [done|done|lia]).
      rewrite Hp, Hs. destruct (task_queue p); [exists p; split_and!; [done|done|lia]|].
      eexists. f_simpl. split; [done|]. f_simpl. split; [done|lia].
    + intros tid t Ht. exists t. split; [|by left].
      destruct (workers w !! i) as [[| | | |]|]; try done.
      destruct (pool w) as [p|]; [|done].
      destruct (shutting_down p); [done|]. by destruct (task_queue p).
  - unfold worker_start. split.
    + intros p Hp Hs. exists p.
      destruct (workers w !! i) as [[| | | |]|]; try (split_and!; [done|done|lia]).
      destruct (tasks w !! t); f_simpl; split_and!; try done; lia.
    + intros tid t Ht.
      destruct (workers w !! i) as [[|t0| | |]|] eqn:Hi; try (exists t; split; [done|by left]).
      destruct (Hpk i t0 Hi) as (task & Ht0 & Hst0). rewrite Ht0. f_simpl.
      destruct (decide (tid = t0)) as [->|Hne].
      * rewrite lookup_insert_eq. eexists. split; [done|]. right. left.
        assert (t = task) as -> by congruence. done.
      * rewrite lookup_insert_ne by done. exists t. split; [done|by left].
  - unfold worker_finish. split.
    + intros p Hp Hs. exists p.
      destruct (workers w !! i) as [[| | | |]|]; try (split_and!; [done|done|lia]).
      destruct (tasks w !! t); f_simpl; split_and!; try done; lia.
    + intros tid t Ht.
      destruct (workers w !! i) as [[| |t0| |]|] eqn:Hi; try (exists t; split; [done|by left]).
      destruct (Hrn i t0 Hi) as (task & Ht0 & Hst0). rewrite Ht0. f_simpl.
      destruct (decide (tid = t0)) as [->|Hne].
      * rewrite lookup_insert_eq. eexists. split; [done|]. right. right.
        assert (t = task) as -> by congruence. done.
      * rewrite lookup_insert_ne by done. exists t. split; [done|by left].
  - unfold worker_release. split.
    + intros p Hp Hs.
      destruct (workers w !! i) as [[| | | |]|]; try (exists p; split_and!; [done|done|lia]).
      rewrite Hp. eexists. f_simpl. split; [done|]. f_simpl. split; [done|lia].
    + intros tid t Ht. exists t. split; [|by left].
      destruct (workers w !! i) as [[| | | |]|]; try done.
      by destruct (pool w).
Qed.

Section Limits.

Variable TPOOL_MAX_THREADS : Z.
Variable TPOOL_MAX_TASKS : Z.

(** What the client has found stays true while the workers go on. *)
Lemma client_ok_later (fw : fine_world) (w' : world) (l' : gmap nat nat) :
  client_ok TPOOL_MAX_TASKS fw ->
  (forall p, pool (shared fw) = Some p -> shutting_down p = false ->
             exists p', pool w' = Some p' /\ shutting_down p' = false
                        /\ task_total p' <= task_total p) ->
  (forall tid t, tasks (shared fw) !! tid = Some t ->
     exists t', tasks w' !! tid = Some t'
                /\ (state t' = state t
                    \/ (state t = TASK_QUEUED /\ state t' = TASK_RUNNING)
                    \/ (state t = TASK_RUNNING /\ state t' = TASK_DONE))) ->
  client_ok TPOOL_MAX_TASKS (mk_fine w' (client fw) l').
Proof.
  intros Hc Hpool Htasks. destruct fw as [w c l]. unfold client_ok in *. f_simpl.
  assert (Hopen : forall tid (ready : thread_pool -> Prop),
             (forall p p', task_total p' <= task_total p -> ready p -> ready p') ->
             (exists p, pool w = Some p /\ shutting_down p = false /\ ready p)
             /\ is_Some (tasks w !! tid) ->
             (exists p, pool w' = Some p /\ shutting_down p = false /\ ready p)
             /\ is_Some (tasks w' !! tid)).
  { intros tid ready Hready [(p & Hp & Hs & Hr) [t Ht]].
    destruct (Hpool p Hp Hs) as (p' & Hp' & Hs' & Hle).
    destruct (Htasks tid t Ht) as (t' & Ht' & _).
    split; [|by eexists]. exists p'. split_and!; try done. by apply (Hready p). }
  assert (Hidle : forall tid,
             (exists t, tasks w !! tid = Some t
                        /\ (state t = TASK_NEW \/ state t = TASK_DONE)) ->
             exists t, tasks w' !! tid = Some t
                       /\ (state t = TASK_NEW \/ state t = TASK_DONE)).
  { intros tid (t & Ht & Hst). destruct (Htasks tid t Ht) as (t' & Ht' & Hcase).
    exists t'. split; [done|].
    destruct Hcase as [->|[[H _]|[H _]]]; [done| |]; destruct Hst; congruence. }
  destruct c; try done.
  - apply Hopen; [|done]. done.
  - apply Hopen; [|done]. intros p p' Hle Hr. lia.
  - apply Hopen; [|done]. intros p p' Hle Hr. lia.
  - destruct Hc as [Ho Hi]. split; [|by apply Hidle].
    apply Hopen; [|done]. intros p p' Hle Hr. lia.
  - destruct Hc as (t & Ht & Hst). destruct (Htasks tid t Ht) as (t' & Ht' & Hcase).
    exists t'. split; [done|].
    destruct Hcase as [->|[[_ H]|[_ H]]]; [done| |]; congruence.
  - by apply Hidle.
Qed.

(** ** The locked part of a push and the free of a delete as calls *)

Lemma push_locked_eq (w : world) (p : thread_pool) (t : thread_task) (tid : nat)
    (created : bool) :
  pool w = Some p -> tasks w !! tid = Some t -> shutting_down p = false ->
  task_total p < TPOOL_MAX_TASKS -> state t = TASK_NEW \/ state t = TASK_DONE ->
  thread_pool_push_task TPOOL_MAX_TASKS w tid created
  = (push_locked w tid created, TPOOL_OK).
Proof.
  intros Hp Ht Hs Hm Hst. unfold thread_pool_push_task, push_locked.
  rewrite Hp, Ht, Hs. rewrite Z.geb_leb, (proj2 (Z.leb_gt _ _)) by lia.
  replace (negb _ && negb _) with false; [done|].
  symmetry. apply andb_false_iff.
  destruct Hst as [H|H]; [left|right]; apply negb_false_iff, bool_decide_eq_true; done.
Qed.

Lemma task_free_eq (w : world) (t : thread_task) (tid : nat) :
  tasks w !! tid = Some t -> state t = TASK_NEW \/ state t = TASK_DONE ->
  thread_task_delete w tid
  = (mk_world (pool w) (delete tid (tasks w)) (workers w) (next_task w), TPOOL_OK).
Proof.
  intros Ht Hst. unfold thread_task_delete. rewrite Ht.
  replace (bool_decide _ || bool_decide _) with false; [done|].
  symmetry. apply orb_false_iff.
  split; apply bool_decide_eq_false; destruct Hst; congruence.
Qed.

(** ** Each step is a call, a step of a worker, or nothing *)

Lemma pushed_one (w : world) (e : event) :
  pushed TPOOL_MAX_THREADS TPOOL_MAX_TASKS w [e]
  = match e with
    | E_push tid created =>
        match snd (thread_pool_push_task TPOOL_MAX_TASKS w tid created) with
        | TPOOL_OK => [tid]
        | _ => []
        end
    | _ => []
    end.
Proof. cbn [pushed]. by rewrite app_nil_r. Qed.

Lemma picked_one (w : world) (e : event) :
  picked TPOOL_MAX_THREADS TPOOL_MAX_TASKS w [e]
  = pops TPOOL_MAX_THREADS TPOOL_MAX_TASKS w e.
Proof. cbn [picked]. by rewrite app_nil_r. Qed.

Lemma pushed_app (es es' : list event) :
  forall w,
    pushed TPOOL_MAX_THREADS TPOOL_MAX_TASKS w (es ++ es')
    = pushed TPOOL_MAX_THREADS TPOOL_MAX_TASKS w es
      ++ pushed TPOOL_MAX_THREADS TPOOL_MAX_TASKS
           (run TPOOL_MAX_THREADS TPOOL_MAX_TASKS w es) es'.
Proof.
  induction es as [|e es IH]; intros w; [done|].
  cbn [app pushed run fold_left]. rewrite IH, <- app_assoc. done.
Qed.

Lemma picked_app (es es' : list event) :
  forall w,
    picked TPOOL_MAX_THREADS TPOOL_MAX_TASKS w (es ++ es')
    = picked TPOOL_MAX_THREADS TPOOL_MAX_TASKS w es
      ++ picked TPOOL_MAX_THREADS TPOOL_MAX_TASKS
           (run TPOOL_MAX_THREADS TPOOL_MAX_TASKS w es) es'.
Proof.
  induction es as [|e es IH]; intros w; [done|].
  cbn [app picked run fold_left]. rewrite IH, <- app_assoc. done.
Qed.

(** What a step does to the shared memory is what the calls and the steps
    of the workers do, taken whole, with the same pushes and pops. *)
Lemma fine_step_sim (fw fw' : fine_world) (e : fine_event) :
  client_ok TPOOL_MAX_TASKS fw ->
  fine_step TPOOL_MAX_THREADS TPOOL_MAX_TASKS fw e = Some fw' ->
  exists ces,
    shared fw' = run TPOOL_MAX_THREADS TPOOL_MAX_TASKS (shared fw) ces
    /\ pushed TPOOL_MAX_THREADS TPOOL_MAX_TASKS (shared fw) ces = fine_pushes fw e
    /\ picked TPOOL_MAX_THREADS TPOOL_MAX_TASKS (shared fw) ces
       = fine_pops TPOOL_MAX_THREADS TPOOL_MAX_TASKS fw e.
Proof.
  intros Hc Hstep. destruct fw as [w c l].
  assert (Hnone : forall fw0, shared fw0 = w -> fine_pushes (mk_fine w c l) e = [] ->
                    fine_pops TPOOL_MAX_THREADS TPOOL_MAX_TASKS (mk_fine w c l) e = [] ->
                    exists ces,
                      shared fw0 = run TPOOL_MAX_THREADS TPOOL_MAX_TASKS w ces
                      /\ pushed TPOOL_MAX_THREADS TPOOL_MAX_TASKS w ces
                         = fine_pushes (mk_fine w c l) e
                      /\ picked TPOOL_MAX_THREADS TPOOL_MAX_TASKS w ces
                         = fine_pops TPOOL_MAX_THREADS TPOOL_MAX_TASKS (mk_fine w c l) e).
  { intros fw0 H0 H1 H2. exists []. by rewrite H0, H1, H2. }
  assert (Hone : forall fw0 ce,
             shared fw0 = step TPOOL_MAX_THREADS TPOOL_MAX_TASKS w ce ->
             pushed TPOOL_MAX_THREADS TPOOL_MAX_TASKS w [ce] = fine_pushes (mk_fine w c l) e ->
             pops TPOOL_MAX_THREADS TPOOL_MAX_TASKS w ce
             = fine_pops TPOOL_MAX_THREADS TPOOL_MAX_TASKS (mk_fine w c l) e ->
             exists ces,
               shared fw0 = run TPOOL_MAX_THREADS TPOOL_MAX_TASKS w ces
               /\ pushed TPOOL_MAX_THREADS TPOOL_MAX_TASKS w ces
                  = fine_pushes (mk_fine w c l) e
               /\ picked TPOOL_MAX_THREADS TPOOL_MAX_TASKS w ces
                  = fine_pops TPOOL_MAX_THREADS TPOOL_MAX_TASKS (mk_fine w c l) e).
  { intros fw0 ce H0 H1 H2. exists [ce]. by rewrite picked_one, H0, H1, H2. }
  unfold fine_step in Hstep. f_simpl.
  destruct e.
  - (* thread_pool_new *)
    destruct c; injection Hstep as <-; try (by apply Hnone).
    by apply (Hone _ (E_pool_new max_thread_count)).
  - (* thread_task_new *)
    destruct c; injection Hstep as <-; try (by apply Hnone).
    by apply (Hone _ (E_task_new f a)).
  - (* the first test of a push *)
    destruct c, (pool w) as [p|], (tasks w !! tid) as [t|];
      try (injection Hstep as <-; by apply Hnone).
    destruct (shutting_down p); injection Hstep as <-; by apply Hnone.
  - (* the first test of a delete *)
    destruct c, (tasks w !! tid) as [t|];
      try (injection Hstep as <-; by apply Hnone).
    destruct (bool_decide _); injection Hstep as <-; by apply Hnone.
  - (* thread_pool_delete, to the unlock *)
    destruct (thread_pool_delete w) as [w' code] eqn:Hdel.
    destruct c; try (injection Hstep as <-; by apply Hnone).
    destruct code; injection Hstep as <-; try (by apply Hnone).
    apply (Hone _ E_pool_delete); [|done|done]. cbn [shared step]. by rewrite Hdel.
  - (* the next step of the client *)
    destruct c; try (injection Hstep as <-; by apply Hnone).
    + destruct (pool w) as [p|]; [|done].
      destruct (_ >=? _); injection Hstep as <-; by apply Hnone.
    + destruct (tasks w !! tid) as [t|]; [|done].
      destruct (bool_decide _); injection Hstep as <-; by apply Hnone.
    + destruct (tasks w !! tid) as [t|]; [|done].
      destruct (bool_decide _); injection Hstep as <-; by apply Hnone.
    + (* the locked part of the push *)
      unfold client_ok in Hc. f_simpl.
      destruct Hc as [[(p & Hp & Hs & Hm) _] (t & Ht & Hst)].
      rewrite Hp, Ht in Hstep. injection Hstep as <-.
      pose proof (push_locked_eq w p t tid created Hp Ht Hs Hm Hst) as Heq.
      apply (Hone _ (E_push tid created)).
      * cbn [shared step]. by rewrite Heq.
      * rewrite pushed_one, Heq. done.
      * done.
    + destruct (tasks w !! tid) as [t|]; [|done].
      destruct (bool_decide _); injection Hstep as <-; by apply Hnone.
    + (* the free *)
      unfold client_ok in Hc. f_simpl. destruct Hc as (t & Ht & Hst).
      rewrite Ht in Hstep. destruct (task_locked _ _); [done|].
      injection Hstep as <-.
      apply (Hone _ (E_task_delete tid)); [|done|done].
      cbn [shared step]. by rewrite (task_free_eq w t tid Ht Hst).
  - (* a worker at the top of its loop *)
    injection Hstep as <-. by apply (Hone _ (E_take i)).
  - (* task->state = TASK_RUNNING *)
    destruct (workers w !! i) as [[|t| | |]|] eqn:Hi;
      try (injection Hstep as <-; by apply Hnone).
    destruct (tasks w !! t); [|done]. injection Hstep as <-.
    by apply (Hone _ (E_start i)).
  - (* the call and the stores under the task's lock *)
    destruct (workers w !! i) as [[| |t| |]|] eqn:Hi;
      try (injection Hstep as <-; by apply Hnone).
    destruct (tasks w !! t); [|done].
    destruct (task_locked _ _); injection Hstep as <-; [by apply Hnone|].
    by apply (Hone _ (E_finish i)).
  - (* the unlock *)
    destruct (l !! i) as [t|]; [|injection Hstep as <-; by apply Hnone].
    destruct (tasks w !! t); [|done]. injection Hstep as <-. by apply Hnone.
  - (* threads_busy-- *)
    destruct (l !! i) as [t|]; injection Hstep as <-; [by apply Hnone|].
    by apply (Hone _ (E_release i)).
Qed.

(** ** What holds in every state *)

Lemma queue_ok_run (es : list event) :
  forall w, queue_ok w -> queue_ok (run TPOOL_MAX_THREADS TPOOL_MAX_TASKS w es).
Proof.
  induction es as [|e es IH]; intros w Hq; [done|].
  cbn [run fold_left]. apply IH. by apply queue_ok_step.
Qed.

Lemma locked_elem (fw : fine_world) (i t : nat) :
  task_locks fw !! i = Some t -> task_locked fw t = true.
Proof.
  intros Hi. unfold task_locked. apply bool_decide_eq_true.
  apply list_elem_of_fmap. exists (i, t). split; [done|].
  by apply elem_of_map_to_list.
Qed.

Lemma task_kept (w : world) (e : event) (t : nat) :
  (forall tid, e <> E_task_delete tid) ->
  is_Some (tasks w !! t) ->
  is_Some (tasks (step TPOOL_MAX_THREADS TPOOL_MAX_TASKS w e) !! t).
Proof.
  intros He Ht. destruct e; cbn [step].
  - destruct (pool w); [done|]. unfold thread_pool_new.
    destruct (_ || _ || _); [done|]. by destruct (negb true).
  - unfold thread_task_new. cbn [negb fst]. f_simpl.
    apply lookup_insert_is_Some. destruct (decide (next_task w = t)); auto.
  - unfold thread_pool_push_task.
    destruct (pool w) as [p|]; [|done].
    destruct (tasks w !! tid) as [t0|]; [|done].
    destruct (shutting_down p); [done|].
    destruct (_ >=? _); [done|].
    destruct (_ && _); [done|].
    assert (is_Some (<[tid := mk_task (function t0) (arg t0) (result t0) true TASK_QUEUED]>
                       (tasks w) !! t)).
    { apply lookup_insert_is_Some. destruct (decide (tid = t)); auto. }
    destruct (_ && _ && _); by f_simpl.
  - by destruct (He tid).
  - unfold thread_pool_delete. destruct (pool w) as [p|]; [|done].
    by destruct (_ || _).
  - unfold thread_pool_free. destruct (pool w) as [p|]; [|done].
    by destruct (_ && _).
  - unfold worker_take. destruct (workers w !! i) as [[| | | |]|]; try done.
    destruct (pool w) as [p|]; [|done].
    destruct (shutting_down p); [done|]. by destruct (task_queue p).
  - unfold worker_start. destruct (workers w !! i) as [[|t0| | |]|]; try done.
    destruct (tasks w !! t0) eqn:Ht0; [|done]. f_simpl.
    apply lookup_insert_is_Some. destruct (decide (t0 = t)); auto.
  - unfold worker_finish. destruct (workers w !! i) as [[| |t0| |]|]; try done.
    destruct (tasks w !! t0) eqn:Ht0; [|done]. f_simpl.
    apply lookup_insert_is_Some. destruct (decide (t0 = t)); auto.
  - unfold worker_release. destruct (workers w !! i) as [[| | | |]|]; try done.
    by destruct (pool w).
Qed.

Lemma fine_start_ok : fine_ok TPOOL_MAX_TASKS fine_start.
Proof.
  destruct empty_in_use as [Hu Hi].
  by split_and!.
Qed.

(** The invariant of the steps. *)
Lemma fine_step_ok (fw fw' : fine_world) (e : fine_event) :
  fine_ok TPOOL_MAX_TASKS fw ->
  fine_step TPOOL_MAX_THREADS TPOOL_MAX_TASKS fw e = Some fw' ->
  fine_ok TPOOL_MAX_TASKS fw'.
Proof.
  intros (Hid & Hin & Hq & Hc & Hl) Hstep.
  destruct (fine_step_sim fw fw' e Hc Hstep) as (ces & Hsh & _ & _).
  destruct (in_use_run TPOOL_MAX_THREADS TPOOL_MAX_TASKS ces (shared fw) Hin Hid)
    as [Hin' Hid'].
  pose proof (queue_ok_run ces (shared fw) Hq) as Hq'.
  rewrite <- Hsh in Hin', Hid', Hq'.
  split; [done|]. split; [done|]. split; [done|]. clear Hsh Hin' Hid' Hq' ces.
  destruct fw as [w c l]. unfold fine_step in Hstep. f_simpl.
  assert (Hkeep : forall ce l0,
             (forall tid, ce <> E_task_delete tid) ->
             (forall i t, l0 !! i = Some t -> l !! i = Some t) ->
             locks_ok (mk_fine (step TPOOL_MAX_THREADS TPOOL_MAX_TASKS w ce) C_IDLE l0)).
  { intros ce l0 Hce Hl0 i t Hi. f_simpl. apply task_kept; [done|]. by apply (Hl i), Hl0. }
  assert (Hsame : forall c0, locks_ok (mk_fine w c0 l)).
  { intros c0 i t Hi. by apply (Hl i). }
  assert (Hworker : forall w' l0 i,
             w' = worker_take w i \/ w' = worker_start w i \/ w' = worker_finish w i
             \/ w' = worker_release w i ->
             client_ok TPOOL_MAX_TASKS (mk_fine w' c l0)).
  { intros w' l0 i Hw'. destruct (worker_effect w w' i Hin Hw') as [Hp Ht].
    by apply (client_ok_later (mk_fine w c l) w' l0). }
  assert (Hworker_locks : forall w' i,
             w' = worker_take w i \/ w' = worker_start w i \/ w' = worker_finish w i
             \/ w' = worker_release w i ->
             forall t, is_Some (tasks w !! t) -> is_Some (tasks w' !! t)).
  { intros w' i Hw' t [x Hx]. destruct (worker_effect w w' i Hin Hw') as [_ Ht].
    destruct (Ht t x Hx) as (x' & Hx' & _). by eexists. }
  destruct e.
  - destruct c; injection Hstep as <-; try (split; [done|by apply Hsame]).
    split; [done|]. by apply (Hkeep (E_pool_new max_thread_count)).
  - destruct c; injection Hstep as <-; try (split; [done|by apply Hsame]).
    split; [done|]. by apply (Hkeep (E_task_new f a)).
  - destruct c, (pool w) as [p|] eqn:Hp, (tasks w !! tid) as [t|] eqn:Ht;
      try (injection Hstep as <-; split; [done|by apply Hsame]).
    destruct (shutting_down p) eqn:Hs; injection Hstep as <-;
      (split; [|by apply Hsame]); [done|].
    unfold client_ok. f_simpl. split; [by exists p|by eexists].
  - destruct c, (tasks w !! tid) as [t|] eqn:Ht;
      try (injection Hstep as <-; split; [done|by apply Hsame]).
    destruct (bool_decide (state t = TASK_QUEUED)) eqn:Hst; injection Hstep as <-;
      (split; [|by apply Hsame]); [done|].
    unfold client_ok. f_simpl. exists t. split; [done|]. by apply bool_decide_eq_false in Hst.
  - destruct (thread_pool_delete w) as [w' code] eqn:Hdel.
    destruct c; try (injection Hstep as <-; split; [done|by apply Hsame]).
    destruct code; injection Hstep as <-; try (split; [done|by apply Hsame]).
    split; [done|]. intros i t Hi. f_simpl.
    replace w' with (step TPOOL_MAX_THREADS TPOOL_MAX_TASKS w E_pool_delete)
      by (cbn [step]; by rewrite Hdel).
    apply task_kept; [done|]. by apply (Hl i).
  - unfold client_ok in Hc. f_simpl.
    destruct c; try (injection Hstep as <-; split; [done|by apply Hsame]).
    + destruct Hc as [(p & Hp & Hs & _) Ht]. rewrite Hp in Hstep.
      destruct (task_total p >=? TPOOL_MAX_TASKS) eqn:Hm; injection Hstep as <-;
        (split; [|by apply Hsame]); [done|].
      unfold client_ok. f_simpl. split; [|done]. exists p. split_and!; try done.
      rewrite Z.geb_leb in Hm. apply Z.leb_gt in Hm. lia.
    + destruct Hc as [Hp [t Ht]]. rewrite Ht in Hstep.
      destruct (bool_decide (state t = TASK_NEW)) eqn:Hst; injection Hstep as <-;
        (split; [|by apply Hsame]); unfold client_ok; f_simpl.
      * apply bool_decide_eq_true in Hst. split; [by split; [|eexists]|].
        exists t. auto.
      * by split; [|eexists].
    + destruct Hc as [Hp [t Ht]]. rewrite Ht in Hstep.
      destruct (bool_decide (state t = TASK_DONE)) eqn:Hst; injection Hstep as <-;
        (split; [|by apply Hsame]); unfold client_ok; f_simpl; [|done].
      apply bool_decide_eq_true in Hst. split; [by split; [|eexists]|].
      exists t. auto.
    + destruct Hc as [[(p & Hp & Hs & Hm) _] (t & Ht & Hst)].
      rewrite Hp, Ht in Hstep. injection Hstep as <-. split; [done|].
      pose proof (push_locked_eq w p t tid created Hp Ht Hs Hm Hst) as Heq.
      replace (push_locked w tid created)
        with (step TPOOL_MAX_THREADS TPOOL_MAX_TASKS w (E_push tid created))
        by (cbn [step]; by rewrite Heq).
      by apply Hkeep.
    + destruct Hc as (t & Ht & Hst). rewrite Ht in Hstep.
      destruct (bool_decide (state t = TASK_RUNNING)) eqn:Hrun; injection Hstep as <-;
        (split; [|by apply Hsame]); unfold client_ok; f_simpl; [done|].
      apply bool_decide_eq_false in Hrun. exists t. split; [done|].
      destruct (state t); try done; auto.
    + destruct Hc as (t & Ht & Hst). rewrite Ht in Hstep.
      destruct (task_locked (mk_fine w (C_DELETE_FREE tid) l) tid) eqn:Hlk; [done|].
      injection Hstep as <-. split; [done|].
      intros i t0 Hi. f_simpl.
      assert (t0 <> tid).
      { intros ->. by rewrite (locked_elem (mk_fine w (C_DELETE_FREE tid) l) i tid) in Hlk. }
      rewrite lookup_delete_ne by done. by apply (Hl i).
  - injection Hstep as <-. split; [by apply (Hworker _ _ i); left|].
    intros j t Hj. f_simpl. apply (Hworker_locks _ i); [by left|]. by apply (Hl j).
  - destruct (workers w !! i) as [[|t| | |]|] eqn:Hi;
      try (injection Hstep as <-; split; [done|by apply Hsame]).
    destruct (tasks w !! t) as [x|]; [|done]. injection Hstep as <-.
    split; [by apply (Hworker _ _ i); right; left|].
    intros j t1 Hj. f_simpl. apply (Hworker_locks _ i); [by right; left|]. by apply (Hl j).
  - destruct (workers w !! i) as [[| |t| |]|] eqn:Hi;
      try (injection Hstep as <-; split; [done|by apply Hsame]).
    destruct (tasks w !! t) as [x|] eqn:Ht; [|done].
    destruct (task_locked _ _); injection Hstep as <-; [split; [done|by apply Hsame]|].
    split; [by apply (Hworker _ _ i); right; right; left|].
    intros j t1 Hj. f_simpl. apply (Hworker_locks _ i); [by right; right; left|].
    destruct (decide (j = i)) as [->|Hne].
    + rewrite lookup_insert_eq in Hj. injection Hj as <-. by eexists.
    + rewrite lookup_insert_ne in Hj by done. by apply (Hl j).
  - destruct (l !! i) as [t|] eqn:Hi; [|injection Hstep as <-; split; [done|by apply Hsame]].
    destruct (tasks w !! t) as [x|]; [|done]. injection Hstep as <-.
    split; [done|]. intros j t1 Hj. f_simpl.
    apply lookup_delete_Some in Hj as [_ Hj]. by apply (Hl j).
  - destruct (l !! i) as [t|] eqn:Hi; injection Hstep as <-;
      [split; [done|by apply Hsame]|].
    split; [by apply (Hworker _ _ i); right; right; right|].
    intros j t1 Hj. f_simpl. apply (Hworker_locks _ i); [by right; right; right|].
    by apply (Hl j).
Qed.

(** Every state the client and the workers reach step by step is a state
    that the calls and the workers' steps reach taken whole, with the same
    tasks pushed and popped in the same order. *)
Lemma fine_run_sim (es : list fine_event) :
  forall fw fw',
    fine_ok TPOOL_MAX_TASKS fw ->
    fine_run TPOOL_MAX_THREADS TPOOL_MAX_TASKS fw es = Some fw' ->
    fine_ok TPOOL_MAX_TASKS fw'
    /\ exists ces,
         shared fw' = run TPOOL_MAX_THREADS TPOOL_MAX_TASKS (shared fw) ces
         /\ pushed TPOOL_MAX_THREADS TPOOL_MAX_TASKS (shared fw) ces
            = fine_pushed TPOOL_MAX_THREADS TPOOL_MAX_TASKS fw es
         /\ picked TPOOL_MAX_THREADS TPOOL_MAX_TASKS (shared fw) ces
            = fine_picked TPOOL_MAX_THREADS TPOOL_MAX_TASKS fw es.
Proof.
  induction es as [|e es IH]; intros fw fw' Hok Hrun.
  - injection Hrun as <-. split; [done|]. by exists [].
  - cbn [fine_run fine_pushed fine_picked] in *.
    destruct (fine_step TPOOL_MAX_THREADS TPOOL_MAX_TASKS fw e) as [fw1|] eqn:Hstep;
      [|done].
    destruct (fine_step_sim fw fw1 e) as (ces1 & Hsh1 & Hpu1 & Hpi1); [apply Hok|done|].
    pose proof (fine_step_ok fw fw1 e Hok Hstep) as Hok1.
    destruct (IH fw1 fw' Hok1 Hrun) as (Hok' & ces2 & Hsh2 & Hpu2 & Hpi2).
    split; [done|]. exists (ces1 ++ ces2).
    rewrite run_app, pushed_app, picked_app, <- Hsh1, Hpu1, Hpi1, Hpu2, Hpi2. done.
Qed.


(** X12: first in, first out.  With one client thread that makes its
    calls test by test beside the workers, the tasks the workers have
    popped so far, followed by the tasks in the queue, are the tasks the
    client has linked into the queue, in the order in which it did: a
    worker always gets the task that was pushed first among the waiting
    ones, none is lost and none is handed out twice. *)
Theorem fifo_dispatch (es : list fine_event) (fw : fine_world) :
  fine_run TPOOL_MAX_THREADS TPOOL_MAX_TASKS fine_start es = Some fw ->
  fine_picked TPOOL_MAX_THREADS TPOOL_MAX_TASKS fine_start es ++ queued (shared fw)
  = fine_pushed TPOOL_MAX_THREADS TPOOL_MAX_TASKS fine_start es.
Proof.
  intros Hrun.
  destruct (fine_run_sim es fine_start fw fine_start_ok Hrun)
    as (_ & ces & Hsh & Hpu & Hpi).
  rewrite Hsh, <- Hpu, <- Hpi. symmetry.
  by apply (fifo_run TPOOL_MAX_THREADS TPOOL_MAX_TASKS ces empty_world).
Qed.

(** X16: the queue never holds more than [TPOOL_MAX_TASKS] tasks.  With
    one client thread that makes its calls test by test beside the
    workers, in every state they reach [task_total] is the number of tasks
    in the queue and lies between 0 and the limit: between the client's
    test of [task_total] and its taking the lock the workers only take
    tasks away. *)
Theorem queue_within_limit (es : list fine_event) (fw : fine_world) (p : thread_pool) :
  0 <= TPOOL_MAX_TASKS ->
  fine_run TPOOL_MAX_THREADS TPOOL_MAX_TASKS fine_start es = Some fw ->
  pool (shared fw) = Some p ->
  task_total p = Z.of_nat (length (task_queue p))
  /\ 0 <= task_total p <= TPOOL_MAX_TASKS.
Proof.
  intros HT Hrun Hp.
  destruct (fine_run_sim es fine_start fw fine_start_ok Hrun) as (_ & ces & Hsh & _).
  rewrite Hsh in Hp.
  by apply (queue_bound_run TPOOL_MAX_THREADS TPOOL_MAX_TASKS ces HT empty_world).
Qed.

End Limits.


(** X12 where tasks 0 and 1 were pushed and task 0 was popped. *)
Lemma fifo_dispatch_witness :
  exists fw,
    fine_run 20 100000 fine_start two_pushed_one_popped = Some fw
    /\ fine_pushed 20 100000 fine_start two_pushed_one_popped = [0; 1]%nat
    /\ queued (shared fw) = [1%nat]
    /\ fine_picked 20 100000 fine_start two_pushed_one_popped ++ queued (shared fw)
       = fine_pushed 20 100000 fine_start two_pushed_one_popped.
Proof.
  eexists. split; [vm_compute; reflexivity|].
  split; [reflexivity|]. split; [reflexivity|].
  apply (fifo_dispatch 20 100000 two_pushed_one_popped). vm_compute. reflexivity.
Defined.

(** X16 in the same state: one task in the queue. *)
Lemma queue_within_limit_witness :
  exists fw p,
    fine_run 20 100000 fine_start two_pushed_one_popped = Some fw
    /\ pool (shared fw) = Some p
    /\ task_total p = 1
    /\ task_total p = Z.of_nat (length (task_queue p))
    /\ 0 <= task_total p <= 100000.
Proof.
  eexists. eexists. split; [vm_compute; reflexivity|].
  split; [reflexivity|]. split; [reflexivity|].
  eapply (queue_within_limit 20 100000 two_pushed_one_popped);
    [lia | vm_compute; reflexivity | reflexivity].
Defined.

End TpoolLocks.

(* ===================================================================== *)
(** * SHELL: chaining and the last segment                             *)
(* ===================================================================== *)

Module ShellFacts.
Import Shell.

Lemma operator_head (x : expr) (l : list expr) :
  determine_expression_is_operator (x :: l) = is_operator x.
Proof. reflexivity. Qed.

Lemma skip_to_operator_boundary (rest : list expr) :
  boundary rest = true -> skip_to_operator rest = rest.
Proof.
  destruct rest as [|x l]; [reflexivity|].
  cbn [boundary skip_to_operator]. rewrite operator_head. now intros ->.
Qed.

Lemma skip_to_operator_app (seg rest : list expr) :
  no_operator seg = true -> boundary rest = true ->
  skip_to_operator (seg ++ rest) = rest.
Proof.
  induction seg as [|x seg IH]; intros Hs Hr.
  - now apply skip_to_operator_boundary.
  - cbn [no_operator forallb] in Hs. apply andb_true_iff in Hs as [Hx Hs].
    cbn [app skip_to_operator]. rewrite operator_head.
    apply negb_true_iff in Hx. rewrite Hx. now apply IH.
Qed.

Lemma skip_to_operator_length (a : list expr) :
  (length (skip_to_operator a) <= length a)%nat.
Proof.
  induction a as [|x a IH]; [reflexivity|].
  cbn [skip_to_operator]. destruct (determine_expression_is_operator (x :: a)).
  - reflexivity.
  - cbn [length]. lia.
Qed.

Lemma skip_to_operator_is_boundary (a : list expr) :
  boundary (skip_to_operator a) = true.
Proof.
  induction a as [|x a IH]; [reflexivity|].
  cbn [skip_to_operator]. rewrite operator_head.
  destruct (is_operator x) eqn:Hx; [exact Hx | exact IH].
Qed.



Lemma runs_not_operator (x : expr) (c : Z) :
  is_operator x = false -> runs (type x) c = false.
Proof.
  unfold is_operator, determine_expression_is_operator, runs.
  intros H. apply orb_false_iff in H as [-> ->]. reflexivity.
Qed.

Lemma command_line_loop_cons (fuel : nat) (E : env) (line : command_line)
    (x : expr) (next : list expr) (d : exec_result) (sh : shell) :
  command_line_loop (S fuel) E line (x :: next) d sh =
  if runs (type x) (return_code d) then
    let '(d', sh') := execute_segment E line next (skip_to_operator next) sh in
    if need_exit d' then Some (d', sh')
    else command_line_loop fuel E line (skip_to_operator next) d' sh'
  else command_line_loop fuel E line next d sh.
Proof. reflexivity. Qed.

(** Fuel beyond the length of the list changes nothing, and the length is
    enough for the loop to finish. *)
Lemma command_line_loop_fuel (E : env) (line : command_line) (fuel : nat) :
  forall (a : list expr) (d : exec_result) (sh : shell),
    (length a <= fuel)%nat ->
    is_Some (command_line_loop fuel E line a d sh)
    /\ forall fuel', (length a <= fuel')%nat ->
         command_line_loop fuel' E line a d sh = command_line_loop fuel E line a d sh.
Proof.
  induction fuel as [|fuel IH]; intros a d sh Hlen.
  - destruct a; [|cbn [length] in Hlen; lia].
    split; [now eexists|]. intros [|fuel'] _; reflexivity.
  - destruct a as [|x next].
    { split; [now eexists|]. intros [|fuel'] _; reflexivity. }
    cbn [length] in Hlen.
    assert (Hs := skip_to_operator_length next).
    split.
    + rewrite command_line_loop_cons. destruct (runs _ _).
      * destruct (execute_segment _ _ _ _ _) as [d' sh'].
        destruct (need_exit d'); [now eexists|]. apply IH. lia.
      * apply IH. lia.
    + intros [|fuel'] Hf; [cbn [length] in Hf; lia|]. cbn [length] in Hf.
      rewrite !command_line_loop_cons. destruct (runs _ _).
      * destruct (execute_segment _ _ _ _ _) as [d' sh'].
        destruct (need_exit d'); [reflexivity|].
        destruct (IH (skip_to_operator next) d' sh') as [_ H]; [lia|].
        rewrite (H fuel') by lia. reflexivity.
      * destruct (IH next d sh) as [_ H]; [lia|]. rewrite (H fuel') by lia. reflexivity.
Qed.

Lemma command_line_loop_enough (E : env) (line : command_line) (fuel : nat)
    (a : list expr) (d : exec_result) (sh : shell) :
  (length a <= fuel)%nat ->
  command_line_loop fuel E line a d sh = command_line_loop (length a) E line a d sh.
Proof.
  intros H. destruct (command_line_loop_fuel E line (length a) a d sh) as [_ Hf]; [lia|].
  now apply Hf.
Qed.

(** Walking over a skipped segment leaves the result and the shell alone. *)
Lemma command_line_loop_skip (E : env) (line : command_line) (seg rest : list expr)
    (d : exec_result) (sh : shell) :
  no_operator seg = true ->
  command_line_loop (length (seg ++ rest)) E line (seg ++ rest) d sh
  = command_line_loop (length rest) E line rest d sh.
Proof.
  induction seg as [|x seg IH]; intros Hs; [reflexivity|].
  cbn [no_operator forallb] in Hs. apply andb_true_iff in Hs as [Hx Hs].
  apply negb_true_iff in Hx.
  cbn [app length]. rewrite command_line_loop_cons, runs_not_operator by exact Hx.
  now apply IH.
Qed.

Lemma runs_iff (op : expr_type) (c : Z) :
  runs op c = true <->
  (op = EXPR_TYPE_AND /\ c = 0) \/ (op = EXPR_TYPE_OR /\ c <> 0).
Proof.
  unfold runs. rewrite orb_true_iff, !andb_true_iff, !bool_decide_eq_true,
    negb_true_iff, Z.eqb_eq, Z.eqb_neq. reflexivity.
Qed.

Lemma sys_wait_latest (E : env) (pid : Z) (sp : spawn) (sh : shell) (l : list (Z * spawn)) :
  started sh = l ++ [(pid, sp)] ->
  sys_wait E pid sh = (exit_status E sp, emit (EV_WAIT pid) sh).
Proof.
  intros H. unfold sys_wait. rewrite H, rev_app_distr. cbn [rev app List.find fst].
  now rewrite Z.eqb_refl.
Qed.

Lemma register_process_first (E : env) (pid : Z) (sh : shell) :
  register_process E (mk_registry [] 10) pid sh = (0, mk_registry [pid] 10, sh).
Proof. reflexivity. Qed.

(** A lone command that is neither [cd] nor [exit], run in the foreground
    of a system where allocation and [fork] succeed: one child, started on
    the standard input and on the output of the segment, and waited for. *)
Lemma execute_pipeline_single (E : env) (x : expr) (next : list expr)
    (out_file : option string) (out_type : output_type) (sh : shell) :
  (forall n, alloc_ok E n = true) ->
  (forall n, is_Some (fork_result E n)) ->
  type x = EXPR_TYPE_COMMAND ->
  String.eqb "cd" (exe (cmd x)) = false ->
  String.eqb "exit" (exe (cmd x)) = false ->
  boundary next = true ->
  exists pid sh',
    let sp := child_program (x :: next) out_file out_type true 0 1 (-1) 0 in
    execute_pipeline E (x :: next) out_file out_type true sh
    = (assemble_execution_outcome false (default 0 (exit_status E sp)) None, sh')
    /\ started sh' = started sh ++ [(pid, sp)].
Proof.
  intros Ha Hf Hx Hcd Hexit Hb.
  assert (Hterm : determine_operator_expression_is_terminal (x :: next) = true).
  { destruct next as [|y l]; [reflexivity|]. exact Hb. }
  assert (Hop : determine_expression_is_operator (x :: next) = false).
  { cbn. rewrite Hx. reflexivity. }
  destruct (Hf (forks sh)) as [pid Hpid].
  exists pid.
  unfold execute_pipeline, initialize_process_registry, sys_alloc. rewrite Ha.
  cbn [negb Z.eqb]. unfold pipeline_loop; fold pipeline_loop.
  unfold pipeline_connect, pipeline_branch.
  rewrite Hop, Hx, Hterm, Hcd, Hexit.
  cbn [bool_decide decide_rel negb andb]. rewrite bool_decide_eq_true_2 by reflexivity.
  cbn [negb andb].
  change (registry_size {| children := []; capacity := 10 |}) with 0.
  unfold sys_fork. cbn [forks]. rewrite Hpid, register_process_first.
  cbn [Z.eqb]. unfold close_in_out. cbn [Z.eqb STDIN_FILENO STDOUT_FILENO].
  assert (Hend : forall io0 io1 io2 reg s,
             pipeline_loop E out_file out_type true next 1 io0 io1 io2 reg s
             = inr (io0, reg, s)).
  { intros. destruct next as [|y l]; [reflexivity|].
    cbn [boundary] in Hb. unfold pipeline_loop. now rewrite operator_head, Hb. }
  change (0 + 1) with 1. rewrite Hend.
  unfold pid_array_wait_and_free. cbn [children wait_children Z.eqb].
  erewrite sys_wait_latest by (cbn [started sys_close emit]; reflexivity).
  eexists. split; [reflexivity|]. reflexivity.
Qed.

(** C6: chaining by [&&] and [||].  The first segment of a line always
    runs.  At an operator [op], with [d] the result of the last segment that
    ran, the segment after [op] runs iff [op] is AND and the code of [d] is 0,
    or [op] is OR and the code is not 0; it then gives the new result, and
    ends the line if it asks the shell to exit.  Otherwise the segment is
    walked over: the loop goes on behind it with the same result and the
    same shell, nothing started.  The loop finishes on every line.  With
    working [fork] and allocation, [false] exiting with a non-zero status and
    [echo] with 0, [false && echo A || echo B] starts [false] and [echo B]
    and no other child, and its code is 0. *)
Theorem logical_chaining (E : env) :
  (forall op c, runs op c = true <->
     (op = EXPR_TYPE_AND /\ c = 0) \/ (op = EXPR_TYPE_OR /\ c <> 0))
  /\ (forall line seg rest sh,
        head line = seg ++ rest -> no_operator seg = true -> boundary rest = true ->
        execute_command_line E line sh =
          let '(d, sh') := execute_segment E line (seg ++ rest) rest sh in
          if need_exit d then Some (d, sh')
          else command_line_loop (length rest) E line rest d sh')
  /\ (forall line op seg rest d sh fuel,
        is_operator op = true -> no_operator seg = true -> boundary rest = true ->
        (length (op :: seg ++ rest) <= fuel)%nat ->
        command_line_loop fuel E line (op :: seg ++ rest) d sh =
          if runs (type op) (return_code d) then
            let '(d', sh') := execute_segment E line (seg ++ rest) rest sh in
            if need_exit d' then Some (d', sh')
            else command_line_loop (length rest) E line rest d' sh'
          else command_line_loop (length rest) E line rest d sh)
  /\ (forall line sh, is_Some (execute_command_line E line sh))
  /\ ((forall n, alloc_ok E n = true) ->
      (forall n, is_Some (fork_result E n)) ->
      (forall sp, sp_exe sp = "false" -> exists c, exit_status E sp = Some c /\ c <> 0) ->
      (forall sp, sp_exe sp = "echo" -> exit_status E sp = Some 0) ->
      forall sh, exists p1 p2 sh',
        execute_command_line E
          (mk_command_line false_and_A_or_B OUTPUT_TYPE_STDOUT None false) sh
        = Some (mk_exec_result false 0 None, sh')
        /\ started sh' = started sh
             ++ [(p1, mk_spawn (Some 0) (OUT_FD 1) [] "false" ["false"]);
                 (p2, mk_spawn (Some 0) (OUT_FD 1) [] "echo" ["echo"; "B"])]).
Proof.
  assert (Hfirst : forall line seg rest sh,
    head line = seg ++ rest -> no_operator seg = true -> boundary rest = true ->
    execute_command_line E line sh =
      let '(d, sh') := execute_segment E line (seg ++ rest) rest sh in
      if need_exit d then Some (d, sh')
      else command_line_loop (length rest) E line rest d sh').
  { intros line seg rest sh Hh Hs Hr. unfold execute_command_line.
    rewrite Hh, skip_to_operator_app by assumption. reflexivity. }
  assert (Hnext : forall line op seg rest d sh fuel,
    is_operator op = true -> no_operator seg = true -> boundary rest = true ->
    (length (op :: seg ++ rest) <= fuel)%nat ->
    command_line_loop fuel E line (op :: seg ++ rest) d sh =
      if runs (type op) (return_code d) then
        let '(d', sh') := execute_segment E line (seg ++ rest) rest sh in
        if need_exit d' then Some (d', sh')
        else command_line_loop (length rest) E line rest d' sh'
      else command_line_loop (length rest) E line rest d sh).
  { intros line op seg rest d sh fuel Hop Hs Hr Hfuel.
    rewrite command_line_loop_enough by exact Hfuel.
    cbn [length]. rewrite command_line_loop_cons.
    rewrite skip_to_operator_app by assumption.
    destruct (runs _ _).
    - destruct (execute_segment _ _ _ _ _) as [d' sh'].
      destruct (need_exit d'); [reflexivity|].
      apply command_line_loop_enough. rewrite length_app. lia.
    - now apply command_line_loop_skip. }
  split_and!.
  - apply runs_iff.
  - exact Hfirst.
  - exact Hnext.
  - intros line sh. unfold execute_command_line.
    destruct (execute_segment _ _ _ _ _) as [d sh'].
    destruct (need_exit d); [now eexists|].
    now apply command_line_loop_fuel.
  - intros Ha Hf Hfalse Hecho sh.
    set (line := mk_command_line false_and_A_or_B OUTPUT_TYPE_STDOUT None false).
    (* [false] runs first *)
    rewrite (Hfirst line [simple "false" []]
               [operator EXPR_TYPE_AND; simple "echo" ["A"];
                operator EXPR_TYPE_OR; simple "echo" ["B"]]) by reflexivity.
    unfold execute_segment. cbn [bool_decide decide_rel app].
    rewrite bool_decide_eq_false_2 by discriminate.
    destruct (execute_pipeline_single E (simple "false" [])
                [operator EXPR_TYPE_AND; simple "echo" ["A"];
                 operator EXPR_TYPE_OR; simple "echo" ["B"]]
                None OUTPUT_TYPE_STDOUT sh) as (p1 & sh1 & Hrun1 & Hst1);
      try reflexivity; try assumption.
    cbv zeta in Hrun1, Hst1. rewrite Hrun1.
    destruct (Hfalse (child_program
                        [simple "false" []; operator EXPR_TYPE_AND; simple "echo" ["A"];
                         operator EXPR_TYPE_OR; simple "echo" ["B"]]
                        None OUTPUT_TYPE_STDOUT true 0 1 (-1) 0)) as (c & Hc & Hne);
      [reflexivity|].
    rewrite Hc. cbn [assemble_execution_outcome need_exit default from_option id].
    (* [echo A] is walked over *)
    rewrite (Hnext line (operator EXPR_TYPE_AND) [simple "echo" ["A"]]
               [operator EXPR_TYPE_OR; simple "echo" ["B"]]) by (try reflexivity; cbn; lia).
    cbn [return_code operator type assemble_execution_outcome].
    assert (Hrun_and : runs EXPR_TYPE_AND c = false).
    { destruct (runs EXPR_TYPE_AND c) eqn:Hr; [|reflexivity].
      apply runs_iff in Hr as [[_ ?]|[? _]]; [contradiction | discriminate]. }
    assert (Hrun_or : runs EXPR_TYPE_OR c = true).
    { apply runs_iff. right. now split. }
    rewrite Hrun_and.
    (* [echo B] runs *)
    rewrite (Hnext line (operator EXPR_TYPE_OR) [simple "echo" ["B"]] [])
      by (try reflexivity; cbn; lia).
    cbn [return_code operator type assemble_execution_outcome]. rewrite Hrun_or.
    unfold execute_segment. cbn [app]. rewrite bool_decide_eq_true_2 by reflexivity.
    destruct (execute_pipeline_single E (simple "echo" ["B"]) []
                (out_file line) (out_type line) sh1) as (p2 & sh2 & Hrun2 & Hst2);
      try reflexivity; try assumption.
    cbv zeta in Hrun2, Hst2. cbn [line is_background negb]. rewrite Hrun2.
    rewrite Hecho by reflexivity.
    cbn [assemble_execution_outcome need_exit default from_option id length
         command_line_loop].
    exists p1, p2, sh2. split; [reflexivity|].
    rewrite Hst2, Hst1, <- app_assoc. reflexivity.
Qed.

(** ** What the children of a pipeline look like *)

Lemma wait_children_spec (E : env) (pids : list Z) :
  forall (c : Z) (sh : shell),
    started (wait_children E pids c sh).2 = started sh
    /\ events (wait_children E pids c sh).2 = events sh ++ map EV_WAIT pids.
Proof.
  induction pids as [|pid pids IH]; intros c sh; cbn [wait_children map].
  - now rewrite app_nil_r.
  - unfold sys_wait.
    destruct (IH (default c
                    match List.find (fun c0 => fst c0 =? pid) (rev (started sh)) with
                    | Some (_, sp) => exit_status E sp
                    | None => None
                    end) (emit (EV_WAIT pid) sh)) as [H1 H2].
    rewrite H1, H2. cbn [emit started events]. now rewrite <- app_assoc.
Qed.


Lemma register_process_spec (E : env) (reg : process_registry) (pid : Z) (sh : shell) :
  children (register_process E reg pid sh).1.2 = children reg ++ [pid]
  /\ started (register_process E reg pid sh).2 = started sh
  /\ events (register_process E reg pid sh).2 = events sh.
Proof.
  unfold register_process, adjust_process_registry_capacity, sys_alloc.
  destruct (_ =? 0); [easy|].
  destruct (alloc_ok E (allocs sh)); easy.
Qed.














(** ** What the shell has done is never undone *)










(** ** The segment no operator follows *)






(** ** From a segment to the end of the line *)








(** [false && echo A || echo B] where nothing fails. *)
Lemma logical_chaining_witness :
  exists p1 p2 sh',
    execute_command_line plain_env
      (mk_command_line false_and_A_or_B OUTPUT_TYPE_STDOUT None false) new_shell
    = Some (mk_exec_result false 0 None, sh')
    /\ started sh' = started new_shell
         ++ [(p1, mk_spawn (Some 0) (OUT_FD 1) [] "false" ["false"]);
             (p2, mk_spawn (Some 0) (OUT_FD 1) [] "echo" ["echo"; "B"])].
Proof.
  apply (logical_chaining plain_env).
  - intros n. reflexivity.
  - intros n. eexists. reflexivity.
  - intros sp Hsp. exists 1. cbn [plain_env exit_status]. rewrite Hsp.
    split; [reflexivity | discriminate].
  - intros sp Hsp. cbn [plain_env exit_status]. rewrite Hsp. reflexivity.
Defined.


End ShellFacts.

(* ===================================================================== *)
(** * SHELL: pipelines and the commands of the shell                   *)
(* ===================================================================== *)

Module ShellExtra.
Import Shell ShellFacts.

(** ** One round of the loop of a pipeline *)

Lemma register_process_code (E : env) (reg : process_registry) (pid : Z) (sh : shell) :
  (forall n, alloc_ok E n = true) -> (register_process E reg pid sh).1.1 = 0.
Proof.
  intros Ha. unfold register_process, adjust_process_registry_capacity, sys_alloc.
  destruct (_ =? 0); [reflexivity|]. rewrite Ha. reflexivity.
Qed.

Lemma is_external_inv (x : expr) :
  is_external x = true ->
  type x = EXPR_TYPE_COMMAND
  /\ String.eqb "cd" (exe (cmd x)) = false
  /\ String.eqb "exit" (exe (cmd x)) = false.
Proof.
  unfold is_external. intros H.
  apply andb_true_iff in H as [H H3]. apply andb_true_iff in H as [H1 H2].
  apply bool_decide_eq_true in H1. apply negb_true_iff in H2. apply negb_true_iff in H3.
  auto.
Qed.

Lemma pipeline_loop_end (E : env) out_file out_type should_wait rest idx io0 io1 io2
    reg sh :
  boundary rest = true ->
  pipeline_loop E out_file out_type should_wait rest idx io0 io1 io2 reg sh
  = inr (io0, reg, sh).
Proof.
  intros Hb. destruct rest as [|y l]; [reflexivity|].
  cbn [boundary] in Hb. unfold pipeline_loop. now rewrite operator_head, Hb.
Qed.

Lemma pipeline_loop_skip (E : env) out_file out_type should_wait p next idx io0 io1 io2
    reg sh :
  type p = EXPR_TYPE_PIPE ->
  pipeline_loop E out_file out_type should_wait (p :: next) idx io0 io1 io2 reg sh
  = pipeline_loop E out_file out_type should_wait next idx io0 io1 io2 reg sh.
Proof.
  intros Hp. cbn [pipeline_loop determine_expression_is_operator]. rewrite Hp.
  reflexivity.
Qed.

Lemma close_in_out_events (io0 io1 : Z) (sh : shell) :
  close_in_out io0 io1 sh
  = mk_shell (events sh ++ closes io0 io1) (allocs sh) (pipes sh) (forks sh) (started sh).
Proof.
  unfold close_in_out, closes, sys_close, emit. destruct sh as [ev a p f st].
  destruct (io0 =? STDIN_FILENO), (io1 =? STDOUT_FILENO); cbn [events allocs pipes forks started];
    rewrite <- ?app_assoc, ?app_nil_r; reflexivity.
Qed.

(** An external command in a system where nothing fails: a pipe unless it
    is the last of its pipeline, the fork, the registration, the two
    closes. *)
Lemma loop_step_forked (E : env) out_file out_type should_wait c next idx io0 io1 io2
    reg sh :
  reliable E -> is_external c = true ->
  exists pid reg' sh1 io1' io2' pre,
    pipeline_loop E out_file out_type should_wait (c :: next) idx io0 io1 io2 reg sh
    = pipeline_loop E out_file out_type should_wait next (idx + 1) io2' io1' io2' reg' sh1
    /\ (if determine_operator_expression_is_terminal (c :: next)
        then io1' = io1 /\ io2' = io2 /\ pre = []
        else pipe_result E (pipes sh) = Some (io2', io1')
             /\ pre = [EV_PIPE (Some (io2', io1'))])
    /\ children reg' = children reg ++ [pid]
    /\ started sh1
       = started sh
         ++ [(pid, child_program (c :: next) out_file out_type should_wait io0 io1' io2'
                                 (registry_size reg))]
    /\ events sh1
       = events sh ++ pre
         ++ [EV_FORK (Some (pid, child_program (c :: next) out_file out_type should_wait
                                               io0 io1' io2' (registry_size reg)))]
         ++ closes io0 io1'.
Proof.
  intros (Ha & Hp & Hf) Hc. destruct (is_external_inv c Hc) as (Hty & Hcd & Hexit).
  assert (Hop : determine_expression_is_operator (c :: next) = false).
  { cbn. now rewrite Hty. }
  cbn [pipeline_loop]. rewrite Hop. rewrite bool_decide_eq_true_2 by exact Hty.
  cbn [negb]. unfold pipeline_connect.
  destruct (determine_operator_expression_is_terminal (c :: next)) eqn:Hterm.
  - unfold pipeline_branch. rewrite Hcd, Hexit, Hterm. cbn [andb].
    unfold sys_fork. destruct (Hf (forks sh)) as [pid Hpid]. rewrite Hpid.
    set (sp := child_program _ _ _ _ _ _ _ _).
    set (sh0 := mk_shell _ _ _ _ _).
    pose proof (register_process_code E reg pid sh0 Ha) as Hr.
    pose proof (register_process_spec E reg pid sh0) as (Hch & Hst & Hev).
    destruct (register_process E reg pid sh0) as [[r reg'] sh1].
    cbn [fst snd] in Hr, Hch, Hst, Hev. subst r. cbn [Z.eqb].
    exists pid, reg', (close_in_out io0 io1 sh1), io1, io2, [].
    split; [reflexivity|]. split; [auto|]. split; [exact Hch|].
    rewrite close_in_out_events. cbn [started events]. rewrite Hst, Hev.
    unfold sh0. cbn [started events app]. split; [reflexivity|].
    now rewrite <- app_assoc.
  - unfold sys_pipe. destruct (Hp (pipes sh)) as [[rd wr] Hpipe]. rewrite Hpipe.
    unfold pipeline_branch. rewrite Hcd, Hexit, Hterm. cbn [andb].
    unfold sys_fork. cbn [forks]. destruct (Hf (forks sh)) as [pid Hpid]. rewrite Hpid.
    set (sp := child_program _ _ _ _ _ _ _ _).
    set (sh0 := mk_shell _ _ _ _ _).
    pose proof (register_process_code E reg pid sh0 Ha) as Hr.
    pose proof (register_process_spec E reg pid sh0) as (Hch & Hst & Hev).
    destruct (register_process E reg pid sh0) as [[r reg'] sh1].
    cbn [fst snd] in Hr, Hch, Hst, Hev. subst r. cbn [Z.eqb].
    exists pid, reg', (close_in_out io0 wr sh1), wr, rd, [EV_PIPE (Some (rd, wr))].
    split; [reflexivity|]. split; [auto|]. split; [exact Hch|].
    rewrite close_in_out_events. cbn [started events]. rewrite Hst, Hev.
    unfold sh0. cbn [started events app]. split; [reflexivity|].
    rewrite <- !app_assoc. reflexivity.
Qed.


(** ** A pipeline of external commands, from end to end *)

Lemma piped_cons_inv (c : expr) (b' : list expr) :
  piped (c :: b') = true ->
  is_external c = true
  /\ (b' = [] \/ exists p b'', b' = p :: b'' /\ type p = EXPR_TYPE_PIPE /\ piped b'' = true).
Proof.
  cbn [piped]. intros H. apply andb_true_iff in H as [Hc H]. split; [exact Hc|].
  destruct b' as [|p b'']; [now left|]. right.
  apply andb_true_iff in H as [Hp H]. apply bool_decide_eq_true in Hp.
  now exists p, b''.
Qed.

Lemma terminal_at_boundary (c : expr) (rest : list expr) :
  boundary rest = true -> determine_operator_expression_is_terminal (c :: rest) = true.
Proof. destruct rest as [|y l]; [reflexivity|]. intros H. exact H. Qed.

Lemma not_terminal_before_pipe (c p : expr) (l : list expr) :
  type p = EXPR_TYPE_PIPE ->
  determine_operator_expression_is_terminal (c :: p :: l) = false.
Proof. intros Hp. cbn. now rewrite Hp. Qed.

Lemma commands_cons_command (c : expr) (b : list expr) :
  type c = EXPR_TYPE_COMMAND -> commands (c :: b) = c :: commands b.
Proof. intros Hc. unfold commands. cbn [List.filter]. now rewrite bool_decide_eq_true_2. Qed.

Lemma commands_cons_pipe (p : expr) (b : list expr) :
  type p = EXPR_TYPE_PIPE -> commands (p :: b) = commands b.
Proof.
  intros Hp. unfold commands. cbn [List.filter].
  rewrite bool_decide_eq_false_2; [reflexivity|]. now rewrite Hp.
Qed.

Lemma child_program_runs (c : expr) (next : list expr) out_file out_type should_wait
    io0 io1 io2 n :
  runs_expr (child_program (c :: next) out_file out_type should_wait io0 io1 io2 n) c.
Proof. split; reflexivity. Qed.

Lemma closes_no_wait (io0 io1 : Z) :
  forallb (fun e => negb (is_wait e)) (closes io0 io1) = true.
Proof. unfold closes. destruct (io0 =? _), (io1 =? _); reflexivity. Qed.

Lemma closes_first (io0 io1 : Z) : io0 <> STDIN_FILENO -> EV_CLOSE io0 ∈ closes io0 io1.
Proof.
  intros H. unfold closes. rewrite (proj2 (Z.eqb_neq _ _) H).
  apply elem_of_app. left. apply list_elem_of_singleton. reflexivity.
Qed.

Lemma closes_second (io0 io1 : Z) : io1 <> STDOUT_FILENO -> EV_CLOSE io1 ∈ closes io0 io1.
Proof.
  intros H. unfold closes. rewrite (proj2 (Z.eqb_neq _ _) H).
  apply elem_of_app. right. apply list_elem_of_singleton. reflexivity.
Qed.

Lemma closes_no_pipe (io0 io1 : Z) (r : option (Z * Z)) : EV_PIPE r ∉ closes io0 io1.
Proof.
  unfold closes. intros H. apply elem_of_app in H as [H|H];
    [destruct (io0 =? _)|destruct (io1 =? _)];
    try (now apply elem_of_nil in H);
    apply list_elem_of_singleton in H; discriminate.
Qed.

(** The loop of [execute_pipeline] on [c1 | ... | ck] where nothing fails:
    it ends without a [return]; it starts one child for each command, in
    order, registers it and waits for none; each child but the last writes
    to the pipe the next one reads; the first reads what the loop was
    entered with, the last writes where the pipeline writes; and the
    shell closes the descriptor it was entered with and both ends of
    every pipe it made. *)
Lemma piped_loop (E : env) out_file out_type should_wait :
  reliable E ->
  forall (n : nat) (b : list expr), (length b <= n)%nat -> piped b = true ->
  forall rest idx io0 io1 io2 reg sh, boundary rest = true ->
  exists new evs reg' sh' io0',
    pipeline_loop E out_file out_type should_wait (b ++ rest) idx io0 io1 io2 reg sh
    = inr (io0', reg', sh')
    /\ started sh' = started sh ++ new
    /\ events sh' = events sh ++ evs
    /\ children reg' = children reg ++ map fst new
    /\ Forall2 runs_expr (map snd new) (commands b)
    /\ linked E new
    /\ (exists ch, new !! 0%nat = Some ch
                   /\ sp_stdin (snd ch)
                      = if should_wait || (registry_size reg >? 0) then Some io0 else None)
    /\ (exists ch, last new = Some ch
                   /\ sp_stdout (snd ch) = terminal_output out_file out_type)
    /\ forallb (fun e => negb (is_wait e)) evs = true
    /\ (io0 <> STDIN_FILENO -> EV_CLOSE io0 ∈ evs)
    /\ (forall rd wr, EV_PIPE (Some (rd, wr)) ∈ evs ->
          (rd <> STDIN_FILENO -> EV_CLOSE rd ∈ evs)
          /\ (wr <> STDOUT_FILENO -> EV_CLOSE wr ∈ evs)).
Proof.
  intros HE n. induction n as [|n IH]; intros b Hlen Hb rest idx io0 io1 io2 reg sh Hrest.
  { destruct b; [discriminate|cbn in Hlen; lia]. }
  destruct b as [|c b']; [discriminate|].
  destruct (piped_cons_inv c b' Hb) as [Hc [->|(p & b'' & -> & Hp & Hb'')]].
  - (* the last command *)
    cbn [app].
    destruct (loop_step_forked E out_file out_type should_wait c rest idx io0 io1 io2
                reg sh HE Hc)
      as (pid & reg' & sh1 & io1' & io2' & pre & Hloop & Hcase & Hch & Hst & Hev).
    rewrite (terminal_at_boundary c rest Hrest) in Hcase.
    destruct Hcase as (-> & -> & ->).
    rewrite Hloop, (pipeline_loop_end _ _ _ _ rest) by exact Hrest.
    set (sp := child_program _ _ _ _ _ _ _ _) in *.
    destruct (is_external_inv c Hc) as (Hty & _ & _).
    exists [(pid, sp)], ([EV_FORK (Some (pid, sp))] ++ closes io0 io1), reg', sh1, io2.
    split; [reflexivity|]. split; [exact Hst|]. split; [exact Hev|].
    split; [exact Hch|]. split.
    { rewrite commands_cons_command by exact Hty. cbn [map snd commands List.filter].
      constructor; [apply child_program_runs|constructor]. }
    split. { intros i c1 c2 H1 H2. destruct i; discriminate. }
    split. { exists (pid, sp). split; reflexivity. }
    split.
    { exists (pid, sp). split; [reflexivity|]. unfold sp. cbn [snd child_program sp_stdout].
      now rewrite (terminal_at_boundary c rest Hrest). }
    split. { cbn [app forallb is_wait negb andb]. apply closes_no_wait. }
    split. { intros H. apply elem_of_app. right. now apply closes_first. }
    intros rd wr H. exfalso. apply elem_of_app in H as [H|H].
    + apply list_elem_of_singleton in H. discriminate.
    + now apply closes_no_pipe in H.
  - (* a command with a pipe behind it *)
    cbn [app].
    destruct (loop_step_forked E out_file out_type should_wait c (p :: b'' ++ rest) idx
                io0 io1 io2 reg sh HE Hc)
      as (pid & reg1 & sh1 & wr & rd & pre & Hloop & Hcase & Hch & Hst & Hev).
    rewrite (not_terminal_before_pipe c p _ Hp) in Hcase. destruct Hcase as (Hpipe & ->).
    rewrite Hloop, pipeline_loop_skip by exact Hp.
    set (sp := child_program _ _ _ _ _ _ _ _) in *.
    destruct (is_external_inv c Hc) as (Hty & _ & _).
    cbn [length] in Hlen.
    destruct (IH b'' ltac:(lia) Hb'' rest (idx + 1) rd wr rd reg1 sh1 Hrest)
      as (new & evs & reg' & sh' & io0' & Hl & Hst' & Hev' & Hch' & Hruns & Hlink
          & (ch & Hhead & Hin) & (cl & Hlast & Hout) & Hnw & Hcl & Hpipes).
    exists ((pid, sp) :: new),
           ([EV_PIPE (Some (rd, wr)); EV_FORK (Some (pid, sp))] ++ closes io0 wr ++ evs),
           reg', sh', io0'.
    split; [exact Hl|].
    split. { rewrite Hst', Hst, <- app_assoc. reflexivity. }
    split. { rewrite Hev', Hev. cbn [app]. rewrite <- !app_assoc. reflexivity. }
    split. { rewrite Hch', Hch, <- app_assoc. reflexivity. }
    split.
    { rewrite commands_cons_command by exact Hty. rewrite commands_cons_pipe by exact Hp.
      cbn [map snd]. constructor; [apply child_program_runs|exact Hruns]. }
    split.
    { intros i c1 c2 H1 H2. destruct i as [|i].
      - change (Some (pid, sp) = Some c1) in H1. change (new !! 0%nat = Some c2) in H2.
        injection H1 as <-. assert (c2 = ch) as -> by congruence.
        exists (pipes sh), rd, wr. split; [exact Hpipe|]. split.
        + unfold sp. cbn [snd child_program sp_stdout].
          now rewrite (not_terminal_before_pipe c p _ Hp).
        + rewrite Hin.
          replace (registry_size reg1 >? 0) with true; [now rewrite orb_true_r|].
          symmetry. apply Z.gtb_lt. unfold registry_size. rewrite Hch, length_app.
          cbn [length]. lia.
      - change (new !! i = Some c1) in H1. change (new !! S i = Some c2) in H2.
        now apply (Hlink i). }
    split. { exists (pid, sp). split; reflexivity. }
    split.
    { exists cl. split; [|exact Hout].
      destruct new as [|x l]; [discriminate|]. exact Hlast. }
    split.
    { cbn [app forallb is_wait negb andb]. rewrite forallb_app, closes_no_wait, Hnw.
      reflexivity. }
    split.
    { intros H. right. right. apply elem_of_app. left. now apply closes_first. }
    intros rd0 wr0 H. apply elem_of_cons in H as [H|H].
    + injection H as -> ->. split.
      * intros Hne. right. right. apply elem_of_app. right. now apply Hcl.
      * intros Hne. right. right. apply elem_of_app. left. now apply closes_second.
    + apply elem_of_cons in H as [H|H]; [discriminate|].
      apply elem_of_app in H as [H|H]; [now apply closes_no_pipe in H|].
      destruct (Hpipes rd0 wr0 H) as [H1 H2]. split.
      * intros Hne. right. right. apply elem_of_app. right. now apply H1.
      * intros Hne. right. right. apply elem_of_app. right. now apply H2.
Qed.


Lemma wait_children_last (E : env) (pids : list Z) (pid : Z) (sp : spawn)
    (l : list (Z * spawn)) :
  forall (c : Z) (sh : shell),
    started sh = l ++ [(pid, sp)] ->
    (wait_children E (pids ++ [pid]) c sh).1
    = default (wait_children E pids c sh).1 (exit_status E sp).
Proof.
  induction pids as [|q pids IH]; intros c sh Hst; cbn [app wait_children].
  - rewrite (sys_wait_latest E pid sp sh l Hst). reflexivity.
  - unfold sys_wait. apply IH. exact Hst.
Qed.

(** [execute_pipeline] on [c1 | ... | ck] where nothing fails. *)
Lemma execute_piped (E : env) (b rest : list expr) out_file out_type should_wait
    (sh : shell) :
  reliable E -> piped b = true -> boundary rest = true ->
  exists new evs sh1,
    execute_pipeline E (b ++ rest) out_file out_type should_wait sh
    = (if should_wait then
         (assemble_execution_outcome false (wait_children E (map fst new) 0 sh1).1 None,
          (wait_children E (map fst new) 0 sh1).2)
       else (assemble_execution_outcome false 0 (Some (map fst new)), sh1))
    /\ started sh1 = started sh ++ new
    /\ events sh1 = events sh ++ evs
    /\ Forall2 runs_expr (map snd new) (commands b)
    /\ linked E new
    /\ (exists ch, new !! 0%nat = Some ch
                   /\ sp_stdin (snd ch)
                      = if should_wait then Some STDIN_FILENO else None)
    /\ (exists ch, last new = Some ch
                   /\ sp_stdout (snd ch) = terminal_output out_file out_type)
    /\ forallb (fun e => negb (is_wait e)) evs = true
    /\ (forall rd wr, EV_PIPE (Some (rd, wr)) ∈ evs ->
          (rd <> STDIN_FILENO -> EV_CLOSE rd ∈ evs)
          /\ (wr <> STDOUT_FILENO -> EV_CLOSE wr ∈ evs)).
Proof.
  intros HE Hb Hrest. pose proof HE as (Ha & _ & _).
  unfold execute_pipeline.
  destruct (b ++ rest) as [|x l] eqn:Hbl.
  { destruct b; [discriminate|discriminate]. }
  rewrite <- Hbl. clear x l Hbl.
  unfold initialize_process_registry, sys_alloc. rewrite Ha. cbn [Z.eqb negb].
  set (sh0 := mk_shell _ _ _ _ _).
  destruct (piped_loop E out_file out_type should_wait HE (length b) b (le_n _) Hb rest 0
              STDIN_FILENO STDOUT_FILENO (-1) (mk_registry [] 10) sh0 Hrest)
    as (new & evs & reg' & sh' & io0' & Hl & Hst & Hev & Hch & Hruns & Hlink
        & (ch & Hhead & Hin) & Hlast & Hnw & _ & Hpipes).
  rewrite Hl. cbn [children app] in Hch.
  set (sh1 := if io0' =? STDIN_FILENO then sh' else sys_close io0' sh').
  assert (Hst1 : started sh1 = started sh ++ new).
  { unfold sh1. destruct (io0' =? _); cbn [sys_close emit started]; exact Hst. }
  assert (Hev1 : events sh1
                 = events sh ++ evs ++ (if io0' =? STDIN_FILENO then [] else [EV_CLOSE io0'])).
  { unfold sh1. destruct (io0' =? _); cbn [sys_close emit events]; rewrite Hev;
      cbn [sh0 events]; rewrite <- ?app_assoc, ?app_nil_r; reflexivity. }
  exists new, (evs ++ (if io0' =? STDIN_FILENO then [] else [EV_CLOSE io0'])), sh1.
  split.
  { destruct should_wait; [|now rewrite Hch].
    unfold pid_array_wait_and_free. rewrite Hch.
    destruct (wait_children E (map fst new) 0 sh1); reflexivity. }
  split; [exact Hst1|]. split; [exact Hev1|]. split; [exact Hruns|].
  split; [exact Hlink|]. split.
  { exists ch. split; [exact Hhead|]. rewrite Hin.
    change (registry_size {| children := []; capacity := 10 |} >? 0) with false.
    now rewrite orb_false_r. }
  split; [exact Hlast|]. split.
  { rewrite forallb_app, Hnw. now destruct (io0' =? _). }
  intros rd wr H.
  assert (H' : EV_PIPE (Some (rd, wr)) ∈ evs).
  { apply elem_of_app in H as [H|H]; [exact H|]. destruct (io0' =? _).
    - now apply elem_of_nil in H.
    - apply list_elem_of_singleton in H. discriminate. }
  destruct (Hpipes rd wr H') as [H1 H2]. split; intros Hne; apply elem_of_app; left; auto.
Qed.

(** X17: how a pipeline is wired.  On [c1 | ... | ck] of external
    commands, in a system where allocation, [pipe] and [fork] do not fail,
    [execute_pipeline] starts exactly one child for each command, in the
    order of the commands, each running its command with its arguments.
    Each child but the last has for its standard output the write end of
    a pipe whose read end is the standard input of the next child; the
    first child reads the standard input of the shell, or nothing when
    the pipeline is not waited for; the last writes where the pipeline
    writes.  The shell is not asked to exit. *)
Theorem pipeline_wiring (E : env) (b rest : list expr) out_file out_type should_wait
    (sh : shell) :
  reliable E -> piped b = true -> boundary rest = true ->
  exists d sh' new,
    execute_pipeline E (b ++ rest) out_file out_type should_wait sh = (d, sh')
    /\ need_exit d = false
    /\ started sh' = started sh ++ new
    /\ Forall2 runs_expr (map snd new) (commands b)
    /\ linked E new
    /\ (exists ch, new !! 0%nat = Some ch
                   /\ sp_stdin (snd ch)
                      = if should_wait then Some STDIN_FILENO else None)
    /\ (exists ch, last new = Some ch
                   /\ sp_stdout (snd ch) = terminal_output out_file out_type).
Proof.
  intros HE Hb Hrest.
  destruct (execute_piped E b rest out_file out_type should_wait sh HE Hb Hrest)
    as (new & evs & sh1 & Hrun & Hst & _ & Hruns & Hlink & Hfirst & Hlast & _).
  destruct should_wait.
  - eexists _, _, new. split; [exact Hrun|]. split; [reflexivity|].
    split; [|auto]. destruct (wait_children_spec E (map fst new) 0 sh1) as [-> _]. exact Hst.
  - eexists _, _, new. split; [exact Hrun|]. split; [reflexivity|]. auto.
Qed.

(** X18: the code of a pipeline is the exit status of its last command.
    On [c1 | ... | ck] as above, run in the foreground, the shell waits
    for each child it started, in the order in which it started them, and
    for nothing else; it hands back no list of background children; and
    when the last child exits normally the return code is its exit
    status, whatever the others did. *)
Theorem pipeline_code_is_last_status (E : env) (b rest : list expr) out_file out_type
    (sh : shell) :
  reliable E -> piped b = true -> boundary rest = true ->
  exists d sh' new evs last_child,
    execute_pipeline E (b ++ rest) out_file out_type true sh = (d, sh')
    /\ bg_pids d = None
    /\ started sh' = started sh ++ new
    /\ last new = Some last_child
    /\ events sh' = events sh ++ evs ++ map EV_WAIT (map fst new)
    /\ forallb (fun e => negb (is_wait e)) evs = true
    /\ forall c, exit_status E (snd last_child) = Some c -> return_code d = c.
Proof.
  intros HE Hb Hrest.
  destruct (execute_piped E b rest out_file out_type true sh HE Hb Hrest)
    as (new & evs & sh1 & Hrun & Hst & Hev & _ & _ & _ & (cl & Hlast & _) & Hnw & _).
  destruct (wait_children_spec E (map fst new) 0 sh1) as [Hst2 Hev2].
  eexists _, _, new, evs, cl. split; [exact Hrun|]. split; [reflexivity|].
  split; [now rewrite Hst2|]. split; [exact Hlast|].
  split; [now rewrite Hev2, Hev, <- app_assoc|]. split; [exact Hnw|].
  intros c Hc. cbn [return_code assemble_execution_outcome].
  apply last_Some in Hlast as [new' ->]. destruct cl as [pid sp]. cbn [snd] in Hc.
  rewrite map_app. cbn [map fst].
  rewrite (wait_children_last E _ pid sp (started sh ++ new')).
  - now rewrite Hc.
  - now rewrite Hst, <- app_assoc.
Qed.

(** X19: a pipeline in the background.  On [c1 | ... | ck] as above, not
    waited for, [execute_pipeline] waits for no child; it returns at once
    with code 0 and hands back the process ids of all the children it
    started, in order, for the caller to keep. *)
Theorem background_pipeline_is_handed_back (E : env) (b rest : list expr) out_file
    out_type (sh : shell) :
  reliable E -> piped b = true -> boundary rest = true ->
  exists sh' new evs,
    execute_pipeline E (b ++ rest) out_file out_type false sh
    = (mk_exec_result false 0 (Some (map fst new)), sh')
    /\ started sh' = started sh ++ new
    /\ length new = length (commands b)
    /\ events sh' = events sh ++ evs
    /\ forallb (fun e => negb (is_wait e)) evs = true.
Proof.
  intros HE Hb Hrest.
  destruct (execute_piped E b rest out_file out_type false sh HE Hb Hrest)
    as (new & evs & sh1 & Hrun & Hst & Hev & Hruns & _ & _ & _ & Hnw & _).
  exists sh1, new, evs. split; [exact Hrun|]. split; [exact Hst|].
  split; [|auto]. apply Forall2_length in Hruns. now rewrite length_map in Hruns.
Qed.

(** X20: the shell leaks no end of a pipe.  On [c1 | ... | ck] as above,
    by the time [execute_pipeline] returns the shell has closed both ends
    of every pipe it made (an end that is descriptor 0 or 1 apart, which
    it never closes). *)
Theorem pipe_ends_are_closed (E : env) (b rest : list expr) out_file out_type should_wait
    (sh : shell) :
  reliable E -> piped b = true -> boundary rest = true ->
  exists d sh' evs,
    execute_pipeline E (b ++ rest) out_file out_type should_wait sh = (d, sh')
    /\ events sh' = events sh ++ evs
    /\ forall rd wr, EV_PIPE (Some (rd, wr)) ∈ evs ->
         (rd <> STDIN_FILENO -> EV_CLOSE rd ∈ evs)
         /\ (wr <> STDOUT_FILENO -> EV_CLOSE wr ∈ evs).
Proof.
  intros HE Hb Hrest.
  destruct (execute_piped E b rest out_file out_type should_wait sh HE Hb Hrest)
    as (new & evs & sh1 & Hrun & _ & Hev & _ & _ & _ & _ & _ & Hpipes).
  destruct should_wait.
  - destruct (wait_children_spec E (map fst new) 0 sh1) as [_ Hev2].
    eexists _, _, (evs ++ map EV_WAIT (map fst new)). split; [exact Hrun|].
    split; [now rewrite Hev2, Hev, <- app_assoc|].
    intros rd wr H.
    assert (H' : EV_PIPE (Some (rd, wr)) ∈ evs).
    { apply elem_of_app in H as [H|H]; [exact H|].
      apply list_elem_of_fmap in H as (q & Hq & _). discriminate. }
    destruct (Hpipes rd wr H') as [H1 H2].
    split; intros Hne; apply elem_of_app; left; auto.
  - eexists _, _, evs. split; [exact Hrun|]. split; [exact Hev|]. exact Hpipes.
Qed.


(** ** The two commands the shell runs itself *)

Lemma builtin_entry (E : env) (x : expr) (rest : list expr) out_file out_type should_wait
    (sh : shell) :
  alloc_ok E (allocs sh) = true -> type x = EXPR_TYPE_COMMAND -> boundary rest = true ->
  execute_pipeline E (x :: rest) out_file out_type should_wait sh
  = match pipeline_branch E out_file out_type should_wait (x :: rest)
            STDIN_FILENO STDOUT_FILENO (-1) (mk_registry [] 10)
            (mk_shell (events sh) (S (allocs sh)) (pipes sh) (forks sh) (started sh)) with
    | inl ret => ret
    | inr (inl (process_ids, sh1)) =>
        if should_wait then
          (assemble_execution_outcome false (pid_array_wait_and_free E process_ids sh1).1 None,
           (pid_array_wait_and_free E process_ids sh1).2)
        else (assemble_execution_outcome false 0 (Some (children process_ids)), sh1)
    | inr (inr (process_ids, sh1)) =>
        if should_wait then
          (assemble_execution_outcome false
             (pid_array_wait_and_free E process_ids (sys_close (-1) sh1)).1 None,
           (pid_array_wait_and_free E process_ids (sys_close (-1) sh1)).2)
        else (assemble_execution_outcome false 0 (Some (children process_ids)),
              sys_close (-1) sh1)
    end.
Proof.
  intros Ha Hx Hrest.
  assert (Hterm : determine_operator_expression_is_terminal (x :: rest) = true)
    by now apply terminal_at_boundary.
  assert (Hop : determine_expression_is_operator (x :: rest) = false).
  { cbn. now rewrite Hx. }
  unfold execute_pipeline, initialize_process_registry, sys_alloc. rewrite Ha.
  cbn [negb Z.eqb]. cbn [pipeline_loop]. rewrite Hop.
  rewrite bool_decide_eq_true_2 by exact Hx. cbn [negb].
  unfold pipeline_connect. rewrite Hterm.
  destruct (pipeline_branch _ _ _ _ _ _ _ _ _ _) as [ret|[[reg1 sh1]|[reg1 sh1]]].
  - reflexivity.
  - cbn [Z.eqb STDIN_FILENO]. destruct should_wait; [|reflexivity].
    now destruct (pid_array_wait_and_free E reg1 sh1).
  - rewrite (pipeline_loop_end _ _ _ _ rest) by exact Hrest.
    unfold close_in_out. cbn [Z.eqb Pos.eqb STDIN_FILENO STDOUT_FILENO].
    destruct should_wait; [|reflexivity].
    now destruct (pid_array_wait_and_free E reg1 (sys_close (-1) sh1)).
Qed.

(** X21: [cd] alone in its pipeline is run by the shell itself.  No pipe
    is made and no child is forked.  With exactly one argument the shell
    calls [chdir] on it; the code is 0 when that succeeds and -1, with a
    diagnostic, when it fails.  With no argument or more than one nothing
    is called and the code is -1.  The shell is never asked to exit. *)
Theorem cd_runs_in_the_shell (E : env) (x : expr) (rest : list expr) out_file out_type
    should_wait (sh : shell) :
  alloc_ok E (allocs sh) = true -> type x = EXPR_TYPE_COMMAND ->
  exe (cmd x) = "cd"%string -> boundary rest = true ->
  exists d sh',
    execute_pipeline E (x :: rest) out_file out_type should_wait sh = (d, sh')
    /\ need_exit d = false
    /\ started sh' = started sh /\ forks sh' = forks sh /\ pipes sh' = pipes sh
    /\ match args (cmd x) with
       | [path] =>
           EV_CHDIR path ∈ events sh'
           /\ return_code d = (if chdir_result E path =? 0 then 0 else -1)
       | _ =>
           return_code d = -1
           /\ events sh' = events sh ++ [EV_DIAG "Change directory failed"]
       end.
Proof.
  intros Ha Hx Hcd Hrest.
  rewrite (builtin_entry E x rest out_file out_type should_wait sh Ha Hx Hrest).
  unfold pipeline_branch. rewrite Hcd.
  rewrite (terminal_at_boundary x rest Hrest).
  change (String.eqb "cd" "cd") with true.
  change (registry_size {| children := []; capacity := 10 |} =? 0) with true.
  cbn [andb]. unfold perform_directory_transition.
  destruct (args (cmd x)) as [|path [|more l]].
  - cbn [Z.eqb]. unfold close_in_out, dprintf, emit.
    cbn [Z.eqb STDIN_FILENO STDOUT_FILENO events allocs pipes forks started].
    eexists _, _. split; [reflexivity|]. cbn. split_and!; reflexivity.
  - destruct (chdir_result E path =? 0) eqn:Hr.
    + destruct should_wait; eexists _, _; (split; [reflexivity|]);
        cbn; split_and!; try reflexivity;
        rewrite !elem_of_app, !list_elem_of_singleton; auto.
    + unfold close_in_out, dprintf, emit.
      cbn [Z.eqb STDIN_FILENO STDOUT_FILENO events allocs pipes forks started].
      eexists _, _. split; [reflexivity|]. cbn. split_and!; try reflexivity.
      rewrite !elem_of_app, !list_elem_of_singleton; auto.
  - cbn [Z.eqb]. unfold close_in_out, dprintf, emit.
    cbn [Z.eqb STDIN_FILENO STDOUT_FILENO events allocs pipes forks started].
    eexists _, _. split; [reflexivity|]. cbn. split_and!; reflexivity.
Qed.

(** X22: [exit] alone in its pipeline ends the shell, and the line with
    it.  [execute_pipeline] forks nothing and asks the shell to exit, with
    the code [strtol] reads from the first argument, 0 when there is
    none; [execute_command_line] on a line that starts with it returns
    that result at once, so that nothing behind an operator after it is
    run. *)
Theorem exit_ends_the_line (E : env) (line : command_line) (x : expr) (rest : list expr)
    (sh : shell) :
  alloc_ok E (allocs sh) = true -> head line = x :: rest ->
  type x = EXPR_TYPE_COMMAND -> exe (cmd x) = "exit"%string -> boundary rest = true ->
  exists sh',
    execute_command_line E line sh
    = Some (mk_exec_result true
              match args (cmd x) with
              | [] => 0
              | a :: _ => strtol E a
              end None, sh')
    /\ started sh' = started sh /\ forks sh' = forks sh
    /\ events sh' = events sh.
Proof.
  intros Ha Hhead Hx Hexit Hrest.
  assert (Hop : determine_expression_is_operator (x :: rest) = false).
  { cbn. now rewrite Hx. }
  unfold execute_command_line. rewrite Hhead.
  cbn [skip_to_operator]. rewrite Hop.
  rewrite (skip_to_operator_boundary rest Hrest).
  unfold execute_segment.
  rewrite (builtin_entry E x rest _ _ _ sh Ha Hx Hrest).
  unfold pipeline_branch. rewrite Hexit.
  rewrite (terminal_at_boundary x rest Hrest).
  change (String.eqb "cd" "exit") with false.
  change (String.eqb "exit" "exit") with true.
  change (registry_size {| children := []; capacity := 10 |} =? 0) with true.
  cbn [andb]. unfold pid_array_wait_and_free. cbn [children wait_children].
  unfold close_in_out. cbn [Z.eqb STDIN_FILENO STDOUT_FILENO].
  destruct (args (cmd x)) as [|a l]; cbn [need_exit assemble_execution_outcome];
    eexists; (split; [reflexivity|]); cbn; split_and!; reflexivity.
Qed.


(** ** The theorems at work *)

Lemma plain_env_reliable : reliable plain_env.
Proof.
  split_and!; intros n; cbn [plain_env alloc_ok pipe_result fork_result];
    [reflexivity|eexists; reflexivity|eexists; reflexivity].
Qed.

(** X17 on [cat f | sort | uniq] in the foreground. *)
Lemma pipeline_wiring_witness :
  exists d sh' new,
    execute_pipeline plain_env (three_stage ++ []) None OUTPUT_TYPE_STDOUT true new_shell
    = (d, sh')
    /\ need_exit d = false
    /\ started sh' = started new_shell ++ new
    /\ Forall2 runs_expr (map snd new) (commands three_stage)
    /\ linked plain_env new
    /\ (exists ch, new !! 0%nat = Some ch /\ sp_stdin (snd ch) = Some STDIN_FILENO)
    /\ (exists ch, last new = Some ch
                   /\ sp_stdout (snd ch) = terminal_output None OUTPUT_TYPE_STDOUT).
Proof.
  apply (pipeline_wiring plain_env three_stage [] None OUTPUT_TYPE_STDOUT true new_shell).
  - apply plain_env_reliable.
  - reflexivity.
  - reflexivity.
Defined.

(** X18 on the same pipeline. *)
Lemma pipeline_code_is_last_status_witness :
  exists d sh' new evs last_child,
    execute_pipeline plain_env (three_stage ++ []) None OUTPUT_TYPE_STDOUT true new_shell
    = (d, sh')
    /\ bg_pids d = None
    /\ started sh' = started new_shell ++ new
    /\ last new = Some last_child
    /\ events sh' = events new_shell ++ evs ++ map EV_WAIT (map fst new)
    /\ forallb (fun e => negb (is_wait e)) evs = true
    /\ forall c, exit_status plain_env (snd last_child) = Some c -> return_code d = c.
Proof.
  apply (pipeline_code_is_last_status plain_env three_stage [] None OUTPUT_TYPE_STDOUT
           new_shell).
  - apply plain_env_reliable.
  - reflexivity.
  - reflexivity.
Defined.

(** X19 on the same pipeline, not waited for. *)
Lemma background_pipeline_is_handed_back_witness :
  exists sh' new evs,
    execute_pipeline plain_env (three_stage ++ []) None OUTPUT_TYPE_STDOUT false new_shell
    = (mk_exec_result false 0 (Some (map fst new)), sh')
    /\ started sh' = started new_shell ++ new
    /\ length new = length (commands three_stage)
    /\ events sh' = events new_shell ++ evs
    /\ forallb (fun e => negb (is_wait e)) evs = true.
Proof.
  apply (background_pipeline_is_handed_back plain_env three_stage [] None
           OUTPUT_TYPE_STDOUT new_shell).
  - apply plain_env_reliable.
  - reflexivity.
  - reflexivity.
Defined.

(** X20 on the same pipeline. *)
Lemma pipe_ends_are_closed_witness :
  exists d sh' evs,
    execute_pipeline plain_env (three_stage ++ []) None OUTPUT_TYPE_STDOUT true new_shell
    = (d, sh')
    /\ events sh' = events new_shell ++ evs
    /\ forall rd wr, EV_PIPE (Some (rd, wr)) ∈ evs ->
         (rd <> STDIN_FILENO -> EV_CLOSE rd ∈ evs)
         /\ (wr <> STDOUT_FILENO -> EV_CLOSE wr ∈ evs).
Proof.
  apply (pipe_ends_are_closed plain_env three_stage [] None OUTPUT_TYPE_STDOUT true
           new_shell).
  - apply plain_env_reliable.
  - reflexivity.
  - reflexivity.
Defined.

(** X21 on [cd /tmp] where [chdir] succeeds. *)
Lemma cd_runs_in_the_shell_witness :
  exists d sh',
    execute_pipeline plain_env [simple "cd" ["/tmp"]] None OUTPUT_TYPE_STDOUT true new_shell
    = (d, sh')
    /\ need_exit d = false
    /\ started sh' = started new_shell /\ forks sh' = forks new_shell
    /\ pipes sh' = pipes new_shell
    /\ EV_CHDIR "/tmp" ∈ events sh'
    /\ return_code d = (if chdir_result plain_env "/tmp" =? 0 then 0 else -1).
Proof.
  apply (cd_runs_in_the_shell plain_env (simple "cd" ["/tmp"]) [] None OUTPUT_TYPE_STDOUT
           true new_shell); reflexivity.
Defined.

(** X22 on [exit 3 && echo a]. *)
Lemma exit_ends_the_line_witness :
  exists sh',
    execute_command_line plain_env exit_then_echo new_shell
    = Some (mk_exec_result true (strtol plain_env "3") None, sh')
    /\ started sh' = started new_shell /\ forks sh' = forks new_shell
    /\ events sh' = events new_shell.
Proof.
  apply (exit_ends_the_line plain_env exit_then_echo (simple "exit" ["3"])
           [operator EXPR_TYPE_AND; simple "echo" ["a"]] new_shell); reflexivity.
Defined.

End ShellExtra.
